(* ===== verification/_CoqProject ===== *)
-Q . S2P
Prelude.v
JsNum.v
Int32.v
ErSim.v
FightLaws.v
Chain.v
KeeperConfig.v
HouseSizing.v
HouseBank.v
LobbyPolicy.v
Closer.v
LoopWatchdog.v
Reclamation.v
KeeperState.v
KeeperChain.v
KeeperOpen.v
KeeperCloser.v
KeeperDrive.v
KeeperLaws.v
AutoSession.v
AutoPolicy.v
AutoPolicyLaws.v
AutoDeploy.v
AutoDeployLaws.v
Text.v
RateLimit.v
ClientNetwork.v
LinkRegister.v
Challenge.v
ChallengeLaws.v
HouseList.v
LinkCeremony.v
LinkCeremonyLaws.v
Json.v
Codec.v
Attestation.v
LinksRead.v
AttestationLaws.v
KeeperStatus.v
StatusFile.v
StatusLaws.v
KeeperFeed.v
PrivyIdentity.v
PrivyLaws.v
RoundLog.v
HistoryScan.v
LiveRound.v
FightTicker.v
Reconcile.v
VaultDesk.v
EngineLimits.v
EntryWindow.v
EngineGame.v
EngineRound.v
EngineAuth.v
EngineMemo.v
EngineStakes.v
