(* ===== verification/Prelude.v ===== *)
(** * Bulls vs Unicorns: a verification library

    Bulls vs Unicorns is an arena on Solana: players stake on one of two sides
    of a round, an on-chain program draws the round and fights it tick by tick
    on an ephemeral rollup, and a fighter may leave early for a penalty.  Five
    programs of the repository surround that round, and this library models the
    decisions each of them makes:

    - the reference fight ([er-demo/src/sim/]), the TypeScript implementation of
      the on-chain rules that the browser replays and verifies rounds with;
    - the keeper ([er-demo/scripts/keeper/]), the process that opens lobbies,
      fills them with the house's fighters, closes and draws them, and reclaims
      the rent of finished rounds;
    - unattended play ([er-demo/src/v2/data/]), the browser's rule that enters
      round after round for a player within limits the player set;
    - the identity API ([er-demo/api/src/], [api/]), which lets a player put an X
      account's face on a wallet, and the browser's side of it ([xLink.ts]);
    - the first-generation engine ([engine/src/]), the server that ran the game
      before the on-chain round: battles of its own over committed seeds, and a
      ledger of deposits, stakes and withdrawals against one vault.

    Between the first four, the page reads the chain: what a round shows, what
    leaving pays, when a deposit is refused and what the log adds up to.

    The first three meet in the chain's clock and the shared contract
    ([er-demo/src/chain/constants.ts], [er-demo/src/v2/contract.ts]): phases,
    the cursor of a round, money in units of a millionth of a dollar, and the
    final log of rounds.  The fourth meets them in wallets: the house list of the
    keeper says which of them may never wear a face.  The engine shares nothing
    with them but the language; its parts meet in its accounts and its rounds.

    ** Files

    - [Prelude]: outcomes of code that may throw, the library's tactics, sums
      and list lemmas.  [Text]: what the identity API uses of strings.
    - [JsNum]: the language's [Number], IEEE doubles rounded once per operation,
      with the order and rounding lemmas the policies need.  [Int32]: [>>> 0],
      [^], [>>>] and [Math.imul].
    - [ErSim]: [sim/erSim.ts] and [sim/hitEvents.ts], whole.  A round is the
      record [ERRound]; [enter], [tick], [extract] and [settle] are functions on
      it that may throw, [tick] also reports the exchanges in order.  SHA-256 is
      the interface [Digest]: any function to 32 bytes.  [FightLaws]: its
      theorems, over the step relation [arena_step] and the fight relation
      [fight].
    - [Chain]: phases, the cursor clock, dollars and units, the round summary.
    - [KeeperConfig]: [keeper/config.ts], the knobs, the combinations refused at
      boot, and [config_ok], the record of what a booted configuration promises
      to the modules below, which are all stated against it.
    - [HouseSizing]: [keeper/houseSizing.ts], how many house fighters, when each
      is due, on which side and with what stake.  [HouseBank]:
      [keeper/houseBank.ts], the classifier and [plannedHouseEntries], which
      composes the sizing with the seats of the round account.
    - [LobbyPolicy]: [keeper/lobbyPolicy.ts], the next step of a lobby.
    - [Closer]: [keeper/closeCursor.ts] and [keeper/roundCloser.ts], the scan for
      the oldest round that still holds rent.
    - [LoopWatchdog]: [keeper/loopWatchdog.ts], as a machine over its three
      captured variables whose calls return the effects they perform.
    - [Reclamation]: [keeper/reclamation.ts], the burn ring and brake and the
      sweep-gap stop.
    - [KeeperState], [KeeperChain], [KeeperOpen], [KeeperCloser], [KeeperDrive]:
      [keeper/keeper.ts], the main loop.  Its context is the record
      [KeeperContext]; a pass is a computation of the monad [K] over a machine of
      context, outside world and the trace of transactions and other effects;
      the chain client is the class [ChainClient], any implementation of it.
      [KeeperOpen] opens rounds, [KeeperCloser] sweeps and closes old ones,
      [KeeperDrive] is one step per phase, the pass and the loop with its
      backoff; [KeeperLaws] the theorems over whole passes and loops.
    - [Json]: the language's [JSON]: code units, numbers printed and read, escapes,
      [stringify] with indentation and [parse].  [KeeperStatus], [StatusFile] and
      [StatusLaws]: the status the keeper publishes ([keeper/statusFile.ts]), the
      shape and validator both sides share ([v2/data/keeperStatus.ts]) and the
      theorems about the two together.  [KeeperFeed]: [v2/data/keeperFeed.ts], the
      page's polling of it as a machine over subscribers and requests in flight.
    - [Codec]: code points, [TextEncoder], [TextDecoder] and [atob].  [PrivyIdentity]
      and [PrivyLaws]: [api/src/privyIdentity.ts], the decoding of an identity
      token, its claims, the cache of Privy's keys and the verifier, as a machine
      over its callers and the fetch in flight.
    - [AutoSession]: [v2/data/autoSession.ts], who signs a move and the
      retry-once write path.  [AutoPolicy] and [AutoPolicyLaws]:
      [v2/data/autoPolicy.ts], limits, profit and loss, tally.  [AutoDeploy] and
      [AutoDeployLaws]: [v2/data/autoDeploy.ts] and the transitions
      [useAutoDeploy.ts] composes, with the relation [auto_run] of every
      interleaving of polls, sends, confirmations, failures, hand deposits and
      control changes.
    - [RateLimit]: [rateLimit.ts] over the class [RateCounter]; [CountingStore] is
      what a counter promises, and the in-memory counter keeps it.
      [ClientNetwork]: [clientNetwork.ts], the network a request is counted by.
    - [LinkRegister]: the challenge store (class [ChallengeStore], promise
      [OneShotStore]) and the register of links, [memoryStore.ts] and
      [memoryWriteStore.ts], with the checks of the tables.
    - [Challenge] and [ChallengeLaws]: [challenge.ts], [reserved.ts], [wallets.ts]
      and the signature field, with the calendar [toISOString] needs.
      [HouseList]: [houseWallets.ts], the cache of the keeper's house list as a
      machine over its callers and the fetch in flight.
    - [LinkCeremony] and [LinkCeremonyLaws]: [challengeHandler.ts],
      [linkWriteHandler.ts] and the error boundary, as handlers over any stores
      ([LinkWriter], promise [LinkKeeper]) that may throw at any call, and the
      histories [serveAll] of requests to both legs.
    - [Attestation], [LinksRead] and [AttestationLaws]: [xLink.ts], [xLinkSign.ts],
      [attest.ts], [linksHandler.ts] and [avatarHandler.ts], from a row of the
      register to the face on the page.
    - [RoundLog]: [roundLog.ts], the finished rounds and what is derived from
      them.  [HistoryScan]: [historyScan.ts], the walk back through them over a
      chain that may fail to answer.  [LiveRound]: [liveRound.ts], [fightPace.ts],
      [extractTerms.ts] and the reading in [useRound.ts], the round on screen.
      [FightTicker]: [useFightTicker.ts], the page's own ticks, as a machine over
      its renders, turns and sends.  [EntryWindow]: [entryWindow.ts],
      [programError.ts] and [chainErrorShapes.ts], when a deposit is refused and in
      which words.
    - [EngineGame]: [engine/src/game.ts], the engine's battle; the square root and
      the hypotenuse are the class [Approx].  [EngineRound]: [round.ts], the
      commitment, the seed and the runner as a machine over deposits, ticks and the
      end of each settlement.  [EngineStakes]: [arenas.ts], the accounts of
      [ledger.ts], the pool of [bot-bank.ts] and the money a round moves in
      [server.ts]: a round's price, [enter], the house's answer, the crediting of a
      settlement and the refund of a stop.  [VaultDesk]: the deposits and
      withdrawals of [server.ts] and [chain-ops.ts].  [Reconcile]: [reconcile.ts],
      the solvency guard.  [EngineLimits]: [limits.ts].  [EngineAuth]: [auth.ts]
      and [allowlist.ts] with the server's guard and its balance pushes; keys, hash
      and base64 are the class [Platform], what it promises [PlatformLaws].
      [EngineMemo]: [memo.ts], the text and the queue that anchor rounds on chain.

    ** What the theorems show

    - The fight: every history conserves value to the unit, and so does
      leaving; [tick] is exactly the fight relation and always returns; the draw
      is uniform; the number of exchanges is bounded; replaying the recorded hits
      gives the same ring.
    - The keeper's policies: a configuration that boots keeps every promise of
      [config_ok]; the house walks in over the grace window; a room with nobody
      real in it cannot be drawn; a plan names distinct unseated wallets, free
      seats and stakes in the band, enters the reserved seats only to give a lone
      side an opponent, and gives every room meant to fight both sides; each lobby step is taken exactly when its conditions
      hold; the scan never passes a living round and always ends; the watchdog
      publishes once and exits once per arming; the burn brake and the sweep stop
      decide as whole lamports and rounds would.
    - The keeper's loop: a pass sends at most what the phase allows, and opens a
      round only with every gate open; the close ledger balances over any run; a
      close needs every condition; the sweep stop is for the life of the process;
      a failed pass only costs time.  Two theorems state what the code does
      against its comments: a burn stop lifts by itself once the balance
      recovers, and a backlog round is not swept while the newest is delegated.
    - The status: what the keeper publishes is, byte for byte, what a page reads
      and accepts; an instant once promised for the next lobby never moves; a page
      counts down exactly when the promise is being kept, and shows the newest
      answer it has in any order of arrivals.
    - Unattended play: nothing is sent that needs a dialog; a send is whole cents
      inside every limit; no limit is passed, and an unreadable loss stops a run
      that has a drawdown stop; each round is booked once; at most one
      transaction is in flight, a round gets at most three sends and one
      deposit; the rule fires exactly when every gate is open.
    - The round on screen: of a fight that is caught up the panel quotes exactly
      what leaving pays, and of one that lags it may not; the page's clock is the
      keeper's; what the page refuses before sending the program refuses too, but
      for the last two seconds of a lobby, and in the same words; the standings, the scan and the ticker are lemmas of their
      files.
    - The engine: whatever the physics computes, the log replays the money to the
      last bit, no hit is between allies, and a round returns; what is revealed was
      committed before the lobby opened, and each round settles once; an entry takes
      exactly its stake and a stop gives every stake back; a deposit is credited
      once and with what the vault gained, the desk's books balance on amounts its
      sums are exact for, and the freeze follows the last check; nobody acts on a
      wallet without its signature, or a token the server handed out for one; every settled round leaves the anchoring queue once and in order;
      connections are capped.  Four theorems state what the code does against its
      comments: a pushed balance reaches whoever names the wallet, a session
      outlives its place on the allowlist, a referrer is paid in another coin, and a
      restart gives the fee back without taking it from anybody.
    - Who a token speaks for: an identity is only ever the reading of a token in
      its time whose exact bytes verified under a key served within the hour; what
      was signed is read back; the key endpoint is asked as seldom as promised.
    - Identity: over any requests and any throwing of the stores, every link of
      the register was asked for with a vouched-for token and redeemed in time
      with the wallet's signature of exactly those words; a challenge works once;
      nobody without a wallet's key learns whether it is the house's; a
      suppressed account stays unserved through any relinking; the message
      determines every field it carries, and the attestation every field but for
      lone surrogates in a name; the limit is exact per
      wallet and network, and an IPv4 caller's network is its /24; the house list
      fails closed and remembers the last good answer; and what the read path serves is what a browser shows,
      for seven days and no longer.

    ** Fuel and bounds

    [tick] recurses on the number of steps asked for.  [Closer.scan_loop] runs
    on the length of the scanned range plus two turns: every turn that goes on
    moves the cursor forward, and the theorem states that the scan returns.
    [AutoSession.sign_loop] has fuel two: a second refusal is always reported,
    and the theorem states that it returns.  The keeper's loop never ends; it is
    modelled by the passes of a finite prefix, of any length.  [EngineGame.run]
    runs on the number of ticks of the round plus one, and the theorem states that
    the round returns.  [EngineMemo.shrink] recurses on the size of the batch.  Amounts on chain
    are unbounded integers, as bigints are; the cursor and the seed are checked
    where the code writes them into bytes; hash arithmetic is modulo [2^32];
    dollars and seconds are doubles in the arena's policies, and the two zeros
    are one; the identity API's seconds and counts are whole and far below
    [2^53], and are integers.  Round numbers that pass through [Number] are taken
    below [2^53].  The identity API's text is code units below
    256, but for the display name an attestation covers, which is any code units.

    ** Not modelled

    Outside effects are parameters: SHA-256 in the fight, the chain client and the
    clock in the keeper, wallet, session and send in the write path; HMAC,
    ed25519 and the base58 decoder in the identity API; SHA-256, the square root and
    the hypotenuse, collation, keys and the keyed hash in the engine, whose vault,
    price feed and random numbers are events or arguments.  Of the identity API,
    Privy's verdict on a token and the reading of a JSON body enter the ceremony
    as what each request saw, as do the network and the house list, which have
    modules of their own; the Postgres twins of the stores are SQL.  The keeper's RPC client, key files, funding transfers,
    concurrent sends and the status server's socket are network and file I/O around the
    modelled decisions, and its log lines, statistics report and sentences for
    people are text.  Of the engine, the arenas of several teams ([gameN.ts],
    [roundN.ts]), the coming and going of bots, conversions, the faucet and the
    relay, the price feed's requests, the ledger's statistics and display names,
    storage and the HTTP pages are left out; where they would be called the model
    says so.  React components, canvas drawing, wallet adapters and the economics
    studies are left out, as are the Rust programs, but for the guards of a
    deposit, in [EntryWindow], and the fight, modelled through its reference. *)
From stdpp Require Export base numbers list option strings gmap.
From Stdlib Require Export ZArith Lia.

#[global] Open Scope Z_scope.

(** ** Outcomes of code that may throw *)

(** The value of a JavaScript expression or call that may [throw]. *)
Inductive outcome (E A : Type) : Type :=
| Done (a : A)
| Throw (e : E).
Arguments Done {E A} a.
Arguments Throw {E A} e.

Declare Scope js_scope.
Delimit Scope js_scope with js.

Definition outcome_bind {E A B} (m : outcome E A) (k : A -> outcome E B) : outcome E B :=
  match m with
  | Done a => k a
  | Throw e => Throw e
  end.

Notation "'let!' x ':=' m 'in' k" := (outcome_bind m (fun x => k))
  (at level 10, x name, m at level 100, k at level 200) : js_scope.

#[global] Instance outcome_eq_dec {E A} `{EqDecision E, EqDecision A} : EqDecision (outcome E A).
Proof. solve_decision. Defined.

(** ** Tactics *)

Create HintDb arena.
Create Rewrite HintDb js.

(** Case analysis on every boolean test and match of the goal. *)
Ltac cases :=
  repeat (case_match; simplify_eq/=).

(** Turn the boolean comparisons of the context into arithmetic facts. *)
Ltac zbool :=
  repeat match goal with
  | H : (_ && _)%bool = true |- _ => apply andb_true_iff in H; destruct H
  | H : (_ || _)%bool = false |- _ => apply orb_false_iff in H; destruct H
  | H : (_ <? _) = true |- _ => apply Z.ltb_lt in H
  | H : (_ <? _) = false |- _ => apply Z.ltb_ge in H
  | H : (_ <=? _) = true |- _ => apply Z.leb_le in H
  | H : (_ <=? _) = false |- _ => apply Z.leb_gt in H
  | H : (_ =? _) = true |- _ => apply Z.eqb_eq in H
  | H : (_ =? _) = false |- _ => apply Z.eqb_neq in H
  | H : negb _ = true |- _ => apply negb_true_iff in H
  | H : negb _ = false |- _ => apply negb_false_iff in H
  | H : bool_decide _ = true |- _ => apply bool_decide_eq_true in H
  | H : bool_decide _ = false |- _ => apply bool_decide_eq_false in H
  end.

(** [assumption] up to syntax only: unification would compute the constants. *)
Ltac from_context :=
  match goal with H : ?P |- ?Q => constr_eq P Q; exact_no_check H end.

(** [x !== null] *)
Definition present {A} (x : option A) : bool := match x with Some _ => true | None => false end.

(** ** Sums over lists *)

Definition zsum {A} (f : A -> Z) (l : list A) : Z := foldr (fun x n => f x + n) 0 l.

Lemma zsum_app {A} (f : A -> Z) l k : zsum f (l ++ k) = zsum f l + zsum f k.
Proof. induction l as [| x l IH]; simpl; [done | rewrite IH; lia]. Qed.

Lemma zsum_nonneg {A} (f : A -> Z) l : Forall (fun x => 0 <= f x) l -> 0 <= zsum f l.
Proof. induction 1; simpl; lia. Qed.

Lemma zsum_ext {A} (f g : A -> Z) l : (forall x, x ∈ l -> f x = g x) -> zsum f l = zsum g l.
Proof.
  induction l as [| x l IH]; intros E; simpl; [done |].
  rewrite (E x), IH by set_solver. done.
Qed.

Lemma zsum_plus {A} (f g : A -> Z) l : zsum (fun x => f x + g x) l = zsum f l + zsum g l.
Proof. induction l as [| x l IH]; simpl; [done | rewrite IH; lia]. Qed.

Lemma zsum_alter {A} (f : A -> Z) (g : A -> A) l i x :
  l !! i = Some x -> zsum f (alter g i l) = zsum f l - f x + f (g x).
Proof.
  revert i. induction l as [| y l IH]; intros [| i]; simpl; intros E; simplify_eq; [lia |].
  specialize (IH _ E). change (list_alter g i l) with (alter g i l). lia.
Qed.

(** A left fold that accumulates a sum is the sum. *)
Lemma zsum_perm {A} (f : A -> Z) l k : l ≡ₚ k -> zsum f l = zsum f k.
Proof. unfold zsum. induction 1; cbn; lia. Qed.

Lemma zsum_fmap {A B} (f : A -> B) (g : B -> Z) l : zsum g (f <$> l) = zsum (fun x => g (f x)) l.
Proof. induction l as [| x l IH]; [done |]. cbn. unfold zsum in *. by rewrite <- IH. Qed.

Lemma zsum_filter {A} (p : A -> bool) g l : zsum g (List.filter p l) = zsum (fun x => if p x then g x else 0) l.
Proof. induction l as [| x l IH]; [done |]. cbn [List.filter]. destruct (p x) eqn:E; cbn [zsum foldr]; rewrite E; unfold zsum in *; cbn; lia. Qed.

Lemma zsum_imap {A B} (h : nat -> A -> B) (g : B -> Z) (k : A -> Z) l :
  (forall i x, g (h i x) = k x) -> zsum g (imap h l) = zsum k l.
Proof.
  revert h. induction l as [| x l IH]; intros h E; [done |]. rewrite imap_cons. unfold zsum in *. cbn [foldr]. rewrite E.
  by rewrite (IH (h ∘ S) (fun i => E (S i))).
Qed.

Lemma foldl_zsum {A} (f : A -> Z) l n : foldl (fun n x => n + f x) n l = n + zsum f l.
Proof. revert n. induction l as [| x l IH]; intros n; simpl; [lia | rewrite IH; lia]. Qed.

Lemma Forall_alter_in {A} (P : A -> Prop) (g : A -> A) l i :
  Forall P l -> (forall x, l !! i = Some x -> P x -> P (g x)) -> Forall P (alter g i l).
Proof.
  intros HF Hg. apply Forall_alter; [done |]. intros x Hx Px. eauto.
Qed.

(** An update that keeps a key keeps the list of keys. *)
Lemma fmap_alter_same {A B} (f : A -> B) (g : A -> A) (i : nat) (l : list A) :
  (forall x, f (g x) = f x) -> f <$> alter g i l = f <$> l.
Proof.
  intros E. revert i. induction l as [| x l IH]; intros [| i]; csimpl; [done.. | by rewrite E |].
  f_equal. apply IH.
Qed.

Lemma zsum_alter_same {A} (f : A -> Z) (g : A -> A) (i : nat) (l : list A) :
  (forall x, f (g x) = f x) -> zsum f (alter g i l) = zsum f l.
Proof.
  intros E. revert i. induction l as [| x l IH]; intros [| i]; simpl; [done.. | by rewrite E |].
  f_equal. apply IH.
Qed.

(** A left fold that accumulates over the elements that pass a test. *)
Lemma foldl_guarded_zsum {A} (P : A -> Prop) `{forall x, Decision (P x)} (f : A -> Z) l :
  foldl (fun n x => if decide (P x) then n + f x else n) 0 l =
  zsum (fun x => if decide (P x) then f x else 0) l.
Proof.
  enough (G : forall n, foldl (fun n x => if decide (P x) then n + f x else n) n l =
            n + zsum (fun x => if decide (P x) then f x else 0) l) by apply G.
  induction l as [| x l IH]; intros n; simpl; [lia |]. rewrite IH. case_decide; lia.
Qed.

Lemma sublist_fmap {A B} (f : A -> B) l k : sublist l k -> sublist (f <$> l) (f <$> k).
Proof. induction 1; csimpl; by constructor. Qed.
