(* ===== verification/JsNum.v ===== *)
(** * JavaScript numbers

    The [Number] type of the language: IEEE 754 binary64.  A finite double is
    an integer multiple of [2^-1074], so it is represented by that integer;
    every operation is the exact operation on rationals followed by one
    rounding to nearest, ties to even, with overflow to infinity.  The two
    zeros are identified: nothing modelled here tells them apart. *)
From S2P Require Import Prelude.

(** ** Rounding *)

(** The value [1.0], in units of [2^-1074]. *)
Definition one : Z := 2 ^ 1074.

(** [2^1024], the first magnitude that overflows. *)
Definition overflow : Z := 2 ^ 2098.

(** [a / b] to the nearest integer, ties to even. *)
Definition rne (a b : Z) : Z :=
  let q := a / b in
  match 2 * (a mod b) ?= b with
  | Lt => q
  | Gt => q + 1
  | Eq => if Z.even q then q else q + 1
  end.

(** The exponent of the grid a magnitude [n / d] is rounded to: 53 significant
    bits, or the smallest subnormal. *)
Definition grid (n d : Z) : Z := Z.max 0 (Z.log2 (n / d) - 52).

Definition round_abs (n d : Z) : Z :=
  let k := grid n d in rne n (d * 2 ^ k) * 2 ^ k.

Definition rnd (n d : Z) : Z := Z.sgn n * round_abs (Z.abs n) d.

(** ** Numbers *)

Inductive num : Type :=
| NaN
| Inf (negative : bool)
| Fin (m : Z).

#[global] Instance num_eq_dec : EqDecision num.
Proof. solve_decision. Defined.

Definition mk (m : Z) : num := if overflow <=? Z.abs m then Inf (m <? 0) else Fin m.

Definition of_ratio (n d : Z) : num := mk (rnd n d).

(** [Number(z)] for a bigint, and integer literals. *)
Definition of_Z (z : Z) : num := of_ratio (z * one) 1.

Definition neg (x : num) : num :=
  match x with NaN => NaN | Inf s => Inf (negb s) | Fin m => Fin (- m) end.

Definition add (x y : num) : num :=
  match x, y with
  | NaN, _ | _, NaN => NaN
  | Inf s, Inf t => if eqb s t then Inf s else NaN
  | Inf s, Fin _ | Fin _, Inf s => Inf s
  | Fin a, Fin b => of_ratio (a + b) 1
  end.

Definition sub (x y : num) : num := add x (neg y).

Definition mul (x y : num) : num :=
  match x, y with
  | NaN, _ | _, NaN => NaN
  | Inf s, Inf t => Inf (xorb s t)
  | Inf s, Fin m | Fin m, Inf s => if m =? 0 then NaN else Inf (xorb s (m <? 0))
  | Fin a, Fin b => of_ratio (a * b) one
  end.

Definition div (x y : num) : num :=
  match x, y with
  | NaN, _ | _, NaN => NaN
  | Inf _, Inf _ => NaN
  | Inf s, Fin m => Inf (xorb s (m <? 0))
  | Fin _, Inf _ => Fin 0
  | Fin a, Fin b =>
      if b =? 0 then (if a =? 0 then NaN else Inf (a <? 0))
      else of_ratio (Z.sgn b * a * one) (Z.abs b)
  end.

(** [x < y], [x <= y] and [x === y]: false whenever a side is NaN. *)
Definition ltb (x y : num) : bool :=
  match x, y with
  | NaN, _ | _, NaN => false
  | Inf s, Inf t => s && negb t
  | Inf s, Fin _ => s
  | Fin _, Inf t => negb t
  | Fin a, Fin b => a <? b
  end.

Definition eqb (x y : num) : bool :=
  match x, y with
  | Inf s, Inf t => Bool.eqb s t
  | Fin a, Fin b => a =? b
  | _, _ => false
  end.

Definition leb (x y : num) : bool := ltb x y || eqb x y.

Definition is_nan (x : num) : bool := match x with NaN => true | _ => false end.

(** [Number.isFinite] *)
Definition is_finite (x : num) : bool := match x with Fin _ => true | _ => false end.

(** [Math.min] and [Math.max] of two arguments. *)
Definition min (x y : num) : num :=
  if is_nan x || is_nan y then NaN else if ltb y x then y else x.
Definition max (x y : num) : num :=
  if is_nan x || is_nan y then NaN else if ltb x y then y else x.

Definition on_fin (f : Z -> Z) (x : num) : num :=
  match x with Fin m => Fin (f m) | _ => x end.

(** [Math.floor], [Math.ceil], [Math.round]. *)
Definition floor : num -> num := on_fin (fun m => m / one * one).
Definition ceil : num -> num := on_fin (fun m => - (- m / one) * one).
Definition round : num -> num := on_fin (fun m => (2 * m + one) / (2 * one) * one).

(** [Number.isInteger] *)
Definition is_integer (x : num) : bool :=
  match x with Fin m => m mod one =? 0 | _ => false end.

(** The errors the JavaScript runtime throws. *)
Inductive js_error : Type := RangeError | TypeError.

(** [BigInt(x)] of a number. *)
Definition to_bigint (x : num) : outcome js_error Z :=
  match x with
  | Fin m => if m mod one =? 0 then Done (m / one) else Throw RangeError
  | _ => Throw RangeError
  end.

(** A magnitude that is a double. *)
Definition representable (m : Z) : Prop := rnd m 1 = m /\ Z.abs m < overflow.

(** Every value the language can hold. *)
Definition is_double (x : num) : Prop :=
  match x with Fin m => representable m | _ => True end.

(** ** The theory of rounding *)

Lemma one_pos : 0 < one.
Proof. apply Z.pow_pos_nonneg; lia. Qed.

Lemma one_half : exists h, one = 2 * h /\ 0 < h.
Proof. exists (2 ^ 1073). split; [exact (Z.pow_succ_r 2 1073 ltac:(lia)) | apply Z.pow_pos_nonneg; lia]. Qed.

Lemma overflow_big : 2 ^ 53 * one < overflow.
Proof. unfold one, overflow. rewrite <- Z.pow_add_r by lia. apply Z.pow_lt_mono_r; lia. Qed.

Lemma one_pow : one = 2 ^ 1074.
Proof. done. Qed.

#[global] Opaque one overflow.

(** [rne a b] is a nearest integer, and the even one of a tie. *)
Lemma rne_near a b : 0 < b -> 2 * Z.abs (rne a b * b - a) <= b.
Proof.
  intros Hb. unfold rne. pose proof (Z.div_mod a b ltac:(lia)). pose proof (Z.mod_pos_bound a b Hb).
  destruct (Z.compare_spec (2 * (a mod b)) b); try case_match; nia.
Qed.

Lemma rne_tie a b : 0 < b -> 2 * Z.abs (rne a b * b - a) = b -> Z.even (rne a b) = true.
Proof.
  intros Hb. unfold rne. pose proof (Z.div_mod a b ltac:(lia)). pose proof (Z.mod_pos_bound a b Hb).
  destruct (Z.compare_spec (2 * (a mod b)) b).
  - destruct (Z.even (a / b)) eqn:E; [done |].
    intros _. by rewrite Z.add_1_r, Z.even_succ, <- Z.negb_even, E.
  - intros. exfalso. replace (a / b * b - a) with (- (a mod b)) in * by lia. lia.
  - intros. exfalso. replace ((a / b + 1) * b - a) with (b - a mod b) in * by lia. lia.
Qed.

Lemma rne_mono a b a' b' : 0 < b -> 0 < b' -> a * b' <= a' * b -> rne a b <= rne a' b'.
Proof.
  intros Hb Hb' Hle.
  pose proof (rne_near a b Hb) as H1. pose proof (rne_near a' b' Hb') as H2.
  pose proof (rne_tie a b Hb) as T1. pose proof (rne_tie a' b' Hb') as T2.
  set (p := rne a b) in *. set (q := rne a' b') in *.
  destruct (Z.le_gt_cases p q) as [|Hpq]; [done | exfalso].
  assert (2 * (p * b - a) <= b) by lia.
  assert (2 * (a' - q * b') <= b') by lia.
  assert (Hbb : 0 < b * b') by nia.
  assert (M1 : 2 * (p * b - a) * b' <= b * b') by (apply Z.mul_le_mono_nonneg_r; lia).
  assert (M2 : 2 * (a' - q * b') * b <= b' * b) by (apply Z.mul_le_mono_nonneg_r; lia).
  assert (Hp : p = q + 1).
  { enough ((p - q - 1) * (b * b') <= 0) by nia. lia. }
  assert (2 * (p * b - a) = b) by (clearbody p q; subst p; nia).
  assert (2 * (a' - q * b') = b') by (clearbody p q; subst p; nia).
  rewrite Hp, Z.add_1_r, Z.even_succ, <- Z.negb_even in T1.
  rewrite T2 in T1 by lia. discriminate T1. subst p q. lia.
Qed.

Lemma rne_exact m b : 0 < b -> rne (m * b) b = m.
Proof.
  intros Hb. unfold rne. rewrite Z.div_mul, Z.mod_mul by lia.
  by destruct (Z.compare_spec (2 * 0) b); try lia.
Qed.

Lemma rne_le a b m : 0 < b -> a <= m * b -> rne a b <= m.
Proof. intros. rewrite <- (rne_exact m b) by done. apply rne_mono; nia. Qed.

Lemma rne_ge a b m : 0 < b -> m * b <= a -> m <= rne a b.
Proof. intros. rewrite <- (rne_exact m b) at 1 by done. apply rne_mono; nia. Qed.

(** The grid of a magnitude, and the bounds it gives. *)
Lemma grid_nonneg n d : 0 <= grid n d.
Proof. unfold grid. lia. Qed.

Lemma grid_pow n d : 0 < 2 ^ grid n d.
Proof. apply Z.pow_pos_nonneg; [lia | apply grid_nonneg]. Qed.

Lemma grid_upper n d : 0 <= n -> 0 < d -> n < 2 ^ 53 * (d * 2 ^ grid n d).
Proof.
  intros Hn Hd. assert (Hq : n / d < 2 ^ (53 + grid n d)).
  { destruct (Z.eq_dec (n / d) 0) as [-> |]; [apply Z.pow_pos_nonneg; pose proof (grid_nonneg n d); lia |].
    assert (0 < n / d) by (pose proof (Z.div_pos n d); lia).
    apply Z.log2_lt_pow2; [done |]. unfold grid. lia. }
  rewrite Z.pow_add_r in Hq by (try apply grid_nonneg; lia).
  pose proof (Z.mul_succ_div_gt n d Hd). pose proof (grid_pow n d). nia.
Qed.

Lemma grid_lower n d : 0 <= n -> 0 < d -> 0 < grid n d -> 2 ^ 52 * (d * 2 ^ grid n d) <= n.
Proof.
  intros Hn Hd Hk. assert (Hq : 2 ^ (52 + grid n d) <= n / d).
  { assert (0 < n / d) as Hp.
    { destruct (Z.le_gt_cases (n / d) 0) as [H0 |]; [| done].
      unfold grid in Hk. rewrite (Z.log2_nonpos _ H0) in Hk. lia. }
    apply Z.log2_le_pow2; [done |]. unfold grid in *. lia. }
  rewrite Z.pow_add_r in Hq by lia. pose proof (Z.mul_div_le n d Hd). nia.
Qed.

Lemma grid_mono n d n' d' : 0 <= n -> 0 < d -> 0 < d' -> n * d' <= n' * d -> grid n d <= grid n' d'.
Proof.
  intros. assert (n / d <= n' / d').
  { apply Z.div_le_lower_bound; [done |].
    pose proof (Z.mul_div_le n d ltac:(done)). nia. }
  unfold grid. pose proof (Z.log2_le_mono (n / d) (n' / d') ltac:(done)). lia.
Qed.

Lemma round_abs_mono n d n' d' :
  0 <= n -> 0 < d -> 0 < d' -> n * d' <= n' * d -> round_abs n d <= round_abs n' d'.
Proof.
  intros Hn Hd Hd' Hle. assert (0 <= n') by nia. unfold round_abs.
  pose proof (grid_mono _ _ _ _ Hn Hd Hd' Hle) as Hk.
  pose proof (grid_pow n d). pose proof (grid_pow n' d').
  destruct (Z.eq_dec (grid n d) (grid n' d')) as [<- |].
  - apply Z.mul_le_mono_nonneg_r; [lia |]. apply rne_mono; nia.
  - assert (rne n (d * 2 ^ grid n d) <= 2 ^ 53).
    { apply rne_le; [nia |]. pose proof (grid_upper n d Hn Hd). lia. }
    assert (2 ^ 52 <= rne n' (d' * 2 ^ grid n' d')).
    { apply rne_ge; [nia |]. apply grid_lower; [done.. |]. pose proof (grid_nonneg n d). lia. }
    assert (2 * 2 ^ grid n d <= 2 ^ grid n' d').
    { rewrite <- Z.pow_succ_r by apply grid_nonneg. apply Z.pow_le_mono_r; lia. }
    change (2 ^ 53) with (2 * 2 ^ 52) in *. nia.
Qed.

Lemma round_abs_nonneg n d : 0 <= n -> 0 < d -> 0 <= round_abs n d.
Proof.
  intros. unfold round_abs. pose proof (grid_pow n d).
  pose proof (rne_ge n (d * 2 ^ grid n d) 0 ltac:(nia) ltac:(lia)). nia.
Qed.

(** A multiple of its own grid is kept as it is. *)
Lemma round_abs_id j e : 0 <= j <= 2 ^ 53 -> 0 <= e -> round_abs (j * 2 ^ e) 1 = j * 2 ^ e.
Proof.
  intros Hj He. destruct (Z.eq_dec j 0) as [-> |]; [done |].
  assert (Hdiv : exists i, j * 2 ^ e = i * 2 ^ grid (j * 2 ^ e) 1).
  { unfold grid. rewrite Z.div_1_r.
    assert (0 < 2 ^ e) by (apply Z.pow_pos_nonneg; lia).
    rewrite <- (Z.shiftl_mul_pow2 j e), Z.log2_shiftl, Z.shiftl_mul_pow2 by lia.
    destruct (Z.eq_dec j (2 ^ 53)) as [-> |].
    - rewrite Z.log2_pow2 by lia. replace (Z.max 0 (53 + e - 52)) with (1 + e) by lia.
      exists (2 ^ 52). rewrite Z.pow_add_r by lia. change (2 ^ 53) with (2 ^ 52 * 2 ^ 1). ring.
    - assert (Z.log2 j < 53) by (apply Z.log2_lt_pow2; lia).
      exists (j * 2 ^ (e - Z.max 0 (Z.log2 j + e - 52))).
      rewrite <- Z.mul_assoc, <- Z.pow_add_r by lia. f_equal. f_equal. lia. }
  destruct Hdiv as [i Hi]. unfold round_abs. rewrite Z.mul_1_l.
  rewrite Hi at 1. rewrite rne_exact by apply grid_pow. done.
Qed.

Lemma round_abs_form n d : 0 <= n -> 0 < d ->
  exists j e, round_abs n d = j * 2 ^ e /\ 0 <= j <= 2 ^ 53 /\ 0 <= e.
Proof.
  intros. exists (rne n (d * 2 ^ grid n d)), (grid n d).
  pose proof (grid_pow n d). split; [done |]. split; [| apply grid_nonneg]. split.
  - apply rne_ge; nia.
  - apply rne_le; [nia |]. pose proof (grid_upper n d). lia.
Qed.

(** The relative error is at most [2^-53], the absolute one at most half a unit. *)
Lemma round_abs_err n d : 0 <= n -> 0 < d ->
  2 ^ 53 * Z.abs (round_abs n d * d - n) <= Z.max (2 ^ 52 * d) n.
Proof.
  intros Hn Hd. unfold round_abs. pose proof (grid_pow n d) as Hk.
  pose proof (rne_near n (d * 2 ^ grid n d) ltac:(nia)) as He.
  set (k := grid n d) in *.
  replace (rne n (d * 2 ^ k) * (d * 2 ^ k) - n) with (rne n (d * 2 ^ k) * 2 ^ k * d - n) in He by ring.
  destruct (Z.eq_dec k 0) as [E |].
  - rewrite E in He |- *. change (2 ^ 0) with 1 in *. change (2 ^ 53) with (2 ^ 52 * 2). lia.
  - pose proof (grid_lower n d Hn Hd ltac:(pose proof (grid_nonneg n d); subst k; lia)) as Hl. fold k in Hl.
    change (2 ^ 53) with (2 ^ 52 * 2). lia.
Qed.

(** Signed rounding. *)
Lemma rnd_opp n d : rnd (- n) d = - rnd n d.
Proof. unfold rnd. rewrite Z.sgn_opp, Z.abs_opp. ring. Qed.

Lemma rnd_pos n d : 0 <= n -> rnd n d = if n =? 0 then 0 else round_abs n d.
Proof.
  intros. unfold rnd. destruct (Z.eqb_spec n 0) as [-> |]; [done |].
  rewrite Z.sgn_pos, Z.abs_eq by lia. ring.
Qed.

Lemma round_abs_0 d : 0 < d -> round_abs 0 d = 0.
Proof.
  intros. unfold round_abs. pose proof (grid_pow 0 d).
  pose proof (rne_exact 0 (d * 2 ^ grid 0 d) ltac:(nia)) as E. rewrite Z.mul_0_l in E. by rewrite E.
Qed.

Lemma rnd_nonneg_eq n d : 0 <= n -> 0 < d -> rnd n d = round_abs n d.
Proof.
  intros. rewrite rnd_pos by done. destruct (Z.eqb_spec n 0) as [-> |]; [| done].
  by rewrite round_abs_0.
Qed.

Lemma rnd_nonneg n d : 0 <= n -> 0 < d -> 0 <= rnd n d.
Proof. intros. rewrite rnd_nonneg_eq by done. by apply round_abs_nonneg. Qed.

Lemma rnd_mono n d n' d' : 0 < d -> 0 < d' -> n * d' <= n' * d -> rnd n d <= rnd n' d'.
Proof.
  intros Hd Hd' Hle. destruct (Z.le_gt_cases 0 n).
  - assert (0 <= n') by nia. rewrite !rnd_nonneg_eq by done. by apply round_abs_mono.
  - replace n with (- - n) by lia. rewrite (rnd_opp (- n)).
    pose proof (rnd_nonneg (- n) d ltac:(lia) Hd). destruct (Z.le_gt_cases 0 n').
    + pose proof (rnd_nonneg n' d' ltac:(lia) Hd'). lia.
    + replace n' with (- - n') by lia. rewrite (rnd_opp (- n')).
      rewrite !rnd_nonneg_eq by lia.
      pose proof (round_abs_mono (- n') d' (- n) d ltac:(lia) Hd' Hd ltac:(lia)). lia.
Qed.

Lemma rnd_id j e : Z.abs j <= 2 ^ 53 -> 0 <= e -> rnd (j * 2 ^ e) 1 = j * 2 ^ e.
Proof.
  intros Hj He. assert (0 < 2 ^ e) by (apply Z.pow_pos_nonneg; lia).
  destruct (Z.le_gt_cases 0 j).
  - rewrite rnd_nonneg_eq by nia. apply round_abs_id; lia.
  - replace (j * 2 ^ e) with (- (- j * 2 ^ e)) by ring.
    rewrite rnd_opp, rnd_nonneg_eq by nia. rewrite round_abs_id by lia. done.
Qed.

Lemma rnd_idem n d : 0 < d -> rnd (rnd n d) 1 = rnd n d.
Proof.
  intros Hd. destruct (Z.le_gt_cases 0 n) as [Hn |].
  - destruct (round_abs_form n d Hn Hd) as (j & e & E & Hj & He).
    rewrite (rnd_nonneg_eq n) by done. rewrite E. apply rnd_id; lia.
  - destruct (round_abs_form (- n) d ltac:(lia) Hd) as (j & e & E & Hj & He).
    replace n with (- - n) by lia. rewrite (rnd_opp (- n)), (rnd_nonneg_eq (- n)), rnd_opp by lia.
    rewrite E, rnd_id by lia. done.
Qed.

(** Rounding never crosses a double. *)
Lemma rnd_le m n d : 0 < d -> rnd m 1 = m -> n <= m * d -> rnd n d <= m.
Proof. intros Hd E Hle. rewrite <- E. apply rnd_mono; lia. Qed.

Lemma rnd_ge m n d : 0 < d -> rnd m 1 = m -> m * d <= n -> m <= rnd n d.
Proof. intros Hd E Hle. rewrite <- E. apply rnd_mono; lia. Qed.

Lemma rnd_int z : Z.abs z <= 2 ^ 53 -> rnd (z * one) 1 = z * one.
Proof. intros. rewrite one_pow. apply rnd_id; lia. Qed.

Lemma rnd_err n d : 0 <= n -> 0 < d -> 2 ^ 53 * Z.abs (rnd n d * d - n) <= Z.max (2 ^ 52 * d) n.
Proof. intros. rewrite rnd_nonneg_eq by done. by apply round_abs_err. Qed.

(** ** The theory of numbers *)

Lemma mk_fin m : Z.abs m < overflow -> mk m = Fin m.
Proof. intros. unfold mk. by rewrite (proj2 (Z.leb_gt _ _)). Qed.

Lemma of_Z_exact z : Z.abs z <= 2 ^ 53 -> of_Z z = Fin (z * one).
Proof.
  intros. unfold of_Z, of_ratio. rewrite rnd_int by done. apply mk_fin.
  pose proof overflow_big. pose proof one_pos. nia.
Qed.

Lemma mk_rnd_double n d : 0 < d -> is_double (mk (rnd n d)).
Proof.
  intros. unfold mk. case_match; [done |]. split; [by apply rnd_idem | zbool; lia].
Qed.

Lemma of_ratio_double n d : 0 < d -> is_double (of_ratio n d).
Proof. apply mk_rnd_double. Qed.

Lemma of_Z_double z : is_double (of_Z z).
Proof. by apply of_ratio_double. Qed.

Lemma neg_double x : is_double x -> is_double (neg x).
Proof. destruct x; simpl; try done. unfold representable. rewrite rnd_opp. lia. Qed.

Lemma add_double x y : is_double (add x y).
Proof. destruct x, y; simpl; try done; try case_match; try done. by apply of_ratio_double. Qed.

Lemma sub_double x y : is_double (sub x y).
Proof. apply add_double. Qed.

Lemma mul_double x y : is_double (mul x y).
Proof.
  destruct x, y; simpl; try done; try case_match; try done. apply of_ratio_double, one_pos.
Qed.

Lemma rep_0 : representable 0.
Proof. split; [done |]. pose proof overflow_big. pose proof one_pos. lia. Qed.

Lemma div_double x y : is_double (div x y).
Proof.
  destruct x, y; simpl; try done; try apply rep_0. repeat case_match; try done.
  apply of_ratio_double. zbool. lia.
Qed.

Lemma max_double x y : is_double x -> is_double y -> is_double (max x y).
Proof. unfold max. by repeat case_match. Qed.

Lemma min_double x y : is_double x -> is_double y -> is_double (min x y).
Proof. unfold min. by repeat case_match. Qed.

#[export] Hint Resolve neg_double add_double sub_double mul_double div_double min_double max_double
  of_Z_double : arena.

(** *** Order *)

Ltac num_cases :=
  repeat match goal with x : num |- _ => destruct x as [| [] |] end; simpl in *; try done.

Lemma ltb_irrefl x : ltb x x = false.
Proof. num_cases. lia. Qed.

Lemma ltb_leb x y : ltb x y = true -> leb x y = true.
Proof. unfold leb. by intros ->. Qed.

Lemma leb_trans x y z : leb x y = true -> leb y z = true -> leb x z = true.
Proof. unfold leb. num_cases. lia. Qed.

Lemma leb_ltb_trans x y z : leb x y = true -> ltb y z = true -> ltb x z = true.
Proof. unfold leb. num_cases. lia. Qed.

Lemma ltb_leb_trans x y z : ltb x y = true -> leb y z = true -> ltb x z = true.
Proof. unfold leb. num_cases. lia. Qed.

Lemma leb_refl x : is_nan x = false -> leb x x = true.
Proof. unfold leb. num_cases. lia. Qed.

Lemma leb_nan x y : leb x y = true -> is_nan x = false /\ is_nan y = false.
Proof. unfold leb. num_cases. Qed.

Lemma ltb_nan x y : ltb x y = true -> is_nan x = false /\ is_nan y = false.
Proof. num_cases. Qed.

(** Off NaN the order is total. *)
Lemma not_ltb x y : is_nan x = false -> is_nan y = false -> ltb x y = false -> leb y x = true.
Proof. unfold leb. num_cases. lia. Qed.

Lemma leb_not_ltb x y : leb x y = true -> ltb y x = false.
Proof. unfold leb. num_cases. lia. Qed.

Lemma leb_antisym x y : leb x y = true -> leb y x = true -> x = y.
Proof. unfold leb. num_cases. intros. f_equal. lia. Qed.

Lemma min_l x y : is_nan (min x y) = false -> leb (min x y) x = true.
Proof. unfold min, leb. num_cases; repeat case_match; simpl in *; zbool; try done; lia. Qed.

Lemma min_r x y : is_nan (min x y) = false -> leb (min x y) y = true.
Proof. unfold min, leb. num_cases; repeat case_match; simpl in *; zbool; try done; lia. Qed.

Lemma min_glb x y z : leb z x = true -> leb z y = true -> leb z (min x y) = true.
Proof. intros Hx Hy. unfold min. destruct (leb_nan _ _ Hx) as [_ ->], (leb_nan _ _ Hy) as [_ ->]. simpl. by case_match. Qed.

Lemma min_cases x y : is_nan x = false -> is_nan y = false -> min x y = x \/ min x y = y.
Proof. unfold min. intros -> ->. simpl. case_match; auto. Qed.

Lemma min_nan x y : is_nan (min x y) = is_nan x || is_nan y.
Proof. unfold min. num_cases; by case_match. Qed.

Lemma max_nan x y : is_nan (max x y) = is_nan x || is_nan y.
Proof. unfold max. num_cases; by case_match. Qed.

Lemma max_l x y : is_nan (max x y) = false -> leb x (max x y) = true.
Proof. unfold max, leb. num_cases; repeat case_match; simpl in *; zbool; try done; lia. Qed.

Lemma max_r x y : is_nan (max x y) = false -> leb y (max x y) = true.
Proof. unfold max, leb. num_cases; repeat case_match; simpl in *; zbool; try done; lia. Qed.

#[export] Hint Resolve ltb_leb leb_refl leb_trans min_l min_r max_l max_r : arena.

(** *** Monotonicity of the operations *)

Lemma mk_mono a b : a <= b -> leb (mk a) (mk b) = true.
Proof.
  intros. unfold mk, leb. repeat case_match; simpl in *; zbool; try lia.
  all: destruct (Z.ltb_spec a 0), (Z.ltb_spec b 0); simpl; done || lia.
Qed.

Lemma of_ratio_mono n d n' d' :
  0 < d -> 0 < d' -> n * d' <= n' * d -> leb (of_ratio n d) (of_ratio n' d') = true.
Proof. intros. by apply mk_mono, rnd_mono. Qed.

(** A double above (below) the exact value stays above (below) the rounded one. *)
Lemma of_ratio_le n d m : 0 < d -> representable m -> n <= m * d -> leb (of_ratio n d) (Fin m) = true.
Proof.
  intros Hd [Hm ?] ?. rewrite <- (mk_fin m) by done. apply mk_mono. by apply rnd_le.
Qed.

Lemma of_ratio_ge n d m : 0 < d -> representable m -> m * d <= n -> leb (Fin m) (of_ratio n d) = true.
Proof.
  intros Hd [Hm ?] ?. rewrite <- (mk_fin m) by done. apply mk_mono. by apply rnd_ge.
Qed.

Lemma leb_fin a b : leb (Fin a) (Fin b) = (a <=? b).
Proof. unfold leb. simpl. lia. Qed.

Lemma mk_not_nan m : is_nan (mk m) = false.
Proof. unfold mk. by case_match. Qed.

Lemma mk_neg_inf m : leb (Inf true) (mk m) = true.
Proof. unfold mk. case_match; [| done]. by destruct (m <? 0). Qed.

Lemma mk_pos_inf m : leb (mk m) (Inf false) = true.
Proof. unfold mk. case_match; [| done]. by destruct (m <? 0). Qed.

#[local] Hint Resolve mk_neg_inf mk_pos_inf : core.

Lemma add_mono x x' y y' :
  leb x x' = true -> leb y y' = true -> is_nan (add x y) = false -> is_nan (add x' y') = false ->
  leb (add x y) (add x' y') = true.
Proof.
  intros H1 H2 H3 H4.
  destruct x as [|[]|a], x' as [|[]|a'], y as [|[]|b], y' as [|[]|b']; try done; simpl in *;
    unfold of_ratio in *; try done; auto.
  rewrite leb_fin in H1, H2. zbool. apply mk_mono, rnd_mono; lia.
Qed.

Lemma mul_mono_nonneg x y y' :
  leb (Fin 0) x = true -> is_finite x = true -> leb y y' = true ->
  is_nan (mul x y) = false -> is_nan (mul x y') = false -> leb (mul x y) (mul x y') = true.
Proof.
  intros H1 Hx H2 H3 H4. destruct x as [|[]|a]; try done. rewrite leb_fin in H1. zbool.
  destruct y as [|[]|b], y' as [|[]|b']; try done; simpl in *; unfold of_ratio in *; try done; auto.
  all: try (destruct (Z.eqb_spec a 0); [done |]).
  all: try (rewrite ?(proj2 (Z.ltb_ge a 0)) by lia; simpl; auto).
  rewrite leb_fin in H2. zbool. pose proof one_pos. apply mk_mono, rnd_mono; [lia.. |].
  apply Z.mul_le_mono_nonneg_r; [lia |]. by apply Z.mul_le_mono_nonneg_l.
Qed.

Lemma div_mono_pos x x' c :
  leb x x' = true -> 0 < c -> leb (div x (Fin c)) (div x' (Fin c)) = true.
Proof.
  intros H1 Hc. pose proof one_pos.
  destruct x as [|[]|a], x' as [|[]|a']; try done; simpl in *; unfold of_ratio;
    rewrite ?(proj2 (Z.ltb_ge c 0)), ?(proj2 (Z.eqb_neq c 0)) by lia; simpl; auto.
  rewrite leb_fin in H1. zbool. rewrite Z.sgn_pos, Z.abs_eq, !Z.mul_1_l by lia.
  apply mk_mono, rnd_mono; [lia.. |]. repeat (apply Z.mul_le_mono_nonneg_r; [lia |]). done.
Qed.

(** *** Whole numbers *)

(** The magnitudes every whole number below which is a double. *)
Definition safe (z : Z) : Prop := Z.abs z <= 2 ^ 53.

Lemma of_ratio_int z : safe z -> of_ratio (z * one) 1 = of_Z z.
Proof. done. Qed.

Lemma add_int a b : safe a -> safe b -> add (of_Z a) (of_Z b) = of_Z (a + b).
Proof.
  intros. rewrite !(of_Z_exact a), !(of_Z_exact b) by done. simpl. unfold of_Z. f_equal. ring.
Qed.

Lemma neg_int a : safe a -> neg (of_Z a) = of_Z (- a).
Proof.
  unfold safe. intros. rewrite !of_Z_exact by lia. simpl. f_equal. ring.
Qed.

Lemma sub_int a b : safe a -> safe b -> sub (of_Z a) (of_Z b) = of_Z (a - b).
Proof.
  intros. unfold sub. rewrite neg_int, add_int by (unfold safe in *; lia). f_equal.
Qed.

Lemma rnd_scale n d c : 0 < d -> 0 < c -> rnd (n * c) (d * c) = rnd n d.
Proof. intros. apply Z.le_antisymm; apply rnd_mono; try apply Z.mul_pos_pos; lia. Qed.

Lemma mul_int a b : safe a -> safe b -> mul (of_Z a) (of_Z b) = of_Z (a * b).
Proof.
  intros. rewrite (of_Z_exact a), (of_Z_exact b) by done. simpl. unfold of_Z, of_ratio. f_equal.
  pose proof one_pos. rewrite <- (rnd_scale (a * b * one) 1 one) by lia. f_equal; ring.
Qed.

Lemma leb_int a b : safe a -> safe b -> leb (of_Z a) (of_Z b) = (a <=? b).
Proof.
  intros. rewrite !of_Z_exact, leb_fin by done. pose proof one_pos.
  destruct (Z.leb_spec a b); [apply Z.leb_le | apply Z.leb_gt]; nia.
Qed.

Lemma ltb_int a b : safe a -> safe b -> ltb (of_Z a) (of_Z b) = (a <? b).
Proof.
  intros. rewrite !of_Z_exact by done. simpl. pose proof one_pos.
  destruct (Z.ltb_spec a b); [apply Z.ltb_lt | apply Z.ltb_ge]; nia.
Qed.

Lemma floor_int a : safe a -> floor (of_Z a) = of_Z a.
Proof.
  intros. rewrite of_Z_exact by done. simpl. pose proof one_pos. by rewrite Z.div_mul by lia.
Qed.

Lemma round_int a : safe a -> round (of_Z a) = of_Z a.
Proof.
  intros. rewrite of_Z_exact by done. simpl. destruct one_half as (h & E & Hh). do 2 f_equal.
  symmetry. apply Z.div_unique with one; lia.
Qed.

Lemma to_bigint_int a : safe a -> to_bigint (of_Z a) = Done a.
Proof.
  intros. rewrite of_Z_exact by done. simpl. pose proof one_pos.
  by rewrite Z.mod_mul, Z.div_mul by lia.
Qed.

Lemma min_int a b : safe a -> safe b -> min (of_Z a) (of_Z b) = of_Z (Z.min a b).
Proof.
  intros. unfold min. rewrite ltb_int, !of_Z_exact by done. simpl.
  destruct (Z.ltb_spec b a); rewrite <- of_Z_exact by done; f_equal; lia.
Qed.

Lemma max_int a b : safe a -> safe b -> max (of_Z a) (of_Z b) = of_Z (Z.max a b).
Proof.
  intros. unfold max. rewrite ltb_int, !of_Z_exact by done. simpl.
  destruct (Z.ltb_spec a b); rewrite <- of_Z_exact by done; f_equal; lia.
Qed.

(** A lower bound that is a whole number survives [Math.floor]; an upper bound always does. *)
Lemma floor_le x : is_nan x = false -> leb (floor x) x = true.
Proof.
  destruct x as [|[]|m]; try done. intros _. simpl. rewrite leb_fin. apply Z.leb_le.
  pose proof (Z.mul_div_le m one one_pos). lia.
Qed.

Lemma floor_mono x y : leb x y = true -> leb (floor x) (floor y) = true.
Proof.
  destruct x as [|[]|a], y as [|[]|b]; try done. simpl. rewrite !leb_fin. intros. zbool. apply Z.leb_le.
  pose proof one_pos. apply Z.mul_le_mono_nonneg_r; [lia |]. apply Z.div_le_mono; lia.
Qed.

Lemma floor_lt_int x c : safe c -> ltb (floor x) (of_Z c) = ltb x (of_Z c).
Proof.
  intros. rewrite of_Z_exact by done. destruct x as [|[]|m]; try done. simpl. pose proof one_pos.
  pose proof (Z.div_mod m one ltac:(lia)). pose proof (Z.mod_pos_bound m one ltac:(lia)).
  destruct (Z.ltb_spec m (c * one)); [apply Z.ltb_lt; lia | apply Z.ltb_ge].
  apply Z.mul_le_mono_nonneg_r; [lia |]. apply Z.div_le_lower_bound; lia.
Qed.

Lemma of_Z_finite z : safe z -> is_finite (of_Z z) = true.
Proof. intros. by rewrite of_Z_exact. Qed.

Lemma finite_nan x : is_finite x = true -> is_nan x = false.
Proof. by destruct x. Qed.

Lemma of_Z_not_nan z : is_nan (of_Z z) = false.
Proof. apply mk_not_nan. Qed.

Lemma mul_comm x y : mul x y = mul y x.
Proof.
  destruct x as [| s | a], y as [| t | b]; simpl; try done; [by rewrite xorb_comm |].
  unfold of_ratio. by rewrite Z.mul_comm.
Qed.

#[export] Hint Rewrite add_int sub_int mul_int leb_int ltb_int floor_int round_int min_int max_int to_bigint_int
  using (unfold safe; lia) : js.

#[export] Hint Resolve of_Z_finite finite_nan of_Z_not_nan : arena.
