(* ===== verification/Int32.v ===== *)
(** * The 32-bit integer operators

    [>>> 0], [^], [>>>] and [Math.imul] act on integers modulo [2^32].  The
    bitwise operators yield the signed representative ([ToInt32]); [>>>]
    yields the unsigned one ([ToUint32]). *)
From S2P Require Import Prelude.

Definition W32 : Z := 2 ^ 32.

Definition ToUint32 (x : Z) : Z := x mod W32.

Definition ToInt32 (x : Z) : Z :=
  let u := ToUint32 x in if u <? 2 ^ 31 then u else u - W32.

(** [a >>> s], [a ^ b], [a | b], [a << s] and [Math.imul(a, b)]. *)
Definition ushr (a s : Z) : Z := Z.shiftr (ToUint32 a) s.
Definition xor32 (a b : Z) : Z := ToInt32 (Z.lxor (ToUint32 a) (ToUint32 b)).
Definition or32 (a b : Z) : Z := ToInt32 (Z.lor (ToUint32 a) (ToUint32 b)).
Definition shl (a s : Z) : Z := ToInt32 (Z.shiftl (ToUint32 a) s).
Definition imul (a b : Z) : Z := ToInt32 (ToUint32 a * ToUint32 b).

(** ** Laws *)

Lemma W32_pos : 0 < W32.
Proof. done. Qed.

Lemma ToUint32_range x : 0 <= ToUint32 x < W32.
Proof. apply Z.mod_pos_bound, W32_pos. Qed.

Lemma ToUint32_small x : 0 <= x < W32 -> ToUint32 x = x.
Proof. apply Z.mod_small. Qed.

Lemma ToUint32_idem x : ToUint32 (ToUint32 x) = ToUint32 x.
Proof. apply ToUint32_small, ToUint32_range. Qed.

(** The signed and the unsigned representative denote the same word. *)
Lemma ToUint32_ToInt32 x : ToUint32 (ToInt32 x) = ToUint32 x.
Proof.
  unfold ToInt32. destruct (ToUint32 x <? 2 ^ 31); [apply ToUint32_idem |].
  unfold ToUint32. rewrite Zminus_mod, Z_mod_same_full, Z.sub_0_r.
  by rewrite !Z.mod_mod by done.
Qed.

Lemma ToUint32_mul a b : ToUint32 (ToUint32 a * ToUint32 b) = ToUint32 (a * b).
Proof. unfold ToUint32. by rewrite <- Z.mul_mod by done. Qed.

Lemma ToUint32_imul a b : ToUint32 (imul a b) = ToUint32 (a * b).
Proof. unfold imul. by rewrite ToUint32_ToInt32, ToUint32_mul. Qed.

Lemma lxor_range a b : 0 <= a < W32 -> 0 <= b < W32 -> 0 <= Z.lxor a b < W32.
Proof.
  intros Ha Hb. assert (0 <= Z.lxor a b) by (apply Z.lxor_nonneg; lia).
  split; [done |]. destruct (Z.eq_dec (Z.lxor a b) 0) as [-> |]; [done |].
  apply Z.log2_lt_pow2; [lia |]. eapply Z.le_lt_trans; [apply Z.log2_lxor; lia |].
  assert (forall c, 0 <= c < W32 -> Z.log2 c < 32).
  { intros c Hc. destruct (Z.eq_dec c 0) as [-> |]; [done |]. apply Z.log2_lt_pow2; unfold W32 in Hc; lia. }
  apply Z.max_lub_lt; auto.
Qed.

Lemma ToUint32_xor a b : ToUint32 (xor32 a b) = Z.lxor (ToUint32 a) (ToUint32 b).
Proof.
  unfold xor32. rewrite ToUint32_ToInt32. apply ToUint32_small, lxor_range; apply ToUint32_range.
Qed.

Lemma ushr_range a s : 0 <= s -> 0 <= ushr a s < W32.
Proof.
  intros. unfold ushr. rewrite Z.shiftr_div_pow2 by done. pose proof (ToUint32_range a).
  assert (0 < 2 ^ s) by (apply Z.pow_pos_nonneg; lia).
  split; [apply Z.div_pos; lia |]. apply Z.div_lt_upper_bound; nia.
Qed.

(** [h ^ (h >>> s)] loses no information: the top bits give the rest back. *)
Lemma xorshift_inj s a b :
  0 < s -> 0 <= a -> 0 <= b ->
  Z.lxor a (Z.shiftr a s) = Z.lxor b (Z.shiftr b s) -> a = b.
Proof.
  intros Hs Ha Hb E.
  assert (Hbit : forall i, 0 <= i -> Z.testbit a i = xorb (Z.testbit (Z.lxor a (Z.shiftr a s)) i) (Z.testbit a (i + s))).
  { intros i Hi. rewrite Z.lxor_spec, Z.shiftr_spec by done. by destruct (Z.testbit a i), (Z.testbit a (i + s)). }
  assert (Hbit' : forall i, 0 <= i -> Z.testbit b i = xorb (Z.testbit (Z.lxor b (Z.shiftr b s)) i) (Z.testbit b (i + s))).
  { intros i Hi. rewrite Z.lxor_spec, Z.shiftr_spec by done. by destruct (Z.testbit b i), (Z.testbit b (i + s)). }
  set (N := Z.max (Z.log2 a) (Z.log2 b)).
  assert (Hdown : forall k i, 0 <= i -> N - Z.of_nat k < i -> Z.testbit a i = Z.testbit b i).
  { induction k as [| k IH]; intros i Hi Hk.
    - rewrite !Z.bits_above_log2 by (subst N; lia). done.
    - rewrite Hbit, Hbit', E by done. f_equal. apply IH; lia. }
  apply Z.bits_inj'. intros i Hi. apply (Hdown (Z.to_nat (N + 1))); [done |].
  assert (0 <= N) by (subst N; pose proof (Z.log2_nonneg a); lia). lia.
Qed.

(** Multiplication by a unit modulo [2^32] is injective. *)
Lemma mul_unit_inj c c' a b :
  (c * c') mod W32 = 1 -> 0 <= a < W32 -> 0 <= b < W32 ->
  ToUint32 (a * c) = ToUint32 (b * c) -> a = b.
Proof.
  intros Hc Ha Hb E. unfold ToUint32 in E.
  assert (H : forall x, 0 <= x < W32 -> (((x * c) mod W32) * c') mod W32 = x).
  { intros x Hx. rewrite Z.mul_mod_idemp_l, <- Z.mul_assoc, <- Z.mul_mod_idemp_r, Hc, Z.mul_1_r by done.
    by apply Z.mod_small. }
  by rewrite <- (H a Ha), <- (H b Hb), E.
Qed.

Lemma xor_inj_r a b c : Z.lxor c a = Z.lxor c b -> a = b.
Proof.
  intros E. rewrite <- (Z.lxor_0_l a), <- (Z.lxor_0_l b), <- (Z.lxor_nilpotent c).
  by rewrite !Z.lxor_assoc, E.
Qed.
