(* ===== verification/ErSim.v ===== *)
(** * The fight

    The reference implementation of the on-chain round: [er-demo/src/sim/erSim.ts]
    and the hit capture of [er-demo/src/sim/hitEvents.ts].  Amounts are bigints
    ([Z], division truncating toward zero); the seed and the digests are byte
    lists; SHA-256 itself is the interface [Digest]. *)
From S2P Require Import Prelude JsNum.

(** ** Data *)

Inductive Side : Type := side0 | side1.

#[global] Instance Side_eq_dec : EqDecision Side.
Proof. solve_decision. Defined.

Record ERFighter : Type := mkFighter {
  wallet : string;
  side : Side;
  dead : bool;
  stake : Z;      (* net of fee *)
  hp : Z;         (* value still in the ring *)
  banked : Z;     (* value raided from the other side *)
}.

#[global] Instance ERFighter_eq_dec : EqDecision ERFighter.
Proof. solve_decision. Defined.

Record ERRound : Type := mkRound {
  seed : list Z;
  fighters : list ERFighter;
  tickCount : Z;
  pot : Z;
  penaltiesCollected : Z;
  feesCollected : Z;
  winner : option Side;
}.

Record HitEvent : Type := mkHit {
  step : Z;
  attackerId : Z;
  defenderId : Z;
  amount : Z;
}.

#[global] Instance HitEvent_eq_dec : EqDecision HitEvent.
Proof. solve_decision. Defined.

(** What the module throws. *)
Inductive er_error : Type :=
| ZeroStake
| RoundFull
| NothingToExtract
| DrawPairRequiresTwo
| Runtime (e : js_error).

Definition BPS : Z := 10000.
Definition MAX_FIGHTERS : Z := 48.
Definition DUST : Z := 1000.
Definition CRIT_ONE_IN : Z := 32.
Definition CRIT_ROLL : Z := 90.
Definition ROLL_BODY_LO : Z := 1.
Definition ROLL_BODY_SPAN : Z := 22.
Definition EXTRACT_PENALTY_START_BPS : Z := 2000.

Definition PENALTY_HORIZON_STEPS : list Z :=
  [   71;   130;   200;   280;   367;
     463;   566;   675;   791;   912;
    1039;  1172;  1310;  1452;  1600;
    1752;  1909;  2070;  2236;  2406;
    2580;  2758;  2939;  3125;  3314;
    3507;  3704;  3904;  4108;  4315;
    4525;  4739;  4956;  5177;  5400;
    5627;  5856;  6089;  6325;  6563;
    6805;  7049;  7297;  7547;  7800;
    8055;  8314 ].

(** ** Byte buffers *)

(** [createHash("sha256").update(m).digest()]: 32 bytes. *)
Class Digest : Type := {
  sha256 : list Z -> list Z;
  sha256_length m : length (sha256 m) = 32%nat;
}.

(** [h.readUInt32LE(off)]: throws when the four bytes are not all there. *)
Definition readUInt32LE (h : list Z) (off : nat) : outcome er_error Z :=
  match h !! off, h !! (off + 1)%nat, h !! (off + 2)%nat, h !! (off + 3)%nat with
  | Some b0, Some b1, Some b2, Some b3 => Done (b0 + 256 * b1 + 65536 * b2 + 16777216 * b3)
  | _, _, _, _ => Throw (Runtime RangeError)
  end.

(** The bytes of [buf.writeBigUInt64LE(v, _)]: throws outside the range of a u64. *)
Definition writeBigUInt64LE (v : Z) : outcome er_error (list Z) :=
  if (0 <=? v) && (v <? 2 ^ 64)
  then Done ((fun i => Z.shiftr v (8 * i) mod 256) <$> [0; 1; 2; 3; 4; 5; 6; 7])
  else Throw (Runtime RangeError).

(** [Buffer.alloc(n)] with the first [n] bytes of [src] copied in. *)
Definition copy_padded (n : nat) (src : list Z) : list Z := resize n 0 src.

(** ** The extraction penalty *)

Definition clamp (n lo hi : Z) : Z := Z.min (Z.max n lo) hi.

Definition penaltyHorizonSteps (fighterCount : Z) : Z :=
  nth (Z.to_nat (clamp fighterCount 2 MAX_FIGHTERS - 2)) PENALTY_HORIZON_STEPS 0.

Definition extractPenaltyBps (fighterCount cursor : Z) : Z :=
  let horizon := penaltyHorizonSteps fighterCount in
  let remaining := if horizon <=? cursor then 0 else horizon - cursor in
  Z.quot (EXTRACT_PENALTY_START_BPS * remaining) horizon.

(** What the fighter keeps, and what the house takes. *)
Definition splitExtraction (taken fighterCount cursor : Z) : Z * Z :=
  let penalty := Z.quot (taken * extractPenaltyBps fighterCount cursor) BPS in
  (taken - penalty, penalty).

Definition sat (a b : Z) : Z := if b <? a then a - b else 0.

(** ** The hash chain *)

Section Fight.
Context `{Digest}.
Open Scope js_scope.

Definition tickHash (seed : list Z) (cursor : Z) : outcome er_error (list Z) :=
  let! c := writeBigUInt64LE cursor in Done (sha256 (copy_padded 32 seed ++ c)).

Definition drawPair (h : list Z) (n : Z) : outcome er_error (Z * Z) :=
  if n <? 2 then Throw DrawPairRequiresTwo else
  let! x := readUInt32LE h 0 in
  let! y := readUInt32LE h 4 in
  let a := x mod n in
  let d := y mod (n - 1) in
  Done (a, if a <=? d then d + 1 else d).

Definition rollOf (h : list Z) : outcome er_error Z :=
  let! crit := readUInt32LE h 24 in
  if crit mod CRIT_ONE_IN =? 0 then Done CRIT_ROLL else
  let! body := readUInt32LE h 20 in
  Done (ROLL_BODY_LO + body mod ROLL_BODY_SPAN).

(** ** Entering *)

Definition top_up (net : Z) (f : ERFighter) : ERFighter :=
  mkFighter (wallet f) (side f) (dead f) (stake f + net) (hp f + net) (banked f).

Definition enter (r : ERRound) (w : string) (s : Side) (gross feeBps : Z) : outcome er_error ERRound :=
  if gross <=? 0 then Throw ZeroStake else
  let fee := Z.quot (gross * feeBps) BPS in
  let net := gross - fee in
  let credit fs := mkRound (seed r) fs (tickCount r) (pot r + net) (penaltiesCollected r)
                     (feesCollected r + fee) (winner r) in
  match list_find (fun f => wallet f = w /\ side f = s) (fighters r) with
  | Some (i, _) => Done (credit (alter (top_up net) i (fighters r)))
  | None =>
      if MAX_FIGHTERS <=? Z.of_nat (length (fighters r)) then Throw RoundFull
      else Done (credit (fighters r ++ [mkFighter w s false net net 0]))
  end.

(** ** One step of the fight *)

(** The blow a digest asks for: attacker, defender and amount, or nothing. *)
Definition strike (fs : list ERFighter) (h : list Z) : outcome er_error (option (Z * Z * Z)) :=
  let! ad := drawPair h (Z.of_nat (length fs)) in
  match fs !! Z.to_nat ad.1, fs !! Z.to_nat ad.2 with
  | Some A, Some D =>
      if decide (side A = side D) then Done None
      else if decide (wallet A = wallet D) then Done None
      else if dead A || dead D then Done None
      else
        let! roll := rollOf h in
        let basis := if hp A <? hp D then hp A else hp D in
        let dmg := if hp D <=? DUST then hp D else Z.quot (basis * roll) 100 in
        if dmg =? 0 then Done None else Done (Some (ad.1, ad.2, dmg))
  | _, _ => Throw (Runtime TypeError)
  end.

Definition take_blow (dmg : Z) (f : ERFighter) : ERFighter :=
  let hp' := sat (hp f) dmg in
  mkFighter (wallet f) (side f) (if hp' =? 0 then true else dead f) (stake f) hp' (banked f).

Definition bank_blow (dmg : Z) (f : ERFighter) : ERFighter :=
  mkFighter (wallet f) (side f) (dead f) (stake f) (hp f) (banked f + dmg).

Definition land (a d dmg : Z) (fs : list ERFighter) : list ERFighter :=
  alter (bank_blow dmg) (Z.to_nat a) (alter (take_blow dmg) (Z.to_nat d) fs).

Definition with_fight (r : ERRound) (fs : list ERFighter) (c : Z) : ERRound :=
  mkRound (seed r) fs c (pot r) (penaltiesCollected r) (feesCollected r) (winner r).

(** One iteration of the loop of [tick]. *)
Inductive stepped : Type :=
| Break
| Continue (r : ERRound) (e : option HitEvent)
| Threw (r : ERRound) (e : er_error).

Definition tick_once (r : ERRound) : stepped :=
  if Z.of_nat (length (fighters r)) <? 2 then Break else
  let cursor := tickCount r in
  let r1 := with_fight r (fighters r) (cursor + 1) in
  match (let! h := tickHash (seed r) cursor in strike (fighters r) h) with
  | Throw e => Threw r1 e
  | Done None => Continue r1 None
  | Done (Some (a, d, dmg)) =>
      Continue (with_fight r (land a d dmg (fighters r)) (cursor + 1)) (Some (mkHit cursor a d dmg))
  end.

(** [tick(round, steps, onHit)]: the round as it is left, the exchanges
    reported to [onHit] in order, and the error if one was thrown. *)
Fixpoint tick (r : ERRound) (steps : nat) : ERRound * list HitEvent * option er_error :=
  match steps with
  | O => (r, [], None)
  | S n =>
      match tick_once r with
      | Break => (r, [], None)
      | Threw r1 e => (r1, [], Some e)
      | Continue r1 ev =>
          let '(r2, evs, err) := tick r1 n in (r2, option_list ev ++ evs, err)
      end
  end.

(** ** Leaving and settling *)

Definition leave (kept : Z) (f : ERFighter) : ERFighter :=
  mkFighter (wallet f) (side f) true (stake f) 0 (banked f + kept).

(** The round after, with [(taken, kept, penalty)]. *)
Definition extract (r : ERRound) (w : string) : outcome er_error (ERRound * (Z * Z * Z)) :=
  match list_find (fun f => wallet f = w /\ dead f = false /\ 0 < hp f) (fighters r) with
  | None => Throw NothingToExtract
  | Some (i, f) =>
      let taken := hp f in
      let '(kept, penalty) := splitExtraction taken (Z.of_nat (length (fighters r))) (tickCount r) in
      Done (mkRound (seed r) (alter (leave kept) i (fighters r)) (tickCount r) (pot r)
              (penaltiesCollected r + penalty) (feesCollected r) (winner r),
            (taken, kept, penalty))
  end.

Definition side_value (s : Side) (fs : list ERFighter) : Z :=
  foldl (fun n f => if decide (side f = s) then n + (hp f + banked f) else n) 0 fs.

Definition settle (r : ERRound) : ERRound * Side :=
  let w := if side_value side1 (fighters r) <=? side_value side0 (fighters r) then side0 else side1 in
  (mkRound (seed r) (fighters r) (tickCount r) (pot r) (penaltiesCollected r) (feesCollected r) (Some w), w).

Definition newRound (s : list Z) : ERRound := mkRound s [] 0 0 0 0 None.

(** ** The books *)

Definition totalValue (r : ERRound) : Z := foldl (fun n f => n + hp f + banked f) 0 (fighters r).
Definition houseTook (r : ERRound) : Z := penaltiesCollected r + feesCollected r.
Definition grossDeposits (r : ERRound) : Z := pot r + feesCollected r.
Definition conservationHolds (r : ERRound) : bool := totalValue r + houseTook r =? grossDeposits r.

(** ** Hit capture ([hitEvents.ts]) *)

Record HitEventEntry : Type := mkEntry { entry_wallet : string; entry_side : Side; entry_stake : Z }.

Definition push_entry (r : ERRound) (e : HitEventEntry) : ERRound :=
  mkRound (seed r)
    (fighters r ++ [mkFighter (entry_wallet e) (entry_side e) false (entry_stake e) (entry_stake e) 0])
    (tickCount r) (pot r + entry_stake e) (penaltiesCollected r) (feesCollected r) (winner r).

Definition buildRoundFromEntries (s : list Z) (entries : list HitEventEntry) : ERRound :=
  foldl push_entry (newRound s) entries.

(** The round is mutated in place and the events are returned. *)
Definition computeHitEvents (r : ERRound) (steps : nat) : ERRound * list HitEvent * option er_error :=
  tick r steps.

Definition runFullFight (s : list Z) (entries : list HitEventEntry) (steps : nat)
    : ERRound * list HitEvent * option er_error :=
  computeHitEvents (buildRoundFromEntries s entries) steps.

(** Replaying one event on a fighter array; an index outside it throws. *)
Definition applyHitEvent (fs : list ERFighter) (e : HitEvent) : outcome er_error (list ERFighter) :=
  match fs !! Z.to_nat (attackerId e), fs !! Z.to_nat (defenderId e) with
  | Some _, Some D =>
      let struck f := mkFighter (wallet f) (side f) (dead f) (stake f) (hp f - amount e) (banked f) in
      let die f := mkFighter (wallet f) (side f) (if hp f =? 0 then true else dead f) (stake f) (hp f) (banked f) in
      Done (alter die (Z.to_nat (defenderId e))
             (alter (bank_blow (amount e)) (Z.to_nat (attackerId e))
               (alter struck (Z.to_nat (defenderId e)) fs)))
  | _, _ => Throw (Runtime TypeError)
  end.

Fixpoint replay (fs : list ERFighter) (es : list HitEvent) : outcome er_error (list ERFighter) :=
  match es with
  | [] => Done fs
  | e :: es => let! fs' := applyHitEvent fs e in replay fs' es
  end.
End Fight.
