(* ===== verification/FightLaws.v ===== *)
(** * The laws of the fight

    What the definitions of [ErSim] guarantee: the draw is uniform, a blow is
    legal and bounded by what both sides brought, value is conserved over every
    history, exchanges are finite in number, the recorded hits replay to the
    same ring, and the extraction penalty decays to nothing. *)
From S2P Require Import Prelude JsNum ErSim.

#[local] Open Scope js_scope.

(** ** The penalty table *)

Lemma horizon_cases n : exists i, (i < 47)%nat /\ penaltyHorizonSteps n = nth i PENALTY_HORIZON_STEPS 0
  /\ Z.of_nat i = clamp n 2 MAX_FIGHTERS - 2.
Proof.
  exists (Z.to_nat (clamp n 2 MAX_FIGHTERS - 2)). unfold penaltyHorizonSteps, clamp, MAX_FIGHTERS. lia.
Qed.

Lemma horizon_pos n : 0 < penaltyHorizonSteps n.
Proof.
  destruct (horizon_cases n) as (i & Hi & -> & _).
  assert (H : forallb (fun x => 0 <? x) PENALTY_HORIZON_STEPS = true) by reflexivity.
  rewrite forallb_forall in H. apply Z.ltb_lt, H, nth_In. exact Hi.
Qed.

(** The horizon of [n] fighters is [25 * n^1.5] to the nearest step. *)
Definition nearest_to_25_n_pow_1_5 (n h : Z) : bool :=
  ((2 * h - 1) * (2 * h - 1) <=? 2500 * n * n * n) && (2500 * n * n * n <=? (2 * h + 1) * (2 * h + 1)).

Lemma horizon_formula_all :
  forallb (fun n => nearest_to_25_n_pow_1_5 n (penaltyHorizonSteps n)) (seqZ 2 47) = true.
Proof. vm_compute. reflexivity. Qed.

Lemma bps_eq n c :
  extractPenaltyBps n c =
  2000 * Z.max 0 (penaltyHorizonSteps n - c) / penaltyHorizonSteps n.
Proof.
  unfold extractPenaltyBps, EXTRACT_PENALTY_START_BPS. pose proof (horizon_pos n).
  case_match; zbool; rewrite Z.quot_div_nonneg by lia; f_equal; lia.
Qed.

Lemma bps_antitone n c c' : c <= c' -> extractPenaltyBps n c' <= extractPenaltyBps n c.
Proof. intros. rewrite !bps_eq. pose proof (horizon_pos n). apply Z.div_le_mono; lia. Qed.

Lemma bps_range n c : 0 <= c -> 0 <= extractPenaltyBps n c <= EXTRACT_PENALTY_START_BPS.
Proof.
  intros. rewrite bps_eq. pose proof (horizon_pos n). unfold EXTRACT_PENALTY_START_BPS. split.
  - apply Z.div_pos; lia.
  - apply Z.div_le_upper_bound; lia.
Qed.

Lemma bps_free n c : penaltyHorizonSteps n <= c -> extractPenaltyBps n c = 0.
Proof. intros. rewrite bps_eq. rewrite Z.max_l by lia. apply Z.div_0_l. pose proof (horizon_pos n). lia. Qed.

Lemma split_eq taken n c kept penalty :
  0 <= taken -> 0 <= c -> splitExtraction taken n c = (kept, penalty) ->
  kept + penalty = taken /\ 0 <= penalty /\ penalty * 5 <= taken /\ penalty = taken * extractPenaltyBps n c / BPS.
Proof.
  unfold splitExtraction. intros Ht Hc [= <- <-]. pose proof (bps_range n c Hc) as Hb.
  unfold EXTRACT_PENALTY_START_BPS, BPS in *.
  rewrite Z.quot_div_nonneg by nia.
  pose proof (Z.div_pos (taken * extractPenaltyBps n c) 10000 ltac:(nia) ltac:(lia)).
  assert (taken * extractPenaltyBps n c / 10000 <= taken / 5).
  { transitivity (taken * 2000 / 10000); [apply Z.div_le_mono; nia |].
    replace 10000 with (5 * 2000) by done. rewrite Z.div_mul_cancel_r; lia. }
  pose proof (Z.mul_div_le taken 5 ltac:(lia)). lia.
Qed.

(** ** Bytes and draws *)

Lemma read_ok h off : (off + 3 < length h)%nat -> exists x, readUInt32LE h off = Done x.
Proof.
  intros. unfold readUInt32LE.
  destruct (lookup_lt_is_Some_2 h off ltac:(lia)) as [? ->].
  destruct (lookup_lt_is_Some_2 h (off + 1) ltac:(lia)) as [? ->].
  destruct (lookup_lt_is_Some_2 h (off + 2) ltac:(lia)) as [? ->].
  destruct (lookup_lt_is_Some_2 h (off + 3) ltac:(lia)) as [? ->]. eauto.
Qed.

Section Laws.
Context `{Digest}.

Lemma drawPair_eq h n u v :
  2 <= n -> readUInt32LE h 0 = Done u -> readUInt32LE h 4 = Done v ->
  drawPair h n = Done (u mod n, if u mod n <=? v mod (n - 1) then v mod (n - 1) + 1 else v mod (n - 1)).
Proof. intros Hn Hu Hv. unfold drawPair. rewrite (proj2 (Z.ltb_ge _ _)) by lia. by rewrite Hu, Hv. Qed.

Lemma drawPair_inv h n a d :
  drawPair h n = Done (a, d) -> 2 <= n /\ 0 <= a < n /\ 0 <= d < n /\ a <> d.
Proof.
  unfold drawPair. case_match; [done |]. zbool.
  destruct (readUInt32LE h 0) as [u |]; [| done]. destruct (readUInt32LE h 4) as [v |]; [| done].
  simpl. intros [= <- <-].
  pose proof (Z.mod_pos_bound u n ltac:(lia)). pose proof (Z.mod_pos_bound v (n - 1) ltac:(lia)).
  case_match; zbool; lia.
Qed.

Lemma rollOf_range h x : rollOf h = Done x -> 1 <= x <= 22 \/ x = 90.
Proof.
  unfold rollOf. destruct (readUInt32LE h 24) as [c |]; [| done]. simpl.
  case_match; [intros [= <-]; by right |].
  destruct (readUInt32LE h 20) as [b |]; [| done]. simpl. intros [= <-]. left.
  unfold ROLL_BODY_LO, ROLL_BODY_SPAN. pose proof (Z.mod_pos_bound b 22 ltac:(lia)). lia.
Qed.

Lemma rollOf_ok h : length h = 32%nat -> exists x, rollOf h = Done x.
Proof.
  intros Hl. unfold rollOf. destruct (read_ok h 24 ltac:(lia)) as [c ->]. simpl.
  case_match; [eauto |]. destruct (read_ok h 20 ltac:(lia)) as [b ->]. simpl. eauto.
Qed.

(** ** What a round looks like *)

Definition sound (f : ERFighter) : Prop := 0 <= hp f /\ 0 <= banked f.
Definition ring_sound (fs : list ERFighter) : Prop := Forall sound fs.
Definition ring (fs : list ERFighter) : Z := zsum hp fs.
Definition value (fs : list ERFighter) : Z := zsum (fun f => hp f + banked f) fs.

Lemma totalValue_eq r : totalValue r = value (fighters r).
Proof.
  unfold totalValue, value. rewrite <- (Z.add_0_l (zsum _ _)), <- foldl_zsum.
  generalize 0. induction (fighters r) as [| f fs IH]; intros n; simpl; [done |].
  rewrite <- IH. f_equal. lia.
Qed.

(** A legal blow: two living opponents of different wallets, for more than
    nothing and at most the defender's ring; and at most the attacker's too,
    unless the defender is down to dust and finished off. *)
Definition legal (fs : list ERFighter) (a d dmg : Z) : Prop :=
  exists A D, fs !! Z.to_nat a = Some A /\ fs !! Z.to_nat d = Some D /\
    a <> d /\ 0 <= a /\ 0 <= d /\
    side A <> side D /\ wallet A <> wallet D /\ dead A = false /\ dead D = false /\
    0 < dmg <= hp D /\ (dmg <= hp A \/ hp D <= DUST).

Lemma strike_legal fs h a d dmg :
  ring_sound fs -> strike fs h = Done (Some (a, d, dmg)) -> legal fs a d dmg.
Proof.
  intros Hs. unfold strike. destruct (drawPair h _) as [[a' d'] |] eqn:Hd; [| done]. simpl.
  apply drawPair_inv in Hd as (? & ? & ? & ?).
  destruct (fs !! Z.to_nat a') as [A |] eqn:HA; [| done].
  destruct (fs !! Z.to_nat d') as [D |] eqn:HD; [| done].
  destruct (decide (side A = side D)); [done |]. destruct (decide (wallet A = wallet D)); [done |].
  destruct (dead A || dead D) eqn:Hdead; [done |]. zbool.
  destruct (rollOf h) as [roll |] eqn:Hr; [| done]. simpl. apply rollOf_range in Hr.
  assert (1 <= roll <= 90) by lia. clear Hr.
  assert (HsA : sound A) by (eapply Forall_lookup_1; eauto).
  assert (HsD : sound D) by (eapply Forall_lookup_1; eauto).
  destruct HsA, HsD. case_match eqn:Hz; [done |]. intros [= <- <- <-]. zbool.
  exists A, D. repeat (split; [done || lia |]).
  set (basis := if hp A <? hp D then hp A else hp D) in *.
  assert (Hb : 0 <= basis <= hp A /\ basis <= hp D) by (subst basis; destruct (Z.ltb_spec (hp A) (hp D)); lia).
  clearbody basis. destruct (hp D <=? DUST) eqn:Hdust; zbool; [lia |].
  rewrite Z.quot_div_nonneg in * by nia.
  pose proof (Z.div_pos (basis * roll) 100 ltac:(nia) ltac:(lia)).
  assert (basis * roll / 100 <= basis).
  { apply Z.div_le_upper_bound; [lia |]. nia. }
  lia.
Qed.

(** The array after a legal blow, fighter by fighter. *)
Lemma land_lookup fs a d dmg i :
  land a d dmg fs !! i =
  (fun f => (if decide (i = Z.to_nat a) then bank_blow dmg else id)
              ((if decide (i = Z.to_nat d) then take_blow dmg else id) f)) <$> fs !! i.
Proof.
  unfold land. destruct (decide (i = Z.to_nat a)) as [-> | Ha].
  - rewrite list_lookup_alter_eq. destruct (decide (Z.to_nat a = Z.to_nat d)) as [-> | Hd].
    + rewrite list_lookup_alter_eq. by destruct (fs !! _).
    + rewrite list_lookup_alter_ne by done. by destruct (fs !! _).
  - rewrite list_lookup_alter_ne by done. destruct (decide (i = Z.to_nat d)) as [-> | Hd].
    + rewrite list_lookup_alter_eq. by destruct (fs !! _).
    + rewrite list_lookup_alter_ne by done. by destruct (fs !! _).
Qed.

Lemma sat_sub x y : y <= x -> 0 <= y -> sat x y = x - y.
Proof. unfold sat. case_match; zbool; lia. Qed.

Lemma land_props fs a d dmg :
  ring_sound fs -> legal fs a d dmg ->
  ring_sound (land a d dmg fs) /\ value (land a d dmg fs) = value fs /\
  ring (land a d dmg fs) = ring fs - dmg.
Proof.
  intros Hs (A & D & HA & HD & Had & Ha & Hd & _ & _ & _ & _ & Hdmg & _).
  assert (HA' : alter (take_blow dmg) (Z.to_nat d) fs !! Z.to_nat a = Some A)
    by (rewrite list_lookup_alter_ne by lia; done).
  assert (HsA : sound A) by (eapply Forall_lookup_1; eauto).
  assert (HsD : sound D) by (eapply Forall_lookup_1; eauto).
  destruct HsA, HsD. split; [| split].
  - unfold land. apply Forall_alter_in; [apply Forall_alter_in; [done |] |].
    + intros f Hf. simplify_eq. intros _. split; simpl; [rewrite sat_sub by lia; lia | lia].
    + intros f Hf. simplify_eq. intros _. split; simpl; lia.
  - unfold value, land. rewrite (zsum_alter _ _ _ _ _ HA'), (zsum_alter _ _ _ _ _ HD). simpl.
    rewrite sat_sub by lia. lia.
  - unfold ring, land. rewrite (zsum_alter _ _ _ _ _ HA'), (zsum_alter _ _ _ _ _ HD). simpl.
    rewrite sat_sub by lia. lia.
Qed.

Lemma land_length a d dmg fs : length (land a d dmg fs) = length fs.
Proof. unfold land. by rewrite !length_alter. Qed.

(** ** The loop *)

(** The chain's own reading of one iteration. *)
Inductive step_ok (r r' : ERRound) : option HitEvent -> Prop :=
| step_miss : r' = with_fight r (fighters r) (tickCount r + 1) -> step_ok r r' None
| step_hit a d dmg :
    legal (fighters r) a d dmg ->
    r' = with_fight r (land a d dmg (fighters r)) (tickCount r + 1) ->
    step_ok r r' (Some (mkHit (tickCount r) a d dmg)).

Lemma tick_once_ok r r' ev :
  ring_sound (fighters r) -> tick_once r = Continue r' ev -> step_ok r r' ev.
Proof.
  intros Hs. unfold tick_once. case_match; [done |].
  destruct (tickHash (seed r) (tickCount r)) as [h |]; [| done]. simpl.
  destruct (strike (fighters r) h) as [[[[a d] dmg] |] |] eqn:Hst; [| | done]; intros [= <- <-].
  - eapply step_hit; [by eapply strike_legal | done].
  - by apply step_miss.
Qed.

Lemma tick_once_threw r r' e : tick_once r = Threw r' e -> r' = with_fight r (fighters r) (tickCount r + 1).
Proof.
  unfold tick_once. case_match; [done |].
  destruct (tickHash (seed r) (tickCount r)) as [h |]; simpl; [| by intros [= <- <-]].
  destruct (strike (fighters r) h) as [[[[a d] dmg] |] |]; try done. by intros [= <- <-].
Qed.

(** Induction over the iterations of [tick], error or not. *)
Lemma tick_ind (P : ERRound -> list HitEvent -> Prop) :
  forall r, ring_sound (fighters r) -> P r [] ->
  (forall r1 evs r2 ev, ring_sound (fighters r1) -> P r1 evs -> step_ok r1 r2 ev -> P r2 (evs ++ option_list ev)) ->
  forall n r' evs err, tick r n = (r', evs, err) -> P r' evs.
Proof.
  intros r Hs H0 Hstep n.
  enough (Hgen : forall r1 pre, ring_sound (fighters r1) -> P r1 pre -> forall r' evs err,
           tick r1 n = (r', evs, err) -> P r' (pre ++ evs)).
  { intros r' evs err Ht. exact (Hgen r [] Hs H0 r' evs err Ht). }
  clear H0. induction n as [| n IH]; intros r1 pre Hs1 HP r' evs err; simpl.
  - intros [= <- <- _]. by rewrite app_nil_r.
  - destruct (tick_once r1) as [| r2 ev | rt e] eqn:Ho.
    + intros [= <- <- _]. by rewrite app_nil_r.
    + destruct (tick r2 n) as [[r3 evs3] err3] eqn:Ht. intros [= <- <- <-].
      pose proof (tick_once_ok _ _ _ Hs1 Ho) as Hok. rewrite app_assoc.
      refine (IH r2 (pre ++ option_list ev) _ _ _ _ _ Ht); [| by eapply Hstep].
      destruct Hok as [E | a d dmg Hl E]; rewrite E; simpl; [done |]. by apply land_props.
    + apply tick_once_threw in Ho. intros [= <- <- <-]. subst rt.
      exact (Hstep r1 pre _ None Hs1 HP (step_miss _ _ eq_refl)).
Qed.

Lemma tick_sound r n r' evs err :
  ring_sound (fighters r) -> tick r n = (r', evs, err) -> ring_sound (fighters r').
Proof.
  intros Hs. revert n r' evs err. apply (tick_ind (fun r' _ => ring_sound (fighters r'))); [done.. |].
  intros r1 evs r2 ev Hs1 _ [-> | a d dmg Hl ->]; simpl; [done | by apply land_props].
Qed.

(** ** Histories *)

(** What can happen to a round: entries at a fee of at most 100%, any number
    of ticks, extractions, and the settlement. *)
Inductive arena_step : ERRound -> ERRound -> Prop :=
| do_enter r w s gross feeBps r' :
    0 <= feeBps <= BPS -> enter r w s gross feeBps = Done r' -> arena_step r r'
| do_tick r n r' evs err : tick r n = (r', evs, err) -> arena_step r r'
| do_extract r w r' out : extract r w = Done (r', out) -> arena_step r r'
| do_settle r : arena_step r (settle r).1.

Definition key (f : ERFighter) : string * Side := (wallet f, side f).

Record round_ok (r : ERRound) : Prop := {
  ok_sound : ring_sound (fighters r);
  ok_seats : Z.of_nat (length (fighters r)) <= MAX_FIGHTERS;
  ok_keys : NoDup (key <$> fighters r);
  ok_clock : 0 <= tickCount r;
  ok_house : 0 <= penaltiesCollected r /\ 0 <= feesCollected r;
  ok_pot : pot r = zsum stake (fighters r);
  ok_value : value (fighters r) + penaltiesCollected r = pot r;
}.

Lemma new_ok s : round_ok (newRound s).
Proof. split; simpl; try lia; try done; by constructor. Qed.

Lemma enter_net gross feeBps :
  0 < gross -> 0 <= feeBps <= BPS -> 0 <= Z.quot (gross * feeBps) BPS <= gross.
Proof.
  unfold BPS. intros Hg [Hl Hu].
  pose proof (Z.mul_nonneg_nonneg gross feeBps ltac:(lia) Hl).
  pose proof (Z.mul_le_mono_nonneg_l feeBps 10000 gross ltac:(lia) Hu).
  rewrite Z.quot_div_nonneg by lia.
  split; [apply Z.div_pos; lia | apply Z.div_le_upper_bound; lia].
Qed.

Lemma enter_ok r w s gross feeBps r' :
  0 <= feeBps <= BPS -> round_ok r -> enter r w s gross feeBps = Done r' -> round_ok r'.
Proof.
  intros Hfee [Hs Hn Hk Hc [Hp Hf] Hpot Hv]. unfold enter. case_match; [done |]. zbool.
  pose proof (enter_net gross feeBps ltac:(lia) Hfee) as Hnet.
  set (fee := Z.quot (gross * feeBps) BPS) in *. clearbody fee.
  destruct (list_find _ _) as [[i f] |] eqn:Hfind.
  - apply list_find_Some in Hfind as (Hi & _ & _). intros [= <-].
    unfold value in *. split; simpl; rewrite ?length_alter; try lia.
    + apply Forall_alter_in; [done |]. intros x _ [? ?]. split; simpl; lia.
    + rewrite fmap_alter_same by done. done.
    + rewrite (zsum_alter _ _ _ _ _ Hi). simpl. lia.
    + unfold value. rewrite (zsum_alter _ _ _ _ _ Hi). simpl. lia.
  - apply list_find_None in Hfind. case_match; [done |]. zbool. intros [= <-].
    unfold value in *. split; simpl; rewrite ?length_app, ?zsum_app; simpl; try lia.
    + apply Forall_app. split; [done |]. repeat constructor; simpl; lia.
    + rewrite fmap_app. apply NoDup_app. split; [done |]. split; [| apply NoDup_singleton].
      intros k Hin ->%list_elem_of_singleton. apply list_elem_of_fmap in Hin as (x & E & Hx).
      rewrite Forall_forall in Hfind. apply (Hfind x Hx). unfold key in E. by simplify_eq/=.
    + unfold value. rewrite zsum_app. simpl. lia.
Qed.

Lemma step_ok_ok r r' ev : round_ok r -> step_ok r r' ev -> round_ok r'.
Proof.
  intros [Hs Hn Hk Hc [Hp Hf] Hpot Hv] [-> | a d dmg Hl ->]; split; simpl; try done; try lia.
  - by apply land_props.
  - by rewrite land_length.
  - unfold land. by rewrite !fmap_alter_same.
  - unfold land. by rewrite !zsum_alter_same.
  - destruct (land_props _ _ _ _ Hs Hl) as (_ & -> & _). done.
Qed.

Lemma tick_ok r n r' evs err : round_ok r -> tick r n = (r', evs, err) -> round_ok r'.
Proof.
  intros Hr. revert n r' evs err. apply (tick_ind (fun r' _ => round_ok r')); [by apply Hr | done |].
  intros r1 evs r2 ev _ H1 H2. by eapply step_ok_ok.
Qed.

Lemma extract_inv r w r' taken kept penalty :
  ring_sound (fighters r) -> 0 <= tickCount r -> extract r w = Done (r', (taken, kept, penalty)) ->
  exists i f, fighters r !! i = Some f /\ wallet f = w /\ dead f = false /\ 0 < hp f /\
    r' = mkRound (seed r) (alter (leave kept) i (fighters r)) (tickCount r) (pot r)
           (penaltiesCollected r + penalty) (feesCollected r) (winner r) /\
    taken = hp f /\ kept + penalty = taken /\ 0 <= penalty /\ penalty * 5 <= taken /\
    penalty = taken * extractPenaltyBps (Z.of_nat (length (fighters r))) (tickCount r) / BPS.
Proof.
  intros Hs Hc. unfold extract. destruct (list_find _ _) as [[i f] |] eqn:Hfind; [| done].
  apply list_find_Some in Hfind as (Hi & (Hw & Hd & Hh) & _).
  destruct (splitExtraction _ _ _) as [k p] eqn:Hsp. intros [= <- <- <- <-].
  destruct (split_eq (hp f) _ _ _ _ ltac:(lia) Hc Hsp) as (? & ? & ? & ?). by exists i, f.
Qed.

Lemma extract_ok r w r' out : round_ok r -> extract r w = Done (r', out) -> round_ok r'.
Proof.
  intros Hr. destruct out as [[taken kept] penalty]. pose proof Hr as [Hs Hn Hk Hc [Hp Hf] Hpot Hv].
  intros (i & f & Hi & _ & _ & Hh & -> & -> & Hsum & ? & ? & _)%extract_inv; [| done..].
  unfold value in *. split; simpl; rewrite ?length_alter; try done; try lia.
  - apply Forall_alter_in; [done |]. intros x Hx [? ?]. simplify_eq. split; simpl; lia.
  - by rewrite fmap_alter_same.
  - by rewrite zsum_alter_same.
  - unfold value. rewrite (zsum_alter _ _ _ _ _ Hi). simpl. lia.
Qed.

Lemma arena_step_ok r r' : round_ok r -> arena_step r r' -> round_ok r'.
Proof.
  intros Hr Hstep. revert Hr.
  destruct Hstep as [r w s g fee r' Hfee He | r n r' evs err Ht | r w r' out He | r]; intros Hr.
  - exact (enter_ok _ _ _ _ _ _ Hfee Hr He).
  - exact (tick_ok _ _ _ _ _ Hr Ht).
  - exact (extract_ok _ _ _ _ Hr He).
  - destruct Hr. by split.
Qed.

Lemma history_ok s r : rtc arena_step (newRound s) r -> round_ok r.
Proof.
  generalize (new_ok s). generalize (newRound s). intros r0 Hr Hrtc.
  induction Hrtc; eauto using arena_step_ok.
Qed.

(** ** The fight as a transition system *)

(** The specification [tick] implements: a run of steps, each a miss or a
    legal blow, with the blows reported in order. *)
Inductive fight : ERRound -> list HitEvent -> ERRound -> Prop :=
| fight_over r : fight r [] r
| fight_step r ev r1 evs r2 : step_ok r r1 ev -> fight r1 evs r2 -> fight r (option_list ev ++ evs) r2.

Lemma tick_fight r n r' evs err :
  ring_sound (fighters r) -> tick r n = (r', evs, err) -> fight r evs r'.
Proof.
  revert r r' evs err. induction n as [| n IH]; intros r r' evs err Hs; simpl.
  - intros [= <- <- _]. constructor.
  - destruct (tick_once r) as [| r1 ev | r1 e] eqn:Ho.
    + intros [= <- <- _]. constructor.
    + destruct (tick r1 n) as [[r2 evs2] err2] eqn:Ht. intros [= <- <- <-].
      pose proof (tick_once_ok _ _ _ Hs Ho) as Hok. econstructor; [exact Hok |].
      eapply IH; [| exact Ht]. destruct Hok as [E | a d dmg Hl E]; rewrite E; simpl; [done |].
      by apply land_props.
    + apply tick_once_threw in Ho. intros [= <- <- <-]. subst r1.
      change (@nil HitEvent) with (option_list (@None HitEvent) ++ []).
      econstructor; [by apply step_miss | constructor].
Qed.

Lemma fight_ring r evs r' :
  ring_sound (fighters r) -> fight r evs r' ->
  ring_sound (fighters r') /\ Z.of_nat (length evs) + ring (fighters r') <= ring (fighters r).
Proof.
  intros Hs Hf. induction Hf as [r | r ev r1 evs r2 Hok Hf IH]; [simpl; split; [done | lia] |].
  destruct Hok as [E | a d dmg Hl E]; rewrite E in IH; simpl in IH; [by apply IH |].
  destruct (land_props _ _ _ _ Hs Hl) as (Hs1 & _ & Hr). destruct (IH Hs1) as [? ?]. split; [done |].
  destruct Hl as (A & D & _ & _ & _ & _ & _ & _ & _ & _ & _ & Hdmg & _). simpl. lia.
Qed.

Lemma replay_hit r a d dmg :
  ring_sound (fighters r) -> legal (fighters r) a d dmg ->
  applyHitEvent (fighters r) (mkHit (tickCount r) a d dmg) = Done (land a d dmg (fighters r)).
Proof.
  intros Hs (A & D & HA & HD & Had & Ha & Hd & _ & _ & _ & _ & Hdmg & _).
  unfold applyHitEvent. simpl. rewrite HA, HD. f_equal. apply list_eq. intros i.
  rewrite land_lookup. assert (Z.to_nat a <> Z.to_nat d) by lia.
  destruct (decide (i = Z.to_nat d)) as [-> | Hi].
  - rewrite list_lookup_alter_eq, list_lookup_alter_ne, list_lookup_alter_eq, HD by done. simpl.
    rewrite decide_False by done. unfold take_blow. simpl. rewrite sat_sub by lia. done.
  - rewrite list_lookup_alter_ne by done. destruct (decide (i = Z.to_nat a)) as [-> | Hi'].
    + by rewrite list_lookup_alter_eq, list_lookup_alter_ne, HA by done.
    + rewrite !list_lookup_alter_ne by done. by destruct (fighters r !! i).
Qed.

Lemma fight_replay r evs r' :
  ring_sound (fighters r) -> fight r evs r' -> replay (fighters r) evs = Done (fighters r').
Proof.
  intros Hs Hf. induction Hf as [r | r ev r1 evs r2 Hok Hf IH]; [done |].
  destruct Hok as [E | a d dmg Hl E]; rewrite E in IH; simpl in *; [by apply IH |].
  rewrite (replay_hit _ _ _ _ Hs Hl). simpl. apply IH. by apply land_props.
Qed.

(** ** Totality *)

Lemma writeBigUInt64LE_ok v : 0 <= v < 2 ^ 64 -> exists c, writeBigUInt64LE v = Done c.
Proof. intros. unfold writeBigUInt64LE. case_match eqn:E; [eauto |]. exfalso. lia. Qed.

Lemma strike_total fs h :
  2 <= Z.of_nat (length fs) -> length h = 32%nat -> exists o, strike fs h = Done o.
Proof.
  intros Hn Hl. destruct (read_ok h 0 ltac:(lia)) as [u Hu]. destruct (read_ok h 4 ltac:(lia)) as [v Hv].
  unfold strike. rewrite (drawPair_eq _ _ _ _ Hn Hu Hv). simpl.
  pose proof (drawPair_inv _ _ _ _ (drawPair_eq _ _ _ _ Hn Hu Hv)) as (_ & Ha & Hd & _).
  set (d := if _ : bool then _ else _) in *. clearbody d.
  destruct (lookup_lt_is_Some_2 fs (Z.to_nat (u mod Z.of_nat (length fs))) ltac:(lia)) as [A ->].
  destruct (lookup_lt_is_Some_2 fs (Z.to_nat d) ltac:(lia)) as [D ->].
  repeat (case_match; [by eauto |]). destruct (rollOf_ok h Hl) as [roll ->]. simpl.
  case_match; eauto.
Qed.

Lemma tick_once_total r :
  0 <= tickCount r < 2 ^ 64 ->
  (Z.of_nat (length (fighters r)) < 2 /\ tick_once r = Break) \/
  (2 <= Z.of_nat (length (fighters r)) /\ exists r' ev, tick_once r = Continue r' ev /\
     tickCount r' = tickCount r + 1 /\ length (fighters r') = length (fighters r)).
Proof.
  intros Hc. unfold tick_once. case_match; zbool; [by left | right]. split; [done |].
  unfold tickHash. destruct (writeBigUInt64LE_ok _ Hc) as [c ->]. simpl.
  destruct (strike_total (fighters r) (sha256 (copy_padded 32 (seed r) ++ c))) as [o ->];
    [done | apply sha256_length |].
  destruct o as [[[a d] dmg] |]; do 2 eexists; (split; [reflexivity |]); simpl; rewrite ?land_length; done.
Qed.

Lemma tick_total r n :
  0 <= tickCount r -> tickCount r + Z.of_nat n <= 2 ^ 64 ->
  exists r' evs, tick r n = (r', evs, None) /\ length (fighters r') = length (fighters r) /\
    tickCount r' = tickCount r + (if Z.of_nat (length (fighters r)) <? 2 then 0 else Z.of_nat n).
Proof.
  revert r. induction n as [| n IH]; intros r H0 Hn.
  - exists r, []. repeat split. case_match; lia.
  - destruct (tick_once_total r ltac:(lia)) as [[Hlt E] | (Hge & r1 & ev & E & Hc & Hl)].
    + exists r, []. simpl. rewrite E. repeat split. rewrite (proj2 (Z.ltb_lt _ _)) by done. lia.
    + destruct (IH r1 ltac:(lia) ltac:(lia)) as (r2 & evs & Ht & Hl2 & Hc2).
      exists r2, (option_list ev ++ evs). simpl. rewrite E, Ht. repeat split; [congruence |].
      rewrite Hc2, Hc, Hl. rewrite (proj2 (Z.ltb_ge _ _)) by done. lia.
Qed.

Lemma tick_split m n r :
  tick r (m + n) =
  (let '(r1, evs1, err1) := tick r m in
   match err1 with
   | Some e => (r1, evs1, Some e)
   | None => let '(r2, evs2, err2) := tick r1 n in (r2, evs1 ++ evs2, err2)
   end).
Proof.
  revert r. induction m as [| m IH]; intros r; simpl.
  - by destruct (tick r n) as [[r2 evs2] err2].
  - destruct (tick_once r) as [| r1 ev | r1 e] eqn:Ho.
    + destruct n; simpl; [done |]. by rewrite Ho.
    + rewrite IH. destruct (tick r1 m) as [[r2 evs2] [e |]]; simpl; [done |].
      destruct (tick r2 n) as [[r3 evs3] err3]. by rewrite app_assoc.
    + done.
Qed.
End Laws.

(** ** Theorems *)

Section Theorems.
Context `{Digest}.

(** C1. Conservation. Over every history of entries (at a fee of at most
    100%), ticks, extractions and settlements, what the fighters hold plus
    what the house took is exactly what players were charged; no ring or
    bank is ever negative, the pot is the sum of the net stakes, at most 48
    seats are taken, and no wallet has two seats on one side. *)
Theorem fight_conserves s r :
  rtc arena_step (newRound s) r ->
  conservationHolds r = true /\ ring_sound (fighters r) /\ pot r = zsum stake (fighters r) /\
  Z.of_nat (length (fighters r)) <= MAX_FIGHTERS /\ NoDup (key <$> fighters r).
Proof.
  intros [Hs Hn Hk _ _ Hpot Hv]%history_ok. repeat split; try done.
  unfold conservationHolds, houseTook, grossDeposits. rewrite totalValue_eq. lia.
Qed.

(** C5. Every run of [tick] is a run of the fight's specification: each
    reported exchange is, at its moment, between two living fighters of
    different sides and different wallets, moves more than nothing and no
    more than the defender has left, and no more than the attacker has left
    unless the defender is down to dust. *)
Theorem tick_refines_fight r n r' evs err :
  ring_sound (fighters r) -> tick r n = (r', evs, err) -> fight r evs r'.
Proof. apply tick_fight. Qed.

(** The draw is uniform over ordered pairs of distinct slots: every such
    pair is chosen for exactly one residue of the attacker word modulo [n]
    and one residue of the defender word modulo [n - 1]. *)
Theorem draw_pair_uniform n a d :
  2 <= n -> 0 <= a < n -> 0 <= d < n -> a <> d ->
  exists x y, 0 <= x < n /\ 0 <= y < n - 1 /\
    forall h u v, readUInt32LE h 0 = Done u -> readUInt32LE h 4 = Done v ->
      (drawPair h n = Done (a, d) <-> u mod n = x /\ v mod (n - 1) = y).
Proof.
  intros Hn Ha Hd Hne. exists a, (if d <? a then d else d - 1). split; [done |].
  split; [destruct (Z.ltb_spec d a); lia |]. intros h u v Hu Hv.
  rewrite (drawPair_eq _ _ _ _ Hn Hu Hv).
  pose proof (Z.mod_pos_bound v (n - 1) ltac:(lia)).
  split.
  - intros E. injection E as E1 E2.
    destruct (Z.leb_spec (u mod n) (v mod (n - 1))); destruct (Z.ltb_spec d a); lia.
  - intros [-> ->]. do 2 f_equal.
    destruct (Z.ltb_spec d a); match goal with |- context [?x <=? ?y] => destruct (Z.leb_spec x y) end; lia.
Qed.

(** The fight is finite: the exchanges of any run of [tick] number at
    most the units that were in the ring, and what is left in the ring shows
    how many are still to come. *)
Theorem exchanges_bounded r n r' evs err :
  ring_sound (fighters r) -> tick r n = (r', evs, err) ->
  Z.of_nat (length evs) + ring (fighters r') <= ring (fighters r).
Proof. intros Hs Ht. eapply fight_ring; [exact Hs | by eapply tick_fight]. Qed.

(** C16. Replaying the captured hits on a copy of the starting ring gives the
    ring the fight ended with: what the canvas draws is what was fought. *)
Theorem hit_events_replay r n r' evs err :
  ring_sound (fighters r) -> computeHitEvents r n = (r', evs, err) ->
  replay (fighters r) evs = Done (fighters r').
Proof. intros Hs Ht. eapply fight_replay; [done | by eapply tick_fight]. Qed.

(** Catching up is cranking: ticking [m] steps and then [n] gives the
    round, the exchanges and the error of ticking [m + n] at once, however
    the steps are batched. *)
Theorem tick_batching m n r r1 evs1 :
  tick r m = (r1, evs1, None) ->
  tick r (m + n) = (let '(r2, evs2, err2) := tick r1 n in (r2, evs1 ++ evs2, err2)).
Proof. intros E. by rewrite tick_split, E. Qed.

(** [tick] returns: while the cursor fits a u64 no step throws, the
    cursor advances by exactly the steps asked for (by none when fewer than
    two fighters are in), and no fighter appears or vanishes. *)
Theorem tick_returns r n :
  0 <= tickCount r -> tickCount r + Z.of_nat n <= 2 ^ 64 ->
  exists r' evs, tick r n = (r', evs, None) /\ length (fighters r') = length (fighters r) /\
    tickCount r' = tickCount r + (if Z.of_nat (length (fighters r)) <? 2 then 0 else Z.of_nat n).
Proof. apply tick_total. Qed.

(** Extraction takes the whole ring of the first living fighter of the
    wallet, pays it and the house exactly that between them, and the
    house's part is the decaying penalty, never above a fifth; everyone else
    is untouched. With nothing to extract it throws. *)
Theorem extract_pays r w :
  ring_sound (fighters r) -> 0 <= tickCount r ->
  match extract r w with
  | Done (r', (taken, kept, penalty)) =>
      exists i f, fighters r !! i = Some f /\ wallet f = w /\ dead f = false /\ taken = hp f /\ 0 < taken /\
        fighters r' !! i = Some (mkFighter w (side f) true (stake f) 0 (banked f + kept)) /\
        (forall j, j <> i -> fighters r' !! j = fighters r !! j) /\
        kept + penalty = taken /\ 0 <= penalty /\ penalty * 5 <= taken /\
        penalty = taken * extractPenaltyBps (Z.of_nat (length (fighters r))) (tickCount r) / BPS /\
        penaltiesCollected r' = penaltiesCollected r + penalty
  | Throw e => e = NothingToExtract /\
      Forall (fun f => wallet f = w -> dead f = false -> hp f = 0) (fighters r)
  end.
Proof.
  intros Hs Hc. destruct (extract r w) as [[r' [[taken kept] penalty]] | e] eqn:He.
  - destruct (extract_inv _ _ _ _ _ _ Hs Hc He) as (i & f & Hi & <- & Hd & Hh & -> & -> & Hsum & Hp & Hp5 & Heq).
    exists i, f. simpl. rewrite list_lookup_alter_eq, Hi. repeat (split; [done |]).
    split; [| done]. intros j Hj. by rewrite list_lookup_alter_ne.
  - unfold extract in He. destruct (list_find _ _) as [[i f] |] eqn:Hf.
    + by destruct (splitExtraction _ _ _).
    + simplify_eq. split; [done |]. apply list_find_None in Hf.
      apply Forall_forall. intros f Hin Hw Hd. rewrite Forall_forall in Hf. unfold ring_sound in Hs.
      rewrite Forall_forall in Hs. destruct (Hs f Hin). specialize (Hf f Hin). simpl in Hf.
      destruct (Z.eq_dec (hp f) 0); [done |]. exfalso. apply Hf. repeat split; [done.. | lia].
Qed.

(** Entering takes the fee off the gross stake and credits the net to
    the wallet's own seat: a repeat entry on the same side tops its seat up
    and takes no new one, a first entry takes one, the fee is recorded on
    both paths, and it is refused only for a stake that is not positive or a
    board of 48 with no seat of the wallet's on that side. *)
Theorem enter_seats r w s gross feeBps :
  match enter r w s gross feeBps with
  | Done r' =>
      0 < gross /\
      pot r' + feesCollected r' = pot r + feesCollected r + gross /\
      feesCollected r' = feesCollected r + Z.quot (gross * feeBps) BPS /\
      length (fighters r') =
        (length (fighters r) + (if decide ((w, s) ∈ (key <$> fighters r)) then 0 else 1))%nat /\
      value (fighters r') = value (fighters r) + (gross - Z.quot (gross * feeBps) BPS)
  | Throw ZeroStake => gross <= 0
  | Throw RoundFull => MAX_FIGHTERS <= Z.of_nat (length (fighters r)) /\ (w, s) ∉ (key <$> fighters r)
  | Throw _ => False
  end.
Proof.
  unfold enter. destruct (Z.leb_spec gross 0); [done |]. destruct (list_find _ _) as [[i f] |] eqn:Hf.
  - apply list_find_Some in Hf as (Hi & [Hw Hsd] & _). simpl. rewrite length_alter.
    rewrite decide_True; [| apply list_elem_of_fmap; exists f; split; [by subst | by eapply list_elem_of_lookup_2]].
    unfold value. rewrite (zsum_alter _ _ _ _ _ Hi). simpl. repeat split; lia.
  - apply list_find_None in Hf.
    assert (Hnin : (w, s) ∉ (key <$> fighters r)).
    { intros (f & [= -> ->] & Hin)%list_elem_of_fmap. rewrite Forall_forall in Hf. by apply (Hf f Hin). }
    destruct (Z.leb_spec MAX_FIGHTERS (Z.of_nat (length (fighters r)))); [done |].
    simpl. rewrite decide_False by done. unfold value.
    rewrite length_app, zsum_app. simpl. repeat split; lia.
Qed.

(** [settle] names side A exactly when its total, ring and bank, is at
    least side B's, and moves nothing. *)
Theorem settle_majority r :
  let worth s := zsum (fun f => if decide (side f = s) then hp f + banked f else 0) (fighters r) in
  ((settle r).2 = side0 <-> worth side1 <= worth side0) /\
  winner (settle r).1 = Some (settle r).2 /\ fighters (settle r).1 = fighters r /\
  worth side0 + worth side1 = totalValue r.
Proof.
  intros worth.
  assert (Hv : forall s, side_value s (fighters r) = worth s).
  { intros s. apply (foldl_guarded_zsum (fun f => side f = s) (fun f => hp f + banked f)). }
  unfold settle. simpl. rewrite !Hv. split; [| split; [done | split; [done |]]].
  - destruct (Z.leb_spec (worth side1) (worth side0)); split; intros; try done; lia.
  - rewrite totalValue_eq. unfold worth, value. rewrite <- zsum_plus. apply zsum_ext.
    intros f _. destruct (side f); simpl; rewrite ?decide_True, ?decide_False by done; lia.
Qed.
End Theorems.

(** The penalty decays: at most 20%, exactly 20% at the opening bell,
    never rising as the cursor advances, and nothing from the horizon on. *)
Theorem extract_penalty_decays n c c' :
  0 <= c <= c' ->
  0 <= extractPenaltyBps n c' <= extractPenaltyBps n c /\ extractPenaltyBps n c <= 2000 /\
  extractPenaltyBps n 0 = 2000 /\ (penaltyHorizonSteps n <= c -> extractPenaltyBps n c = 0).
Proof.
  intros [Hc Hcc]. pose proof (bps_range n c Hc). pose proof (bps_range n c' ltac:(lia)).
  pose proof (bps_antitone n c c' Hcc). unfold EXTRACT_PENALTY_START_BPS in *.
  repeat split; try lia; [| apply bps_free].
  rewrite bps_eq. pose proof (horizon_pos n). rewrite Z.sub_0_r, Z.max_r by lia. apply Z.div_mul. lia.
Qed.

(** The horizon table is its formula: for every lineup of 2 to 48 fighters
    the entry is [25 * n^1.5] to the nearest step, and outside that range the
    nearest lineup's entry is used. *)
Theorem penalty_horizon_is_formula n :
  let m := Z.min (Z.max n 2) 48 in
  (2 * penaltyHorizonSteps n - 1) ^ 2 <= 2500 * m ^ 3 <= (2 * penaltyHorizonSteps n + 1) ^ 2.
Proof.
  intros m. replace (penaltyHorizonSteps n) with (penaltyHorizonSteps m).
  - pose proof horizon_formula_all as H. rewrite forallb_forall in H.
    specialize (H m). rewrite <- list_elem_of_In, elem_of_seqZ in H. specialize (H ltac:(lia)).
    unfold nearest_to_25_n_pow_1_5 in H. zbool.
    replace (m ^ 3) with (m * m * m) by ring. rewrite !Z.pow_2_r. lia.
  - unfold penaltyHorizonSteps, clamp, MAX_FIGHTERS. do 3 f_equal. lia.
Qed.

(** ** Witnesses *)

(** A concrete 32-byte digest to run the definitions with. *)
Definition toy_sha (m : list Z) : list Z :=
  resize 32 7 (imap (fun i b => (b * 37 + Z.of_nat i * 91 + zsum id m * 53) mod 256) (reverse m)).

Lemma toy_sha_length m : length (toy_sha m) = 32%nat.
Proof. apply length_resize. Qed.

Definition toy : Digest := {| sha256 := toy_sha; sha256_length := toy_sha_length |}.

Definition demo_ring : list ERFighter :=
  [mkFighter "ann" side0 false 9000 9000 0; mkFighter "bob" side1 false 8000 8000 0;
   mkFighter "ann" side1 false 7000 7000 0; mkFighter "cat" side0 false 6000 6000 0].

Definition demo_round : ERRound := mkRound [1; 2; 3] demo_ring 0 30000 0 0 None.

Definition final {A B C} (x : A * B * C) : A := x.1.1.
Definition events {A B C} (x : A * B * C) : B := x.1.2.

Example demo_fights : length (events (@tick toy demo_round 60)) = 30%nat.
Proof. vm_compute. reflexivity. Qed.

Lemma demo_sound : ring_sound (fighters demo_round).
Proof. repeat constructor; simpl; lia. Qed.

Lemma fight_conserves_witness : exists r,
  rtc (@arena_step toy) (newRound [1; 2; 3]) r /\ (conservationHolds r = true /\ 0 < houseTook r).
Proof.
  set (r1 := mkRound [1; 2; 3] [mkFighter "ann" side0 false 9900 9900 0] 0 9900 0 100 None).
  set (r2 := mkRound [1; 2; 3] [mkFighter "ann" side0 false 9900 9900 0; mkFighter "bob" side1 false 9900 9900 0]
               0 19800 0 200 None).
  set (r3 := final (@tick toy r2 5)).
  destruct (extract r3 "bob") as [[r4 out] |] eqn:He; [| by vm_compute in He].
  assert (Hh : rtc (@arena_step toy) (newRound [1; 2; 3]) r4).
  { apply rtc_l with r1; [by apply (do_enter (newRound [1; 2; 3]) "ann" side0 10000 100); [unfold BPS; lia |] |].
    apply rtc_l with r2; [by apply (do_enter r1 "bob" side1 10000 100); [unfold BPS; lia |] |].
    apply rtc_l with r3; [by apply (do_tick r2 5 r3 (events (@tick toy r2 5)) None); vm_compute |].
    apply rtc_l with r4; [by apply (do_extract r3 "bob" r4 out) | constructor]. }
  exists r4. split; [exact Hh |]. split; [exact (proj1 (fight_conserves _ _ Hh)) |].
  vm_compute in He. injection He as <- _. vm_compute. reflexivity.
Defined.

Lemma tick_refines_fight_witness :
  ring_sound (fighters demo_round) /\
  fight demo_round (events (@tick toy demo_round 60)) (final (@tick toy demo_round 60)).
Proof.
  split; [exact demo_sound |].
  apply (tick_refines_fight (H := toy) demo_round 60 _ _ None); [exact demo_sound | vm_compute; reflexivity].
Defined.

Lemma draw_pair_uniform_witness : exists x y, 0 <= x < 4 /\ 0 <= y < 3 /\
  forall h u v, readUInt32LE h 0 = Done u -> readUInt32LE h 4 = Done v ->
    (drawPair h 4 = Done (2, 1) <-> u mod 4 = x /\ v mod (4 - 1) = y).
Proof. apply (draw_pair_uniform 4 2 1); lia. Defined.

Lemma exchanges_bounded_witness : 30 + ring (fighters (final (@tick toy demo_round 60))) <= 30000.
Proof.
  apply (exchanges_bounded (H := toy) demo_round 60 _ (events (@tick toy demo_round 60)) None);
    [exact demo_sound | vm_compute; reflexivity].
Defined.

Lemma hit_events_replay_witness :
  replay demo_ring (events (@computeHitEvents toy demo_round 60)) =
  Done (fighters (final (@computeHitEvents toy demo_round 60))).
Proof.
  apply (hit_events_replay (H := toy) demo_round 60 _ _ None); [exact demo_sound | vm_compute; reflexivity].
Defined.

Lemma tick_batching_witness :
  @tick toy demo_round (20 + 40) =
  (let '(r2, evs2, err2) := @tick toy (final (@tick toy demo_round 20)) 40 in
   (r2, events (@tick toy demo_round 20) ++ evs2, err2)).
Proof. apply (tick_batching (H := toy)). vm_compute. reflexivity. Defined.

Lemma tick_returns_witness : exists r' evs, @tick toy demo_round 60 = (r', evs, None) /\
  length (fighters r') = 4%nat /\ tickCount r' = 60.
Proof. apply (tick_returns (H := toy) demo_round 60); simpl; lia. Defined.

Lemma extract_pays_witness :
  match extract demo_round "ann" with
  | Done (_, (taken, kept, penalty)) => kept + penalty = taken /\ penalty * 5 <= taken
  | Throw _ => False
  end.
Proof.
  pose proof (extract_pays demo_round "ann" demo_sound ltac:(simpl; lia)) as Hp.
  destruct (extract demo_round "ann") as [[r' [[taken kept] penalty]] | e] eqn:He; [| by vm_compute in He].
  destruct Hp as (i & f & _ & _ & _ & _ & _ & _ & _ & Hs & _ & H5 & _). split; assumption.
Defined.

Lemma extract_penalty_decays_witness :
  0 <= extractPenaltyBps 8 700 <= extractPenaltyBps 8 100 /\ extractPenaltyBps 8 100 <= 2000 /\
  extractPenaltyBps 8 0 = 2000 /\ (penaltyHorizonSteps 8 <= 100 -> extractPenaltyBps 8 100 = 0).
Proof. apply (extract_penalty_decays 8 100 700). lia. Defined.
