(* ===== verification/Chain.v ===== *)
(** * The chain's clock and the shared contract

    The phase codes and clock rules of [er-demo/src/chain/constants.ts], and
    the data and money arithmetic of [er-demo/src/v2/contract.ts] that every
    view, policy and keeper module is written against. *)
From S2P Require Import Prelude JsNum ErSim.

(** ** [chain/constants.ts] *)

(** The program's phase codes, and their names. *)
Definition Phase_Lobby : Z := 0.
Definition Phase_Drawing : Z := 1.
Definition Phase_Fight : Z := 2.
Definition Phase_Settled : Z := 3.
Definition Phase_Abandoned : Z := 4.

Inductive PhaseName : Type := Lobby | Drawing | Fight | Settled | Abandoned.

#[global] Instance PhaseName_eq_dec : EqDecision PhaseName.
Proof. solve_decision. Defined.

Definition PHASE_NAME : list PhaseName := [Lobby; Drawing; Fight; Settled; Abandoned].

Definition MIN_RETAINED_ROUNDS : Z := 20.
Definition STEPS_PER_FIGHTER_PER_SECOND : Z := 2.
Definition MAX_STEPS_PER_CALL : Z := 3000.
Definition FIGHT_TIMEOUT_SECONDS : Z := 180.
Definition MIN_LOBBY_SECONDS : Z := 20.
Definition MAX_LOBBY_SECONDS : Z := 604800.
Definition DEFAULT_LOBBY_SECONDS : Z := 60.

Definition stepsPerSecond (fighterCount : Z) : Z := fighterCount * STEPS_PER_FIGHTER_PER_SECOND.

Definition lobbyIsOpen (lobbyClosesAtSec nowSec : num) : bool := ltb (floor nowSec) lobbyClosesAtSec.

Definition lobbyIsDead (fighterCount : Z) (lobbyClosesAtSec nowSec : num) : bool :=
  negb (lobbyIsOpen lobbyClosesAtSec nowSec) && (fighterCount <? 2).

Definition canonicalCursor (fightStartedAtSec : num) (fighterCount : Z) (nowSec : num) : num :=
  let elapsed := max (of_Z 0) (sub (floor nowSec) fightStartedAtSec) in
  mul (min elapsed (of_Z FIGHT_TIMEOUT_SECONDS)) (of_Z (stepsPerSecond fighterCount)).

Definition finalCursor (fighterCount : Z) : Z := FIGHT_TIMEOUT_SECONDS * stepsPerSecond fighterCount.

(** ** [v2/contract.ts]: rounds *)

Record RoundPlayer : Type := mkPlayer {
  rp_wallet : string;
  rp_short : string;
  rp_side : Side;
  rp_stake : Z;
  rp_final : Z;
  rp_pnl : Z;
  rp_dead : bool;
  rp_isYou : bool;
}.

Record RoundSummary : Type := mkSummary {
  rs_roundNo : Z;
  rs_phase : PhaseName;
  rs_winner : option Side;
  rs_pot : Z;
  rs_fighterCount : Z;
  rs_tickCount : Z;
  rs_penaltiesCollected : Z;
  rs_feesCollected : Z;
  rs_players : list RoundPlayer;
}.

(** ** [v2/contract.ts]: money *)

Definition UNITS_PER_USD : Z := 1000000.
Definition FEE_BPS : Z := 100.
Definition STAKE_PRESETS : list Z := [5; 20; 50; 100].
Definition STAKE_CAP_USD : num := of_Z 100.
(** [0.01] *)
Definition MIN_STAKE_USD : num := of_ratio (1 * one) 100.
Definition ENTRY_CLOSE_GUARD_MS : num := of_Z 2000.

Record FeeRate : Type := mkFee { bps : Z; known : bool }.

Definition feeRate (chainFeeBps : option Z) : FeeRate :=
  match chainFeeBps with None => mkFee FEE_BPS false | Some b => mkFee b true end.

Definition feeOn (stakeUnits : Z) (fee : FeeRate) : Z := Z.quot (stakeUnits * bps fee) 10000.

Definition unitsToUsd (units : Z) : num := div (of_Z units) (of_Z UNITS_PER_USD).

(** [BigInt] throws on a number that is not finite. *)
Definition usdToUnits (usd : num) : outcome js_error Z :=
  to_bigint (round (mul usd (of_Z UNITS_PER_USD))).

(** The lobby's entry window, over the phase and the deadline of the round on
    screen ([None]: no round, or no deadline known). *)
Definition entriesOpen (live : option (PhaseName * option num)) (nowMs : num) : bool :=
  match live with
  | Some (Lobby, None) => true
  | Some (Lobby, Some closes) => ltb (add nowMs ENTRY_CLOSE_GUARD_MS) closes
  | _ => false
  end.

Definition entrySecondsLeft (live : option (PhaseName * option num)) (nowMs : num) : option num :=
  match live with
  | Some (Lobby, Some closes) => Some (max (of_Z 0) (ceil (div (sub closes nowMs) (of_Z 1000))))
  | _ => None
  end.

(** ** Laws *)

Lemma lobby_open_int closes now : safe closes -> lobbyIsOpen (of_Z closes) now = ltb now (of_Z closes).
Proof. apply floor_lt_int. Qed.

Lemma min_stake_double : is_double MIN_STAKE_USD.
Proof. apply of_ratio_double. lia. Qed.

Lemma stake_cap_double : is_double STAKE_CAP_USD.
Proof. apply of_Z_double. Qed.

#[export] Hint Resolve min_stake_double stake_cap_double : arena.

(** The clock's cursor in whole numbers. *)
Lemma canonicalCursor_int s n now t :
  0 <= s < 2 ^ 40 -> 0 <= t < 2 ^ 40 -> 0 <= n <= MAX_FIGHTERS -> floor now = of_Z t ->
  canonicalCursor (of_Z s) n now = of_Z (Z.min (Z.max 0 (t - s)) FIGHT_TIMEOUT_SECONDS * stepsPerSecond n).
Proof.
  intros Hs Ht Hn Hfl. unfold canonicalCursor, stepsPerSecond, STEPS_PER_FIGHTER_PER_SECOND,
    FIGHT_TIMEOUT_SECONDS, MAX_FIGHTERS in *. rewrite Hfl.
  autorewrite with js. done.
Qed.

(** Dollars and back: the two roundings cancel for every amount below 2^50 units
    (a billion dollars). *)
Lemma units_roundtrip u : 0 <= u <= 2 ^ 50 -> usdToUnits (unitsToUsd u) = Done u.
Proof.
  intros Hu. pose proof one_pos as H1. pose proof overflow_big as Hov.
  unfold unitsToUsd, usdToUnits, UNITS_PER_USD.
  rewrite (of_Z_exact u), (of_Z_exact 1000000) by (unfold safe; lia). simpl div.
  rewrite (proj2 (Z.eqb_neq _ _)) by lia. rewrite Z.sgn_pos, Z.abs_eq, Z.mul_1_l by lia.
  unfold of_ratio at 1.
  assert (E : rnd (u * one * one) (1000000 * one) = rnd (u * one) 1000000) by (apply rnd_scale; lia).
  rewrite E. clear E. set (x := rnd (u * one) 1000000).
  assert (Hx0 : 0 <= x) by (apply rnd_nonneg; nia).
  assert (Hx1 : x <= u * one).
  { apply rnd_le; [lia | apply rnd_int; lia | nia]. }
  pose proof (rnd_err (u * one) 1000000 ltac:(nia) ltac:(lia)) as Ex. fold x in Ex.
  rewrite mk_fin by nia. simpl mul. unfold of_ratio.
  replace (rnd (x * (1000000 * one)) one) with (rnd (x * 1000000) 1)
    by (rewrite <- (rnd_scale (x * 1000000) 1 one) by lia; f_equal; ring).
  set (y := rnd (x * 1000000) 1).
  pose proof (rnd_err (x * 1000000) 1 ltac:(nia) ltac:(lia)) as Ey. fold y in Ey.
  assert (Hy0 : 0 <= y) by (apply rnd_nonneg; nia).
  assert (HA : 0 <= u * one <= 2 ^ 50 * one) by (split; [apply Z.mul_nonneg_nonneg | apply Z.mul_le_mono_nonneg_r]; lia).
  assert (Hbig : 2 ^ 40 <= one) by (rewrite one_pow; apply Z.pow_le_mono_r; lia).
  assert (Hclose : 2 * Z.abs (y - u * one) < one).
  { clearbody x y. destruct (Z.max_spec (2 ^ 52 * 1000000) (u * one)) as [[_ M] | [_ M]]; rewrite M in Ex;
    destruct (Z.max_spec (2 ^ 52 * 1) (x * 1000000)) as [[_ N] | [_ N]]; rewrite N in Ey;
    generalize dependent (u * one); intros A **; lia. }
  rewrite mk_fin by nia. simpl round. unfold to_bigint.
  assert (Hq : (2 * y + one) / (2 * one) = u).
  { symmetry. apply Z.div_unique with (2 * y + one - 2 * one * u); lia. }
  rewrite Hq, Z.mod_mul, Z.div_mul by lia. done.
Qed.

(** Dollars round trip: every amount of units up to 2^50, shown as dollars
    (a double division) and typed back (a double multiplication rounded to the
    nearest whole number), is the amount of units it started as. *)
Theorem usd_units_roundtrip u : 0 <= u <= 2 ^ 50 -> usdToUnits (unitsToUsd u) = Done u.
Proof. apply units_roundtrip. Qed.

Lemma usd_units_roundtrip_witness : usdToUnits (unitsToUsd 37419200) = Done 37419200.
Proof. apply usd_units_roundtrip. lia. Defined.

(** The keeper's cursor is the chain's clock: with whole-second times it
    is nothing before the bell, advances by exactly [stepsPerSecond] each second
    after it, never goes back, and stands at [finalCursor] from the timeout on. *)
Theorem canonical_cursor_clock s n t t' :
  0 <= s < 2 ^ 40 -> 0 <= t <= t' -> t' < 2 ^ 40 -> 0 <= n <= MAX_FIGHTERS ->
  exists c c', canonicalCursor (of_Z s) n (of_Z t) = of_Z c /\ canonicalCursor (of_Z s) n (of_Z t') = of_Z c' /\
    0 <= c <= c' /\ c' <= finalCursor n /\
    (t <= s -> c = 0) /\
    (s <= t -> t' <= s + FIGHT_TIMEOUT_SECONDS -> c' - c = (t' - t) * stepsPerSecond n) /\
    (s + FIGHT_TIMEOUT_SECONDS <= t' -> c' = finalCursor n).
Proof.
  intros Hs Ht Ht' Hn. exists (Z.min (Z.max 0 (t - s)) FIGHT_TIMEOUT_SECONDS * stepsPerSecond n),
    (Z.min (Z.max 0 (t' - s)) FIGHT_TIMEOUT_SECONDS * stepsPerSecond n).
  rewrite !(canonicalCursor_int _ _ _ t), (canonicalCursor_int _ _ _ t') by (try apply floor_int; unfold safe; lia).
  unfold finalCursor, stepsPerSecond, STEPS_PER_FIGHTER_PER_SECOND, FIGHT_TIMEOUT_SECONDS in *.
  split_and!; try done; try (intros; rewrite ?Z.max_r, ?Z.min_l, ?Z.min_r, ?Z.max_l by lia; lia); nia.
Qed.

Lemma canonical_cursor_clock_witness :
  exists c c', canonicalCursor (of_Z 1000) 10 (of_Z 990) = of_Z c /\
    canonicalCursor (of_Z 1000) 10 (of_Z 1180) = of_Z c' /\ 0 <= c <= c' /\ c' <= finalCursor 10 /\
    (990 <= 1000 -> c = 0) /\
    (1000 <= 990 -> 1180 <= 1000 + FIGHT_TIMEOUT_SECONDS -> c' - c = (1180 - 990) * stepsPerSecond 10) /\
    (1000 + FIGHT_TIMEOUT_SECONDS <= 1180 -> c' = finalCursor 10).
Proof. apply (canonical_cursor_clock 1000 10 990 1180); unfold MAX_FIGHTERS; lia. Defined.
