(* ===== verification/KeeperConfig.v ===== *)
(** * The keeper's configuration

    [er-demo/scripts/keeper/config.ts]: reading the environment, the derived
    constants, and the combinations refused at boot.  An environment variable
    is [None] when it is unset or empty and otherwise the number its text
    parses to ([Number(raw)], [NaN] for text that is no number). *)
From S2P Require Import Prelude JsNum ErSim Chain.

Definition CLOCK_SKEW_MARGIN_SECONDS : Z := 2.
Definition MIN_FIGHTERS_TO_FIGHT : Z := 2.
Definition ERROR_BACKOFF_MAX_SECONDS : Z := 30.
Definition HOUSE_WALLET_COUNT_MAX : Z := 64.

(** The environment variables the modelled knobs read. *)
Record Env : Type := mkEnv {
  KEEPER_HOLD_OPEN_LOBBY_SECONDS : option num;
  KEEPER_REAL_PLAYER_GRACE_SECONDS : option num;
  KEEPER_HOUSE_ARRIVAL_TAIL_SECONDS : option num;
  KEEPER_ROUND_RETENTION : option num;
  KEEPER_MAX_BURN_SOL_PER_ROUND : option num;
  KEEPER_SWEEP_GAP_STOP_ROUNDS : option num;
  KEEPER_STRANDED_ALLOWANCE_ROUNDS : option num;
  KEEPER_LOOP_STALL_PUBLISH_SECONDS : option num;
  KEEPER_LOOP_STALL_EXIT_SECONDS : option num;
  KEEPER_HOUSE_WALLET_COUNT : option num;
  KEEPER_HOUSE_BOARD_TARGET : option num;
  KEEPER_HOUSE_DISPLACEMENT : option num;
  KEEPER_HOUSE_STAKE_MIN_USD : option num;
  KEEPER_HOUSE_STAKE_MAX_USD : option num;
  KEEPER_HOUSE_FILL_LEAD_SECONDS : option num;
}.

Record Config : Type := mkConfig {
  HOLD_OPEN_LOBBY_SECONDS : num;
  REAL_PLAYER_GRACE_SECONDS : num;
  HOUSE_ARRIVAL_TAIL_SECONDS : num;
  ROUND_RETENTION : num;
  MAX_BURN_LAMPORTS_PER_ROUND : num;
  SWEEP_GAP_STOP_ROUNDS : num;
  STRANDED_ALLOWANCE_ROUNDS : num;
  LOOP_STALL_PUBLISH_SECONDS : num;
  LOOP_STALL_EXIT_SECONDS : num;
  HOUSE_WALLET_COUNT : Z;
  HOUSE_BOARD_TARGET : Z;
  HOUSE_DISPLACEMENT : Z;
  HOUSE_STAKE_MIN_USD : Z;
  HOUSE_STAKE_MAX_USD : Z;
}.

(** Why the process refuses to boot. *)
Inductive config_error : Type :=
| NotPositive
| NotWholeAtLeast (floor : Z)
| HoldOpenOutOfRange
| GraceBelowLobbyFloor
| GraceAboveLobbyCeiling
| TailNotInsideGrace
| RetentionBelowFloor
| BurnBrakeMisconfigured
| SweepGapInsideRetention
| AllowanceNotWhole
| StallExitNotAfterPublish
| StallInsideBackoff
| TailInsideSkewMargin
| TooManyWallets
| StakeBandInverted
| PeakAboveWallets
| RetiredKnob.

Section Boot.
Open Scope js_scope.

Definition envNumber (raw : option num) (fallback : num) : outcome config_error num :=
  match raw with
  | None => Done fallback
  | Some parsed => if negb (is_finite parsed) || leb parsed (of_Z 0) then Throw NotPositive else Done parsed
  end.

(** A whole number is returned as the integer it is. *)
Definition envInt (raw : option num) (fallback floor : Z) : outcome config_error Z :=
  match raw with
  | None => Done fallback
  | Some parsed =>
      if negb (is_integer parsed) || ltb parsed (of_Z floor) then Throw (NotWholeAtLeast floor)
      else match to_bigint parsed with Done z => Done z | Throw _ => Throw (NotWholeAtLeast floor) end
  end.

(** [if (bad) throw]. *)
Definition refuse (bad : bool) (e : config_error) : outcome config_error unit :=
  if bad then Throw e else Done tt.

Definition BURN_SAMPLE_ROUNDS (c : Config) : num := ROUND_RETENTION c.

Definition BURN_ARM_AFTER_ROUNDS (retention : num) : num := add (mul (of_Z 2) retention) (of_Z 5).

Definition PEAK_HOUSE_FIGHTERS (target displacement : Z) : Z :=
  Z.max MIN_FIGHTERS_TO_FIGHT (target - displacement).

(** [Math.max(4, Math.ceil(4 * grace / MIN_LOBBY_SECONDS))] *)
Definition REAL_SEATS_RESERVED (c : Config) : num :=
  max (of_Z 4) (ceil (div (mul (of_Z 4) (REAL_PLAYER_GRACE_SECONDS c)) (of_Z MIN_LOBBY_SECONDS))).

(** The knobs, each with the reader and the default of its constant. *)
Definition knob_hold (e : Env) := envNumber (KEEPER_HOLD_OPEN_LOBBY_SECONDS e) (of_Z 3600).
Definition knob_grace (e : Env) := envNumber (KEEPER_REAL_PLAYER_GRACE_SECONDS e) (of_Z 45).
Definition knob_tail (e : Env) := envNumber (KEEPER_HOUSE_ARRIVAL_TAIL_SECONDS e) (of_Z 5).
Definition knob_retention (e : Env) := envNumber (KEEPER_ROUND_RETENTION e) (of_Z MIN_RETAINED_ROUNDS).
(** [0.005] SOL; the constant keeps it as whole lamports. *)
Definition knob_burn (e : Env) := envNumber (KEEPER_MAX_BURN_SOL_PER_ROUND e) (of_ratio (5 * one) 1000).
Definition knob_gap (e : Env) := envNumber (KEEPER_SWEEP_GAP_STOP_ROUNDS e) (of_Z 25).
Definition knob_allowance (e : Env) := envNumber (KEEPER_STRANDED_ALLOWANCE_ROUNDS e) (of_Z 25).
Definition knob_stall_publish (e : Env) := envNumber (KEEPER_LOOP_STALL_PUBLISH_SECONDS e) (of_Z 300).
Definition knob_stall_exit (e : Env) := envNumber (KEEPER_LOOP_STALL_EXIT_SECONDS e) (of_Z 600).
Definition knob_wallets (e : Env) := envInt (KEEPER_HOUSE_WALLET_COUNT e) 10 2.
Definition knob_target (e : Env) := envInt (KEEPER_HOUSE_BOARD_TARGET e) 10 1.
Definition knob_displacement (e : Env) := envInt (KEEPER_HOUSE_DISPLACEMENT e) 1 0.
Definition knob_stake_min (e : Env) := envInt (KEEPER_HOUSE_STAKE_MIN_USD e) 5 1.
Definition knob_stake_max (e : Env) := envInt (KEEPER_HOUSE_STAKE_MAX_USD e) 20 1.

(** The combinations refused, in file order. *)
Definition refuse_hold (hold : num) :=
  refuse (ltb hold (of_Z MIN_LOBBY_SECONDS) || ltb (of_Z MAX_LOBBY_SECONDS) hold) HoldOpenOutOfRange.
Definition refuse_grace_floor (grace : num) := refuse (ltb grace (of_Z MIN_LOBBY_SECONDS)) GraceBelowLobbyFloor.
Definition refuse_grace_ceiling (grace : num) := refuse (ltb (of_Z MAX_LOBBY_SECONDS) grace) GraceAboveLobbyCeiling.
Definition refuse_tail (grace tail : num) := refuse (leb grace tail) TailNotInsideGrace.
Definition refuse_retention (retention : num) :=
  refuse (negb (is_integer retention) || ltb retention (of_Z MIN_RETAINED_ROUNDS)) RetentionBelowFloor.
Definition refuse_burn (retention : num) :=
  refuse (ltb (sub (BURN_ARM_AFTER_ROUNDS retention) retention) retention) BurnBrakeMisconfigured.
Definition refuse_gap (gap retention : num) :=
  refuse (negb (is_integer gap) || leb gap retention) SweepGapInsideRetention.
Definition refuse_allowance (allowance : num) :=
  refuse (negb (is_integer allowance) || ltb allowance (of_Z 0)) AllowanceNotWhole.
Definition refuse_stall_order (publish exit : num) := refuse (leb exit publish) StallExitNotAfterPublish.
Definition refuse_stall_floor (publish : num) :=
  refuse (leb publish (of_Z ERROR_BACKOFF_MAX_SECONDS)) StallInsideBackoff.
Definition refuse_tail_skew (tail : num) :=
  refuse (leb tail (of_Z CLOCK_SKEW_MARGIN_SECONDS)) TailInsideSkewMargin.
Definition refuse_wallets (wallets : Z) := refuse (HOUSE_WALLET_COUNT_MAX <? wallets) TooManyWallets.
Definition refuse_stake_band (lo hi : Z) := refuse (hi <? lo) StakeBandInverted.
Definition refuse_peak (wallets target displacement : Z) :=
  refuse (wallets <? PEAK_HOUSE_FIGHTERS target displacement) PeakAboveWallets.
Definition refuse_retired (e : Env) :=
  refuse (match KEEPER_HOUSE_FILL_LEAD_SECONDS e with Some _ => true | None => false end) RetiredKnob.

(** Loading the module: the first refusal in file order wins. *)
Definition boot (e : Env) : outcome config_error Config :=
  let! hold := knob_hold e in
  let! _ := refuse_hold hold in
  let! grace := knob_grace e in
  let! tail := knob_tail e in
  let! _ := refuse_grace_floor grace in
  let! _ := refuse_grace_ceiling grace in
  let! _ := refuse_tail grace tail in
  let! retention := knob_retention e in
  let! _ := refuse_retention retention in
  let! burn := knob_burn e in
  let! _ := refuse_burn retention in
  let! gap := knob_gap e in
  let! _ := refuse_gap gap retention in
  let! allowance := knob_allowance e in
  let! _ := refuse_allowance allowance in
  let! publish := knob_stall_publish e in
  let! exit := knob_stall_exit e in
  let! _ := refuse_stall_order publish exit in
  let! _ := refuse_stall_floor publish in
  let! _ := refuse_tail_skew tail in
  let! wallets := knob_wallets e in
  let! _ := refuse_wallets wallets in
  let! target := knob_target e in
  let! displacement := knob_displacement e in
  let! stake_min := knob_stake_min e in
  let! stake_max := knob_stake_max e in
  let! _ := refuse_stake_band stake_min stake_max in
  let! _ := refuse_peak wallets target displacement in
  let! _ := refuse_retired e in
  Done (mkConfig hold grace tail retention (round (mul burn (of_Z 1000000000))) gap allowance publish exit
          wallets target displacement stake_min stake_max).
End Boot.

(** ** What a keeper that booted can rely on *)

Record config_ok (c : Config) : Prop := {
  grace_floor : leb (of_Z MIN_LOBBY_SECONDS) (REAL_PLAYER_GRACE_SECONDS c) = true;
  grace_ceiling : leb (REAL_PLAYER_GRACE_SECONDS c) (of_Z MAX_LOBBY_SECONDS) = true;
  tail_inside : ltb (HOUSE_ARRIVAL_TAIL_SECONDS c) (REAL_PLAYER_GRACE_SECONDS c) = true;
  tail_floor : ltb (of_Z CLOCK_SKEW_MARGIN_SECONDS) (HOUSE_ARRIVAL_TAIL_SECONDS c) = true;
  retention_floor : is_integer (ROUND_RETENTION c) = true /\
    leb (of_Z MIN_RETAINED_ROUNDS) (ROUND_RETENTION c) = true;
  gap_beyond_retention : is_integer (SWEEP_GAP_STOP_ROUNDS c) = true /\
    ltb (ROUND_RETENTION c) (SWEEP_GAP_STOP_ROUNDS c) = true;
  allowance_positive : is_integer (STRANDED_ALLOWANCE_ROUNDS c) = true /\
    ltb (of_Z 0) (STRANDED_ALLOWANCE_ROUNDS c) = true;
  stall_order : ltb (of_Z ERROR_BACKOFF_MAX_SECONDS) (LOOP_STALL_PUBLISH_SECONDS c) = true /\
    ltb (LOOP_STALL_PUBLISH_SECONDS c) (LOOP_STALL_EXIT_SECONDS c) = true;
  wallets_range : 2 <= HOUSE_WALLET_COUNT c <= HOUSE_WALLET_COUNT_MAX;
  target_floor : 1 <= HOUSE_BOARD_TARGET c;
  displacement_floor : 0 <= HOUSE_DISPLACEMENT c;
  stake_band : 1 <= HOUSE_STAKE_MIN_USD c <= HOUSE_STAKE_MAX_USD c;
  peak_staffed : PEAK_HOUSE_FIGHTERS (HOUSE_BOARD_TARGET c) (HOUSE_DISPLACEMENT c) <= HOUSE_WALLET_COUNT c;
}.

Lemma envNumber_done raw fallback x :
  is_finite fallback = true -> ltb (of_Z 0) fallback = true ->
  envNumber raw fallback = Done x -> is_finite x = true /\ ltb (of_Z 0) x = true.
Proof.
  intros Hf Hp. unfold envNumber. destruct raw as [p |]; [| by intros [= <-]].
  destruct (is_finite p) eqn:E; simpl; [| done]. destruct (leb p (of_Z 0)) eqn:L; [done |].
  intros [= <-]. split; [done |]. destruct p; try done. rewrite of_Z_exact in * by (unfold safe; lia).
  rewrite leb_fin in L. simpl in *. lia.
Qed.

Lemma envInt_done raw fallback floor z :
  safe floor -> floor <= fallback -> envInt raw fallback floor = Done z -> floor <= z.
Proof.
  intros Hs Hf. unfold envInt. destruct raw as [p |]; [| by intros [= <-]].
  destruct p as [| s | m]; [done.. |]. simpl. destruct (Z.eqb_spec (m mod one) 0) as [E |]; [| done]. simpl.
  rewrite of_Z_exact by done. simpl. destruct (Z.ltb_spec m (floor * one)); [done |]. intros [= <-].
  apply Z.div_le_lower_bound; [apply one_pos | lia].
Qed.

(** [boot] down to its readers and refusals. *)
Ltac unfold_boot H :=
  unfold boot, knob_hold, knob_grace, knob_tail, knob_retention, knob_burn, knob_gap, knob_allowance,
    knob_stall_publish, knob_stall_exit, knob_wallets, knob_target, knob_displacement, knob_stake_min, knob_stake_max,
    refuse_hold, refuse_grace_floor, refuse_grace_ceiling, refuse_tail, refuse_retention, refuse_burn, refuse_gap,
    refuse_allowance, refuse_stall_order, refuse_stall_floor, refuse_tail_skew, refuse_wallets, refuse_stake_band,
    refuse_peak, refuse_retired in H.

(** Peel one step of [boot]: a knob read or a refusal. *)
Ltac peel_boot H :=
  match type of H with
  | outcome_bind (refuse ?b _) _ = Done _ =>
      let E := fresh "Hno" in destruct b eqn:E; [discriminate H | simpl in H]
  | outcome_bind ?m _ = Done _ =>
      let E := fresh "Hread" in destruct m eqn:E; [simpl in H | discriminate H]
  end.

Lemma ge_of_not_ltb x y : is_finite x = true -> is_finite y = true -> ltb x y = false -> leb y x = true.
Proof. intros. apply not_ltb; [by apply finite_nan | by apply finite_nan | done]. Qed.

Lemma gt_of_not_leb x y : is_finite x = true -> is_finite y = true -> leb x y = false -> ltb y x = true.
Proof. destruct x, y; try done. rewrite leb_fin. simpl. lia. Qed.

Lemma knob_read raw fallback x :
  safe fallback -> 0 < fallback -> envNumber raw (of_Z fallback) = Done x ->
  is_finite x = true /\ ltb (of_Z 0) x = true.
Proof.
  intros Hs Hp. apply envNumber_done; [by apply of_Z_finite |].
  rewrite ltb_int by (unfold safe in *; lia). lia.
Qed.

(** Side conditions about constants; the context plays no part. *)
Ltac small := clear; unfold safe, MIN_LOBBY_SECONDS, MAX_LOBBY_SECONDS, MIN_RETAINED_ROUNDS, CLOCK_SKEW_MARGIN_SECONDS,
  ERROR_BACKOFF_MAX_SECONDS; lia.

#[local] Opaque of_Z ltb leb is_integer.

(** Every refusal passed leaves its negation behind. *)
Lemma boot_config_ok e c : boot e = Done c -> config_ok c.
Proof.
  intros Hb. unfold_boot Hb. repeat peel_boot Hb. injection Hb as <-.
  repeat match goal with
  | H : envNumber _ (of_Z _) = Done _ |- _ => apply knob_read in H as [? ?]; [| small..]
  | H : envInt _ _ _ = Done _ |- _ => apply envInt_done in H; [| small..]
  | H : _ || _ = false |- _ => apply orb_false_iff in H as [? ?]
  | H : negb _ = false |- _ => apply negb_false_iff in H
  end.
  split; cbn [REAL_PLAYER_GRACE_SECONDS HOUSE_ARRIVAL_TAIL_SECONDS ROUND_RETENTION SWEEP_GAP_STOP_ROUNDS
    STRANDED_ALLOWANCE_ROUNDS LOOP_STALL_PUBLISH_SECONDS LOOP_STALL_EXIT_SECONDS HOUSE_WALLET_COUNT
    HOUSE_BOARD_TARGET HOUSE_DISPLACEMENT HOUSE_STAKE_MIN_USD HOUSE_STAKE_MAX_USD]; zbool;
    repeat lazymatch goal with |- _ /\ _ => split end;
    first [from_context
          | lazymatch goal with
            | |- leb _ _ = true => apply ge_of_not_ltb
            | |- ltb _ _ = true => apply gt_of_not_leb
            end; first [from_context | apply of_Z_finite; small]].
Qed.

(** A keeper that boots has a configuration its modules can rely on: the
    grace is a legal lobby length, the arrival tail sits strictly between the
    skew margin and the grace, retention is at least the chain's, the
    sweep-gap stop lies beyond it, the watchdog publishes before it exits and
    never inside an ordinary backoff, and the house can staff the peak its
    board target asks for. *)
Theorem boot_sound e c : boot e = Done c -> config_ok c.
Proof. apply boot_config_ok. Qed.

Definition default_env : Env :=
  mkEnv None None None None None None None None None None None None None None None.

Definition default_config : Config :=
  mkConfig (of_Z 3600) (of_Z 45) (of_Z 5) (of_Z 20) (of_Z 5000000) (of_Z 25) (of_Z 25) (of_Z 300) (of_Z 600)
    10 10 1 5 20.

Lemma boot_sound_witness : boot default_env = Done default_config /\ config_ok default_config.
Proof.
  assert (H : boot default_env = Done default_config) by (vm_compute; reflexivity).
  split; [exact H | exact (boot_sound default_env default_config H)].
Defined.

Lemma default_config_ok : config_ok default_config.
Proof. apply (boot_config_ok default_env). vm_compute. reflexivity. Qed.

(** The documented off switch of the stranded-round allowance does not
    boot: whatever else the environment says, with
    [KEEPER_STRANDED_ALLOWANCE_ROUNDS=0] no configuration comes out, because
    the knob is read by the reader that refuses a number that is not positive,
    before the check that would have accepted zero. *)
Theorem allowance_zero_refused e c :
  KEEPER_STRANDED_ALLOWANCE_ROUNDS e = Some (of_Z 0) -> boot e <> Done c.
Proof.
  intros Hz Hb. unfold_boot Hb. repeat peel_boot Hb.
  match goal with H : envNumber (KEEPER_STRANDED_ALLOWANCE_ROUNDS e) _ = Done _ |- _ => rewrite Hz in H; simpl in H end.
  assert (H0 : leb (of_Z 0) (of_Z 0) = true) by (rewrite leb_int by small; done).
  rewrite H0, orb_true_r in *. discriminate.
Qed.

Lemma allowance_zero_refused_witness :
  boot (mkEnv None None None None None None (Some (of_Z 0)) None None None None None None None None)
  <> Done default_config.
Proof. apply allowance_zero_refused. reflexivity. Defined.
