(* ===== verification/HouseSizing.v ===== *)
(** * How the house fills a lobby

    [er-demo/scripts/keeper/houseSizing.ts]: how many house fighters a lobby
    gets, when each is due, which side each takes and what each stakes.  The
    module reads its knobs from a [Config]; round numbers and counts are the
    whole numbers the code passes. *)
From stdpp Require Import sorting.
From S2P Require Import Prelude JsNum Int32 ErSim Chain KeeperConfig.

Record SideCounts : Type := mkCounts { side0 : Z; side1 : Z }.

Definition HOUSE_FLOOR : Z := 2.
Definition HOUSE_MAX_WITHOUT_REAL_PLAYER : Z := 1.

Inductive EmptyRoomPolicy : Type := unfightable | house_only.

#[global] Instance EmptyRoomPolicy_eq_dec : EqDecision EmptyRoomPolicy.
Proof. solve_decision. Defined.

Definition houseFighterCount (c : Config) (real : SideCounts) (policy : EmptyRoomPolicy) : Z :=
  let realTotal := side0 real + side1 real in
  if (realTotal =? 0) && bool_decide (policy = unfightable) then HOUSE_MAX_WITHOUT_REAL_PLAYER else
  let throttled := Z.max (HOUSE_FLOOR - realTotal) (HOUSE_BOARD_TARGET c - HOUSE_DISPLACEMENT c * realTotal) in
  let cover := (if side0 real =? 0 then 1 else 0) + (if side1 real =? 0 then 1 else 0) in
  Z.max 0 (Z.min (HOUSE_WALLET_COUNT c) (Z.max throttled cover)).

Definition arrivalFraction (c : Config) (nowSec drawAt : num) : num :=
  let windowStart := sub drawAt (REAL_PLAYER_GRACE_SECONDS c) in
  let windowEnd := sub drawAt (HOUSE_ARRIVAL_TAIL_SECONDS c) in
  let span := sub windowEnd windowStart in
  if leb span (of_Z 0) then of_Z 1 else
  let fraction := div (sub nowSec windowStart) span in
  if ltb fraction (of_Z 0) then of_Z 0 else if ltb (of_Z 1) fraction then of_Z 1 else fraction.

Definition avalanche (value : Z) : Z :=
  let h := ToUint32 value in
  let h := xor32 h (ushr h 16) in
  let h := imul h 0x21f0aaad in
  let h := xor32 h (ushr h 15) in
  let h := imul h 0x735a2d97 in
  let h := xor32 h (ushr h 15) in
  ToUint32 h.

Definition mix (roundNo walletIndex : Z) : Z :=
  let combined := ToUint32 (xor32 (avalanche roundNo) (avalanche walletIndex + 0x9e3779b9)) in
  avalanche combined.

(** The comparator [(a, b) => a - b]: [a] may stand before [b] unless [b] is
    the smaller. *)
Definition not_after (x y : num) : Prop := ltb y x = false.

#[global] Instance not_after_dec : RelDecision not_after.
Proof. intros x y. unfold not_after. apply _. Defined.

(** [while (due < n && draws[due] <= threshold) due++] *)
Fixpoint dueCount (threshold : num) (draws : list num) : Z :=
  match draws with
  | [] => 0
  | d :: draws => if leb d threshold then 1 + dueCount threshold draws else 0
  end.

Definition arrivalDraws (roundNo n : Z) : list num :=
  merge_sort not_after
    ((fun k => div (of_Z (mix roundNo k)) (of_Z (2 ^ 32))) <$> (Z.of_nat <$> seq 1 (Z.to_nat n))).

Definition arrivalsDueBy (roundNo n : Z) (fraction : num) : Z :=
  if n <=? 0 then 0 else
  if leb (of_Z 1) fraction then n else
  if n =? 1 then 1 else
  let draws := arrivalDraws roundNo n in
  let first := default NaN (draws !! 0%nat) in
  let spread := sub (default NaN (draws !! Z.to_nat (n - 1))) first in
  if leb spread (of_Z 0) then n else
  let threshold := add first (mul fraction spread) in
  dueCount threshold draws.

(** One turn of the allocation's loop, over the filled counts and the sides so
    far; [0] and [1] are the two sides. *)
Fixpoint allocateFrom (count : nat) (filled0 filled1 : Z) : list Z :=
  match count with
  | O => []
  | S count =>
      if filled1 <? filled0 then 1 :: allocateFrom count filled0 (filled1 + 1)
      else 0 :: allocateFrom count (filled0 + 1) filled1
  end.

Definition allocateHouseSides (count : Z) (real : SideCounts) : list Z :=
  allocateFrom (Z.to_nat count) (side0 real) (side1 real).

Definition houseStake (c : Config) (roundNo walletIndex : Z) : outcome js_error Z :=
  let span := HOUSE_STAKE_MAX_USD c - HOUSE_STAKE_MIN_USD c + 1 in
  let usd := HOUSE_STAKE_MIN_USD c + Z.rem (mix roundNo walletIndex) span in
  usdToUnits (of_Z usd).

(** ** The hash is injective *)

Lemma avalanche_range v : 0 <= avalanche v < W32.
Proof. apply ToUint32_range. Qed.

(** One xorshift of the hash, on the 32-bit pattern. *)
Lemma xorshift_pattern h s :
  0 <= s -> ToUint32 (xor32 h (ushr h s)) = Z.lxor (ToUint32 h) (Z.shiftr (ToUint32 h) s).
Proof.
  intros. rewrite ToUint32_xor. f_equal. apply ToUint32_small. by apply ushr_range.
Qed.

Lemma xorshift_cancel h h' s :
  0 < s -> ToUint32 (xor32 h (ushr h s)) = ToUint32 (xor32 h' (ushr h' s)) -> ToUint32 h = ToUint32 h'.
Proof.
  intros Hs. rewrite !xorshift_pattern by lia. apply xorshift_inj; [done | apply ToUint32_range..].
Qed.

Lemma imul_cancel c c' h h' :
  (c * c') mod W32 = 1 -> ToUint32 (imul h c) = ToUint32 (imul h' c) -> ToUint32 h = ToUint32 h'.
Proof.
  rewrite !ToUint32_imul. intros Hc E.
  apply (mul_unit_inj c c'); [done | apply ToUint32_range.. |].
  unfold ToUint32 in *. by rewrite !Z.mul_mod_idemp_l by done.
Qed.

Lemma avalanche_inj a b : avalanche a = avalanche b -> ToUint32 a = ToUint32 b.
Proof.
  unfold avalanche. intros E. apply xorshift_cancel in E; [| done].
  apply (imul_cancel _ 0x97132227) in E; [| by vm_compute].
  apply xorshift_cancel in E; [| done].
  apply (imul_cancel _ 0x333c4925) in E; [| by vm_compute].
  apply xorshift_cancel in E; [| done]. by rewrite !ToUint32_idem in E.
Qed.

(** Adding a constant is injective on 32-bit patterns. *)
Lemma add_pattern_inj g x y :
  0 <= x < W32 -> 0 <= y < W32 -> ToUint32 (x + g) = ToUint32 (y + g) -> x = y.
Proof.
  unfold ToUint32. intros Hx Hy E.
  assert (Hback : forall x, 0 <= x < W32 -> ((x + g) mod W32 - g) mod W32 = x).
  { intros z Hz. rewrite Zminus_mod_idemp_l, Z.add_simpl_r. by apply Z.mod_small. }
  rewrite <- (Hback x Hx), E. by apply Hback.
Qed.

Lemma mix_unfold r k :
  mix r k = avalanche (ToUint32 (xor32 (avalanche r) (avalanche k + 0x9e3779b9))).
Proof. reflexivity. Qed.

#[local] Opaque avalanche mix.

Lemma mix_inj r j k : 0 <= j < W32 -> 0 <= k < W32 -> mix r j = mix r k -> j = k.
Proof.
  intros Hj Hk. rewrite !mix_unfold. generalize 0x9e3779b9. intros g E.
  apply avalanche_inj in E. rewrite !ToUint32_idem, !ToUint32_xor in E. apply xor_inj_r in E.
  apply add_pattern_inj in E; [| apply avalanche_range..].
  apply avalanche_inj in E. rewrite (ToUint32_small j), (ToUint32_small k) in E; done.
Qed.

Lemma mix_range r k : 0 <= mix r k < W32.
Proof. rewrite mix_unfold. apply avalanche_range. Qed.

(** ** The arrival schedule *)

(** A draw is exact: [m / 2^32] is the double [m * 2^1042]. *)
Lemma draw_exact m : 0 <= m < W32 -> div (of_Z m) (of_Z (2 ^ 32)) = Fin (m * 2 ^ 1042).
Proof.
  intros Hm. unfold W32 in Hm. pose proof one_pos. rewrite !of_Z_exact by lia. simpl div.
  rewrite (proj2 (Z.eqb_neq _ _)) by lia. rewrite Z.sgn_pos, Z.abs_eq, Z.mul_1_l by lia.
  assert (E : one = 2 ^ 1042 * 2 ^ 32) by (rewrite one_pow, <- Z.pow_add_r by lia; done).
  assert (Hp : 0 < 2 ^ 1042) by (apply Z.pow_pos_nonneg; lia).
  unfold of_ratio. replace (m * one * one) with (m * 2 ^ 1042 * (2 ^ 32 * one)) by (rewrite E at 2; ring).
  replace (2 ^ 32 * one) with (1 * (2 ^ 32 * one)) at 2 by ring.
  rewrite rnd_scale, rnd_id by lia. apply mk_fin. pose proof overflow_big.
  rewrite Z.abs_eq by lia. rewrite E in *. nia.
Qed.

Definition point (m : Z) : num := Fin (m * 2 ^ 1042).

Lemma point_lt a b : ltb (point a) (point b) = (a <? b).
Proof.
  simpl. assert (Hp : 0 < 2 ^ 1042) by (apply Z.pow_pos_nonneg; lia).
  destruct (Z.ltb_spec a b); [apply Z.ltb_lt | apply Z.ltb_ge]; nia.
Qed.

Lemma point_not_leb a b : b < a -> leb (point a) (point b) = false.
Proof.
  intros H. unfold point. rewrite leb_fin. assert (Hp : 0 < 2 ^ 1042) by (apply Z.pow_pos_nonneg; lia).
  apply Z.leb_gt. nia.
Qed.

Lemma draws_permutation r n :
  arrivalDraws r n ≡ₚ (fun k => point (mix r k)) <$> (Z.of_nat <$> seq 1 (Z.to_nat n)).
Proof.
  unfold arrivalDraws. rewrite merge_sort_Permutation. apply Permutation_refl'.
  apply list_fmap_ext. intros _ k _. apply draw_exact, mix_range.
Qed.

(** The sorted schedule as whole numbers in units of [2^-32], strictly increasing. *)
Lemma draws_are_points r n :
  n < W32 -> exists ms, arrivalDraws r n = point <$> ms /\ StronglySorted Z.lt ms /\
    Forall (fun m => 0 <= m < W32) ms /\ length ms = Z.to_nat n.
Proof.
  intros Hn. pose proof (draws_permutation r n) as HP.
  set (ks := Z.of_nat <$> seq 1 (Z.to_nat n)) in *.
  assert (HND : NoDup (mix r <$> ks)).
  { apply NoDup_fmap_2_strong; [| apply (NoDup_fmap_2 Z.of_nat), NoDup_seq].
    intros x y Hx Hy. apply mix_inj; subst ks; apply list_elem_of_fmap in Hx as (? & -> & Hx%elem_of_seq);
      apply list_elem_of_fmap in Hy as (? & -> & Hy%elem_of_seq); lia. }
  change (fun k => point (mix r k)) with (compose point (mix r)) in HP.
  rewrite list_fmap_compose in HP.
  apply Permutation_map_inv in HP as (ms & Ems & Hms).
  exists ms. split; [done |]. rewrite Hms in HND.
  assert (HS : Sorted not_after (arrivalDraws r n)).
  { apply Sorted_merge_sort. intros x y. unfold not_after. destruct x as [|[]|], y as [|[]|]; simpl; auto.
    destruct (Z.ltb_spec m0 m), (Z.ltb_spec m m0); auto; lia. }
  rewrite Ems in HS. split_and!.
  - apply Sorted_StronglySorted; [intros ???; lia |]. clear -HS HND.
    induction ms as [| m ms IH]; [done |]. csimpl in *. apply NoDup_cons in HND as [Hm HND].
    inversion HS as [| ?? HS' Hd]; subst. constructor; [by apply IH |].
    destruct ms as [| m' ms]; [constructor |]. csimpl in *. inversion Hd as [| ?? Hle]; subst. constructor.
    unfold not_after in Hle. rewrite point_lt in Hle. zbool. set_solver by lia.
  - rewrite <- Hms. apply Forall_fmap, Forall_forall. intros k _. apply mix_range.
  - rewrite <- (Permutation_length Hms). subst ks. by rewrite !length_fmap, length_seq.
Qed.

Lemma point_sub a b : 0 <= a < W32 -> 0 <= b < W32 -> sub (point a) (point b) = point (a - b).
Proof.
  unfold W32. intros. unfold sub, point. simpl. unfold of_ratio.
  replace (a * 2 ^ 1042 + - (b * 2 ^ 1042)) with ((a - b) * 2 ^ 1042) by ring. rewrite rnd_id by lia.
  apply mk_fin. pose proof overflow_big as Ho. assert (Hp : 0 < 2 ^ 1042) by (apply Z.pow_pos_nonneg; lia).
  rewrite Z.abs_mul, (Z.abs_eq (2 ^ 1042)) by lia.
  assert (E : one = 2 ^ 1042 * 2 ^ 32) by (rewrite one_pow, <- Z.pow_add_r by lia; done).
  rewrite E in Ho. nia.
Qed.

Lemma dueCount_range t ds : 0 <= dueCount t ds <= Z.of_nat (length ds).
Proof. induction ds as [| d ds IH]; simpl; [lia | case_match; lia]. Qed.

Lemma dueCount_mono t t' ds : leb t t' = true -> dueCount t ds <= dueCount t' ds.
Proof.
  intros Ht. induction ds as [| d ds IH]; simpl; [lia |]. pose proof (dueCount_range t' ds).
  destruct (leb d t) eqn:E; [| case_match; lia]. rewrite (leb_trans _ _ _ E Ht). lia.
Qed.

(** The threshold of a fraction in the schedule [first], [first + spread]. *)
Definition threshold (m0 spread : Z) (fraction : num) : num := add (point m0) (mul fraction (point spread)).

(** What the schedule of at least two arrivals computes before the window ends. *)
Lemma arrivals_inside r n :
  2 <= n < W32 -> exists m0 m1 ms spread,
    0 <= m0 < W32 /\ m0 < m1 /\ 0 < spread < W32 /\ Z.of_nat (length ms) = n - 2 /\
    forall f, leb (of_Z 1) f = false ->
      arrivalsDueBy r n f = dueCount (threshold m0 spread f) (point <$> m0 :: m1 :: ms).
Proof.
  intros Hn. destruct (draws_are_points r n) as (ms & E & HS & HF & HL); [lia |].
  destruct ms as [| m0 [| m1 ms]]; [simpl in HL; lia.. |].
  assert (exists mz, (m0 :: m1 :: ms) !! Z.to_nat (n - 1) = Some mz) as [mz Hz].
  { apply lookup_lt_is_Some. rewrite HL. lia. }
  pose proof (StronglySorted_inv HS) as [_ Hmin].
  assert (Hz' : (m1 :: ms) !! Z.to_nat (n - 2) = Some mz)
    by (rewrite <- Hz; replace (Z.to_nat (n - 1)) with (S (Z.to_nat (n - 2))) by lia; done).
  pose proof (Forall_lookup_1 _ _ _ _ Hmin Hz') as Hlt.
  pose proof (Forall_lookup_1 _ _ _ _ HF Hz) as Hzr. pose proof (Forall_inv HF) as H0. simpl in *.
  exists m0, m1, ms, (mz - m0).
  split_and!; try lia; [by apply Forall_inv in Hmin |]. intros f Hf. unfold arrivalsDueBy.
  rewrite (proj2 (Z.leb_gt n 0)), Hf, (proj2 (Z.eqb_neq n 1)), E by lia. csimpl.
  rewrite <- !fmap_cons, list_lookup_fmap, Hz. simpl default. rewrite point_sub by lia.
  rewrite of_Z_exact by lia. unfold point at 1. rewrite leb_fin, (proj2 (Z.leb_gt _ _)); [done |].
  assert (0 < 2 ^ 1042) by (apply Z.pow_pos_nonneg; lia). nia.
Qed.

Lemma threshold_mono m0 spread f g :
  0 < spread -> is_finite f = true -> is_finite g = true -> leb f g = true ->
  leb (threshold m0 spread f) (threshold m0 spread g) = true.
Proof.
  intros Hs Hf Hg Hle. destruct f as [| |a], g as [| |b]; try done.
  assert (Hp : 0 < 2 ^ 1042) by (apply Z.pow_pos_nonneg; lia).
  unfold threshold. rewrite !(mul_comm (Fin _)). unfold point.
  assert (Hnan : forall x y, is_nan (mul (Fin x) (Fin y)) = false) by (intros; apply mk_not_nan).
  assert (Hnan' : forall z x, is_nan x = false -> is_nan (add (Fin z) x) = false).
  { intros z x. destruct x; try done. intros. apply mk_not_nan. }
  apply add_mono; [by apply leb_refl | | by apply Hnan'.. ].
  apply mul_mono_nonneg; [rewrite leb_fin; nia | done.. ].
Qed.

Lemma mul_zero_l s : mul (Fin 0) (Fin s) = Fin 0.
Proof.
  unfold mul, of_ratio. rewrite Z.mul_0_l. change (rnd 0 one) with 0. apply mk_fin.
  pose proof overflow_big. pose proof one_pos. lia.
Qed.

Lemma threshold_zero m0 spread : 0 <= m0 < W32 -> threshold m0 spread (of_Z 0) = point m0.
Proof.
  intros Hm. unfold threshold, point. rewrite of_Z_exact, Z.mul_0_l, mul_zero_l by lia.
  unfold add, of_ratio. rewrite Z.add_0_r. rewrite rnd_id by (unfold W32 in Hm; lia). apply mk_fin.
  pose proof overflow_big as Ho. assert (Hp : 0 < 2 ^ 1042) by (apply Z.pow_pos_nonneg; lia).
  assert (E : one = 2 ^ 1042 * 2 ^ 32) by (rewrite one_pow, <- Z.pow_add_r by lia; done).
  rewrite E in Ho. unfold W32 in Hm. nia.
Qed.

(** A fraction short of the window's end is a finite number. *)
Lemma fraction_finite f : leb (of_Z 0) f = true -> leb (of_Z 1) f = false -> is_finite f = true.
Proof. rewrite !of_Z_exact by (unfold safe; lia). destruct f as [|[]|]; done. Qed.

#[local] Opaque of_Z leb threshold point.

Lemma due_mono r n f g :
  1 <= n < W32 -> leb (of_Z 0) f = true -> leb f g = true ->
  1 <= arrivalsDueBy r n f <= arrivalsDueBy r n g /\ arrivalsDueBy r n g <= n.
Proof.
  intros Hn H0 Hfg. destruct (decide (n = 1)) as [-> | Hne].
  { unfold arrivalsDueBy. simpl. repeat case_match; lia. }
  destruct (arrivals_inside r n ltac:(lia)) as (m0 & m1 & ms & spread & Hm0 & Hm1 & Hs & Hl & Hin).
  assert (Hrange : forall f, leb (of_Z 0) f = true -> 1 <= arrivalsDueBy r n f <= n).
  { intros x Hx. destruct (leb (of_Z 1) x) eqn:E.
    - unfold arrivalsDueBy. rewrite (proj2 (Z.leb_gt n 0)), E by lia. lia.
    - rewrite Hin by done. split; [| etrans; [apply dueCount_range | rewrite length_fmap; simpl; lia]].
      csimpl. assert (Hh : leb (point m0) (threshold m0 spread x) = true).
      { rewrite <- (threshold_zero m0 spread) at 1 by done.
        apply threshold_mono; [lia | by rewrite of_Z_exact by (unfold safe; lia)
                              | by apply fraction_finite | exact Hx]. }
      rewrite Hh. pose proof (dueCount_range (threshold m0 spread x) (point m1 :: (point <$> ms))).
      simpl in *. lia. }
  assert (Hg : leb (of_Z 0) g = true) by exact (leb_trans _ _ _ H0 Hfg).
  split_and!; [by apply Hrange | | by apply Hrange].
  destruct (leb (of_Z 1) g) eqn:Eg.
  - unfold arrivalsDueBy at 2. rewrite (proj2 (Z.leb_gt n 0)), Eg by lia. by apply Hrange.
  - destruct (leb (of_Z 1) f) eqn:Ef; [pose proof (leb_trans _ _ _ Ef Hfg) as C; rewrite Eg in C; discriminate C |].
    rewrite (Hin f Ef), (Hin g Eg).
    apply dueCount_mono, threshold_mono;
      [lia | exact (fraction_finite f H0 Ef) | exact (fraction_finite g Hg Eg) | exact Hfg].
Qed.

Lemma due_opening r n : 1 <= n < W32 -> arrivalsDueBy r n (of_Z 0) = 1.
Proof.
  intros Hn. assert (H1 : leb (of_Z 1) (of_Z 0) = false) by (rewrite leb_int by (unfold safe; lia); done).
  destruct (decide (n = 1)) as [-> | Hne].
  { unfold arrivalsDueBy. simpl. by rewrite H1. }
  destruct (arrivals_inside r n ltac:(lia)) as (m0 & m1 & ms & spread & Hm0 & Hm1 & Hs & Hl & Hin).
  rewrite Hin, threshold_zero by done. csimpl. rewrite leb_refl by done.
  replace (leb (point m1) (point m0)) with false by (symmetry; apply point_not_leb; lia).
  reflexivity.
Qed.

Lemma due_end r n f : 1 <= n -> leb (of_Z 1) f = true -> arrivalsDueBy r n f = n.
Proof. intros Hn Hf. unfold arrivalsDueBy. by rewrite (proj2 (Z.leb_gt n 0)), Hf by lia. Qed.

(** ** The arrival window *)

#[local] Transparent of_Z leb.

Definition windowStart (c : Config) (drawAt : num) : num := sub drawAt (REAL_PLAYER_GRACE_SECONDS c).
Definition windowEnd (c : Config) (drawAt : num) : num := sub drawAt (HOUSE_ARRIVAL_TAIL_SECONDS c).

Lemma sub_fin_mono a b a' b' : a - b <= a' - b' -> leb (sub (Fin a) (Fin b)) (sub (Fin a') (Fin b')) = true.
Proof. intros. apply mk_mono, rnd_mono; lia. Qed.

Lemma sub_fin_finite k a b :
  0 <= k <= 2 ^ 53 -> Z.abs (a - b) <= k * one ->
  exists m, sub (Fin a) (Fin b) = Fin m /\ Z.abs m <= k * one.
Proof.
  intros Hk H. simpl. unfold of_ratio. exists (rnd (a + - b) 1). pose proof overflow_big. pose proof one_pos.
  pose proof (rnd_int k ltac:(lia)) as Hr. pose proof (rnd_int (- k) ltac:(lia)) as Hr'.
  pose proof (rnd_le (k * one) (a + - b) 1 ltac:(lia) Hr ltac:(lia)).
  pose proof (rnd_ge (- k * one) (a + - b) 1 ltac:(lia) Hr' ltac:(lia)).
  assert (k * one <= 2 ^ 53 * one) by (apply Z.mul_le_mono_nonneg_r; lia).
  split; [apply mk_fin |]; lia.
Qed.

Lemma sub_fin_pos a b : b < a -> ltb (Fin 0) (sub (Fin a) (Fin b)) = true.
Proof.
  intros H. simpl. unfold of_ratio, mk. assert (1 <= rnd (a + - b) 1).
  { apply rnd_ge; [lia | | lia]. change 1 with (1 * 2 ^ 0) at 1. by rewrite rnd_id by lia. }
  destruct (overflow <=? _); simpl; [| by apply Z.ltb_lt; lia].
  by rewrite (proj2 (Z.ltb_ge _ _)) by lia.
Qed.

(** The window of a configuration that booted, around a whole-second draw. *)
Lemma window_finite c d :
  config_ok c -> Z.abs d <= 2 ^ 50 ->
  exists ws we, windowStart c (of_Z d) = Fin ws /\ windowEnd c (of_Z d) = Fin we /\ ws <= we /\
    Z.abs (we - ws) <= 2 ^ 53 * one.
Proof.
  intros [Hg Hg' Ht Ht' _ _ _ _ _ _ _ _ _] Hd. unfold windowStart, windowEnd, MIN_LOBBY_SECONDS, MAX_LOBBY_SECONDS,
    CLOCK_SKEW_MARGIN_SECONDS in *. pose proof one_pos. rewrite of_Z_exact in * by (unfold safe; lia).
  destruct (REAL_PLAYER_GRACE_SECONDS c) as [|[]|g], (HOUSE_ARRIVAL_TAIL_SECONDS c) as [|[]|t]; try done.
  rewrite leb_fin in Hg, Hg'. simpl ltb in Ht, Ht'. zbool.
  assert (- 2 ^ 50 * one <= d * one <= 2 ^ 50 * one) by (split; apply Z.mul_le_mono_nonneg_r; lia).
  destruct (sub_fin_finite (2 ^ 52) (d * one) g) as (ws & Ews & ?); [lia.. |].
  destruct (sub_fin_finite (2 ^ 52) (d * one) t) as (we & Ewe & ?); [lia.. |].
  exists ws, we. split_and!; try done.
  pose proof (sub_fin_mono (d * one) g (d * one) t ltac:(lia)) as Hm.
  rewrite Ews, Ewe, leb_fin in Hm. by zbool.
  lia.
Qed.

Lemma div_self s : 0 < s -> div (Fin s) (Fin s) = of_Z 1.
Proof.
  intros Hs. simpl. rewrite (proj2 (Z.eqb_neq s 0)), Z.sgn_pos, Z.abs_eq by lia.
  unfold of_Z, of_ratio. f_equal. rewrite <- (rnd_scale (1 * one) 1 s) by lia. f_equal; ring.
Qed.

Lemma div_zero s : 0 < s -> div (Fin 0) (Fin s) = of_Z 0.
Proof.
  intros Hs. rewrite of_Z_exact by lia. simpl. rewrite (proj2 (Z.eqb_neq s 0)) by lia.
  unfold of_ratio. rewrite Z.mul_0_r. change (rnd (0 * one) (Z.abs s)) with 0. apply mk_fin.
  pose proof overflow_big. pose proof one_pos. lia.
Qed.

Lemma zero_le_one : leb (of_Z 0) (of_Z 1) = true.
Proof. by rewrite leb_int by (unfold safe; lia). Qed.

(** [x < 0 ? 0 : x > 1 ? 1 : x] *)
Definition unit_clamp (x : num) : num :=
  if ltb x (of_Z 0) then of_Z 0 else if ltb (of_Z 1) x then of_Z 1 else x.

Lemma unit_clamp_range x :
  is_nan x = false -> leb (of_Z 0) (unit_clamp x) = true /\ leb (unit_clamp x) (of_Z 1) = true.
Proof.
  intros Hx. unfold unit_clamp. destruct (ltb x (of_Z 0)) eqn:E0.
  { split; [apply leb_refl, of_Z_not_nan | apply zero_le_one]. }
  destruct (ltb (of_Z 1) x) eqn:E1; [split; [apply zero_le_one | apply leb_refl, of_Z_not_nan] |].
  split; [exact (not_ltb _ _ Hx (of_Z_not_nan 0) E0) | exact (not_ltb _ _ (of_Z_not_nan 1) Hx E1)].
Qed.

Lemma unit_clamp_one : unit_clamp (of_Z 1) = of_Z 1.
Proof.
  unfold unit_clamp. rewrite (leb_not_ltb _ _ zero_le_one), ltb_irrefl. reflexivity.
Qed.

Lemma unit_clamp_nonpos x : leb x (of_Z 0) = true -> unit_clamp x = of_Z 0.
Proof.
  intros H. pose proof (leb_nan _ _ H) as [Hx _]. unfold unit_clamp.
  destruct (ltb x (of_Z 0)) eqn:E; [reflexivity |].
  rewrite (leb_not_ltb _ _ (leb_trans _ _ _ H zero_le_one)).
  apply leb_antisym; [exact H | exact (not_ltb _ _ Hx (of_Z_not_nan 0) E)].
Qed.

Lemma unit_clamp_mono x y : leb x y = true -> leb (unit_clamp x) (unit_clamp y) = true.
Proof.
  intros Hxy. pose proof (leb_nan _ _ Hxy) as [Hx Hy]. unfold unit_clamp at 1.
  destruct (ltb x (of_Z 0)) eqn:E0; [exact (proj1 (unit_clamp_range y Hy)) |].
  unfold unit_clamp. destruct (ltb y (of_Z 0)) eqn:F0.
  { exfalso. pose proof (leb_ltb_trans _ _ _ Hxy F0) as C. congruence. }
  destruct (ltb (of_Z 1) x) eqn:E1, (ltb (of_Z 1) y) eqn:F1.
  - apply leb_refl, of_Z_not_nan.
  - exfalso. pose proof (ltb_leb_trans _ _ _ E1 Hxy) as C. congruence.
  - exact (not_ltb _ _ (of_Z_not_nan 1) Hx E1).
  - exact Hxy.
Qed.

Lemma sub_self w : sub (Fin w) (Fin w) = Fin 0.
Proof.
  simpl. rewrite Z.add_opp_diag_r. unfold of_ratio. change (rnd 0 1) with 0. apply mk_fin.
  pose proof overflow_big. pose proof one_pos. lia.
Qed.

(** The span of a real window is a positive number, and a fraction of it is a
    clamped division. *)
Lemma arrivalFraction_inside c d now ws we :
  windowStart c d = Fin ws -> windowEnd c d = Fin we -> ws < we -> Z.abs (we - ws) <= 2 ^ 53 * one ->
  exists s, sub (Fin we) (Fin ws) = Fin s /\ 0 < s /\
    arrivalFraction c now d = unit_clamp (div (sub now (Fin ws)) (Fin s)).
Proof.
  intros Hws Hwe Hlt Hb. destruct (sub_fin_finite (2 ^ 53) we ws ltac:(lia) Hb) as (s & Es & _). exists s.
  pose proof (sub_fin_pos we ws Hlt) as Hp. rewrite Es in Hp. simpl in Hp. zbool.
  split_and!; [done.. |]. unfold arrivalFraction, windowStart, windowEnd, unit_clamp in *.
  rewrite Hws, Hwe, Es. cbv zeta. rewrite (of_Z_exact 0), leb_fin, Z.mul_0_l by lia.
  by rewrite (proj2 (Z.leb_gt s 0)) by lia.
Qed.

Lemma arrivalFraction_degenerate c d now ws we :
  windowStart c d = Fin ws -> windowEnd c d = Fin we -> ws = we -> arrivalFraction c now d = of_Z 1.
Proof.
  intros Hws Hwe ->. unfold arrivalFraction, windowStart, windowEnd in *. rewrite Hws, Hwe. cbv zeta.
  by rewrite sub_self, of_Z_exact, leb_fin by lia.
Qed.

Lemma sub_now_mono x y w : leb x y = true -> leb (sub x (Fin w)) (sub y (Fin w)) = true.
Proof.
  intros H. pose proof (leb_nan _ _ H) as [Hx Hy]. apply add_mono; [exact H | by apply leb_refl | |].
  - destruct x as [| |]; try done. apply mk_not_nan.
  - destruct y as [| |]; try done. apply mk_not_nan.
Qed.

(** The clock of a lobby as the arrival fraction reads it. *)
Lemma fraction_clock c d now now' :
  config_ok c -> Z.abs d <= 2 ^ 50 -> leb now now' = true ->
  let f := arrivalFraction c now (of_Z d) in let f' := arrivalFraction c now' (of_Z d) in
  leb (of_Z 0) f = true /\ leb f f' = true /\
  (leb (windowEnd c (of_Z d)) now' = true -> leb (of_Z 1) f' = true) /\
  (ltb (windowStart c (of_Z d)) (windowEnd c (of_Z d)) = true ->
   leb now (windowStart c (of_Z d)) = true -> f = of_Z 0).
Proof.
  intros Hc Hd Hnow f f'. destruct (window_finite c d Hc Hd) as (ws & we & Ews & Ewe & Hle & Hb).
  destruct (decide (ws = we)) as [E | Hne].
  { subst f f'. rewrite !(arrivalFraction_degenerate c (of_Z d) _ ws we Ews Ewe E).
    split_and!; [apply zero_le_one | apply leb_refl, of_Z_not_nan | intros _; apply leb_refl, of_Z_not_nan |].
    rewrite Ews, Ewe, E, ltb_irrefl. discriminate. }
  destruct (arrivalFraction_inside c (of_Z d) now ws we Ews Ewe ltac:(lia) Hb) as (s & Es & Hs & Ef).
  destruct (arrivalFraction_inside c (of_Z d) now' ws we Ews Ewe ltac:(lia) Hb) as (s' & Es' & _ & Ef').
  rewrite Es in Es'. injection Es' as <-.
  assert (Hdiv : leb (div (sub now (Fin ws)) (Fin s)) (div (sub now' (Fin ws)) (Fin s)) = true)
    by exact (div_mono_pos _ _ _ (sub_now_mono _ _ _ Hnow) Hs).
  subst f f'. rewrite Ef, Ef', Ews, Ewe. split_and!.
  - exact (proj1 (unit_clamp_range _ (proj1 (leb_nan _ _ Hdiv)))).
  - exact (unit_clamp_mono _ _ Hdiv).
  - intros Hend. pose proof (div_mono_pos _ _ s (sub_now_mono _ _ ws Hend) Hs) as H.
    rewrite Es, (div_self s Hs) in H. pose proof (unit_clamp_mono _ _ H) as G.
    rewrite unit_clamp_one in G. exact G.
  - intros _ Hstart. apply unit_clamp_nonpos.
    pose proof (div_mono_pos _ _ s (sub_now_mono _ _ ws Hstart) Hs) as H.
    rewrite sub_self, (div_zero s Hs) in H. exact H.
Qed.

(** The house walks in over the grace window and nothing else: for a
    configuration that boots, a draw at any whole second and a schedule of [n]
    fighters, at least one is due from the start and never more than [n]; the
    number due never falls as the clock runs; exactly one is due until the
    window opens; and all [n] are due from the arrival tail on. *)
Theorem arrival_ramp c d r n now now' :
  config_ok c -> Z.abs d <= 2 ^ 50 -> 1 <= n < 2 ^ 32 -> leb now now' = true ->
  let due t := arrivalsDueBy r n (arrivalFraction c t (of_Z d)) in
  1 <= due now <= due now' /\ due now' <= n /\
  (leb (windowEnd c (of_Z d)) now' = true -> due now' = n) /\
  (ltb (windowStart c (of_Z d)) (windowEnd c (of_Z d)) = true ->
   leb now (windowStart c (of_Z d)) = true -> due now = 1).
Proof.
  intros Hc Hd Hn Hnow due. destruct (fraction_clock c d now now' Hc Hd Hnow) as (H0 & Hm & H1 & Hz).
  destruct (due_mono r n _ _ Hn H0 Hm) as [Hle Hn']. refine (conj Hle (conj Hn' (conj _ _))).
  - exact (fun He => due_end r n _ (proj1 Hn) (H1 He)).
  - intros Hw Hs. subst due. cbv beta. rewrite (Hz Hw Hs). by apply due_opening.
Qed.

Lemma arrival_ramp_witness :
  let due t := arrivalsDueBy 214 9 (arrivalFraction default_config t (of_Z 1700000060)) in
  1 <= due (of_Z 1700000020) <= due (of_Z 1700000040) /\ due (of_Z 1700000040) <= 9 /\
  (leb (windowEnd default_config (of_Z 1700000060)) (of_Z 1700000040) = true -> due (of_Z 1700000040) = 9) /\
  (ltb (windowStart default_config (of_Z 1700000060)) (windowEnd default_config (of_Z 1700000060)) = true ->
   leb (of_Z 1700000020) (windowStart default_config (of_Z 1700000060)) = true -> due (of_Z 1700000020) = 1).
Proof.
  apply (arrival_ramp default_config 1700000060 214 9); [exact default_config_ok | lia | lia |].
  rewrite leb_int by (unfold safe; lia). reflexivity.
Defined.

(** ** How many, which side, what stake *)

Lemma houseFighterCount_cases c real policy :
  config_ok c -> 0 <= side0 real -> 0 <= side1 real ->
  houseFighterCount c real policy =
  if (side0 real + side1 real =? 0) && bool_decide (policy = unfightable) then 1 else
  Z.min (HOUSE_WALLET_COUNT c)
    (Z.max (Z.max (2 - (side0 real + side1 real)) (HOUSE_BOARD_TARGET c - HOUSE_DISPLACEMENT c * (side0 real + side1 real)))
           ((if side0 real =? 0 then 1 else 0) + (if side1 real =? 0 then 1 else 0))).
Proof.
  intros [_ _ _ _ _ _ _ _ Hw _ _ _ _] ? ?. unfold houseFighterCount, HOUSE_FLOOR, HOUSE_MAX_WITHOUT_REAL_PLAYER.
  case_match; [done |]. apply Z.max_r, Z.min_glb; [lia |]. repeat case_match; lia.
Qed.

(** The house's four promises.  Under the standing policy a room with
    nobody real holds one house fighter, so it cannot be drawn; every other
    room can hold a fight and its count covers every empty side; it never asks
    for more wallets than exist; in a room that holds a real player the count is
    the board target less the displaced seats wherever that is the largest
    demand; and it never grows as more real players arrive, on either side. *)
Theorem house_promises c real policy :
  config_ok c -> 0 <= side0 real -> 0 <= side1 real ->
  let realTotal := side0 real + side1 real in
  let count := houseFighterCount c real policy in
  let cover := (if side0 real =? 0 then 1 else 0) + (if side1 real =? 0 then 1 else 0) in
  (realTotal = 0 -> policy = unfightable -> realTotal + count < MIN_FIGHTERS_TO_FIGHT) /\
  (realTotal <> 0 \/ policy = house_only -> MIN_FIGHTERS_TO_FIGHT <= realTotal + count /\ cover <= count) /\
  0 <= count <= HOUSE_WALLET_COUNT c /\
  (realTotal <> 0 -> cover <= HOUSE_BOARD_TARGET c - HOUSE_DISPLACEMENT c * realTotal <= HOUSE_WALLET_COUNT c ->
   1 < HOUSE_BOARD_TARGET c - HOUSE_DISPLACEMENT c * realTotal ->
   count = HOUSE_BOARD_TARGET c - HOUSE_DISPLACEMENT c * realTotal) /\
  (forall more, side0 real <= side0 more -> side1 real <= side1 more -> realTotal <> 0 ->
   houseFighterCount c more policy <= count).
Proof.
  intros Hc H0 H1 realTotal count cover. subst count. rewrite houseFighterCount_cases by done.
  pose proof (wallets_range c Hc) as Hw. pose proof (displacement_floor c Hc) as Hdis.
  fold realTotal. fold cover. assert (Hcov : 0 <= cover <= 2) by (subst cover; repeat case_match; lia).
  unfold MIN_FIGHTERS_TO_FIGHT, HOUSE_WALLET_COUNT_MAX in *. split_and!.
  - intros -> ->. rewrite bool_decide_true by done. simpl. lia.
  - intros Hreal. destruct (Z.eqb_spec realTotal 0) as [E |]; simpl; [| lia].
    rewrite bool_decide_false by (destruct Hreal as [| ->]; [lia | done]). lia.
  - case_match; lia.
  - case_match; lia.
  - intros Hnz Hcv Hbig. rewrite (proj2 (Z.eqb_neq _ _)) by done. simpl. lia.
  - intros more Hm0 Hm1 Hnz. rewrite houseFighterCount_cases by (done || lia).
    rewrite (proj2 (Z.eqb_neq realTotal 0)), (proj2 (Z.eqb_neq (side0 more + side1 more) 0)) by (subst realTotal; lia).
    simpl.
    assert (HOUSE_DISPLACEMENT c * realTotal <= HOUSE_DISPLACEMENT c * (side0 more + side1 more))
      by (apply Z.mul_le_mono_nonneg_l; subst realTotal; lia).
    apply Z.min_le_compat_l. subst cover realTotal.
    repeat case_match; zbool; lia.
Qed.

Lemma house_promises_witness :
  let real := mkCounts 1 0 in let count := houseFighterCount default_config real unfightable in
  (1 + 0 = 0 -> unfightable = unfightable -> 1 + 0 + count < MIN_FIGHTERS_TO_FIGHT) /\
  (1 + 0 <> 0 \/ unfightable = house_only -> MIN_FIGHTERS_TO_FIGHT <= 1 + 0 + count /\ 0 + 1 <= count) /\
  0 <= count <= HOUSE_WALLET_COUNT default_config /\
  (1 + 0 <> 0 -> 0 + 1 <= 10 - 1 * (1 + 0) <= 10 -> 1 < 10 - 1 * (1 + 0) -> count = 10 - 1 * (1 + 0)) /\
  (forall more, 1 <= side0 more -> 0 <= side1 more -> 1 + 0 <> 0 ->
   houseFighterCount default_config more unfightable <= count).
Proof. apply (house_promises default_config (mkCounts 1 0) unfightable default_config_ok); simpl; lia. Defined.

(** How many of a list of sides are [s]. *)
Definition countSide (s : Z) (sides : list Z) : Z := zsum (fun x => if x =? s then 1 else 0) sides.

Lemma allocateFrom_length n f0 f1 : length (allocateFrom n f0 f1) = n.
Proof. revert f0 f1. induction n as [| n IH]; intros; simpl; [done |]. case_match; simpl; by rewrite IH. Qed.

Lemma allocateFrom_sides n f0 f1 :
  countSide 0 (allocateFrom n f0 f1) + countSide 1 (allocateFrom n f0 f1) = Z.of_nat n /\
  Forall (fun s => s = 0 \/ s = 1) (allocateFrom n f0 f1).
Proof.
  revert f0 f1. induction n as [| n IH]; intros; [done |].
  cbn [allocateFrom]. case_match.
  - destruct (IH f0 (f1 + 1)) as [E HF]. unfold countSide in *. simpl. split; [lia | auto].
  - destruct (IH (f0 + 1) f1) as [E HF]. unfold countSide in *. simpl. split; [lia | auto].
Qed.

(** Each placement closes the gap by one until the sides are level. *)
Lemma allocateFrom_balance n f0 f1 :
  let d0 := f0 + countSide 0 (allocateFrom n f0 f1) in
  let d1 := f1 + countSide 1 (allocateFrom n f0 f1) in
  Z.abs (d0 - d1) <= Z.max 1 (Z.abs (f0 - f1) - Z.of_nat n) /\ f0 <= d0 /\ f1 <= d1.
Proof.
  revert f0 f1. induction n as [| n IH]; intros f0 f1; [unfold countSide; simpl; lia |].
  cbn [allocateFrom]. destruct (Z.ltb_spec f1 f0) as [Hlt | Hge].
  - specialize (IH f0 (f1 + 1)). unfold countSide in *. simpl in *. lia.
  - specialize (IH (f0 + 1) f1). unfold countSide in *. simpl in *. lia.
Qed.

(** The allocation places every fighter it was asked for, narrows the gap
    between the sides by one per fighter until they are level to within one,
    and leaves nobody without an opponent: a count that covers the empty sides
    leaves somebody on both. *)
Theorem sides_balanced count real :
  0 <= count -> 0 <= side0 real -> 0 <= side1 real ->
  let sides := allocateHouseSides count real in
  let after0 := side0 real + countSide 0 sides in
  let after1 := side1 real + countSide 1 sides in
  Z.of_nat (length sides) = count /\ after0 + after1 = side0 real + side1 real + count /\
  Z.abs (after0 - after1) <= Z.max 1 (Z.abs (side0 real - side1 real) - count) /\
  ((if side0 real =? 0 then 1 else 0) + (if side1 real =? 0 then 1 else 0) <= count -> 0 < after0 /\ 0 < after1).
Proof.
  intros Hc H0 H1. unfold allocateHouseSides.
  pose proof (allocateFrom_length (Z.to_nat count) (side0 real) (side1 real)) as Hl.
  pose proof (allocateFrom_sides (Z.to_nat count) (side0 real) (side1 real)) as [Hs _].
  pose proof (allocateFrom_balance (Z.to_nat count) (side0 real) (side1 real)) as Hb.
  cbv zeta in *. split_and!; [lia.. |]. intros Hcov.
  destruct (Z.eqb_spec (side0 real) 0), (Z.eqb_spec (side1 real) 0); lia.
Qed.

Lemma sides_balanced_witness :
  let sides := allocateHouseSides 3 (mkCounts 11 0) in
  Z.of_nat (length sides) = 3 /\ 11 + countSide 0 sides + (0 + countSide 1 sides) = 11 + 0 + 3 /\
  Z.abs (11 + countSide 0 sides - (0 + countSide 1 sides)) <= Z.max 1 (Z.abs (11 - 0) - 3) /\
  (0 + 1 <= 3 -> 0 < 11 + countSide 0 sides /\ 0 < 0 + countSide 1 sides).
Proof. apply (sides_balanced 3 (mkCounts 11 0)); simpl; lia. Defined.

Lemma house_stake_whole c r k :
  config_ok c -> HOUSE_STAKE_MAX_USD c <= 1000000000 ->
  exists usd, houseStake c r k = Done (usd * UNITS_PER_USD) /\
    HOUSE_STAKE_MIN_USD c <= usd <= HOUSE_STAKE_MAX_USD c.
Proof.
  intros Hc Hmax. pose proof (stake_band c Hc) as Hb. pose proof (mix_range r k) as Hm.
  set (span := HOUSE_STAKE_MAX_USD c - HOUSE_STAKE_MIN_USD c + 1).
  pose proof (Z.rem_bound_pos (mix r k) span ltac:(lia) ltac:(subst span; lia)) as Hr.
  exists (HOUSE_STAKE_MIN_USD c + Z.rem (mix r k) span). split; [| subst span; lia].
  unfold houseStake, usdToUnits. fold span.
  assert (Hu : 1 <= HOUSE_STAKE_MIN_USD c + Z.rem (mix r k) span <= 1000000000) by (subst span; lia).
  clearbody span. revert Hu. generalize (HOUSE_STAKE_MIN_USD c + Z.rem (mix r k) span). intros usd Hu. clear -Hu.
  rewrite mul_int, round_int by (unfold safe, UNITS_PER_USD; lia). apply to_bigint_int.
  unfold safe, UNITS_PER_USD. lia.
Qed.

(** Every house stake is a whole number of dollars inside the configured
    band, in the program's units, for every round and every wallet. *)
Theorem house_stake_in_band c r k :
  config_ok c -> HOUSE_STAKE_MAX_USD c <= 1000000000 ->
  exists usd, houseStake c r k = Done (usd * UNITS_PER_USD) /\
    HOUSE_STAKE_MIN_USD c <= usd <= HOUSE_STAKE_MAX_USD c.
Proof. apply house_stake_whole. Qed.

Lemma house_stake_in_band_witness :
  exists usd, houseStake default_config 214 3 = Done (usd * UNITS_PER_USD) /\
    HOUSE_STAKE_MIN_USD default_config <= usd <= HOUSE_STAKE_MAX_USD default_config.
Proof. apply (house_stake_in_band default_config 214 3 default_config_ok). simpl. lia. Defined.
