(* ===== verification/HouseBank.v ===== *)
(** * Which house wallets enter a lobby now

    [er-demo/scripts/keeper/houseBank.ts]: the classifier that tells the arena's
    own fighters from everybody else, and the plan of a pass, which is a pure
    function of the round account and the clock.  A key pair is its public key
    in base58; the reservation of seats is the whole number the configuration
    derives. *)
From S2P Require Import Prelude JsNum Int32 ErSim Chain KeeperConfig HouseSizing.

(** ** Data *)

Record HouseWallet : Type := mkWallet { index : Z; pubkey : string }.

(** A seat of the round account. *)
Record RawFighter : Type := mkRaw { raw_wallet : string; raw_side : Z }.

Record RawRound : Type := mkRawRound { raw_fighterCount : Z; raw_fighters : list RawFighter }.

Record FighterSplit : Type := mkSplit {
  houseCount : Z;
  realCount : Z;
  real : SideCounts;
  house : SideCounts;
  houseIn : gset string;
}.

Record HouseEntry : Type := mkHouseEntry { entry_by : HouseWallet; entry_on : Z; entry_stake_units : Z }.

Record HouseLobbyView : Type := mkLobbyView { view_drawAt : num; emptyRoom : EmptyRoomPolicy }.

Record HousePlan : Type := mkHousePlan {
  entries : list HouseEntry;
  split : FighterSplit;
  houseTarget : Z;
}.

Record HouseBank : Type := mkBank { active : list HouseWallet; bankPubkeys : list string }.

(** ** The bank and its classifier *)

Definition houseBankFrom (c : Config) (keypairs : list string) : HouseBank :=
  mkBank
    (imap (fun i k => mkWallet (Z.of_nat i) k) (take (Z.to_nat (HOUSE_WALLET_COUNT c)) keypairs))
    keypairs.

Definition isHouse (bank : HouseBank) (key : string) : bool := bool_decide (key ∈ bankPubkeys bank).

(** [if (side === 0) bucket.side0 += 1; else bucket.side1 += 1;] *)
Definition seat (side : Z) (bucket : SideCounts) : SideCounts :=
  if side =? 0 then mkCounts (side0 bucket + 1) (side1 bucket) else mkCounts (side0 bucket) (side1 bucket + 1).

Record Tally : Type := mkTally { t_real : SideCounts; t_house : SideCounts; t_in : gset string }.

(** One turn of the classifier's loop. *)
Definition classifyOne (bank : HouseBank) (t : Tally) (f : RawFighter) : Tally :=
  if isHouse bank (raw_wallet f)
  then mkTally (t_real t) (seat (raw_side f) (t_house t)) ({[ raw_wallet f ]} ∪ t_in t)
  else mkTally (seat (raw_side f) (t_real t)) (t_house t) (t_in t).

Definition classify (bank : HouseBank) (round : RawRound) : FighterSplit :=
  let t := foldl (classifyOne bank) (mkTally (mkCounts 0 0) (mkCounts 0 0) ∅)
                 (take (Z.to_nat (raw_fighterCount round)) (raw_fighters round)) in
  mkSplit (side0 (t_house t) + side1 (t_house t)) (side0 (t_real t) + side1 (t_real t)) (t_real t) (t_house t) (t_in t).

(** ** The plan of a pass *)

(** [REAL_SEATS_RESERVED] as the integer it is ([seats_reserved_whole]). *)
Definition seatsReserved (c : Config) : Z :=
  match to_bigint (REAL_SEATS_RESERVED c) with Done z => z | Throw _ => 0 end.

Section Plan.
Open Scope js_scope.
Context (c : Config).

(** How many house fighters the clock and the policy want, before the seats
    are counted. *)
Definition wantedTarget (s : FighterSplit) (roundNo : Z) (nowSec : num) (lobby : HouseLobbyView) : Z :=
  if (realCount s =? 0) && bool_decide (emptyRoom lobby = unfightable) then HOUSE_MAX_WITHOUT_REAL_PLAYER else
  let board := houseFighterCount c (real s) (emptyRoom lobby) in
  let due := arrivalsDueBy roundNo board (arrivalFraction c nowSec (view_drawAt lobby)) in
  let fightability := if realCount s <? MIN_FIGHTERS_TO_FIGHT then HOUSE_FLOOR else 0 in
  Z.max fightability (Z.min board due).

Definition houseCeiling (seats : Z) (s : FighterSplit) : Z :=
  Z.max 0 (seats - realCount s - seatsReserved c).

Definition roomMustBeFightable (s : FighterSplit) (lobby : HouseLobbyView) : bool :=
  (0 <? realCount s) || bool_decide (emptyRoom lobby = house_only).

Definition occupied0 (s : FighterSplit) : Z := side0 (real s) + side0 (house s).
Definition occupied1 (s : FighterSplit) : Z := side1 (real s) + side1 (house s).

Definition coverFloor (s : FighterSplit) (lobby : HouseLobbyView) : Z :=
  if roomMustBeFightable s lobby && ((occupied0 s =? 0) || (occupied1 s =? 0)) then 1 else 0.

(** The deficits of the two sides against [target], after the floor has named
    its side. *)
Definition needs (s : FighterSplit) (lobby : HouseLobbyView) (target : Z) : Z * Z :=
  let wanted := allocateHouseSides target (real s) in
  let need0 := countSide 0 wanted - side0 (house s) in
  let need1 := countSide 1 wanted - side1 (house s) in
  if 0 <? coverFloor s lobby then
    if occupied0 s =? 0 then (Z.max need0 1, need1) else (need0, Z.max need1 1)
  else (need0, need1).

Definition growth (s : FighterSplit) (lobby : HouseLobbyView) (target : Z) : Z :=
  let wanted := allocateHouseSides target (real s) in
  let need0 := countSide 0 wanted - side0 (house s) in
  let need1 := countSide 1 wanted - side1 (house s) in
  if roomMustBeFightable s lobby then Z.max 0 need0 + Z.max 0 need1 else target - houseCount s.

Definition shortfall (s : FighterSplit) (lobby : HouseLobbyView) (seats target : Z) : Z :=
  let ceilingRoom := Z.max 0 (houseCeiling seats s - houseCount s) in
  let freeSeats := Z.max 0 (seats - realCount s - houseCount s) in
  Z.min (Z.max (Z.min (growth s lobby target) ceilingRoom) (coverFloor s lobby)) freeSeats.

(** [active.filter((w) => !split.houseIn.has(w))] *)
Definition freeWallets (bank : HouseBank) (s : FighterSplit) : list HouseWallet :=
  base.filter (fun w => pubkey w ∉ houseIn s) (active bank).

Definition rotated (roundNo : Z) (free : list HouseWallet) : list HouseWallet :=
  let offset := match free with [] => 0 | _ => Z.rem roundNo (Z.of_nat (length free)) end in
  drop (Z.to_nat offset) free ++ take (Z.to_nat offset) free.

(** The placement loop: [left] entries may still be planned. *)
Fixpoint place (roundNo left need0 need1 : Z) (wallets : list HouseWallet) : outcome js_error (list HouseEntry) :=
  match wallets with
  | [] => Done []
  | w :: wallets =>
      if left <=? 0 then Done [] else
      if need1 <=? need0 then
        if need0 <=? 0 then place roundNo left need0 need1 wallets else
        let! stake := houseStake c roundNo (index w) in
        let! rest := place roundNo (left - 1) (need0 - 1) need1 wallets in
        Done (mkHouseEntry w 0 stake :: rest)
      else
        if need1 <=? 0 then place roundNo left need0 need1 wallets else
        let! stake := houseStake c roundNo (index w) in
        let! rest := place roundNo (left - 1) need0 (need1 - 1) wallets in
        Done (mkHouseEntry w 1 stake :: rest)
  end.

Definition plannedHouseEntries (bank : HouseBank) (round : RawRound) (roundNo : Z) (nowSec : num)
    (lobby : HouseLobbyView) : outcome js_error HousePlan :=
  let s := classify bank round in
  if leb (sub (view_drawAt lobby) nowSec) (of_Z CLOCK_SKEW_MARGIN_SECONDS) then Done (mkHousePlan [] s 0) else
  let seats := Z.of_nat (length (raw_fighters round)) in
  let target := Z.min (wantedTarget s roundNo nowSec lobby) (houseCeiling seats s) in
  let missing := shortfall s lobby seats target in
  if missing <=? 0 then Done (mkHousePlan [] s target) else
  let '(need0, need1) := needs s lobby target in
  let! es := place roundNo missing need0 need1 (rotated roundNo (freeWallets bank s)) in
  Done (mkHousePlan es s target).
End Plan.

(** ** What the classifier counts *)

Definition seated (round : RawRound) : list RawFighter :=
  take (Z.to_nat (raw_fighterCount round)) (raw_fighters round).

Definition count_if (p : RawFighter -> bool) (fs : list RawFighter) : Z := zsum (fun f => if p f then 1 else 0) fs.

Definition on0 (f : RawFighter) : bool := raw_side f =? 0.

Lemma count_if_nonneg p fs : 0 <= count_if p fs.
Proof. apply zsum_nonneg, Forall_forall. intros f _. case_match; lia. Qed.

Lemma count_if_zero p fs : count_if p fs = 0 <-> forall f, f ∈ fs -> p f = false.
Proof.
  induction fs as [| f fs IH]; [set_solver |]. pose proof (count_if_nonneg p fs). unfold count_if in *. simpl.
  destruct (p f) eqn:E; [split; [lia | intros H'; specialize (H' f); set_solver by congruence] |].
  rewrite Z.add_0_l, IH. set_solver by congruence.
Qed.

Lemma count_if_split p q fs : count_if p fs = count_if (fun f => q f && p f) fs + count_if (fun f => negb (q f) && p f) fs.
Proof.
  unfold count_if. rewrite <- zsum_plus. apply zsum_ext. intros f _. destruct (q f), (p f); done.
Qed.

Lemma count_if_all fs : count_if (fun _ => true) fs = Z.of_nat (length fs).
Proof. induction fs as [| f fs IH]; [done |]. unfold count_if in *. simpl. lia. Qed.

Lemma count_if_cons p f fs : count_if p (f :: fs) = (if p f then 1 else 0) + count_if p fs.
Proof. done. Qed.

(** The accumulators of the loop, from any start. *)
Lemma classify_loop bank fs t :
  let r := foldl (classifyOne bank) t fs in
  let h f := isHouse bank (raw_wallet f) in
  side0 (t_real r) = side0 (t_real t) + count_if (fun f => negb (h f) && on0 f) fs /\
  side1 (t_real r) = side1 (t_real t) + count_if (fun f => negb (h f) && negb (on0 f)) fs /\
  side0 (t_house r) = side0 (t_house t) + count_if (fun f => h f && on0 f) fs /\
  side1 (t_house r) = side1 (t_house t) + count_if (fun f => h f && negb (on0 f)) fs /\
  (forall k, k ∈ t_in r <-> k ∈ t_in t \/ isHouse bank k = true /\ k ∈ raw_wallet <$> fs).
Proof.
  revert t. induction fs as [| f fs IH]; intros t r h; subst r h; [cbn; split_and!; try lia; set_solver |].
  cbn [foldl]. destruct (IH (classifyOne bank t f)) as (E0 & E1 & E2 & E3 & E4).
  rewrite E0, E1, E2, E3. clear E0 E1 E2 E3 IH. rewrite !count_if_cons.
  unfold classifyOne, seat, on0 in *. destruct (isHouse bank (raw_wallet f)) eqn:E;
    destruct (raw_side f =? 0); cbn -[count_if] in *; (split_and!; [lia.. |]);
    intros k; rewrite E4; set_solver by congruence.
Qed.

(** The split, in terms of the seats themselves. *)
Record split_of (bank : HouseBank) (fs : list RawFighter) (s : FighterSplit) : Prop := {
  real_nonneg : 0 <= side0 (real s) /\ 0 <= side1 (real s);
  house_nonneg : 0 <= side0 (house s) /\ 0 <= side1 (house s);
  real_total : realCount s = side0 (real s) + side1 (real s);
  house_total : houseCount s = side0 (house s) + side1 (house s);
  real_counted : realCount s = count_if (fun f => negb (isHouse bank (raw_wallet f))) fs;
  side0_counted : occupied0 s = count_if on0 fs;
  side1_counted : occupied1 s = count_if (fun f => negb (on0 f)) fs;
  everyone : realCount s + houseCount s = Z.of_nat (length fs);
  standing : forall k, k ∈ houseIn s <-> isHouse bank k = true /\ k ∈ raw_wallet <$> fs;
  standing_few : Z.of_nat (size (houseIn s)) <= houseCount s;
}.

Lemma count_if_and_comm p q fs : count_if (fun f => p f && q f) fs = count_if (fun f => q f && p f) fs.
Proof. apply zsum_ext. intros f _. by rewrite andb_comm. Qed.

Lemma houseIn_few bank fs t :
  Z.of_nat (size (t_in t)) <= side0 (t_house t) + side1 (t_house t) ->
  let r := foldl (classifyOne bank) t fs in Z.of_nat (size (t_in r)) <= side0 (t_house r) + side1 (t_house r).
Proof.
  revert t. induction fs as [| f fs IH]; intros t Ht; [done |]. apply IH. unfold classifyOne, seat.
  case_match; [| by case_match]. cbn [t_in t_house].
  rewrite (union_comm_L _ (t_in t)), size_union_alt.
  pose proof (subseteq_size ({[ raw_wallet f ]} ∖ t_in t) {[ raw_wallet f ]} ltac:(set_solver)) as Hs.
  rewrite size_singleton in Hs. case_match; cbn [side0 side1]; lia.
Qed.

Lemma classify_split bank round : split_of bank (seated round) (classify bank round).
Proof.
  pose proof (classify_loop bank (seated round) (mkTally (mkCounts 0 0) (mkCounts 0 0) ∅)) as (E0 & E1 & E2 & E3 & E4).
  assert (He : Z.of_nat (size (∅ : gset string)) <= 0) by (rewrite size_empty; lia).
  pose proof (houseIn_few bank (seated round) (mkTally (mkCounts 0 0) (mkCounts 0 0) ∅) He) as Hf. clear He.
  unfold classify. fold (seated round). revert E0 E1 E2 E3 E4 Hf.
  generalize (foldl (classifyOne bank) (mkTally (mkCounts 0 0) (mkCounts 0 0) ∅) (seated round)). intros t.
  cbn [side0 side1 t_real t_house t_in]. set (fs := seated round). set (h f := isHouse bank (raw_wallet f)).
  intros E0 E1 E2 E3 E4 Hf.
  pose proof (count_if_nonneg (fun f => negb (h f) && on0 f) fs). pose proof (count_if_nonneg (fun f => h f && on0 f) fs).
  pose proof (count_if_nonneg (fun f => negb (h f) && negb (on0 f)) fs).
  pose proof (count_if_nonneg (fun f => h f && negb (on0 f)) fs).
  pose proof (count_if_split on0 h fs) as S0. pose proof (count_if_split (fun f => negb (on0 f)) h fs) as S1.
  pose proof (count_if_split (fun f => negb (h f)) on0 fs) as Sr.
  rewrite (count_if_and_comm on0), (count_if_and_comm (fun f => negb (on0 f))) in Sr.
  pose proof (count_if_split (fun _ => true) on0 fs) as Sa. rewrite count_if_all in Sa.
  assert (Hb : forall p, count_if (fun f => p f && true) fs = count_if p fs)
    by (intros p; apply zsum_ext; intros f _; by rewrite andb_true_r).
  rewrite (Hb on0), (Hb (fun f => negb (on0 f))) in Sa.
  subst h. cbv beta in *.
  split; unfold occupied0, occupied1; cbn -[on0]; first [lia | intros k; rewrite E4; set_solver].
Qed.

(** ** The reservation *)

(** Multiplying by four and dividing by the lobby floor, from a booted grace. *)
Lemma seats_reserved_whole c :
  config_ok c -> REAL_SEATS_RESERVED c = of_Z (seatsReserved c) /\ 4 <= seatsReserved c <= 2 ^ 40.
Proof.
  intros Hc. unfold seatsReserved. enough (exists k, 4 <= k <= 2 ^ 40 /\ REAL_SEATS_RESERVED c = of_Z k) as (k & Hk & E).
  { rewrite E, to_bigint_int by (unfold safe; lia). cbv iota. split; [reflexivity | exact Hk]. }
  pose proof (grace_floor c Hc) as Hlo. pose proof (grace_ceiling c Hc) as Hhi. unfold REAL_SEATS_RESERVED.
  revert Hlo Hhi. generalize (REAL_PLAYER_GRACE_SECONDS c). clear c Hc. intros g.
  unfold MIN_LOBBY_SECONDS, MAX_LOBBY_SECONDS. pose proof one_pos as Hone.
  assert (S20 : of_Z 20 = Fin (20 * one)) by (apply of_Z_exact; lia).
  rewrite S20 at 1. rewrite (of_Z_exact 604800) by lia. destruct g as [| [] | g]; [done.. |].
  rewrite !leb_fin. intros Hlo%Z.leb_le Hhi%Z.leb_le.
  assert (M : forall m, is_nan (mul (of_Z 4) (Fin m)) = false).
  { intros m. rewrite of_Z_exact by lia. apply mk_not_nan. }
  assert (H4 : leb (Fin 0) (of_Z 4) = true) by (rewrite of_Z_exact, leb_fin by lia; apply Z.leb_le; lia).
  assert (F4 : is_finite (of_Z 4) = true) by (apply of_Z_finite; unfold safe; lia).
  assert (D : forall a b, a <= b -> leb (div (mul (of_Z 4) (Fin a)) (of_Z 20)) (div (mul (of_Z 4) (Fin b)) (of_Z 20)) = true).
  { intros a b Hab. rewrite S20. apply div_mono_pos; [| lia].
    apply mul_mono_nonneg; [exact H4 | exact F4 | rewrite leb_fin; apply Z.leb_le; lia | exact (M a) | exact (M b)]. }
  pose proof (D (20 * one) g Hlo) as Dlo. pose proof (D g (604800 * one) Hhi) as Dhi.
  replace (div (mul (of_Z 4) (Fin (20 * one))) (of_Z 20)) with (Fin (4 * one)) in Dlo by (vm_compute; reflexivity).
  replace (div (mul (of_Z 4) (Fin (604800 * one))) (of_Z 20)) with (Fin (120960 * one)) in Dhi by (vm_compute; reflexivity).
  clear D M H4 F4 S20 Hlo Hhi. revert Dlo Dhi. generalize (div (mul (of_Z 4) (Fin g)) (of_Z 20)). clear g.
  intros [| [] | r]; [done.. |]. rewrite !leb_fin. intros Hlo%Z.leb_le Hhi%Z.leb_le.
  exists (Z.max 4 (- (- r / one))).
  assert (Hk : 4 <= - (- r / one) <= 120960).
  { split; [apply Z.opp_le_mono; rewrite Z.opp_involutive; apply Z.div_le_upper_bound; lia |].
    apply Z.opp_le_mono. rewrite Z.opp_involutive. apply Z.div_le_lower_bound; lia. }
  split; [lia |]. replace (ceil (Fin r)) with (of_Z (- (- r / one))) by (rewrite of_Z_exact by lia; reflexivity).
  apply max_int; unfold safe; lia.
Qed.

(** ** The placement loop *)

(** The knob band every stake is drawn from. *)
Record stakes_ok (c : Config) : Prop := {
  stakes_config : config_ok c;
  stakes_cap : HOUSE_STAKE_MAX_USD c <= 1000000000;
}.

(** What every planned entry carries. *)
Definition entry_ok (c : Config) (e : HouseEntry) : Prop :=
  (entry_on e = 0 \/ entry_on e = 1) /\
  exists usd, entry_stake_units e = usd * UNITS_PER_USD /\ HOUSE_STAKE_MIN_USD c <= usd <= HOUSE_STAKE_MAX_USD c.

(** A plan over [wallets]: nobody twice, no more than asked for, no side past
    its deficit. *)
Record placed (c : Config) (left need0 need1 : Z) (wallets : list HouseWallet) (es : list HouseEntry) : Prop := {
  placed_wallets : sublist (entry_by <$> es) wallets;
  placed_few : Z.of_nat (length es) <= Z.max 0 left;
  placed_ok : Forall (entry_ok c) es;
}.

Lemma place_placed c r left n0 n1 ws :
  stakes_ok c -> exists es, place c r left n0 n1 ws = Done es /\ placed c left n0 n1 ws es.
Proof.
  intros [Hc Hm]. revert left n0 n1. induction ws as [| w ws IH]; intros left n0 n1.
  { exists []. split; [done |]. split; [done | simpl; lia | constructor]. }
  cbn [place]. destruct (Z.leb_spec left 0).
  { exists []. split; [done |]. split; [apply sublist_nil_l | simpl; lia | constructor]. }
  destruct (house_stake_whole c r (index w) Hc Hm) as (usd & E & Hu).
  assert (Hskip : forall es, placed c left n0 n1 ws es -> placed c left n0 n1 (w :: ws) es).
  { intros es [H1 H2 H3]. split; [by constructor | done | done]. }
  assert (Htake : forall side m0 m1 es, side = 0 \/ side = 1 -> placed c (left - 1) m0 m1 ws es ->
            placed c left n0 n1 (w :: ws) (mkHouseEntry w side (usd * UNITS_PER_USD) :: es)).
  { intros side m0 m1 es Hs [H1 H2 H3]. split; [by constructor | cbn [length]; lia |].
    constructor; [| done]. split; [done | by exists usd]. }
  destruct (n1 <=? n0); [destruct (n0 <=? 0) | destruct (n1 <=? 0)].
  1, 3: destruct (IH left n0 n1) as (es & -> & Hes); by eauto.
  - rewrite E. cbn [outcome_bind]. destruct (IH (left - 1) (n0 - 1) n1) as (es & -> & Hes).
    eexists. split; [done |]. eapply Htake; [by left | done].
  - rewrite E. cbn [outcome_bind]. destruct (IH (left - 1) n0 (n1 - 1)) as (es & -> & Hes).
    eexists. split; [done |]. eapply Htake; [by right | done].
Qed.

(** The first wallet goes to the larger deficit. *)
Lemma place_first c r left n0 n1 w ws es :
  0 < left -> 0 < Z.max n0 n1 -> place c r left n0 n1 (w :: ws) = Done es ->
  exists e rest, es = e :: rest /\
    if n1 <=? n0 then entry_on e = 0 /\ place c r (left - 1) (n0 - 1) n1 ws = Done rest
    else entry_on e = 1 /\ place c r (left - 1) n0 (n1 - 1) ws = Done rest.
Proof.
  intros Hl Hn. cbn [place]. rewrite (proj2 (Z.leb_gt left 0)) by lia.
  destruct (Z.leb_spec n1 n0); rewrite (proj2 (Z.leb_gt _ 0)) by lia;
    (destruct (houseStake c r (index w)) as [stake |]; [cbn [outcome_bind] | discriminate]);
    match goal with |- outcome_bind ?m _ = _ -> _ => destruct m as [rest |]; [cbn [outcome_bind] | discriminate] end;
    intros E; injection E as <-; by eexists _, rest.
Qed.

Lemma rotated_perm r ws : rotated r ws ≡ₚ ws.
Proof. unfold rotated. rewrite Permutation_app_comm. by rewrite take_drop. Qed.

(** ** The counts of a plan *)

(** Neither side overtakes the other by more than the tie goes to side 0. *)
Lemma allocateFrom_lead n f0 f1 :
  let w0 := countSide 0 (allocateFrom n f0 f1) in let w1 := countSide 1 (allocateFrom n f0 f1) in
  0 <= w0 /\ 0 <= w1 /\
  (f0 <= f1 + 1 -> 0 < w1 -> f1 + w1 <= f0 + w0) /\
  (f1 <= f0 -> 0 < w0 -> f0 + w0 <= f1 + w1 + 1).
Proof.
  revert f0 f1. induction n as [| n IH]; intros f0 f1; [unfold countSide; simpl; lia |].
  cbn [allocateFrom]. destruct (Z.ltb_spec f1 f0).
  - specialize (IH f0 (f1 + 1)). unfold countSide in *. simpl in *. lia.
  - specialize (IH (f0 + 1) f1). unfold countSide in *. simpl in *. lia.
Qed.

Lemma allocateFrom_first n f0 f1 : f1 < f0 -> 0 < countSide 0 (allocateFrom n f0 f1) -> 0 < countSide 1 (allocateFrom n f0 f1).
Proof.
  destruct n as [| n]; [done |]. cbn [allocateFrom]. intros H _. rewrite (proj2 (Z.ltb_lt _ _) H).
  pose proof (allocateFrom_lead n f0 (f1 + 1)). unfold countSide in *. simpl in *. lia.
Qed.

Lemma allocated T s :
  0 <= T ->
  let w0 := countSide 0 (allocateHouseSides T s) in let w1 := countSide 1 (allocateHouseSides T s) in
  w0 + w1 = T /\ 0 <= w0 /\ 0 <= w1 /\
  (side0 s <= side1 s -> 0 < w1 -> side1 s + w1 <= side0 s + w0) /\
  (side1 s <= side0 s -> 0 < w0 -> side0 s + w0 <= side1 s + w1 + 1) /\
  (side1 s < side0 s -> 0 < w0 -> 0 < w1).
Proof.
  intros HT. unfold allocateHouseSides.
  pose proof (allocateFrom_sides (Z.to_nat T) (side0 s) (side1 s)) as [Hs _].
  pose proof (allocateFrom_lead (Z.to_nat T) (side0 s) (side1 s)).
  pose proof (allocateFrom_first (Z.to_nat T) (side0 s) (side1 s)).
  cbv zeta in *. lia.
Qed.

Lemma wantedTarget_range c s r now lobby :
  config_ok c -> 0 <= wantedTarget c s r now lobby <= HOUSE_WALLET_COUNT c /\
  (realCount s = 0 -> emptyRoom lobby = unfightable -> wantedTarget c s r now lobby = 1) /\
  (realCount s < 2 -> realCount s <> 0 \/ emptyRoom lobby = house_only -> 2 <= wantedTarget c s r now lobby).
Proof.
  intros Hc. pose proof (wallets_range c Hc) as Hw. unfold wantedTarget, HOUSE_MAX_WITHOUT_REAL_PLAYER.
  assert (Hb : houseFighterCount c (real s) (emptyRoom lobby) <= HOUSE_WALLET_COUNT c).
  { unfold houseFighterCount, HOUSE_MAX_WITHOUT_REAL_PLAYER. case_match; lia. }
  revert Hb. generalize (houseFighterCount c (real s) (emptyRoom lobby)). intros b Hb.
  generalize (arrivalsDueBy r b (arrivalFraction c now (view_drawAt lobby))). intros due.
  unfold MIN_FIGHTERS_TO_FIGHT, HOUSE_FLOOR.
  destruct (Z.eqb_spec (realCount s) 0) as [E |]; simpl;
    [destruct (emptyRoom lobby); [rewrite bool_decide_true by done | rewrite bool_decide_false by done] |];
    split_and!; try (case_match; lia); try lia; intros; try (case_match; lia); by intuition lia || congruence.
Qed.

(** The room after the plan, by what bounds it. *)
Lemma shortfall_bounds c s lobby seats T :
  let n := shortfall c s lobby seats T in
  n <= Z.max 0 (seats - realCount s - houseCount s) /\
  (coverFloor s lobby = 0 \/ 1 < n -> n <= Z.max 0 (houseCeiling c seats s - houseCount s)) /\
  (roomMustBeFightable s lobby = false -> n <= Z.max 0 (T - houseCount s)) /\
  Z.min (coverFloor s lobby) (seats - realCount s - houseCount s) <= n.
Proof.
  unfold shortfall. assert (0 <= coverFloor s lobby <= 1) by (unfold coverFloor; case_match; lia).
  split_and!; try lia. intros Hr. assert (E : coverFloor s lobby = 0) by (unfold coverFloor; by rewrite Hr).
  unfold growth. rewrite Hr, E. lia.
Qed.

(** ** The bank *)

Lemma isHouse_spec c keys k : isHouse (houseBankFrom c keys) k = true <-> k ∈ keys.
Proof. unfold isHouse. by rewrite bool_decide_eq_true. Qed.

Lemma active_pubkeys c keys :
  pubkey <$> active (houseBankFrom c keys) = take (Z.to_nat (HOUSE_WALLET_COUNT c)) keys.
Proof.
  unfold houseBankFrom. cbn [active]. generalize (take (Z.to_nat (HOUSE_WALLET_COUNT c)) keys). intros ks.
  rewrite fmap_imap. rewrite <- (list_fmap_id ks) at 2. rewrite <- imap_const. done.
Qed.

Lemma free_distinct c keys s : NoDup keys -> NoDup (pubkey <$> freeWallets (houseBankFrom c keys) s).
Proof.
  intros H. apply (sublist_NoDup _ (pubkey <$> active (houseBankFrom c keys))).
  - rewrite active_pubkeys. apply (sublist_NoDup _ keys); [done | apply sublist_take].
  - apply sublist_fmap, sublist_filter.
Qed.

(** Every wallet standing in the round takes one off the free list, no more. *)
Lemma free_count c keys s :
  NoDup keys -> Z.of_nat (length (active (houseBankFrom c keys))) - Z.of_nat (size (houseIn s)) <=
                Z.of_nat (length (freeWallets (houseBankFrom c keys) s)).
Proof.
  intros H. unfold freeWallets. set (ws := active (houseBankFrom c keys)).
  pose proof (filter_app_complement (fun w => pubkey w ∉ houseIn s) ws) as HP%Permutation_length.
  rewrite length_app in HP.
  match type of HP with (_ + length ?g)%nat = _ => set (gone := g) in * end.
  enough (length gone <= size (houseIn s))%nat by lia.
  rewrite <- (length_fmap pubkey gone), <- (size_list_to_set (C := gset string) (pubkey <$> gone)).
  - apply subseteq_size. intros k Hk%elem_of_list_to_set. apply list_elem_of_fmap in Hk as (w & -> & Hw).
    apply list_elem_of_filter in Hw as [Hw _]. by destruct (decide (pubkey w ∈ houseIn s)).
  - apply (sublist_NoDup _ (pubkey <$> ws)); [| apply sublist_fmap, sublist_filter].
    subst ws. rewrite active_pubkeys. apply (sublist_NoDup _ keys); [done | apply sublist_take].
Qed.

(** ** The plan *)

(** The lobby will be drawn before an entry could land. *)
Definition tooLate (now : num) (lobby : HouseLobbyView) : bool :=
  leb (sub (view_drawAt lobby) now) (of_Z CLOCK_SKEW_MARGIN_SECONDS).

(** A plan either enters nobody or is the placement of its shortfall. *)
Lemma plan_cases c bank round r now lobby :
  stakes_ok c ->
  let s := classify bank round in let seats := Z.of_nat (length (raw_fighters round)) in
  let T := Z.min (wantedTarget c s r now lobby) (houseCeiling c seats s) in
  let n := shortfall c s lobby seats T in
  exists es, plannedHouseEntries c bank round r now lobby =
      Done (mkHousePlan es s (if tooLate now lobby then 0 else T)) /\
    (es = [] /\ (tooLate now lobby = true \/ n <= 0) \/
     tooLate now lobby = false /\ 0 < n /\
     place c r n (fst (needs s lobby T)) (snd (needs s lobby T)) (rotated r (freeWallets bank s)) = Done es /\
     placed c n (fst (needs s lobby T)) (snd (needs s lobby T)) (rotated r (freeWallets bank s)) es).
Proof.
  intros Hs s seats T n. unfold plannedHouseEntries. fold (tooLate now lobby). fold s seats T n.
  destruct (tooLate now lobby); [by exists []; auto |].
  destruct (Z.leb_spec n 0) as [Hn | Hn]; [exists []; split; [done | left; split; [done | by right]] |].
  destruct (needs s lobby T) as [n0 n1]. cbn [fst snd].
  destruct (place_placed c r n n0 n1 (rotated r (freeWallets bank s)) Hs) as (es & E & Hes).
  exists es. rewrite E. split; [done |]. right. done.
Qed.

Lemma active_in_keys c keys w : w ∈ active (houseBankFrom c keys) -> pubkey w ∈ keys.
Proof.
  intros Hw%(list_elem_of_fmap_2 pubkey). rewrite active_pubkeys in Hw.
  exact (elem_of_sublist _ _ _ Hw (sublist_take _ _)).
Qed.

(** A free wallet is an active one with nobody of its name in the round. *)
Lemma free_is_free c keys fs s w :
  split_of (houseBankFrom c keys) fs s -> w ∈ freeWallets (houseBankFrom c keys) s ->
  w ∈ active (houseBankFrom c keys) /\ pubkey w ∉ raw_wallet <$> fs.
Proof.
  intros Sp [Hn Hw]%list_elem_of_filter. split; [done |]. intros Hin. apply Hn, (standing _ _ _ Sp).
  split; [| done]. by eapply isHouse_spec, active_in_keys.
Qed.

Lemma nobody_real c keys fs s :
  split_of (houseBankFrom c keys) fs s -> realCount s = 0 <-> forall f, f ∈ fs -> raw_wallet f ∈ keys.
Proof.
  intros Sp. rewrite (real_counted _ _ _ Sp), count_if_zero. split; intros H f Hf; specialize (H f Hf).
  - apply negb_false_iff in H. by eapply isHouse_spec.
  - apply negb_false_iff. by apply isHouse_spec.
Qed.

Lemma somebody_real c keys fs s :
  split_of (houseBankFrom c keys) fs s -> 0 < realCount s -> exists f, f ∈ fs /\ raw_wallet f ∉ keys.
Proof.
  intros Sp H. destruct (decide (Forall (fun f => raw_wallet f ∈ keys) fs)) as [HF | HF].
  - rewrite Forall_forall in HF. apply (nobody_real _ _ _ _ Sp) in HF. lia.
  - apply not_Forall_Exists, Exists_exists in HF; [done | apply _].
Qed.

Lemma side0_empty bank fs s : split_of bank fs s -> occupied0 s = 0 <-> forall f, f ∈ fs -> raw_side f <> 0.
Proof.
  intros Sp. rewrite (side0_counted _ _ _ Sp), count_if_zero. unfold on0.
  split; intros H f Hf; specialize (H f Hf); lia.
Qed.

Lemma side1_empty bank fs s : split_of bank fs s -> occupied1 s = 0 <-> forall f, f ∈ fs -> raw_side f = 0.
Proof.
  intros Sp. rewrite (side1_counted _ _ _ Sp), count_if_zero. unfold on0.
  split; intros H f Hf; specialize (H f Hf); lia.
Qed.

Lemma fightable_room s lobby :
  roomMustBeFightable s lobby = true <-> 0 < realCount s \/ emptyRoom lobby = house_only.
Proof. unfold roomMustBeFightable. by rewrite orb_true_iff, Z.ltb_lt, bool_decide_eq_true. Qed.

Lemma cover_spec s lobby :
  coverFloor s lobby = 0 \/
  coverFloor s lobby = 1 /\ roomMustBeFightable s lobby = true /\ (occupied0 s = 0 \/ occupied1 s = 0).
Proof.
  unfold coverFloor. destruct (roomMustBeFightable s lobby); [| by left].
  destruct (Z.eqb_spec (occupied0 s) 0), (Z.eqb_spec (occupied1 s) 0); simpl; auto.
Qed.

(** C6. What a pass plans can be sent.  For a configuration that boots, a bank
    of distinct wallets and any round account, the planner returns a plan; late
    in the lobby it is empty; no wallet appears twice, every wallet is an active
    one of the bank with no fighter in the round, each on one of the two sides
    with a stake in the configured band; it asks for no seat the round does not
    have, and leaves the reserved seats to real players, unless it is the one
    entry that puts somebody on an empty side of a room meant to fight (a real
    player in it, or the policy house-only), which may take a reserved seat; and in a
    room with nobody real in it the policy unfightable, and only that one, never
    brings the round past one fighter: under house-only the planner fills such a room
    to two or more. *)
Theorem plan_can_be_sent c keys round r now lobby :
  stakes_ok c -> NoDup keys -> 0 <= raw_fighterCount round <= Z.of_nat (length (raw_fighters round)) ->
  let bank := houseBankFrom c keys in let seats := Z.of_nat (length (raw_fighters round)) in
  exists es target, plannedHouseEntries c bank round r now lobby = Done (mkHousePlan es (classify bank round) target) /\
    let after := raw_fighterCount round + Z.of_nat (length es) in
    (tooLate now lobby = true -> es = []) /\
    NoDup (pubkey ∘ entry_by <$> es) /\
    Forall (fun e => entry_by e ∈ active bank /\ pubkey (entry_by e) ∉ raw_wallet <$> seated round /\ entry_ok c e) es /\
    (es <> [] -> after <= seats) /\
    (es = [] \/ after <= seats - seatsReserved c \/
     length es = 1%nat /\ ((exists f, f ∈ seated round /\ raw_wallet f ∉ keys) \/ emptyRoom lobby = house_only) /\
     ((forall f, f ∈ seated round -> raw_side f <> 0) \/ (forall f, f ∈ seated round -> raw_side f = 0))) /\
    ((forall f, f ∈ seated round -> raw_wallet f ∈ keys) -> emptyRoom lobby = unfightable ->
     es = [] \/ after <= 1).
Proof.
  intros Hs Hk Hr bank seats. pose proof (classify_split bank round) as Sp.
  destruct (plan_cases c bank round r now lobby Hs) as (es & E & Hes). fold seats in E, Hes.
  set (s := classify bank round) in *. pose proof (everyone _ _ _ Sp) as Hall.
  assert (Hlen : Z.of_nat (length (seated round)) = raw_fighterCount round)
    by (unfold seated; rewrite length_take; lia). rewrite Hlen in Hall. clear Hlen.
  eexists es, _. split; [exact E |]. cbv zeta. clear E.
  destruct Hes as [[-> _] | (Hlate & Hn & _ & [Hsub Hfew Hok])].
  { split_and!; try done; [apply NoDup_nil_2 | by left | by left]. }
  set (T := Z.min _ _) in *. rewrite Z.max_r in Hfew by lia.
  destruct (shortfall_bounds c s lobby seats T) as (B1 & B2 & B3 & _).
  assert (Hmem : forall e, e ∈ es -> entry_by e ∈ freeWallets bank s).
  { intros e He. rewrite <- (rotated_perm r). apply (elem_of_sublist _ _ _ (list_elem_of_fmap_2 entry_by _ _ He) Hsub). }
  split_and!.
  - by rewrite Hlate.
  - rewrite list_fmap_compose. eapply sublist_NoDup; [| apply sublist_fmap, Hsub].
    rewrite rotated_perm. by apply free_distinct.
  - rewrite Forall_forall in *. intros e He. destruct (free_is_free _ _ _ _ _ Sp (Hmem e He)) as [? ?].
    split_and!; [done.. | by apply Hok].
  - intros _. lia.
  - destruct (decide (es = [])) as [| Hne]; [by left | right].
    assert (1 <= Z.of_nat (length es)) by (destruct es; simpl; [done | lia]).
    pose proof (house_nonneg _ _ _ Sp). pose proof (house_total _ _ _ Sp).
    unfold houseCeiling in B2. destruct (cover_spec s lobby) as [E0 | (E1 & Hf & Hside)]; [left; lia |].
    destruct (decide (1 < shortfall c s lobby seats T)); [left; lia | right]. split; [lia |]. split.
    + apply fightable_room in Hf as [Hreal |]; [left; by apply (somebody_real _ _ _ _ Sp) | by right].
    + destruct Hside; [left; by apply (side0_empty _ _ _ Sp) | right; by apply (side1_empty _ _ _ Sp)].
  - intros Hreal%(nobody_real _ _ _ _ Sp) Hun. right.
    assert (Hf : roomMustBeFightable s lobby = false) by (unfold roomMustBeFightable; by rewrite Hreal, Hun).
    specialize (B3 Hf). pose proof (proj2 (wantedTarget_range c s r now lobby (stakes_config _ Hs))) as [Hw _].
    specialize (Hw Hreal Hun). lia.
Qed.

Definition one_fighter_round : RawRound :=
  mkRawRound 1 (mkRaw "visitor" 0 :: replicate 47 (mkRaw "11111111111111111111111111111111" 0)).

Definition sample_keys : list string :=
  (fun i => String (Ascii.ascii_of_nat (97 + i)) EmptyString) <$> seq 0 12.

Lemma default_stakes_ok : stakes_ok default_config.
Proof. split; [exact default_config_ok | vm_compute; discriminate]. Qed.

Lemma sample_keys_distinct : NoDup sample_keys.
Proof. apply (bool_decide_unpack _). vm_compute. exact I. Qed.

Lemma plan_can_be_sent_witness :
  exists es target,
    plannedHouseEntries default_config (houseBankFrom default_config sample_keys) one_fighter_round 214 (of_Z 1700000050)
      (mkLobbyView (of_Z 1700000060) unfightable) =
    Done (mkHousePlan es (classify (houseBankFrom default_config sample_keys) one_fighter_round) target) /\
    NoDup (pubkey ∘ entry_by <$> es).
Proof.
  destruct (plan_can_be_sent default_config sample_keys one_fighter_round 214 (of_Z 1700000050)
              (mkLobbyView (of_Z 1700000060) unfightable) default_stakes_ok sample_keys_distinct)
    as (es & target & E & _ & Hd & _); [vm_compute; split; discriminate |].
  exists es, target. exact (conj E Hd).
Defined.

(** ** Nobody is left without an opponent *)

Definition has_side (p : Z) (es : list HouseEntry) : Prop := exists e, e ∈ es /\ entry_on e = p.

(** The larger deficit is served when there is anybody to send. *)
Lemma place_larger c r left n0 n1 ws es :
  0 < left -> ws <> [] -> place c r left n0 n1 ws = Done es ->
  (0 < n0 -> n1 <= n0 -> has_side 0 es) /\ (0 < n1 -> n0 < n1 -> has_side 1 es).
Proof.
  intros Hl Hw E. destruct ws as [| w ws]; [done |]. split; intros Hp Hc.
  - destruct (place_first c r left n0 n1 _ _ _ Hl ltac:(lia) E) as (e & rest & -> & H).
    rewrite (proj2 (Z.leb_le n1 n0)) in H by lia. exists e. split; [left | apply H].
  - destruct (place_first c r left n0 n1 _ _ _ Hl ltac:(lia) E) as (e & rest & -> & H).
    rewrite (proj2 (Z.leb_gt n1 n0)) in H by lia. exists e. split; [left | apply H].
Qed.

(** Level deficits are served one each by two wallets. *)
Lemma place_level c r left n ws es :
  1 < left -> 0 < n -> (1 < length ws)%nat -> place c r left n n ws = Done es -> has_side 1 es.
Proof.
  intros Hl Hn Hw E. destruct ws as [| w [| w' ws]]; simpl in Hw; [lia.. |].
  destruct (place_first c r left n n _ _ _ ltac:(lia) ltac:(lia) E) as (e & rest & -> & H).
  rewrite (proj2 (Z.leb_le n n)) in H by lia.
  assert (has_side 1 rest) as (e' & He & Es) by (eapply (place_larger c r (left - 1) (n - 1) n); [lia | | apply H | lia..]; done).
  exists e'. split; [by right | done].
Qed.

Lemma occupied_total bank fs s : split_of bank fs s -> occupied0 s + occupied1 s = realCount s + houseCount s.
Proof. intros Sp. rewrite (real_total _ _ _ Sp), (house_total _ _ _ Sp). unfold occupied0, occupied1. lia. Qed.

(** The deficits once the floor has spoken, and the two sides they are
    measured from. *)
Lemma needs_covering bank fs s lobby T :
  split_of bank fs s -> roomMustBeFightable s lobby = true -> 0 <= T -> 0 < realCount s + houseCount s ->
  let n0 := fst (needs s lobby T) in let n1 := snd (needs s lobby T) in
  (occupied0 s = 0 -> 0 < n0 /\ n1 <= n0) /\
  (occupied1 s = 0 -> 0 < n1 /\ (n0 < n1 \/
     n0 = n1 /\ occupied0 s = 1 /\ houseCount s < T /\ growth s lobby T = T - houseCount s /\ T - houseCount s = 2 * n1)).
Proof.
  intros Sp Hf HT Hpos. pose proof (allocated T (real s) HT) as (A1 & A2 & A3 & A4 & A5 & A6).
  pose proof (occupied_total _ _ _ Sp) as Ho. pose proof (real_nonneg _ _ _ Sp). pose proof (house_nonneg _ _ _ Sp).
  pose proof (house_total _ _ _ Sp) as Eh. pose proof (real_total _ _ _ Sp).
  unfold needs, growth, coverFloor. rewrite Hf.
  revert A1 A2 A3 A4 A5 A6. generalize (countSide 0 (allocateHouseSides T (real s))) (countSide 1 (allocateHouseSides T (real s))).
  intros w0 w1 A1 A2 A3 A4 A5 A6. unfold occupied0, occupied1 in *. cbv zeta. split; intros E; rewrite E.
  - simpl. lia.
  - destruct (Z.eqb_spec (side0 (real s) + side0 (house s)) 0); [lia |]. simpl. lia.
Qed.

(** An empty side of an occupied room meant to fight, in the planner's terms. *)
Lemma cover_plan c keys fs s lobby seats r now es :
  let bank := houseBankFrom c keys in
  let T := Z.min (wantedTarget c s r now lobby) (houseCeiling c seats s) in
  let n := shortfall c s lobby seats T in
  stakes_ok c -> NoDup keys -> HOUSE_WALLET_COUNT c <= Z.of_nat (length keys) ->
  split_of bank fs s -> roomMustBeFightable s lobby = true ->
  0 < realCount s + houseCount s -> freeWallets bank s <> [] -> 0 < n ->
  place c r n (fst (needs s lobby T)) (snd (needs s lobby T)) (rotated r (freeWallets bank s)) = Done es ->
  (occupied0 s = 0 -> has_side 0 es) /\ (occupied1 s = 0 -> has_side 1 es).
Proof.
  intros bank T n [Hc _] Hk Hw Sp Hf Hpos Hfree Hn E.
  pose proof (wantedTarget_range c s r now lobby Hc) as ((W0 & W1) & _).
  assert (HT : 0 <= T <= HOUSE_WALLET_COUNT c /\ T <= houseCeiling c seats s) by (subst T; unfold houseCeiling; lia).
  destruct (needs_covering _ _ _ _ T Sp Hf ltac:(lia) Hpos) as [N0 N1].
  assert (Hws : rotated r (freeWallets bank s) <> []).
  { intros C. apply Hfree, nil_length_inv. by rewrite <- (Permutation_length (rotated_perm r _)), C. }
  destruct (place_larger _ _ _ _ _ _ _ Hn Hws E) as [P0 P1]. split; intros Ho.
  - apply P0; by apply N0.
  - destruct (N1 Ho) as (Hp & [Hlt | (Heq & O1 & Hlt & Hg & H2)]); [by apply P1 |].
    rewrite Heq in E. eapply place_level; [| exact Hp | | exact E].
    + pose proof (house_nonneg _ _ _ Sp). pose proof (house_total _ _ _ Sp).
      pose proof (real_nonneg _ _ _ Sp). pose proof (real_total _ _ _ Sp).
      pose proof (seats_reserved_whole c Hc) as [_ Hres]. unfold houseCeiling in HT.
      subst n. unfold shortfall. rewrite Hg. unfold houseCeiling. lia.
    + rewrite (Permutation_length (rotated_perm r _)).
      pose proof (free_count c keys s Hk) as Hcount. pose proof (standing_few _ _ _ Sp).
      assert (Ha : length (active bank) = Z.to_nat (HOUSE_WALLET_COUNT c)).
      { rewrite <- (length_fmap pubkey (active bank)). subst bank. rewrite active_pubkeys, length_take. lia. }
      fold bank in Hcount. rewrite Ha in Hcount. lia.
Qed.

(** C14. Nobody fights alone.  A room that is meant to fight (somebody real is in
    it, or the standing policy lets the house play itself), that is neither
    empty nor full, with time left and an active wallet not yet seated, is
    planned so that both sides of it hold a fighter: whatever the schedule, the
    board target and the reserved seats say, one entry goes to the side nobody
    stands on. *)
Theorem plan_covers_both_sides c keys round r now lobby :
  stakes_ok c -> NoDup keys -> HOUSE_WALLET_COUNT c <= Z.of_nat (length keys) ->
  0 < raw_fighterCount round < Z.of_nat (length (raw_fighters round)) -> tooLate now lobby = false ->
  (exists f, f ∈ seated round /\ raw_wallet f ∉ keys) \/ emptyRoom lobby = house_only ->
  let bank := houseBankFrom c keys in
  (exists w, w ∈ active bank /\ pubkey w ∉ raw_wallet <$> seated round) ->
  exists es target, plannedHouseEntries c bank round r now lobby = Done (mkHousePlan es (classify bank round) target) /\
    ((exists f, f ∈ seated round /\ raw_side f = 0) \/ has_side 0 es) /\
    ((exists f, f ∈ seated round /\ raw_side f <> 0) \/ has_side 1 es).
Proof.
  intros Hs Hk Hw Hr Hlate Hroom bank Hfree. pose proof (classify_split bank round) as Sp.
  destruct (plan_cases c bank round r now lobby Hs) as (es & E & Hes).
  set (seats := Z.of_nat (length (raw_fighters round))) in *. set (s := classify bank round) in *.
  pose proof (everyone _ _ _ Sp) as Hall.
  assert (Hlen : Z.of_nat (length (seated round)) = raw_fighterCount round)
    by (unfold seated; rewrite length_take; lia). rewrite Hlen in Hall. clear Hlen.
  eexists es, _. split; [exact E |]. clear E. set (T := Z.min _ _) in *.
  assert (Hf : roomMustBeFightable s lobby = true).
  { apply fightable_room. destruct Hroom as [(f & Hf & Hn) |]; [left | by right].
    destruct (decide (realCount s = 0)) as [Z0 |]; [| pose proof (real_total _ _ _ Sp); pose proof (real_nonneg _ _ _ Sp); lia].
    exfalso. by apply Hn, (proj1 (nobody_real _ _ _ _ Sp) Z0). }
  assert (Hne : freeWallets bank s <> []).
  { destruct Hfree as (w & Ha & Hw'). assert (w ∈ freeWallets bank s) as Hin; [| intros E; rewrite E in Hin; set_solver].
    apply list_elem_of_filter. split; [| done]. by intros [_ ?]%(standing _ _ _ Sp). }
  assert (Hcover : (occupied0 s = 0 -> has_side 0 es) /\ (occupied1 s = 0 -> has_side 1 es)).
  { pose proof (shortfall_bounds c s lobby seats T) as (_ & _ & _ & B4). fold T in Hes.
    destruct (cover_spec s lobby) as [E0 | (E1 & _)].
    - unfold coverFloor in E0. rewrite Hf in E0.
      destruct (Z.eqb_spec (occupied0 s) 0), (Z.eqb_spec (occupied1 s) 0); simpl in E0; done.
    - assert (0 < shortfall c s lobby seats T) by lia.
      destruct Hes as [[_ [Hl | Hl]] | (_ & Hn & E & _)]; [congruence | lia |].
      eapply (cover_plan c keys (seated round) s lobby seats r now es); done || lia. }
  pose proof (side0_empty _ _ _ Sp) as S0. pose proof (side1_empty _ _ _ Sp) as S1. split.
  - destruct (decide (Exists (fun f => raw_side f = 0) (seated round))) as [He | He];
      [left; by apply Exists_exists in He | right].
    apply Hcover, S0. intros f Hin H0. apply He, Exists_exists. by exists f.
  - destruct (decide (Forall (fun f => raw_side f = 0) (seated round))) as [He | He].
    + right. apply Hcover, S1. by rewrite Forall_forall in He.
    + left. apply not_Forall_Exists, Exists_exists in He; [done | apply _].
Qed.

Lemma plan_covers_both_sides_witness :
  let bank := houseBankFrom default_config sample_keys in
  exists es target,
    plannedHouseEntries default_config bank one_fighter_round 214 (of_Z 1700000020)
      (mkLobbyView (of_Z 1700000060) unfightable) = Done (mkHousePlan es (classify bank one_fighter_round) target) /\
    ((exists f, f ∈ seated one_fighter_round /\ raw_side f = 0) \/ has_side 0 es) /\
    ((exists f, f ∈ seated one_fighter_round /\ raw_side f <> 0) \/ has_side 1 es).
Proof.
  apply (plan_covers_both_sides default_config sample_keys one_fighter_round 214 (of_Z 1700000020)
           (mkLobbyView (of_Z 1700000060) unfightable) default_stakes_ok sample_keys_distinct).
  - vm_compute. discriminate.
  - vm_compute. split; reflexivity.
  - vm_compute. reflexivity.
  - left. exists (mkRaw "visitor" 0). split; [left |]. apply (bool_decide_unpack _). vm_compute. exact I.
  - exists (mkWallet 0 "a"). split; [left |]. apply (bool_decide_unpack _). vm_compute. exact I.
Defined.
