(* ===== verification/LobbyPolicy.v ===== *)
(** * What to do with a lobby next

    [er-demo/scripts/keeper/lobbyPolicy.ts]: the single next step of a lobby,
    as a function of the chain's clock, the roster and two latched
    observations.  Times are the doubles the code compares. *)
From S2P Require Import Prelude JsNum ErSim Chain KeeperConfig.

Inductive LobbyStep : Type := wait | closeEarly | closeToSchedule | close | abandon | waitForFighters.

#[global] Instance LobbyStep_eq_dec : EqDecision LobbyStep.
Proof. solve_decision. Defined.

Record LobbyView : Type := mkView {
  nowSec : num;
  lobbyClosesAt : num;
  fighterCount : Z;
  realFighterCount : Z;
  firstRealEntryObservedAtSec : option num;
  holdOpen : bool;
  houseOnly : bool;
  scheduleCloseRetryAfterSec : num;
}.

Record LobbyPlan : Type := mkPlan {
  step : LobbyStep;
  heldOpen : bool;
  entriesCloseAt : option num;
  drawAt : num;
}.

Definition lobbyIsHeldOpen (phaseCode : Z) (view : LobbyView) : bool :=
  holdOpen view && negb (houseOnly view) && (phaseCode =? Phase_Lobby) && (realFighterCount view =? 0) &&
  lobbyIsOpen (lobbyClosesAt view) (nowSec view).

Definition deadlineIsOffSchedule (view : LobbyView) : bool :=
  holdOpen view && houseOnly view &&
  ltb (of_Z (DEFAULT_LOBBY_SECONDS + CLOCK_SKEW_MARGIN_SECONDS)) (sub (lobbyClosesAt view) (nowSec view)).

Definition scheduleCloseIsDue (view : LobbyView) : bool :=
  deadlineIsOffSchedule view && (MIN_FIGHTERS_TO_FIGHT <=? fighterCount view) &&
  leb (scheduleCloseRetryAfterSec view) (nowSec view).

Definition planLobby (c : Config) (view : LobbyView) : LobbyPlan :=
  let heldOpen := lobbyIsHeldOpen Phase_Lobby view in
  let entriesCloseAt :=
    match holdOpen view, firstRealEntryObservedAtSec view with
    | true, Some first => Some (min (add first (REAL_PLAYER_GRACE_SECONDS c)) (lobbyClosesAt view))
    | _, _ => None
    end in
  let drawAt := default (lobbyClosesAt view) entriesCloseAt in
  let plan step := mkPlan step heldOpen entriesCloseAt drawAt in
  if negb (lobbyIsOpen (lobbyClosesAt view) (nowSec view)) then
    if ltb (nowSec view) (add (lobbyClosesAt view) (of_Z CLOCK_SKEW_MARGIN_SECONDS)) then plan wait
    else plan (if fighterCount view <? MIN_FIGHTERS_TO_FIGHT then abandon else close)
  else match entriesCloseAt with
  | None => plan (if scheduleCloseIsDue view then closeToSchedule else wait)
  | Some closes =>
      if ltb (nowSec view) closes then plan wait
      else if fighterCount view <? MIN_FIGHTERS_TO_FIGHT then plan waitForFighters
      else plan closeEarly
  end.

(** ** Laws *)

(** A view of a real clock: its instants are finite numbers. *)
Record view_ok (v : LobbyView) : Prop := {
  now_finite : is_finite (nowSec v) = true;
  closes_finite : is_finite (lobbyClosesAt v) = true;
  first_finite : forall f, firstRealEntryObservedAtSec v = Some f -> is_finite f = true;
}.

Lemma add_not_nan x y : is_finite x = true -> is_nan y = false -> is_nan (add x y) = false.
Proof. destruct x as [| |], y as [| |]; try done. intros. apply mk_not_nan. Qed.

Lemma grace_not_nan c : config_ok c -> is_nan (REAL_PLAYER_GRACE_SECONDS c) = false.
Proof. intros Hc. exact (proj2 (leb_nan _ _ (grace_floor c Hc))). Qed.

(** The instant the keeper means to close entries is a number, no later than
    the deadline and no later than the grace allows. *)
Lemma close_instant c v first :
  config_ok c -> view_ok v -> firstRealEntryObservedAtSec v = Some first ->
  let t := min (add first (REAL_PLAYER_GRACE_SECONDS c)) (lobbyClosesAt v) in
  is_nan t = false /\ leb t (lobbyClosesAt v) = true /\ leb t (add first (REAL_PLAYER_GRACE_SECONDS c)) = true.
Proof.
  intros Hc [Hn Hcl Hf] E t.
  assert (Ht : is_nan t = false).
  { subst t. rewrite min_nan, (add_not_nan _ _ (Hf _ E) (grace_not_nan c Hc)). by apply finite_nan. }
  split_and!; [exact Ht | exact (min_r _ _ Ht) | exact (min_l _ _ Ht)].
Qed.

(** The keeper has committed to close entries at [t]. *)
Definition committed (c : Config) (v : LobbyView) (t : num) : Prop :=
  holdOpen v = true /\ exists first, firstRealEntryObservedAtSec v = Some first /\
    t = min (add first (REAL_PLAYER_GRACE_SECONDS c)) (lobbyClosesAt v).

(** The whole decision, one line per step: exactly when each is answered. *)
Definition step_spec (c : Config) (v : LobbyView) (s : LobbyStep) : Prop :=
  let open := ltb (floor (nowSec v)) (lobbyClosesAt v) = true in
  let over := leb (add (lobbyClosesAt v) (of_Z 2)) (nowSec v) = true in
  let enough := 2 <= fighterCount v in
  let off_schedule := holdOpen v = true /\ houseOnly v = true /\ enough /\
    ltb (of_Z 62) (sub (lobbyClosesAt v) (nowSec v)) = true /\
    leb (scheduleCloseRetryAfterSec v) (nowSec v) = true in
  let due := exists t, committed c v t /\ leb t (nowSec v) = true in
  let pending := exists t, committed c v t /\ ltb (nowSec v) t = true in
  match s with
  | abandon => ~ open /\ over /\ ~ enough
  | close => ~ open /\ over /\ enough
  | closeToSchedule => open /\ (forall t, ~ committed c v t) /\ off_schedule
  | closeEarly => open /\ enough /\ due
  | waitForFighters => open /\ ~ enough /\ due
  | wait => (~ open /\ ~ over) \/ (open /\ (forall t, ~ committed c v t) /\ ~ off_schedule) \/ (open /\ pending)
  end.

(** Over numbers, [<] and [<=] are each other's negation. *)
Lemma ltb_negb x y : is_nan x = false -> is_nan y = false -> ltb x y = negb (leb y x).
Proof.
  intros Hx Hy. destruct (ltb x y) eqn:E.
  - destruct (leb y x) eqn:F; [| done]. apply leb_not_ltb in F. congruence.
  - by rewrite (not_ltb _ _ Hx Hy E).
Qed.

Section Step.
Context (c : Config) (v : LobbyView) (Hc : config_ok c) (Hv : view_ok v).

Lemma over_negb :
  ltb (nowSec v) (add (lobbyClosesAt v) (of_Z CLOCK_SKEW_MARGIN_SECONDS)) =
  negb (leb (add (lobbyClosesAt v) (of_Z 2)) (nowSec v)).
Proof.
  destruct Hv as [Hn Hcl _]. apply ltb_negb; [by apply finite_nan |].
  apply add_not_nan; [done | apply mk_not_nan].
Qed.

(** The close the keeper has committed to, if any. *)
Lemma early_close :
  (holdOpen v = true /\ exists first, firstRealEntryObservedAtSec v = Some first) \/ (forall t, ~ committed c v t).
Proof.
  unfold committed. destruct (holdOpen v); [| right; intros t [? _]; discriminate].
  destruct (firstRealEntryObservedAtSec v) as [f |]; [left; eauto |].
  right. intros t (_ & f & ? & _). discriminate.
Qed.

Lemma plan_step_sound : step_spec c v (step (planLobby c v)).
Proof.
  pose proof over_negb as Ho. unfold planLobby, lobbyIsOpen. rewrite Ho. clear Ho.
  destruct (ltb (floor (nowSec v)) (lobbyClosesAt v)) eqn:Eo; simpl.
  - destruct early_close as [[Hh [f Ef]] | Hnone].
    + rewrite Hh, Ef. destruct (close_instant c v f Hc Hv Ef) as (Hnan & _ & _). cbv zeta in *.
      pose proof (ltb_negb (nowSec v) _ (finite_nan _ (now_finite v Hv)) Hnan) as Hn.
      set (t := min _ _) in *.
      assert (He : committed c v t) by (split; [exact Hh | by exists f]).
      destruct (ltb (nowSec v) t) eqn:E; simpl; [right; right; split; [from_context | by exists t] |].
      symmetry in Hn. apply negb_false_iff in Hn. unfold MIN_FIGHTERS_TO_FIGHT.
      destruct (Z.ltb_spec (fighterCount v) 2); simpl; (split_and!; [done | lia | by exists t]).
    + assert (E : (match holdOpen v, firstRealEntryObservedAtSec v with
        | true, Some first => Some (min (add first (REAL_PLAYER_GRACE_SECONDS c)) (lobbyClosesAt v))
        | _, _ => None end) = None).
      { destruct (holdOpen v) eqn:Eh, (firstRealEntryObservedAtSec v) as [f |] eqn:Ef; try done.
        destruct (Hnone (min (add f (REAL_PLAYER_GRACE_SECONDS c)) (lobbyClosesAt v))). split; [done | by exists f]. }
      rewrite E. unfold scheduleCloseIsDue, deadlineIsOffSchedule, MIN_FIGHTERS_TO_FIGHT.
      change (DEFAULT_LOBBY_SECONDS + CLOCK_SKEW_MARGIN_SECONDS) with 62.
      destruct (_ && _ && _) eqn:Ed; simpl; [zbool; split_and!; from_context |].
      right; left. split_and!; [from_context | exact Hnone |]. intros (E0 & E0' & Hf & E1 & E2).
      rewrite E0, E0', E1, E2, (proj2 (Z.leb_le _ _) Hf) in Ed. discriminate Ed.
  - unfold MIN_FIGHTERS_TO_FIGHT. destruct (leb _ _) eqn:E; simpl.
    + destruct (Z.ltb_spec (fighterCount v) 2); simpl;
        rewrite Eo; (split_and!; [discriminate | from_context | lia]).
    + left. rewrite Eo, E. split; discriminate.
Qed.

(** No view satisfies the conditions of two steps. *)
Lemma step_spec_unique s s' : step_spec c v s -> step_spec c v s' -> s = s'.
Proof.
  unfold step_spec. cbv zeta. set (early := committed c v).
  assert (Hexcl : (exists t, early t /\ leb t (nowSec v) = true) -> (exists t, early t /\ ltb (nowSec v) t = true) -> False).
  { intros (t & (_ & f & Ef & ->) & Hg) (t' & (_ & f' & Ef' & ->) & Hl).
    rewrite Ef in Ef'. injection Ef' as <-. apply leb_not_ltb in Hg. rewrite Hg in Hl. discriminate Hl. }
  assert (Hdue : (forall t, ~ early t) -> (exists t, early t /\ leb t (nowSec v) = true) -> False)
    by (intros Hnone (t & He & _); exact (Hnone t He)).
  assert (Hpend : (forall t, ~ early t) -> (exists t, early t /\ ltb (nowSec v) t = true) -> False)
    by (intros Hnone (t & He & _); exact (Hnone t He)).
  revert Hexcl Hdue Hpend.
  generalize (exists t, early t /\ leb t (nowSec v) = true), (exists t, early t /\ ltb (nowSec v) t = true),
    (forall t, ~ early t). clearbody early.
  generalize (holdOpen v = true /\ houseOnly v = true /\ 2 <= fighterCount v /\
    ltb (of_Z 62) (sub (lobbyClosesAt v) (nowSec v)) = true /\
    leb (scheduleCloseRetryAfterSec v) (nowSec v) = true).
  generalize (2 <= fighterCount v), (leb (add (lobbyClosesAt v) (of_Z 2)) (nowSec v) = true),
    (ltb (floor (nowSec v)) (lobbyClosesAt v) = true).
  clear. intros open over enough off due pending none Hexcl Hdue Hpend.
  destruct s, s'; tauto.
Qed.
End Step.

(** [planLobby] answers each step exactly when its conditions hold, and
    some step always.  Nothing is signed that the program would refuse: a close
    of either kind needs two fighters, and the permissionless close and the
    abandon need the deadline and the skew margin behind them; the early close
    needs the hold-open switch and a real arrival whose grace has run out; and
    the off-schedule close a house-only keeper holding a deadline further out
    than the default lobby. *)
Theorem plan_step_exact c v s :
  config_ok c -> view_ok v -> (step (planLobby c v) = s <-> step_spec c v s).
Proof.
  intros Hc Hv. split; [intros <-; by apply plan_step_sound |].
  intros Hs. exact (step_spec_unique c v _ _ (plan_step_sound c v Hc Hv) Hs).
Qed.

(** A house-only keeper ten seconds into a lobby whose deadline is a week out. *)
Definition stale_view : LobbyView :=
  mkView (of_Z 1700000010) (of_Z 1700604800) 2 0 None true true (of_Z 0).

Lemma stale_view_ok : view_ok stale_view.
Proof. split; [by apply of_Z_finite; unfold safe; lia.. | discriminate]. Qed.

Lemma plan_step_exact_witness :
  step (planLobby default_config stale_view) = closeToSchedule <->
  step_spec default_config stale_view closeToSchedule.
Proof. exact (plan_step_exact default_config stale_view closeToSchedule default_config_ok stale_view_ok). Defined.

(** The published instants are the ones the keeper acts on.  The draw is
    never planned past the chain's deadline, and it is the committed close
    whenever there is one; a close is committed exactly under hold-open with a
    real arrival seen, never past that arrival's grace; and a lobby reported as
    held open is one the keeper leaves alone: with no arrival latched its step
    is to wait and its draw is the deadline. *)
Theorem published_instants c v :
  config_ok c -> view_ok v ->
  let p := planLobby c v in
  leb (drawAt p) (lobbyClosesAt v) = true /\
  drawAt p = default (lobbyClosesAt v) (entriesCloseAt p) /\
  (is_Some (entriesCloseAt p) <-> holdOpen v = true /\ is_Some (firstRealEntryObservedAtSec v)) /\
  (forall t, entriesCloseAt p = Some t -> exists first, firstRealEntryObservedAtSec v = Some first /\
     leb t (add first (REAL_PLAYER_GRACE_SECONDS c)) = true /\ leb t (lobbyClosesAt v) = true) /\
  (heldOpen p = true -> firstRealEntryObservedAtSec v = None ->
   step p = wait /\ entriesCloseAt p = None /\ drawAt p = lobbyClosesAt v).
Proof.
  intros Hc Hv p.
  assert (Hent : entriesCloseAt p = match holdOpen v, firstRealEntryObservedAtSec v with
    | true, Some first => Some (min (add first (REAL_PLAYER_GRACE_SECONDS c)) (lobbyClosesAt v))
    | _, _ => None end) by (subst p; unfold planLobby; repeat case_match; reflexivity).
  assert (Hdraw : drawAt p = default (lobbyClosesAt v) (entriesCloseAt p))
    by (subst p; unfold planLobby; repeat case_match; reflexivity).
  assert (Hheld : heldOpen p = lobbyIsHeldOpen Phase_Lobby v)
    by (subst p; unfold planLobby; repeat case_match; reflexivity).
  pose proof (close_instant c v) as Hci. cbv zeta in Hci. rewrite Hdraw, Hheld.
  assert (Hrefl : leb (lobbyClosesAt v) (lobbyClosesAt v) = true)
    by exact (leb_refl _ (finite_nan _ (closes_finite v Hv))).
  split_and!; [| reflexivity | | |].
  - rewrite Hent. destruct (holdOpen v); [| exact Hrefl].
    destruct (firstRealEntryObservedAtSec v) as [f |]; [| exact Hrefl].
    exact (proj1 (proj2 (Hci f Hc Hv eq_refl))).
  - rewrite Hent. destruct (holdOpen v), (firstRealEntryObservedAtSec v) as [f |]; split; intros H; 
      repeat match goal with H : _ /\ _ |- _ => destruct H | H : is_Some None |- _ => by destruct H end;
      try discriminate; eauto.
  - intros t. rewrite Hent. destruct (holdOpen v); [| discriminate].
    destruct (firstRealEntryObservedAtSec v) as [f |]; [| discriminate]. intros [= <-]. exists f.
    destruct (Hci f Hc Hv eq_refl) as (_ & H1 & H2). auto.
  - intros Hh Hn. rewrite Hent, Hn. unfold lobbyIsHeldOpen in Hh. zbool.
    split_and!; [| by destruct (holdOpen v) | by destruct (holdOpen v)].
    subst p. unfold planLobby, scheduleCloseIsDue, deadlineIsOffSchedule. rewrite Hn.
    repeat match goal with H : _ = true |- _ => rewrite H | H : _ = false |- _ => rewrite H end. reflexivity.
Qed.

(** A held-open lobby thirty seconds after a real arrival. *)
Definition joined_view : LobbyView :=
  mkView (of_Z 1700000040) (of_Z 1700003600) 10 1 (Some (of_Z 1700000010)) true false (of_Z 0).

Lemma joined_view_ok : view_ok joined_view.
Proof.
  split; [by apply of_Z_finite; unfold safe; lia.. |].
  intros f E. apply (f_equal (default NaN)) in E. cbn in E. rewrite <- E. apply of_Z_finite. unfold safe. lia.
Qed.

Lemma published_instants_witness :
  let v := joined_view in let p := planLobby default_config v in
  leb (drawAt p) (lobbyClosesAt v) = true /\
  drawAt p = default (lobbyClosesAt v) (entriesCloseAt p) /\
  (is_Some (entriesCloseAt p) <-> holdOpen v = true /\ is_Some (firstRealEntryObservedAtSec v)) /\
  (forall t, entriesCloseAt p = Some t -> exists first, firstRealEntryObservedAtSec v = Some first /\
     leb t (add first (REAL_PLAYER_GRACE_SECONDS default_config)) = true /\ leb t (lobbyClosesAt v) = true) /\
  (heldOpen p = true -> firstRealEntryObservedAtSec v = None ->
   step p = wait /\ entriesCloseAt p = None /\ drawAt p = lobbyClosesAt v).
Proof. exact (published_instants default_config joined_view default_config_ok joined_view_ok). Defined.
