(* ===== verification/Closer.v ===== *)
(** * Which round to close next

    [er-demo/scripts/keeper/closeCursor.ts], the batched scan for the oldest
    round that still has an account, and [roundCloser.ts], the decision about
    one round.  The chain read and the clock the scan is handed are effects on
    a world the model is parametric in. *)
From S2P Require Import Prelude JsNum ErSim Chain.

Definition CLOSE_CURSOR_PROBE_BATCH : Z := 100.

Definition probeIsWorthARead (cursor : Z) (knownLiveAt : option Z) (through batch : Z) : bool :=
  if bool_decide (knownLiveAt = Some cursor) then false
  else batch <=? through - cursor + 1.

Inductive CloseCursorStop : Type := found | caught_up | no_rounds | batch_cap | deadline | failed.

#[global] Instance CloseCursorStop_eq_dec : EqDecision CloseCursorStop.
Proof. solve_decision. Defined.

(** What a failed scan carries: the probe's rejection, or the scan's own
    refusal of an empty answer. *)
Inductive scan_error (E : Type) : Type :=
| Rejected (e : E)
| AnsweredNothing (rounds cursor : Z).
Arguments Rejected {E} e.
Arguments AnsweredNothing {E} rounds cursor.

Record CloseCursorScan (E : Type) : Type := mkScan {
  cursor : Z;
  stoppedBecause : CloseCursorStop;
  skipped : Z;
  batches : Z;
  elapsedMs : num;
  error : option (scan_error E);
  catchUpAhead : bool;
}.
Arguments mkScan {E}.
Arguments cursor {E}.
Arguments stoppedBecause {E}.
Arguments skipped {E}.
Arguments batches {E}.
Arguments elapsedMs {E}.
Arguments error {E}.
Arguments catchUpAhead {E}.

(** The options of a scan: [W] is the world the effects act on, [E] what a
    rejected probe carries. *)
Record CloseCursorScanOptions (W E : Type) : Type := mkOpts {
  from : Z;
  through : Z;
  probe : W -> list Z -> outcome E (list bool) * W;
  nowMs : W -> num * W;
  budgetMs : num;
  maxBatches : Z;
  batch : option Z;
}.
Arguments mkOpts {W E}.
Arguments from {W E}.
Arguments through {W E}.
Arguments probe {W E}.
Arguments nowMs {W E}.
Arguments budgetMs {W E}.
Arguments maxBatches {W E}.
Arguments batch {W E}.

(** [for (n = cursor; n <= through && window.length < batch; n += 1n)] *)
Fixpoint scan_window (room : nat) (n through : Z) : list Z :=
  match room with
  | O => []
  | S room => if n <=? through then n :: scan_window room (n + 1) through else []
  end.

Section Scan.
Context {W E : Type} (opts : CloseCursorScanOptions W E).

(** The [done] closure: it reads the clock once more. *)
Definition scan_done (startedAtMs : num) (c : Z) (stop : CloseCursorStop) (n : Z) (e : option (scan_error E)) (w : W)
  : CloseCursorScan E * W :=
  let '(t, w) := nowMs opts w in
  (mkScan c stop (c - from opts) n (sub t startedAtMs) e
     (bool_decide (stop <> found) && (from opts <? c) && (c <=? through opts)), w).

(** The scan's loop; [None] when the fuel runs out. *)
Fixpoint scan_loop (fuel : nat) (b : Z) (startedAtMs : num) (c n : Z) (w : W) : option (CloseCursorScan E * W) :=
  match fuel with
  | O => None
  | S fuel =>
      if through opts <? c then Some (scan_done startedAtMs c caught_up n None w) else
      if maxBatches opts <=? n then Some (scan_done startedAtMs c batch_cap n None w) else
      let '(t, w) := nowMs opts w in
      if leb (budgetMs opts) (sub t startedAtMs) then Some (scan_done startedAtMs c deadline n None w) else
      let window := scan_window (Z.to_nat b) c (through opts) in
      let n := n + 1 in
      match probe opts w window with
      | (Throw e, w) => Some (scan_done startedAtMs c failed n (Some (Rejected e)) w)
      | (Done exists_, w) =>
          let answered := Nat.min (length exists_) (length window) in
          match list_find (fun x => x = true) (take answered exists_) with
          | Some (living, _) => Some (scan_done startedAtMs (default c (window !! living)) found n None w)
          | None =>
              if decide (answered = 0%nat)
              then Some (scan_done startedAtMs c failed n (Some (AnsweredNothing (Z.of_nat (length window)) c)) w)
              else scan_loop fuel b startedAtMs (c + Z.of_nat answered) n w
          end
      end
  end.

(** Every turn of the loop moves the cursor forward, so the span plus one turn
    to see its end is fuel enough. *)
Definition scan_fuel : nat := Z.to_nat (through opts - from opts + 2).

Definition findOldestLivingRound (w : W) : option (CloseCursorScan E * W) :=
  let b := default CLOSE_CURSOR_PROBE_BATCH (batch opts) in
  let '(startedAtMs, w) := nowMs opts w in
  if through opts <? from opts then Some (scan_done startedAtMs (from opts) no_rounds 0 None w) else
  if b <? 1 then Some (scan_done startedAtMs (from opts) batch_cap 0 None w) else
  scan_loop scan_fuel b startedAtMs (from opts) 0 w.
End Scan.

(** ** One round *)

(** A round as the closer sees it: its phase and whether the house was swept. *)
Record CloseCandidate : Type := mkCandidate { round : option (Z * bool); delegated : bool }.

Inductive AdvanceReason : Type := already_closed | never_terminal | still_delegated.

Inductive CloseAction : Type := CloseIt | sweep_first | advance (because : AdvanceReason).

Definition decideClose (candidate : CloseCandidate) : CloseAction :=
  match round candidate with
  | None => advance already_closed
  | Some (phase, houseSwept) =>
      if negb (phase =? Phase_Settled) && negb (phase =? Phase_Abandoned) then advance never_terminal
      else if delegated candidate then advance still_delegated
      else if negb houseSwept then sweep_first
      else CloseIt
  end.

Definition isPastRetention (roundNo roundCounter retention : Z) : bool :=
  roundNo + retention <=? roundCounter.

Definition housekeepingIsWelcome (phase : option Z) : bool :=
  negb (bool_decide (phase = Some Phase_Drawing)) && negb (bool_decide (phase = Some Phase_Fight)).

(** ** Laws *)

Lemma scan_window_lookup room n thr i r :
  scan_window room n thr !! i = Some r -> r = n + Z.of_nat i /\ r <= thr.
Proof.
  revert n i. induction room as [| room IH]; intros n i; simpl; [done |].
  destruct (Z.leb_spec n thr); [| done]. destruct i as [| i]; simpl; [intros [= <-]; lia |].
  intros Hi. apply IH in Hi. lia.
Qed.

Lemma scan_window_length room n thr :
  Z.of_nat (length (scan_window room n thr)) = Z.max 0 (Z.min (Z.of_nat room) (thr - n + 1)).
Proof.
  revert n. induction room as [| room IH]; intros n; [simpl; lia |]. cbn [scan_window].
  destruct (Z.leb_spec n thr); simpl; [| lia]. specialize (IH (n + 1)). lia.
Qed.

Section ScanLaws.
Context {W E : Type} (opts : CloseCursorScanOptions W E).

(** The probe's documented behaviour: an answer about a round it was asked for
    is the truth about that round.  [closed] rounds stay closed; [seen] are the
    rounds the chain has answered are there. *)
Definition truthful (closed seen : Z -> Prop) : Prop :=
  forall w rounds answer w', probe opts w rounds = (Done answer, w') ->
  forall i r b, rounds !! i = Some r -> answer !! i = Some b -> if b : bool then seen r else closed r.

Context (closed seen : Z -> Prop) (Htrue : truthful closed seen).

(** What any scan result says, wherever the scan stopped. *)
Definition scan_good (r : CloseCursorScan E) : Prop :=
  from opts <= cursor r <= Z.max (from opts) (through opts + 1) /\
  (forall n, from opts <= n < cursor r -> closed n) /\
  skipped r = cursor r - from opts /\
  0 <= batches r <= Z.max 0 (maxBatches opts) /\
  match stoppedBecause r with
  | found => seen (cursor r) /\ cursor r <= through opts
  | caught_up => cursor r = through opts + 1
  | no_rounds => through opts < from opts /\ cursor r = from opts
  | batch_cap => batches r = Z.max 0 (maxBatches opts) \/ default CLOSE_CURSOR_PROBE_BATCH (batch opts) < 1
  | deadline => error r = None
  | failed => is_Some (error r)
  end /\
  (catchUpAhead r = true <->
   stoppedBecause r <> found /\ from opts < cursor r <= through opts).

Lemma scan_done_good t c stop n e w :
  (from opts <= c <= Z.max (from opts) (through opts + 1)) -> (forall m, from opts <= m < c -> closed m) ->
  0 <= n <= Z.max 0 (maxBatches opts) ->
  match stop with
  | found => seen c /\ c <= through opts
  | caught_up => c = through opts + 1
  | no_rounds => through opts < from opts /\ c = from opts
  | batch_cap => n = Z.max 0 (maxBatches opts) \/ default CLOSE_CURSOR_PROBE_BATCH (batch opts) < 1
  | deadline => e = None
  | failed => is_Some e
  end -> scan_good (fst (scan_done opts t c stop n e w)).
Proof.
  intros Hc Hcl Hn Hs. unfold scan_done. destruct (nowMs opts w) as [t' w']. unfold scan_good. simpl.
  split_and!; try done; try lia. rewrite !andb_true_iff, bool_decide_eq_true, Z.ltb_lt, Z.leb_le. tauto.
Qed.

(** The answered prefix of a window says every round before the next cursor is
    closed, or names the first one that is there. *)
Lemma window_answer w room c answer w' :
  probe opts w (scan_window room c (through opts)) = (Done answer, w') ->
  let answered := Nat.min (length answer) (length (scan_window room c (through opts))) in
  match list_find (fun x => x = true) (take answered answer) with
  | Some (i, _) => exists r, scan_window room c (through opts) !! i = Some r /\ seen r /\ c <= r <= through opts /\
      forall m, c <= m < r -> closed m
  | None => forall m, c <= m < c + Z.of_nat answered -> closed m
  end.
Proof.
  intros Hp answered. set (win := scan_window room c (through opts)) in *.
  assert (Hcl : forall j, (j < answered)%nat -> take answered answer !! j <> Some true -> closed (c + Z.of_nat j)).
  { intros j Hj Hne. rewrite lookup_take_lt in Hne by done.
    destruct (lookup_lt_is_Some_2 win j) as [r Hr]; [lia |].
    destruct (lookup_lt_is_Some_2 answer j) as [b Hb]; [lia |].
    pose proof (Htrue _ _ _ _ Hp j r b Hr Hb) as H. apply scan_window_lookup in Hr as [-> _].
    destruct b; [congruence | done]. }
  destruct (list_find _ _) as [[i b] |] eqn:Ef.
  - apply list_find_Some in Ef as (Hi & -> & Hbefore).
    assert (Hlt : (i < answered)%nat).
    { apply lookup_lt_Some in Hi. rewrite length_take in Hi. lia. }
    destruct (lookup_lt_is_Some_2 win i) as [r Hr]; [lia |]. exists r. rewrite lookup_take_lt in Hi by done.
    pose proof (Htrue _ _ _ _ Hp i r true Hr Hi) as Hs. pose proof (scan_window_lookup _ _ _ _ _ Hr) as [-> ?].
    split_and!; [done.. | lia | lia |]. intros m Hm. replace m with (c + Z.of_nat (Z.to_nat (m - c))) by lia.
    apply Hcl; [lia |]. intros Hj. eapply (Hbefore _ _ Hj); [lia | done].
  - apply list_find_None in Ef. intros m Hm. replace m with (c + Z.of_nat (Z.to_nat (m - c))) by lia.
    apply Hcl; [lia |]. intros Hj. exact (Forall_lookup_1 _ _ _ _ Ef Hj eq_refl).
Qed.

Lemma scan_loop_good fuel b t c n w :
  1 <= b -> from opts <= c <= through opts + 1 -> (forall m, from opts <= m < c -> closed m) ->
  0 <= n <= Z.max 0 (maxBatches opts) -> through opts - c + 2 <= Z.of_nat fuel ->
  exists r w', scan_loop opts fuel b t c n w = Some (r, w') /\ scan_good r.
Proof.
  intros Hb. revert c n w. induction fuel as [| fuel IH]; intros c n w Hc Hcl Hn Hfuel; [lia |].
  assert (Hdone : forall c stop n e w, scan_good (fst (scan_done opts t c stop n e w)) ->
    exists r w', Some (scan_done opts t c stop n e w) = Some (r, w') /\ scan_good r).
  { intros c0 s n0 e w0. destruct (scan_done opts t c0 s n0 e w0) as [r w'] eqn:Ed. simpl. eauto. }
  cbn [scan_loop]. destruct (Z.ltb_spec (through opts) c).
  { apply Hdone, scan_done_good; try done; lia. }
  destruct (Z.leb_spec (maxBatches opts) n); [apply Hdone, scan_done_good; try done; lia |].
  destruct (nowMs opts w) as [t' w1]. case_match; [apply Hdone, scan_done_good; try done; lia |].
  destruct (probe opts w1 _) as [[answer | e] w2] eqn:Ep; [| apply Hdone, scan_done_good; try done; lia].
  pose proof (window_answer _ _ _ _ _ Ep) as Hw. cbv zeta in Hw.
  pose proof (scan_window_length (Z.to_nat b) c (through opts)) as Hl.
  destruct (list_find _ _) as [[i x] |].
  { destruct Hw as (r & -> & Hs & Hr & Hm). simpl default. apply Hdone, scan_done_good; try lia; [| split; [done | lia]].
    intros m Hm'. destruct (decide (m < c)); [apply Hcl | apply Hm]; lia. }
  case_decide; [apply Hdone, scan_done_good; try done; lia |].
  apply IH; try lia. intros m Hm'. destruct (decide (m < c)); [apply Hcl | apply Hw]; lia.
Qed.

Lemma find_good w : exists r w', findOldestLivingRound opts w = Some (r, w') /\ scan_good r.
Proof.
  unfold findOldestLivingRound. destruct (nowMs opts w) as [t w1].
  assert (Hdone : forall stop, scan_good (fst (scan_done opts t (from opts) stop 0 None w1)) ->
    exists r w', Some (scan_done opts t (from opts) stop 0 None w1) = Some (r, w') /\ scan_good r).
  { intros s. destruct (scan_done opts t (from opts) s 0 None w1) as [r w'] eqn:Ed. simpl. eauto. }
  destruct (Z.ltb_spec (through opts) (from opts)); [apply Hdone, scan_done_good; try done; lia |].
  case_match eqn:Eb; [zbool; apply Hdone, scan_done_good; try done; lia |]. zbool.
  apply scan_loop_good; try lia. unfold scan_fuel. lia.
Qed.
End ScanLaws.

(** C17. The scan always ends and never loses a round: against a probe that
    answers truthfully, whatever it rejects or cuts short and whatever the
    clock says, the scan returns; every round between where it started and the
    cursor it hands back was answered closed; a round it reports found was
    answered there; it issues at most [maxBatches] reads; it never runs more
    than one past the boundary; and a boundary taken from the retention window
    makes what it finds closable and what lies past it not. *)
Theorem scan_never_loses_a_round {W E} (opts : CloseCursorScanOptions W E) closed seen w counter retention :
  truthful opts closed seen -> through opts = counter - retention ->
  exists r w', findOldestLivingRound opts w = Some (r, w') /\ scan_good opts closed seen r /\
    (stoppedBecause r = found -> isPastRetention (cursor r) counter retention = true) /\
    (stoppedBecause r = caught_up -> isPastRetention (cursor r) counter retention = false).
Proof.
  intros Htrue Hthr. destruct (find_good opts closed seen Htrue w) as (r & w' & E1 & Hg).
  exists r, w'. split_and!; [done.. | |]; destruct Hg as (_ & _ & _ & _ & Hs & _); intros Hf; rewrite Hf in Hs;
    unfold isPastRetention; lia.
Qed.

(** A chain whose rounds below seven are closed, read three at a time. *)
Definition toy_opts : CloseCursorScanOptions nat string :=
  mkOpts 1 20 (fun reads rounds => (Done (map (Z.leb 7) rounds), S reads))
    (fun reads => (of_Z (Z.of_nat reads), reads)) (of_Z 1000) 50 (Some 3).

Lemma scan_never_loses_a_round_witness :
  (exists r w', findOldestLivingRound toy_opts 0%nat = Some (r, w') /\
    scan_good toy_opts (fun r => r < 7) (fun r => 7 <= r) r /\
    (stoppedBecause r = found -> isPastRetention (cursor r) 40 20 = true) /\
    (stoppedBecause r = caught_up -> isPastRetention (cursor r) 40 20 = false)) /\
  (fun p => cursor (fst p)) <$> findOldestLivingRound toy_opts 0%nat = Some 7.
Proof.
  split; [| vm_compute; reflexivity].
  apply (scan_never_loses_a_round toy_opts (fun r => r < 7) (fun r => 7 <= r) 0%nat 40 20); [| reflexivity].
  intros w rounds answer w' [= <- _] i r b Hr Hb. rewrite list_lookup_fmap, Hr in Hb. injection Hb as <-.
  destruct (Z.leb_spec 7 r); lia.
Defined.
