(* ===== verification/LoopWatchdog.v ===== *)
(** * The loop watchdog

    [er-demo/scripts/keeper/loopWatchdog.ts]: the closure that notices a main
    loop stuck inside an await, publishes it once and then exits the process.
    Its three captured variables are the state; each method is a transition
    that is handed the monotonic clock's reading and returns the effects it
    performs, in order. *)
From S2P Require Import Prelude JsNum.

Record LoopLiveness : Type := mkLiveness { passAgeSeconds_ : num; stalled_ : bool }.

Record LoopWatchdogOptions : Type := mkWdOptions { publishAfterSeconds : num; exitAfterSeconds : num }.

(** What a check does to the world: call [onStall] (its exception, if any, is
    caught), or [exit(code)]. *)
Inductive effect : Type := OnStall | Exit (code : Z).

#[global] Instance effect_eq_dec : EqDecision effect.
Proof. solve_decision. Defined.

Record LoopWatchdog : Type := mkWatchdog {
  lastPassAtMs : option num;
  stalled : bool;
  armed : bool;
}.

Definition createLoopWatchdog : LoopWatchdog := mkWatchdog None false false.

Section Watchdog.
Context (options : LoopWatchdogOptions).

Definition passAgeSeconds (s : LoopWatchdog) (monotonicMs : num) : num :=
  match lastPassAtMs s with
  | None => of_Z 0
  | Some last => div (sub monotonicMs last) (of_Z 1000)
  end.

Definition arm (s : LoopWatchdog) (monotonicMs : num) : LoopWatchdog :=
  mkWatchdog (Some monotonicMs) false true.

Definition passCompleted (s : LoopWatchdog) (monotonicMs : num) : LoopWatchdog :=
  mkWatchdog (Some monotonicMs) false (armed s).

Definition liveness (s : LoopWatchdog) (monotonicMs : num) : LoopLiveness :=
  mkLiveness (passAgeSeconds s monotonicMs) (stalled s).

Definition check (s : LoopWatchdog) (monotonicMs : num) : LoopWatchdog * list effect :=
  if negb (armed s) then (s, []) else
  let age := passAgeSeconds s monotonicMs in
  let '(s, said) :=
    if leb (publishAfterSeconds options) age && negb (stalled s)
    then (mkWatchdog (lastPassAtMs s) true (armed s), [OnStall]) else (s, []) in
  if leb (exitAfterSeconds options) age
  then (mkWatchdog (lastPassAtMs s) (stalled s) false, said ++ [Exit 1]) else (s, said).

Definition disarm (s : LoopWatchdog) : LoopWatchdog :=
  mkWatchdog (lastPassAtMs s) (stalled s) false.

(** ** Histories *)

Inductive call : Type := Arm | PassCompleted | Check_ | Disarm | Liveness.

(** One call: when, what, and the effects it had. *)
Record entry : Type := mkEntry { at_ms : num; what : call; did : list effect }.

Definition perform (s : LoopWatchdog) (c : call) (t : num) : LoopWatchdog * list effect :=
  match c with
  | Arm => (arm s t, [])
  | PassCompleted => (passCompleted s t, [])
  | Check_ => check s t
  | Disarm => (disarm s, [])
  | Liveness => (s, [])
  end.

(** The histories of a watchdog, latest call first. *)
Inductive history : list entry -> LoopWatchdog -> Prop :=
| history_created : history [] createLoopWatchdog
| history_call h s c t s' es :
    history h s -> perform s c t = (s', es) -> history (mkEntry t c es :: h) s'.

(** ** What a history says by itself *)

Definition is_mark (e : entry) : bool := match what e with Arm | PassCompleted => true | _ => false end.

(** When the loop last went round, and whether a stall was published since. *)
Fixpoint last_mark (h : list entry) : option num :=
  match h with
  | [] => None
  | e :: h => if is_mark e then Some (at_ms e) else last_mark h
  end.

Fixpoint published_since_mark (h : list entry) : bool :=
  match h with
  | [] => false
  | e :: h => if is_mark e then false else bool_decide (OnStall ∈ did e) || published_since_mark h
  end.

(** Watching: armed since it was last disarmed or exited. *)
Fixpoint watching (h : list entry) : bool :=
  match h with
  | [] => false
  | e :: h => match what e with
    | Arm => true
    | Disarm => false
    | _ => negb (bool_decide (Exit 1 ∈ did e)) && watching h
    end
  end.

Definition age_at (h : list entry) (t : num) : num :=
  match last_mark h with None => of_Z 0 | Some m => div (sub t m) (of_Z 1000) end.

Definition arms (h : list entry) : Z := zsum (fun e => match what e with Arm => 1 | _ => 0 end) h.
Definition exits (h : list entry) : Z := zsum (fun e => if decide (Exit 1 ∈ did e) then 1 else 0) h.

(** ** Laws *)

Lemma check_effects s t :
  (OnStall ∈ snd (check s t) <->
     armed s = true /\ leb (publishAfterSeconds options) (passAgeSeconds s t) = true /\ stalled s = false) /\
  (Exit 1 ∈ snd (check s t) <-> armed s = true /\ leb (exitAfterSeconds options) (passAgeSeconds s t) = true).
Proof.
  unfold check. destruct (armed s); simpl; [| rewrite !elem_of_nil; intuition congruence].
  destruct (leb (publishAfterSeconds options) _), (leb (exitAfterSeconds options) _), (stalled s); simpl;
    rewrite ?elem_of_cons, ?elem_of_nil; intuition congruence.
Qed.

Lemma check_state s t :
  lastPassAtMs (fst (check s t)) = lastPassAtMs s /\
  stalled (fst (check s t)) = bool_decide (OnStall ∈ snd (check s t)) || stalled s /\
  armed (fst (check s t)) = negb (bool_decide (Exit 1 ∈ snd (check s t))) && armed s.
Proof.
  unfold check. destruct (armed s) eqn:E; simpl; [| split_and!; rewrite ?E, ?andb_false_r; done].
  destruct (leb (publishAfterSeconds options) _), (leb (exitAfterSeconds options) _), (stalled s) eqn:Es; simpl;
    rewrite ?Es, ?E; done.
Qed.

(** The captured variables are what the history says. *)
Lemma history_state h s :
  history h s -> lastPassAtMs s = last_mark h /\ stalled s = published_since_mark h /\ armed s = watching h.
Proof.
  induction 1 as [| h s c t s' es Hh (IHm & IHs & IHw) Hp]; [done |].
  destruct c; simpl in Hp; try (injection Hp as <- <-; simpl; by rewrite ?IHm, ?IHs, ?IHw).
  pose proof (check_state s t) as (E1 & E2 & E3). rewrite Hp in *. simpl in *. by rewrite E1, E2, E3, IHm, IHs, IHw.
Qed.

Lemma history_age h s t : history h s -> passAgeSeconds s t = age_at h t.
Proof. intros Hh. apply history_state in Hh as (E & _). unfold passAgeSeconds, age_at. by rewrite E. Qed.

(** The watchdog says why and then exits, and does neither to a loop that
    goes round.  At any point of any history, a check publishes exactly when
    the watchdog is watching, the last pass is [publishAfterSeconds] old and
    nothing was published since that pass; it exits exactly when it is watching
    and the last pass is [exitAfterSeconds] old; with a boot-checked ordering
    of the two thresholds an exit never comes without the stall published since
    the last pass; and no other call has any effect. *)
Theorem watchdog_acts_exactly h s c t s' es :
  history h s -> perform s c t = (s', es) ->
  ltb (publishAfterSeconds options) (exitAfterSeconds options) = true ->
  (OnStall ∈ es <-> c = Check_ /\ watching h = true /\
     leb (publishAfterSeconds options) (age_at h t) = true /\ published_since_mark h = false) /\
  (Exit 1 ∈ es <-> c = Check_ /\ watching h = true /\ leb (exitAfterSeconds options) (age_at h t) = true) /\
  (Exit 1 ∈ es -> published_since_mark (mkEntry t c es :: h) = true).
Proof.
  intros Hh Hp Hlt. pose proof (history_state _ _ Hh) as (_ & Es & Ew). pose proof (history_age _ _ t Hh) as Ea.
  destruct c; simpl in Hp; try (injection Hp as <- <-; rewrite !elem_of_nil; intuition discriminate).
  pose proof (check_effects s t) as [H1 H2]. rewrite Hp, Es, Ew, Ea in *. simpl in *.
  split_and!; [rewrite H1; tauto | rewrite H2; tauto |].
  intros Hx. apply orb_true_iff. destruct (published_since_mark h) eqn:Ep; [by right | left].
  apply bool_decide_eq_true, H1. apply H2 in Hx as [? Hexit]. split_and!; [done | | done].
  apply ltb_leb in Hlt. exact (leb_trans _ _ _ Hlt Hexit).
Qed.

(** A process is asked to exit at most once for each time the watchdog was
    armed, and never while it is not watching: over every history the exits
    number at most the arms, less one while it still watches. *)
Theorem exits_bounded_by_arms h s :
  history h s -> exits h + (if watching h then 1 else 0) <= arms h.
Proof.
  induction 1 as [| h s c t s' es Hh IH Hp]; [done |].
  pose proof (history_state _ _ Hh) as (_ & _ & Ew).
  unfold exits, arms in *. destruct c; simpl in *.
  1, 2, 4, 5: injection Hp as <- <-; rewrite decide_False by apply not_elem_of_nil; simpl; try lia; repeat case_match; lia.
  pose proof (check_effects s t) as [_ Hx]. rewrite Hp, Ew in Hx. simpl in Hx.
  case_decide as Hd; [rewrite bool_decide_true by done | rewrite bool_decide_false by done]; simpl; [| lia].
  apply Hx in Hd as [E _]. rewrite E in IH. simpl in *. lia.
Qed.
End Watchdog.

Definition toy_options : LoopWatchdogOptions := mkWdOptions (of_Z 300) (of_Z 600).

Definition toy_armed : list entry := [mkEntry (of_Z 1000) Arm []].

Lemma toy_history : history toy_options toy_armed (arm createLoopWatchdog (of_Z 1000)).
Proof. eapply history_call; [constructor | reflexivity]. Qed.

(** A heartbeat starved for seven hundred seconds publishes and exits at once. *)
Lemma watchdog_acts_exactly_witness :
  perform toy_options (arm createLoopWatchdog (of_Z 1000)) Check_ (of_Z 701000) =
    (mkWatchdog (Some (of_Z 1000)) true false, [OnStall; Exit 1]) /\
  let es := [OnStall; Exit 1] in
  (OnStall ∈ es <-> Check_ = Check_ /\ watching toy_armed = true /\
     leb (publishAfterSeconds toy_options) (age_at toy_armed (of_Z 701000)) = true /\
     published_since_mark toy_armed = false) /\
  (Exit 1 ∈ es <-> Check_ = Check_ /\ watching toy_armed = true /\
     leb (exitAfterSeconds toy_options) (age_at toy_armed (of_Z 701000)) = true) /\
  (Exit 1 ∈ es -> published_since_mark (mkEntry (of_Z 701000) Check_ es :: toy_armed) = true).
Proof.
  assert (Hp : perform toy_options (arm createLoopWatchdog (of_Z 1000)) Check_ (of_Z 701000) =
    (mkWatchdog (Some (of_Z 1000)) true false, [OnStall; Exit 1])) by (vm_compute; reflexivity).
  split; [exact Hp |].
  apply (watchdog_acts_exactly toy_options _ _ _ _ _ _ toy_history Hp).
  vm_compute. reflexivity.
Defined.

Lemma exits_bounded_by_arms_witness : exits toy_armed + (if watching toy_armed then 1 else 0) <= arms toy_armed.
Proof. exact (exits_bounded_by_arms toy_options toy_armed _ toy_history). Defined.
