(* ===== verification/Reclamation.v ===== *)
(** * Is the rent coming back?

    [er-demo/scripts/keeper/reclamation.ts]: the burn brake, the sweep-gap stop
    and the ring of samples the brake reads.  Every quantity is the double the
    code compares; the samples are a list, newest last. *)
From S2P Require Import Prelude JsNum.

(** ** The observed state *)

Record ArenaReading : Type := mkArena { roundCounter : num; roundsSwept : option num; polledAtSec : num }.

Record CloserReading : Type := mkCloser {
  cr_cursor : Z;
  cr_reclaimed : num;
  cr_skipped : list Z;
  cr_strandedNeverTerminal : list Z;
  cr_strandedStillDelegated : list Z;
  closing : bool;
  caughtUpOnce : bool;
  skippedTotal : num;
  strandedNeverTerminalTotal : num;
  strandedStillDelegatedTotal : num;
}.

Record ReclamationState : Type := mkReclamation {
  observedAtSec : num;
  arena : option ArenaReading;
  closer : CloserReading;
  burnSamplesLamports : list num;
  burnSamplingSuspended : bool;
  operatorLamports : option num;
  sweepStoppedSinceSec : option num;
}.

Record ReclamationThresholds : Type := mkThresholds {
  burnLamportsPerRound : num;
  armAfterSamples : num;
  windowSamples_ : num;
  stopAtGapRounds : num;
  strandedAllowanceRounds : num;
}.

(** ** The brake *)

(** [xs.slice(-n)]: the whole array when [-n] truncates to zero or lies before
    its start. *)
Definition slice_last {A} (n : num) (xs : list A) : list A :=
  match n with
  | Fin m => let k := Z.quot m one in
      if k =? 0 then xs else if 0 <? k then drop (length xs - Z.to_nat k) xs else drop (Z.to_nat (- k)) xs
  | Inf true => []
  | _ => xs
  end.

Definition recordBurnSample (samples : list num) (lamports cap : num) : list num :=
  if leb cap (of_Z 0) then [] else slice_last cap (samples ++ [lamports]).

Record BurnVerdict : Type := mkBurn {
  b_armed : bool;
  b_samples : nat;
  meanLamportsPerRound : option num;
  b_tripped : bool;
}.

Definition burnBrake (samples : list num) (thresholdLamports armAfter windowSamples : num) : BurnVerdict :=
  let observed := of_Z (Z.of_nat (length samples)) in
  let armed := ltb (of_Z 0) armAfter && leb armAfter observed in
  if leb windowSamples (of_Z 0) then mkBurn false 0 None false else
  let window := slice_last windowSamples samples in
  if (length window =? 0)%nat then mkBurn armed 0 None false else
  let mean := div (foldl add (of_Z 0) window) (of_Z (Z.of_nat (length window))) in
  if negb (is_finite mean) then mkBurn false (length window) None false else
  mkBurn armed (length window) (Some mean) (armed && ltb thresholdLamports mean).

(** ** The sweep-gap stop *)

Record SweepGapVerdict : Type := mkSweep {
  gap : option num;
  allowance : num;
  allowanceCapped : bool;
  ledgerComplete : bool;
  effectiveGap : option num;
  s_tripped : bool;
}.

Definition sweepGapOf (a : option ArenaReading) : option num :=
  match a with
  | Some a => match roundsSwept a with Some swept => Some (sub (roundCounter a) swept) | None => None end
  | None => None
  end.

Definition latchedIn (s : ReclamationState) : bool :=
  match sweepStoppedSinceSec s with Some _ => true | None => false end.

Definition wholeCount (total : num) : num :=
  if is_finite total && ltb (of_Z 0) total then floor total else of_Z 0.

Definition strandedLedgerIsComplete (c : CloserReading) : bool := negb (closing c) || caughtUpOnce c.

Definition sweepGapStop (s : ReclamationState) (t : ReclamationThresholds) : SweepGapVerdict :=
  let gap := sweepGapOf (arena s) in
  let stranded := add (wholeCount (strandedNeverTerminalTotal (closer s)))
                      (wholeCount (strandedStillDelegatedTotal (closer s))) in
  let cap := if is_finite (strandedAllowanceRounds t) && ltb (of_Z 0) (strandedAllowanceRounds t)
             then floor (strandedAllowanceRounds t) else of_Z 0 in
  let ledgerComplete := strandedLedgerIsComplete (closer s) in
  let allowance := if ledgerComplete then min stranded cap else max (of_Z 0) (min cap (default (of_Z 0) gap)) in
  let effectiveGap := (fun g => sub g allowance) <$> gap in
  let verdict := mkSweep gap allowance (ltb (of_Z 0) cap && ltb cap stranded) ledgerComplete effectiveGap in
  if latchedIn s then verdict true else
  match effectiveGap with
  | None => verdict false
  | Some e => if negb (is_finite e) || leb (stopAtGapRounds t) (of_Z 0) then verdict false
              else verdict (leb (stopAtGapRounds t) e)
  end.

(** ** The runway *)

(** [Math.round(value * scale) / scale], [scale] being [10 ** places]. *)
Definition round_to (scale value : num) : num := div (round (mul value scale)) scale.

Definition sol (lamports : num) : num := round_to (of_Z 1000000) (div lamports (of_Z 1000000000)).

Definition runwayDays (operator burnPerDay : option num) : option num :=
  match operator, burnPerDay with
  | Some o, Some b =>
      if negb (ltb (of_Z 0) b) then None else
      let days := div o b in if is_finite days then Some (round_to (of_Z 100) days) else None
  | _, _ => None
  end.

(** ** The ring forgets nothing the brake reads *)

Definition last_n {A} (k : nat) (xs : list A) : list A := drop (length xs - k) xs.

Lemma last_n_length {A} k (xs : list A) : length (last_n k xs) = Nat.min k (length xs).
Proof. unfold last_n. rewrite length_drop. lia. Qed.

Lemma last_n_fmap {A B} (f : A -> B) k xs : last_n k (f <$> xs) = f <$> last_n k xs.
Proof. unfold last_n. by rewrite length_fmap, fmap_drop. Qed.

Lemma last_n_app {A} k (xs : list A) x : last_n (S k) (last_n (S k) xs ++ [x]) = last_n (S k) (xs ++ [x]).
Proof.
  unfold last_n. rewrite !length_app, length_drop. simpl.
  destruct (decide (length xs <= S k)%nat) as [Hle | Hgt].
  - replace (length xs - S k)%nat with 0%nat by lia. rewrite drop_0. f_equal. lia.
  - replace (length xs - (length xs - S k) + 1 - S k)%nat with 1%nat by lia.
    rewrite !drop_app, drop_drop, !length_drop.
    replace (length xs - S k + 1)%nat with (length xs + 1 - S k)%nat by lia.
    replace (1 - (length xs - (length xs - S k)))%nat with 0%nat by lia.
    by replace (length xs + 1 - S k - length xs)%nat with 0%nat by lia.
Qed.

Lemma last_n_last_n {A} w k (xs : list A) : (w <= k)%nat -> last_n w (last_n k xs) = last_n w xs.
Proof. intros H. unfold last_n. rewrite length_drop, drop_drop. f_equal. lia. Qed.

Lemma slice_last_int {A} k (xs : list A) : (0 < k)%nat -> safe (Z.of_nat k) ->
  slice_last (of_Z (Z.of_nat k)) xs = last_n k xs.
Proof.
  intros Hk Hs. rewrite of_Z_exact by done. unfold slice_last. pose proof one_pos.
  rewrite Z.quot_mul by lia. cbv zeta.
  rewrite (proj2 (Z.eqb_neq _ _)), (proj2 (Z.ltb_lt _ _)), Nat2Z.id by lia. done.
Qed.

Lemma positive_int k : (0 < k)%nat -> safe (Z.of_nat k) ->
  leb (of_Z (Z.of_nat k)) (of_Z 0) = false /\ ltb (of_Z 0) (of_Z (Z.of_nat k)) = true.
Proof.
  intros Hk Hs. rewrite leb_int, ltb_int by (unfold safe in *; lia). split; [apply Z.leb_gt | apply Z.ltb_lt]; lia.
Qed.

(** The samples of a run, in the order they were taken. *)
Definition ring (cap : num) (samples : list num) : list num :=
  foldl (fun r x => recordBurnSample r x cap) [] samples.

Lemma ring_last k samples : (0 < k)%nat -> safe (Z.of_nat k) ->
  ring (of_Z (Z.of_nat k)) samples = last_n k samples.
Proof.
  intros Hk Hs. destruct (positive_int k Hk Hs) as [Hp _]. induction samples as [| x xs IH] using rev_ind; [done |].
  unfold ring in *. rewrite foldl_app, IH. cbn [foldl]. unfold recordBurnSample. rewrite Hp.
  rewrite slice_last_int by done. destruct k as [| k]; [lia |]. apply last_n_app.
Qed.

(** ** The brake over whole lamports *)

Definition total (zs : list Z) : Z := zsum (fun z => z) zs.

Lemma total_bound B zs : 0 <= B -> Forall (fun z => Z.abs z <= B) zs -> Z.abs (total zs) <= B * Z.of_nat (length zs).
Proof. intros HB. unfold total. induction 1; simpl; [lia |]. nia. Qed.

(** The running sum of whole numbers never rounds. *)
Lemma foldl_add_int B zs a :
  0 <= B -> Forall (fun z => Z.abs z <= B) zs -> Z.abs a + B * Z.of_nat (length zs) <= 2 ^ 53 ->
  foldl add (of_Z a) (of_Z <$> zs) = of_Z (a + total zs).
Proof.
  intros HB HF. revert a. unfold total. induction HF as [| z zs Hz HF IH]; intros a Ha; simpl in *; [f_equal; lia |].
  rewrite add_int by (unfold safe; nia). rewrite IH by nia. f_equal. lia.
Qed.

(** The mean of [n <= 1024] whole lamports, against a whole threshold. *)
Lemma mean_int S n :
  1 <= n <= 1024 -> Z.abs S <= 2 ^ 52 ->
  exists m, div (of_Z S) (of_Z n) = Fin m /\
    forall T, Z.abs T <= 2 ^ 40 -> ltb (of_Z T) (Fin m) = (T * n <? S).
Proof.
  intros Hn HS. pose proof one_pos as Hone. rewrite !of_Z_exact by lia. unfold div.
  rewrite (proj2 (Z.eqb_neq (n * one) 0)) by nia. rewrite Z.sgn_pos, Z.abs_eq, Z.mul_1_l by nia. unfold of_ratio.
  exists (rnd (S * one * one) (n * one)). split.
  - apply mk_fin. pose proof overflow_big. pose proof (rnd_int (2 ^ 52) ltac:(lia)) as Hu.
    pose proof (rnd_int (- 2 ^ 52) ltac:(lia)) as Hl.
    assert (Hn1 : one <= n * one) by nia. assert (Hb : 2 ^ 52 * (one * one) <= 2 ^ 52 * (one * (n * one))) by nia.
    pose proof (rnd_le (2 ^ 52 * one) (S * one * one) (n * one) ltac:(lia) Hu ltac:(nia)).
    pose proof (rnd_ge (- 2 ^ 52 * one) (S * one * one) (n * one) ltac:(lia) Hl ltac:(nia)).
    assert (2 ^ 52 * one <= 2 ^ 53 * one) by (apply Z.mul_le_mono_nonneg_r; lia). lia.
  - intros T HT. rewrite of_Z_exact by lia. cbn [ltb].
    destruct (Z.ltb_spec (T * n) S) as [Hlt | Hge].
    + apply Z.ltb_lt. set (P := 2 ^ 1064). assert (E : one = P * 1024) by (rewrite one_pow; by vm_compute).
      assert (Hp : 0 < P) by (apply Z.pow_pos_nonneg; lia).
      pose proof (rnd_id (T * 1024 + 1) 1064 ltac:(lia) ltac:(lia)) as Hr. fold P in Hr. clearbody P.
      assert (H1 : (T * 1024 + 1) * n * P <= S * 1024 * P) by (apply Z.mul_le_mono_nonneg_r; lia).
      assert (H2 : (T * 1024 + 1) * n * P * one <= S * 1024 * P * one) by (apply Z.mul_le_mono_nonneg_r; lia).
      assert (H3 : (T * 1024 + 1) * P * (n * one) <= S * one * one)
        by (replace (S * one * one) with (S * 1024 * P * one) by (rewrite E; ring); lia).
      pose proof (rnd_ge _ _ (n * one) ltac:(nia) Hr H3) as Hge.
      enough (T * one < (T * 1024 + 1) * P) by lia. rewrite E. lia.
    + apply Z.ltb_ge. apply rnd_le; [nia | apply rnd_int; lia | nia].
Qed.

(** The brake over the ring, for a ring of [k] samples and a window of [w]. *)
Lemma brake_ring k w thr zs :
  (0 < w <= k)%nat -> safe (Z.of_nat k) -> safe (Z.of_nat (length zs)) ->
  let cap := of_Z (Z.of_nat k) in let window := of_Z (Z.of_nat w) in
  burnBrake (ring cap zs) thr cap window = burnBrake zs thr cap window.
Proof.
  intros Hw Hk Hz cap window. unfold safe in *. pose proof (last_n_length k zs) as HL.
  assert (Hs : forall m, (m <= k)%nat -> safe (Z.of_nat m)) by (intros m Hm; unfold safe; lia).
  unfold cap, window. rewrite ring_last by (lia || done). unfold burnBrake.
  rewrite !slice_last_int by (lia || apply Hs; lia). rewrite last_n_last_n, HL by lia.
  rewrite !leb_int, !ltb_int by (unfold safe; lia).
  replace (Z.of_nat k <=? Z.of_nat (Nat.min k (length zs))) with (Z.of_nat k <=? Z.of_nat (length zs)); [reflexivity |].
  destruct (Z.leb_spec (Z.of_nat k) (Z.of_nat (length zs))), (Z.leb_spec (Z.of_nat k) (Z.of_nat (Nat.min k (length zs)))); lia.
Qed.

Lemma brake_int k w T zs :
  (0 < w <= 1024)%nat -> (w <= k)%nat -> safe (Z.of_nat k) -> safe (Z.of_nat (length zs)) ->
  Z.abs T <= 2 ^ 40 -> Forall (fun z => Z.abs z <= 2 ^ 40) zs ->
  b_tripped (burnBrake (of_Z <$> zs) (of_Z T) (of_Z (Z.of_nat k)) (of_Z (Z.of_nat w))) =
  (Z.of_nat k <=? Z.of_nat (length zs)) && (T * Z.of_nat w <? total (last_n w zs)).
Proof.
  intros Hw Hk Hks Hz HT HF. unfold burnBrake. rewrite length_fmap. unfold safe in *.
  destruct (positive_int w ltac:(lia) ltac:(unfold safe; lia)) as [-> _].
  destruct (positive_int k ltac:(lia) ltac:(unfold safe; lia)) as [_ ->]. rewrite slice_last_int by (unfold safe; lia).
  rewrite leb_int by (unfold safe; lia). cbn [andb]. rewrite !last_n_fmap, length_fmap, last_n_length.
  destruct (decide (length zs = 0)%nat) as [E0 | Hne].
  { rewrite E0. destruct w; [lia |]. simpl. by rewrite (proj2 (Z.leb_gt _ _)) by lia. }
  destruct (Nat.eqb_spec (Nat.min w (length zs)) 0); [lia |].
  assert (HF' : Forall (fun z => Z.abs z <= 2 ^ 40) (last_n w zs)) by (apply Forall_drop, HF).
  pose proof (total_bound (2 ^ 40) _ ltac:(lia) HF') as Hb. rewrite last_n_length in Hb.
  rewrite (foldl_add_int (2 ^ 40)), Z.add_0_l by (done || rewrite ?last_n_length; lia).
  destruct (mean_int (total (last_n w zs)) (Z.of_nat (Nat.min w (length zs)))) as (m & Em & Hm); [lia.. |].
  rewrite Em. cbv zeta. cbn [is_finite negb b_tripped]. rewrite Hm by done.
  destruct (Z.leb_spec (Z.of_nat k) (Z.of_nat (length zs))); [| done].
  by replace (Nat.min w (length zs)) with w by lia.
Qed.

(** The brake judges exactly.  However many samples a run has taken, the
    ring of the newest [k] and the doubles it averages decide what the whole
    history decides in whole lamports: the brake trips if and only if at least
    [k] rounds have been sampled and the last [w] of them together burned more
    than [w] times the threshold, for any window of at most 1024 rounds and
    sums below 2^40 lamports a round.  In particular a top-up, which only
    lowers a sample, never trips it. *)
Theorem burn_brake_exact k w T zs :
  (0 < w <= 1024)%nat -> (w <= k)%nat -> safe (Z.of_nat k) -> safe (Z.of_nat (length zs)) ->
  Z.abs T <= 2 ^ 40 -> Forall (fun z => Z.abs z <= 2 ^ 40) zs ->
  let cap := of_Z (Z.of_nat k) in
  (length (ring cap (of_Z <$> zs)) <= k)%nat /\
  (b_tripped (burnBrake (ring cap (of_Z <$> zs)) (of_Z T) cap (of_Z (Z.of_nat w))) = true <->
   (k <= length zs)%nat /\ T * Z.of_nat w < total (last_n w zs)).
Proof.
  intros Hw Hk Hks Hz HT HF cap. subst cap. split.
  - rewrite ring_last, last_n_length by (lia || done). lia.
  - rewrite brake_ring by (rewrite ?length_fmap; lia || done). rewrite brake_int by (lia || done).
    rewrite andb_true_iff, Z.leb_le, Z.ltb_lt. lia.
Qed.

Lemma burn_brake_exact_witness :
  let zs := replicate 3 100 ++ replicate 20 23497000 in
  (length (ring (of_Z (Z.of_nat 20)) (of_Z <$> zs)) <= 20)%nat /\
  (b_tripped (burnBrake (ring (of_Z (Z.of_nat 20)) (of_Z <$> zs)) (of_Z 5000000) (of_Z (Z.of_nat 20)) (of_Z (Z.of_nat 10))) = true <->
   (20 <= length zs)%nat /\ 5000000 * Z.of_nat 10 < total (last_n 10 zs)).
Proof.
  apply (burn_brake_exact 20 10 5000000 (replicate 3 100 ++ replicate 20 23497000)); [lia | lia | | | lia |].
  - unfold safe. lia.
  - unfold safe. simpl. lia.
  - simpl. repeat constructor; simpl; lia.
Defined.

(** ** The stop over whole rounds *)

(** The counts of a keeper: whole numbers, small enough for doubles. *)
Record counts (s : ReclamationState) (t : ReclamationThresholds) (a b stop allow : Z) : Prop := {
  counted_never : strandedNeverTerminalTotal (closer s) = of_Z a /\ 0 <= a <= 2 ^ 50;
  counted_still : strandedStillDelegatedTotal (closer s) = of_Z b /\ 0 <= b <= 2 ^ 50;
  stop_at : stopAtGapRounds t = of_Z stop /\ 0 < stop <= 2 ^ 50;
  allowed : strandedAllowanceRounds t = of_Z allow /\ 0 <= allow <= 2 ^ 50;
}.

Lemma whole_int z : 0 <= z <= 2 ^ 50 ->
  (if is_finite (of_Z z) && ltb (of_Z 0) (of_Z z) then floor (of_Z z) else of_Z 0) = of_Z z.
Proof.
  intros Hz. rewrite of_Z_finite, ltb_int, floor_int by (unfold safe; lia).
  destruct (Z.ltb_spec 0 z); simpl; [reflexivity |]. by replace z with 0 by lia.
Qed.

Lemma sweep_int s t a b stop allow c swept :
  counts s t a b stop allow ->
  sweepGapOf (arena s) = Some (sub (of_Z c) (of_Z swept)) -> Z.abs c <= 2 ^ 50 -> Z.abs swept <= 2 ^ 50 ->
  s_tripped (sweepGapStop s t) =
  latchedIn s ||
  (stop <=? c - swept -
     (if strandedLedgerIsComplete (closer s) then Z.min (a + b) allow else Z.max 0 (Z.min allow (c - swept)))).
Proof.
  intros [[Ea Ha] [Eb Hb] [Es Hs] [Ew Hw]] Eg Hc Hsw. unfold sweepGapStop. rewrite Eg, Ea, Eb, Es, Ew. unfold wholeCount.
  rewrite !whole_int, add_int, sub_int by (unfold safe; lia). cbn [default fmap option_fmap option_map from_option id].
  rewrite !min_int, max_int by (unfold safe; lia).
  assert (E : forall x y, (if strandedLedgerIsComplete (closer s) then of_Z x else of_Z y) =
                of_Z (if strandedLedgerIsComplete (closer s) then x else y)) by (intros; by case_match).
  rewrite E. set (al := if strandedLedgerIsComplete (closer s) then _ else _).
  assert (Hal : Z.abs al <= 2 ^ 51) by (subst al; case_match; lia).
  rewrite sub_int by (unfold safe; lia). destruct (latchedIn s); [reflexivity |].
  rewrite of_Z_finite, !leb_int by (unfold safe; lia). rewrite (proj2 (Z.leb_gt stop 0)) by lia. reflexivity.
Qed.

(** The sweep-gap stop cannot be talked out of firing, and cannot fire
    early.  Over whole counts: once latched it stays tripped whatever it reads;
    with the treasury unread it says only what the latch says; with the stranded
    ledger complete it trips exactly when the gap, less the rounds counted as
    unsweepable and never more than the allowance, reaches the stop; and while
    the ledger is incomplete exactly when the gap less the whole allowance does,
    the clamp on the published allowance changing no decision. *)
Theorem sweep_stop_exact s t a b stop allow :
  counts s t a b stop allow ->
  (latchedIn s = true -> s_tripped (sweepGapStop s t) = true) /\
  (sweepGapOf (arena s) = None -> s_tripped (sweepGapStop s t) = latchedIn s) /\
  forall c swept, sweepGapOf (arena s) = Some (sub (of_Z c) (of_Z swept)) ->
    Z.abs c <= 2 ^ 50 -> Z.abs swept <= 2 ^ 50 -> latchedIn s = false ->
    let gap := c - swept in
    (strandedLedgerIsComplete (closer s) = true ->
     s_tripped (sweepGapStop s t) = true <-> stop <= gap - Z.min (a + b) allow) /\
    (strandedLedgerIsComplete (closer s) = false -> s_tripped (sweepGapStop s t) = true <-> stop <= gap - allow) /\
    (s_tripped (sweepGapStop s t) = true -> stop <= gap) /\
    (stop + allow <= gap -> s_tripped (sweepGapStop s t) = true).
Proof.
  intros H. split_and!.
  - intros L. unfold sweepGapStop. by rewrite L.
  - intros E. unfold sweepGapStop. rewrite E. by destruct (latchedIn s).
  - intros c swept E Hc Hs L gap. rewrite (sweep_int _ _ _ _ _ _ _ _ H E Hc Hs), L. destruct H as [Ha Hb Hst Hal].
    cbn [orb]. rewrite Z.leb_le. subst gap. destruct (strandedLedgerIsComplete (closer s)); split_and!; intros; lia || discriminate.
Qed.

Definition sample_reclamation : ReclamationState :=
  mkReclamation (of_Z 1700000000) (Some (mkArena (of_Z 260) (Some (of_Z 190)) (of_Z 1699999990)))
    (mkCloser 200 (of_Z 5) [] [] [] true false (of_Z 0) (of_Z 2) (of_Z 1)) [] false None None.

Definition sample_thresholds : ReclamationThresholds :=
  mkThresholds (of_Z 5000000) (of_Z 45) (of_Z 20) (of_Z 25) (of_Z 25).

Lemma sweep_stop_exact_witness :
  sweepGapOf (arena sample_reclamation) = Some (sub (of_Z 260) (of_Z 190)) /\
  s_tripped (sweepGapStop sample_reclamation sample_thresholds) = true.
Proof.
  split; [reflexivity |].
  assert (H : counts sample_reclamation sample_thresholds 2 1 25 25) by (split; (split; [reflexivity | lia])).
  apply (sweep_stop_exact _ _ _ _ _ _ H) with (c := 260) (swept := 190); reflexivity || lia.
Defined.
