(* ===== verification/KeeperState.v ===== *)
(** * What the keeper remembers

    The memory of [er-demo/scripts/keeper/keeper.ts]: the constants of
    [config.ts] its loop uses, the [KeeperContext] its functions share, and the
    [ReclamationState] it hands to the stops.  The context is one object in the
    code; here its fields are grouped by the functions that write them. *)
From S2P Require Import Prelude JsNum ErSim Chain KeeperConfig HouseSizing HouseBank Reclamation.

Definition LOW_BALANCE_RECHECK_SECONDS : Z := 15.
Definition CLOSE_ATTEMPTS_PER_ROUND : Z := 3.
Definition CLOSE_LOSS_SAMPLE : nat := 50.
Definition SCHEDULE_CLOSE_RETRY_SECONDS : Z := 30.
Definition HOUSE_ENTRY_RETRY_SECONDS : Z := 3.
Definition RESOLVE_RETRY_ATTEMPTS : nat := 3.
Definition RESOLVE_RETRY_WAIT_SECONDS : Z := 3.
Definition ERROR_BACKOFF_BASE_SECONDS : Z := 1.
Definition SWEEP_RETRY_SECONDS : Z := 3.
Definition STALL_AFTER_CONSECUTIVE_FAILURES : Z := 6.
Definition MIN_RATE_WINDOW_SECONDS : Z := 60.

(** The operator's knobs the loop reads besides [Config]. *)
Record Knobs : Type := mkKnobs {
  RESULT_HOLD_SECONDS : num;
  ABANDON_HOLD_SECONDS : num;
  DRAW_TIMEOUT_SECONDS : num;
  CLOSE_RETRY_SECONDS : num;
  TREASURY_POLL_SECONDS : num;
  MIN_BALANCE_LAMPORTS : num;
}.

Record KeeperCliOptions : Type := mkOptions {
  opt_holdOpen : bool;
  houseOnlyRounds : bool;
  closeRounds : bool;
  dryRun : bool;
  rounds : option Z;
}.

Record ProgramFeatures : Type := mkFeatures { houseTakeSweep : bool; roundAccountClose : bool }.


(** ** Losses *)

Record CloseLossLedger : Type := mkLoss { sample : list Z; lost : Z }.

Definition recordCloseLoss (ledger : CloseLossLedger) (roundNo : Z) : CloseLossLedger :=
  let pushed := sample ledger ++ [roundNo] in
  mkLoss (if (CLOSE_LOSS_SAMPLE <? length pushed)%nat then drop 1 pushed else pushed) (lost ledger + 1).

(** ** The context *)

Record RoundTimeline : Type := mkTimeline {
  tl_roundNo : option Z;
  drawRequestedAtMs : option num;
  fightObservedAtMs : option num;
  settledObservedAtSec : option num;
  abandonedObservedAtSec : option num;
  firstRealEntryObservedAt : option num;
  operatorLamportsAtOpen : option num;
  houseRetryAfterSec : num;
  sweepRetryAfterSec : num;
  scheduleCloseRetryAfter : num;
  completedCounted : bool;
}.

Definition freshTimeline (roundNo : option Z) (lamports : option num) : RoundTimeline :=
  mkTimeline roundNo None None None None None lamports (of_Z 0) (of_Z 0) (of_Z 0) false.

(** What [openNextRound] and the checks under it write. *)
Record Opening : Type := mkOpening {
  lowBalanceSince : option num;
  lowBalanceCheckedAtSec : num;
  burnSamples : list num;
  lastOpenLamports : option num;
  burnStopSince : option num;
  sweepStopSince : option num;
  operatorLamportsObserved : option num;
  firstOpenAtSec : option num;
  opensObserved : Z;
}.

(** What [closeOneFinishedRound] writes. *)
Record Closing : Type := mkClosing {
  closeCursor : Z;
  closeCursorKnownLiveAt : option Z;
  closeCatchUpAhead : bool;
  closeCursorCaughtUp : bool;
  closeAttempts : Z;
  closeRetryAfterSec : num;
  rentReclaimed : Z;
  closeSkipped : CloseLossLedger;
  closeStrandedNeverTerminal : CloseLossLedger;
  closeStrandedStillDelegated : CloseLossLedger;
}.

Record KeeperContext : Type := mkContext {
  options : KeeperCliOptions;
  features : ProgramFeatures;
  bank : HouseBank;
  ctx_emptyRoom : EmptyRoomPolicy;
  timeline : RoundTimeline;
  opening : Opening;
  closing_ : Closing;
  treasury : option ArenaReading;
  treasuryPolledAtSec : num;
  refreshAfterStep : bool;
  roundsCompleted : Z;
  roundsAbandoned : Z;
  stop : bool;
  wedgedRounds : list Z;
}.

Definition with_opening (ctx : KeeperContext) (o : Opening) : KeeperContext :=
  mkContext (options ctx) (features ctx) (bank ctx) (ctx_emptyRoom ctx) (timeline ctx) o (closing_ ctx) (treasury ctx)
    (treasuryPolledAtSec ctx) (refreshAfterStep ctx) (roundsCompleted ctx) (roundsAbandoned ctx) (stop ctx) (wedgedRounds ctx).

Definition with_closing (ctx : KeeperContext) (x : Closing) : KeeperContext :=
  mkContext (options ctx) (features ctx) (bank ctx) (ctx_emptyRoom ctx) (timeline ctx) (opening ctx) x (treasury ctx)
    (treasuryPolledAtSec ctx) (refreshAfterStep ctx) (roundsCompleted ctx) (roundsAbandoned ctx) (stop ctx) (wedgedRounds ctx).

Definition with_timeline (ctx : KeeperContext) (t : RoundTimeline) : KeeperContext :=
  mkContext (options ctx) (features ctx) (bank ctx) (ctx_emptyRoom ctx) t (opening ctx) (closing_ ctx) (treasury ctx)
    (treasuryPolledAtSec ctx) (refreshAfterStep ctx) (roundsCompleted ctx) (roundsAbandoned ctx) (stop ctx) (wedgedRounds ctx).

Definition with_treasury (ctx : KeeperContext) (t : option ArenaReading) (at_ : num) : KeeperContext :=
  mkContext (options ctx) (features ctx) (bank ctx) (ctx_emptyRoom ctx) (timeline ctx) (opening ctx) (closing_ ctx) t
    at_ (refreshAfterStep ctx) (roundsCompleted ctx) (roundsAbandoned ctx) (stop ctx) (wedgedRounds ctx).

Definition with_refresh (ctx : KeeperContext) (b : bool) : KeeperContext :=
  mkContext (options ctx) (features ctx) (bank ctx) (ctx_emptyRoom ctx) (timeline ctx) (opening ctx) (closing_ ctx)
    (treasury ctx) (treasuryPolledAtSec ctx) b (roundsCompleted ctx) (roundsAbandoned ctx) (stop ctx) (wedgedRounds ctx).

Definition with_counts (ctx : KeeperContext) (completed abandoned : Z) (halt : bool) : KeeperContext :=
  mkContext (options ctx) (features ctx) (bank ctx) (ctx_emptyRoom ctx) (timeline ctx) (opening ctx) (closing_ ctx)
    (treasury ctx) (treasuryPolledAtSec ctx) (refreshAfterStep ctx) completed abandoned halt
    (wedgedRounds ctx).

Definition with_wedged (ctx : KeeperContext) (ns : list Z) : KeeperContext :=
  mkContext (options ctx) (features ctx) (bank ctx) (ctx_emptyRoom ctx) (timeline ctx) (opening ctx) (closing_ ctx)
    (treasury ctx) (treasuryPolledAtSec ctx) (refreshAfterStep ctx) (roundsCompleted ctx) (roundsAbandoned ctx) (stop ctx) ns.

Definition emptyOpening (operatorBalance : option num) : Opening :=
  mkOpening None (of_Z 0) [] None None None operatorBalance None 0.

Definition seededClosing (cursor : Z) (knownLiveAt : option Z) (catchUpAhead : bool) : Closing :=
  mkClosing cursor knownLiveAt catchUpAhead false 0 (of_Z 0) 0 (mkLoss [] 0) (mkLoss [] 0) (mkLoss [] 0).

(** The context [main] starts the loop with. *)
Definition freshContext (o : KeeperCliOptions) (f : ProgramFeatures) (b : HouseBank)
    (operatorBalance : option num) (cursor : Z) (knownLiveAt : option Z) (catchUpAhead : bool) : KeeperContext :=
  mkContext o f b (if houseOnlyRounds o then house_only else unfightable) (freshTimeline None None) (emptyOpening operatorBalance)
    (seededClosing cursor knownLiveAt catchUpAhead) None (of_Z 0) false 0 0 false [].

(** ** What the stops read *)

Definition reclamationStateOf (ctx : KeeperContext) (observedAtSec : num) : ReclamationState :=
  let c := closing_ ctx in
  mkReclamation observedAtSec (treasury ctx)
    (mkCloser (closeCursor c) (of_Z (rentReclaimed c)) (sample (closeSkipped c))
       (sample (closeStrandedNeverTerminal c)) (sample (closeStrandedStillDelegated c))
       (closeRounds (options ctx) && roundAccountClose (features ctx)) (closeCursorCaughtUp c)
       (of_Z (lost (closeSkipped c))) (of_Z (lost (closeStrandedNeverTerminal c)))
       (of_Z (lost (closeStrandedStillDelegated c))))
    (burnSamples (opening ctx)) (closeCatchUpAhead c) (operatorLamportsObserved (opening ctx))
    (sweepStopSince (opening ctx)).

Definition reclamationThresholds (c : Config) : ReclamationThresholds :=
  mkThresholds (MAX_BURN_LAMPORTS_PER_ROUND c) (BURN_ARM_AFTER_ROUNDS (ROUND_RETENTION c)) (BURN_SAMPLE_ROUNDS c)
    (SWEEP_GAP_STOP_ROUNDS c) (STRANDED_ALLOWANCE_ROUNDS c).

Definition measuredRoundsPerDay (o : Opening) (nowSec : num) : option num :=
  match firstOpenAtSec o with
  | None => None
  | Some first =>
      if opensObserved o <? 2 then None else
      let elapsed := sub nowSec first in
      if ltb elapsed (of_Z MIN_RATE_WINDOW_SECONDS) then None
      else Some (div (mul (of_Z (opensObserved o)) (of_Z 86400)) elapsed)
  end.

(** ** The loss ledger *)

(** A ledger that has recorded the losses of a run, oldest first. *)
Definition ledger_of (ns : list Z) : CloseLossLedger := foldl recordCloseLoss (mkLoss [] 0) ns.

Lemma ledger_sample ns :
  sample (ledger_of ns) = last_n CLOSE_LOSS_SAMPLE ns /\ lost (ledger_of ns) = Z.of_nat (length ns).
Proof.
  induction ns as [| n ns [IHs IHl]] using rev_ind; [done |]. unfold ledger_of in *.
  rewrite foldl_app. cbn [foldl]. set (l := foldl _ _ _) in *. unfold recordCloseLoss. cbn [sample lost].
  rewrite IHs, IHl. split.
  - change CLOSE_LOSS_SAMPLE with 50%nat. rewrite <- (last_n_app 49 ns n). set (xs := last_n 50 ns ++ [n]).
    assert (Hx : (length xs <= 51)%nat) by (subst xs; rewrite length_app, last_n_length; cbn [length]; lia).
    unfold last_n. destruct (Nat.ltb_spec 50 (length xs)).
    + by replace (length xs - 50)%nat with 1%nat by lia.
    + by replace (length xs - 50)%nat with 0%nat by lia.
  - rewrite length_app. cbn [length]. lia.
Qed.
