(* ===== verification/KeeperChain.v ===== *)
(** * How the keeper acts

    The interface of [er-demo/scripts/keeper/chainClient.ts] as a class of
    operations on a world, the effects the loop performs, and the monad its
    functions are written in: a call reads and changes the world, the keeper's
    context and the trace of effects, and may throw.  The laws at the end say
    when a whole computation relates its first and last state by a relation its
    steps respect. *)
From S2P Require Import Prelude JsNum ErSim Chain HouseSizing HouseBank KeeperState.

(** ** What a pass reads *)

(** A round account: the seats carry the [dead] flag beside the roster. *)
Record RoundAccount : Type := mkAccount {
  r_roundNo : Z;
  r_phase : Z;
  r_lobbyClosesAt : num;
  r_fightStartedAt : num;
  r_tickCount : num;
  r_fighterCount : Z;
  r_seats : list (RawFighter * Z);
  r_houseSwept : Z;
}.

Definition roster (r : RoundAccount) : RawRound := mkRawRound (r_fighterCount r) (fst <$> r_seats r).

Record KeeperChainState : Type := mkChainState {
  st_nowSec : num;
  hasArena : bool;
  st_roundCounter : Z;
  st_round : option RoundAccount;
  roundDelegated : option bool;
}.

(** ** What a pass does *)

Inductive Transaction : Type :=
| init_arena
| open_round (roundNo : Z) (lobbySeconds : num)
| delegate_round (roundNo : Z)
| enter_house (entry : HouseEntry)
| close_lobby_and_draw (roundNo : Z) (authority : bool)
| abandon_round (roundNo : Z)
| tick_round (roundNo : Z) (steps : num)
| resolve_round (roundNo : Z)
| close_round (roundNo : Z)
| init_treasury
| sweep_house_take (roundNo : Z)
| close_round_account (roundNo : Z).

Inductive NotOpening : Type := low_balance | rent_not_reclaimed | rent_not_swept.

Inductive ErrorContext : Type := entry_fill | take_sweep | main_loop.

(** The transactions attempted and the fields published, in order.  [Sending]
    is recorded when the send starts, whatever comes of it. *)
Inductive Effect : Type :=
| Sending (t : Transaction)
| NextLobbyOpensAt (at_ : option num)
| EntriesCloseAt (at_ : option num)
| LowBalance (lamports_and_time : option (num * num))
| NotOpeningRounds (why : option NotOpening)
| LastError (what : option ErrorContext)
| StalledSince (at_ : option num)
| CompletedCount (n : Z)
| RoundSnapshot (round_and_held : option (RoundAccount * bool))
| Publish
| PassCompleted
| Sleep (seconds : num).

(** ** The client *)

Class ChainClient (W E : Type) : Type := {
  nowSec : W -> num * W;
  date_now : W -> num * W;
  readChainState : W -> outcome E KeeperChainState * W;
  fetchRound : Z -> W -> outcome E (option RoundAccount) * W;
  roundsExist : W -> list Z -> outcome E (list bool) * W;
  send : Transaction -> W -> outcome E bool * W;
  balance : W -> outcome E num * W;
  treasuryExists : W -> outcome E bool * W;
  fetchTreasury : W -> outcome E (option num) * W;
  isDelegated : Z -> W -> outcome E bool * W;
  roundValidatorFqdn : Z -> W -> outcome E unit * W;
  routerSaysDelegated : Z -> W -> outcome E bool * W;
  waitForDelegation : Z -> W -> outcome E bool * W;
  waitForUndelegation : Z -> W -> outcome E bool * W;
  topUpHouse : W -> outcome E unit * W;
  fightNotOverYet : E -> bool;
  thrown : js_error -> E;
  unknownPhase : Z -> E;
}.

(** ** The monad *)

Record machine (W : Type) : Type := mkMachine { world : W; ctx : KeeperContext; trace : list Effect }.
Arguments mkMachine {W}.
Arguments world {W}.
Arguments ctx {W}.
Arguments trace {W}.

Definition K (W E A : Type) : Type := machine W -> outcome E A * machine W.

Declare Scope keeper_scope.
Delimit Scope keeper_scope with keeper.

Section Monad.
Context {W E : Type}.

Definition kret {A} (a : A) : K W E A := fun s => (Done a, s).

Definition kbind {A B} (m : K W E A) (k : A -> K W E B) : K W E B := fun s =>
  match m s with
  | (Done a, s) => k a s
  | (Throw e, s) => (Throw e, s)
  end.

(** [try { m } catch (e) { h(e) }] *)
Definition kcatch {A} (m : K W E A) (h : E -> K W E A) : K W E A := fun s =>
  match m s with
  | (Done a, s) => (Done a, s)
  | (Throw e, s) => h e s
  end.

Definition kthrow {A} (e : E) : K W E A := fun s => (Throw e, s).

Definition get : K W E KeeperContext := fun s => (Done (ctx s), s).

Definition put (f : KeeperContext -> KeeperContext) : K W E unit := fun s =>
  (Done tt, mkMachine (world s) (f (ctx s)) (trace s)).

Definition emit (e : Effect) : K W E unit := fun s =>
  (Done tt, mkMachine (world s) (ctx s) (trace s ++ [e])).

(** An operation of the client, which sees only the world. *)
Definition call {A} (f : W -> outcome E A * W) : K W E A := fun s =>
  let '(r, w) := f (world s) in (r, mkMachine w (ctx s) (trace s)).

Definition call_total {A} (f : W -> A * W) : K W E A :=
  call (fun w => let '(a, w) := f w in (Done a, w)).
End Monad.

Notation "'let*' x ':=' m 'in' k" := (kbind m (fun x => k))
  (at level 10, x name, m at level 100, k at level 200) : keeper_scope.
Notation "m ;; k" := (kbind m (fun _ => k)) (at level 100, k at level 200, right associativity) : keeper_scope.
Notation "'when' b 'do' m" := (if b then m else kret tt) (at level 95, b at level 90, m at level 94) : keeper_scope.

Section Client.
Context {W E : Type} `{!ChainClient W E}.
Open Scope keeper_scope.

Definition clock : K W E num := call_total nowSec.
Definition dateNow : K W E num := call_total date_now.

(** [client.send]: the transaction is on its way before anything can fail. *)
Definition sending (t : Transaction) : K W E bool := emit (Sending t);; call (send t).

Definition onOpening (f : Opening -> Opening) : K W E unit := put (fun x => with_opening x (f (opening x))).
Definition onClosing (f : Closing -> Closing) : K W E unit := put (fun x => with_closing x (f (closing_ x))).
Definition onTimeline (f : RoundTimeline -> RoundTimeline) : K W E unit :=
  put (fun x => with_timeline x (f (timeline x))).
End Client.

(** ** Relations a computation respects *)

Section Respects.
Context {W E : Type} (R : machine W -> machine W -> Prop) `{!PreOrder R}.

Definition respects {A} (m : K W E A) : Prop := forall s, R s (snd (m s)).

Lemma respects_ret {A} (a : A) : respects (kret a).
Proof. intros s. apply PreOrder_Reflexive. Qed.

Lemma respects_throw {A} (e : E) : respects (kthrow (A := A) e).
Proof. intros s. apply PreOrder_Reflexive. Qed.

Lemma respects_get : respects get.
Proof. intros s. apply PreOrder_Reflexive. Qed.

Lemma respects_bind {A B} (m : K W E A) (k : A -> K W E B) :
  respects m -> (forall a, respects (k a)) -> respects (kbind m k).
Proof.
  intros Hm Hk s. unfold kbind. specialize (Hm s). destruct (m s) as [[a | e] s']; [| done].
  cbn [snd] in *. transitivity s'; [done | apply Hk].
Qed.

Lemma respects_catch {A} (m : K W E A) (h : E -> K W E A) :
  respects m -> (forall e, respects (h e)) -> respects (kcatch m h).
Proof.
  intros Hm Hh s. unfold kcatch. specialize (Hm s). destruct (m s) as [[a | e] s']; [done |].
  cbn [snd] in *. transitivity s'; [done | apply Hh].
Qed.

Lemma respects_if {A} (b : bool) (m k : K W E A) : respects m -> respects k -> respects (if b then m else k).
Proof. by destruct b. Qed.

Lemma respects_call {A} (f : W -> outcome E A * W) :
  (forall s w, R s (mkMachine w (ctx s) (trace s))) -> respects (call f).
Proof. intros HR s. unfold call. destruct (f (world s)). apply HR. Qed.

Lemma respects_put f :
  (forall s, R s (mkMachine (world s) (f (ctx s)) (trace s))) -> respects (put f).
Proof. intros HR s. apply HR. Qed.

Lemma respects_emit e :
  (forall s, R s (mkMachine (world s) (ctx s) (trace s ++ [e]))) -> respects (emit e).
Proof. intros HR s. apply HR. Qed.
End Respects.

(** A computation's result and last state. *)
Section WP.
Context {W E : Type}.

Definition wp {A} (m : K W E A) (Q : outcome E A -> machine W -> Prop) (s : machine W) : Prop :=
  Q (fst (m s)) (snd (m s)).

Lemma wp_mono {A} (m : K W E A) (P Q : outcome E A -> machine W -> Prop) s :
  wp m P s -> (forall r s', P r s' -> Q r s') -> wp m Q s.
Proof. unfold wp. eauto. Qed.

Lemma wp_any {A} (m : K W E A) (Q : outcome E A -> machine W -> Prop) s : (forall r s', Q r s') -> wp m Q s.
Proof. intros H. apply H. Qed.

Lemma wp_and {A} (m : K W E A) (P Q : outcome E A -> machine W -> Prop) s :
  wp m P s -> wp m Q s -> wp m (fun r s' => P r s' /\ Q r s') s.
Proof. by split. Qed.

Lemma wp_bind {A B} (m : K W E A) (k : A -> K W E B) Q s :
  wp m (fun r s' => match r with Done a => wp (k a) Q s' | Throw e => Q (Throw e) s' end) s -> wp (kbind m k) Q s.
Proof. unfold wp, kbind. by destruct (m s) as [[a | e] s']. Qed.

Lemma wp_catch {A} (m : K W E A) (h : E -> K W E A) Q s :
  wp m (fun r s' => match r with Done a => Q (Done a) s' | Throw e => wp (h e) Q s' end) s -> wp (kcatch m h) Q s.
Proof. unfold wp, kcatch. by destruct (m s) as [[a | e] s']. Qed.

Lemma wp_call {A} (f : W -> outcome E A * W) (Q : outcome E A -> machine W -> Prop) s :
  (forall r w, f (world s) = (r, w) -> Q r (mkMachine w (ctx s) (trace s))) -> wp (call f) Q s.
Proof. intros H. unfold wp, call. destruct (f (world s)) as [r w] eqn:Ef. by apply H. Qed.

Lemma wp_call_total {A} (f : W -> A * W) (Q : outcome E A -> machine W -> Prop) s :
  (forall a w, f (world s) = (a, w) -> Q (Done a) (mkMachine w (ctx s) (trace s))) -> wp (call_total f) Q s.
Proof. intros H. unfold wp, call_total, call. destruct (f (world s)) as [a w] eqn:Ef. by apply H. Qed.

Lemma wp_put f (Q : outcome E unit -> machine W -> Prop) s :
  Q (Done tt) (mkMachine (world s) (f (ctx s)) (trace s)) -> wp (put f) Q s.
Proof. done. Qed.

Lemma wp_emit e (Q : outcome E unit -> machine W -> Prop) s :
  Q (Done tt) (mkMachine (world s) (ctx s) (trace s ++ [e])) -> wp (emit e) Q s.
Proof. done. Qed.

Lemma wp_get (Q : outcome E KeeperContext -> machine W -> Prop) s : Q (Done (ctx s)) s -> wp get Q s.
Proof. done. Qed.

Lemma wp_ret {A} (a : A) (Q : outcome E A -> machine W -> Prop) s : Q (Done a) s -> wp (kret a) Q s.
Proof. done. Qed.

Lemma wp_respects {A} (R : machine W -> machine W -> Prop) (m : K W E A) (Q : outcome E A -> machine W -> Prop) s :
  respects R m -> (forall r s', R s s' -> Q r s') -> wp m Q s.
Proof. intros HR HQ. apply HQ, HR. Qed.
End WP.

(** Go through a computation one operation at a time. *)
Ltac wp_step :=
  lazymatch goal with
  | |- wp (kbind _ _) _ _ => apply wp_bind
  | |- wp (kcatch _ _) _ _ => apply wp_catch
  | |- wp (kret _) _ _ => apply wp_ret
  | |- wp get _ _ => apply wp_get
  | |- wp (put _) _ _ => apply wp_put
  | |- wp (emit _) _ _ => apply wp_emit
  | |- wp clock _ _ => apply wp_call_total; intros ? ? _
  | |- wp dateNow _ _ => apply wp_call_total; intros ? ? _
  | |- wp (call _) _ _ => apply wp_call; intros [? | ?] ? ?
  | |- wp (sending _) _ _ => unfold sending; apply wp_bind, wp_emit, wp_call; intros [? | ?] ? ?
  | |- wp (onOpening _) _ _ => apply wp_put
  | |- wp (onClosing _) _ _ => apply wp_put
  | |- wp (onTimeline _) _ _ => apply wp_put
  | |- wp (if ?b then _ else _) _ _ => destruct b eqn:?
  | |- wp (call_total _) _ _ => apply wp_call_total; intros ? ? _
  end; cbv beta iota; cbn [world ctx trace present negb andb].

(** Decompose a goal [respects R m] down to its operations. *)
Ltac respects_step :=
  lazymatch goal with
  | |- respects _ (kbind _ _) => apply respects_bind; [try typeclasses eauto | | intros ?]
  | |- respects _ (kcatch _ _) => apply respects_catch; [try typeclasses eauto | | intros ?]
  | |- respects _ (kret _) => apply respects_ret; try typeclasses eauto
  | |- respects _ (kthrow _) => apply respects_throw; try typeclasses eauto
  | |- respects _ get => apply respects_get; try typeclasses eauto
  | |- respects _ (if _ then _ else _) => case_match
  | |- respects _ (match _ with _ => _ end) => case_match
  | |- respects _ (sending _) => unfold sending
  | |- respects _ clock => unfold clock
  | |- respects _ dateNow => unfold dateNow
  | |- respects _ (call_total _) => unfold call_total
  | |- respects _ (call _) => apply respects_call; intros ? ?
  | |- respects _ (emit _) => apply respects_emit; intros ?
  | |- respects _ (put _) => apply respects_put; intros ?
  | |- respects _ (onOpening _) => unfold onOpening
  | |- respects _ (onClosing _) => unfold onClosing
  | |- respects _ (onTimeline _) => unfold onTimeline
  end.
