(* ===== verification/KeeperOpen.v ===== *)
(** * Opening a round

    [affordsAnotherRound], [rentIsComingBack], [sweepIsKeepingUp],
    [openNextRound] and [delegateRound] of [er-demo/scripts/keeper/keeper.ts]:
    the funding floor, the two stops and the order they are asked in. *)
From S2P Require Import Prelude JsNum ErSim Chain KeeperConfig HouseSizing HouseBank Reclamation KeeperState KeeperChain.

Definition low_since (at_ : option num) (o : Opening) : Opening :=
  mkOpening at_ (lowBalanceCheckedAtSec o) (burnSamples o) (lastOpenLamports o) (burnStopSince o) (sweepStopSince o)
    (operatorLamportsObserved o) (firstOpenAtSec o) (opensObserved o).

Definition balance_read (lamports at_ : num) (o : Opening) : Opening :=
  mkOpening (lowBalanceSince o) at_ (burnSamples o) (lastOpenLamports o) (burnStopSince o) (sweepStopSince o)
    (Some lamports) (firstOpenAtSec o) (opensObserved o).

Definition sampled (xs : list num) (o : Opening) : Opening :=
  mkOpening (lowBalanceSince o) (lowBalanceCheckedAtSec o) xs (lastOpenLamports o) (burnStopSince o) (sweepStopSince o)
    (operatorLamportsObserved o) (firstOpenAtSec o) (opensObserved o).

Definition burn_stop (at_ : option num) (o : Opening) : Opening :=
  mkOpening (lowBalanceSince o) (lowBalanceCheckedAtSec o) (burnSamples o) (lastOpenLamports o) at_ (sweepStopSince o)
    (operatorLamportsObserved o) (firstOpenAtSec o) (opensObserved o).

Definition sweep_stop (at_ : num) (o : Opening) : Opening :=
  mkOpening (lowBalanceSince o) (lowBalanceCheckedAtSec o) (burnSamples o) (lastOpenLamports o) (burnStopSince o)
    (Some at_) (operatorLamportsObserved o) (firstOpenAtSec o) (opensObserved o).

(** What a landed [open_round] leaves. *)
Definition opened (lamports : option num) (first : num) (o : Opening) : Opening :=
  mkOpening (lowBalanceSince o) (lowBalanceCheckedAtSec o) (burnSamples o) lamports (burnStopSince o) (sweepStopSince o)
    (operatorLamportsObserved o) (Some first) (opensObserved o + 1).

(** The brake with the configuration's thresholds. *)
Definition brake (c : Config) (samples : list num) : BurnVerdict :=
  burnBrake samples (MAX_BURN_LAMPORTS_PER_ROUND c) (BURN_ARM_AFTER_ROUNDS (ROUND_RETENTION c)) (BURN_SAMPLE_ROUNDS c).

Section Open.
Context {W E : Type} `{!ChainClient W E} (c : Config) (k : Knobs).
Open Scope keeper_scope.

Definition affordsAnotherRound : K W E (option num) :=
  let* now := clock in
  let* x := get in
  let low := lowBalanceSince (opening x) in
  if present low &&
     ltb now (add (lowBalanceCheckedAtSec (opening x)) (of_Z LOW_BALANCE_RECHECK_SECONDS))
  then kret None else
  let* lamports := call balance in
  onOpening (balance_read lamports now);;
  if leb (MIN_BALANCE_LAMPORTS k) lamports then
    when present low do
      (onOpening (low_since None);; emit (LowBalance None);; emit (NotOpeningRounds None));;
    kret (Some lamports)
  else
    emit (NextLobbyOpensAt None);;
    emit (LowBalance (Some (lamports, now)));;
    emit (NotOpeningRounds (Some low_balance));;
    when negb (present low) do onOpening (low_since (Some now));;
    kret None.

Definition rentIsComingBack : K W E bool :=
  let* x := get in
  let o := opening x in
  if negb (b_tripped (brake c (burnSamples o))) then
    when present (burnStopSince o) do (onOpening (burn_stop None);; emit (NotOpeningRounds None));;
    kret true
  else
    emit (NextLobbyOpensAt None);;
    emit (NotOpeningRounds (Some rent_not_reclaimed));;
    when negb (present (burnStopSince o)) do
      (let* at_ := clock in onOpening (burn_stop (Some at_));; let* _again := clock in kret tt);;
    kret false.

Definition sweepIsKeepingUp : K W E bool :=
  let* observedAt := clock in
  let* x := get in
  if negb (s_tripped (sweepGapStop (reclamationStateOf x observedAt) (reclamationThresholds c))) then kret true else
  emit (NextLobbyOpensAt None);;
  emit (NotOpeningRounds (Some rent_not_swept));;
  when negb (present (sweepStopSince (opening x))) do
    (let* at_ := clock in onOpening (sweep_stop at_));;
  kret false.

Definition delegateRound (roundNo : Z) : K W E unit :=
  let* sent := sending (delegate_round roundNo) in
  if negb sent then kret tt else
  let* _seen := call (waitForDelegation roundNo) in
  kret tt.

(** What follows a landed open.  The account read back is only logged. *)
Definition afterOpen (roundNo : Z) (lamportsBefore : num) : K W E unit :=
  let* x := get in
  let* first := (match firstOpenAtSec (opening x) with Some at_ => kret at_ | None => clock end) in
  onOpening (opened (if closeCatchUpAhead (closing_ x) then None else Some lamportsBefore) first);;
  onTimeline (fun _ => freshTimeline (Some roundNo) (Some lamportsBefore));;
  emit (NextLobbyOpensAt None);;
  put (fun x => with_refresh x true);;
  let* _echo := kcatch (call (fetchRound roundNo)) (fun _ => kret None) in
  delegateRound roundNo;;
  call topUpHouse.

(** The sample the pass takes before it asks the brake. *)
Definition takeSample (lamportsBefore : num) : K W E unit :=
  let* x := get in
  match lastOpenLamports (opening x) with
  | Some last =>
      when negb (closeCatchUpAhead (closing_ x)) do
        onOpening (fun o => sampled
          (recordBurnSample (burnSamples o) (sub last lamportsBefore) (BURN_ARM_AFTER_ROUNDS (ROUND_RETENTION c))) o)
  | None => kret tt
  end.

Definition openNextRound (roundNo : Z) : K W E unit :=
  let* x := get in
  if present (sweepStopSince (opening x)) then let* _up := sweepIsKeepingUp in kret tt else
  let* afforded := affordsAnotherRound in
  match afforded with
  | None => kret tt
  | Some lamportsBefore =>
      takeSample lamportsBefore;;
      let* back := rentIsComingBack in
      if negb back then kret tt else
      let* up := sweepIsKeepingUp in
      if negb up then kret tt else
      let lobbySeconds :=
        if opt_holdOpen (options x) && negb (houseOnlyRounds (options x))
        then HOLD_OPEN_LOBBY_SECONDS c else of_Z DEFAULT_LOBBY_SECONDS in
      let* sent := sending (open_round roundNo lobbySeconds) in
      if negb sent then kret tt else
      afterOpen roundNo lamportsBefore
  end.
End Open.

(** ** What an open leaves alone *)

Definition is_open (e : Effect) : bool := match e with Sending (open_round _ _) => true | _ => false end.

(** The opens among the effects of a run. *)
Definition opens (l : list Effect) : list Effect := List.filter is_open l.

Lemma opens_app l l' : opens (l ++ l') = opens l ++ opens l'.
Proof. apply List.filter_app. Qed.

(** Nothing opened, and the context unchanged but for the timeline and the
    refresh flag. *)
Record quiet {W} (s s' : machine W) : Prop := {
  quiet_opening : opening (ctx s') = opening (ctx s);
  quiet_closing : closing_ (ctx s') = closing_ (ctx s);
  quiet_treasury : treasury (ctx s') = treasury (ctx s);
  quiet_options : options (ctx s') = options (ctx s);
  quiet_features : features (ctx s') = features (ctx s);
  quiet_trace : exists l, trace s' = trace s ++ l /\ opens l = [];
}.

#[export] Instance quiet_preorder {W} : PreOrder (@quiet W).
Proof.
  split.
  - intros s. split; try done. exists []. by rewrite app_nil_r.
  - intros s1 s2 s3 [A1 A2 A3 A4 A5 (l & A & Al)] [B1 B2 B3 B4 B5 (l' & B & Bl)]. split; try congruence.
    exists (l ++ l'). rewrite B, A, app_assoc, opens_app, Al, Bl. done.
Qed.

Lemma quiet_world {W} (s : machine W) w : quiet s (mkMachine w (ctx s) (trace s)).
Proof. split; try done. exists []. by rewrite app_nil_r. Qed.

Lemma quiet_emit {W} (s : machine W) e : is_open e = false -> quiet s (mkMachine (world s) (ctx s) (trace s ++ [e])).
Proof. intros He. split; try done. exists [e]. split; [done |]. unfold opens. simpl. by rewrite He. Qed.

#[export] Hint Resolve quiet_world quiet_emit : arena.

Section OpenLaws.
Context {W E : Type} `{!ChainClient W E} (c : Config) (k : Knobs).

Lemma delegate_quiet n : respects quiet (delegateRound (W := W) (E := E) n).
Proof. unfold delegateRound. repeat respects_step; eauto with arena. Qed.

Lemma sweep_reading (x : KeeperContext) o t :
  sweepStopSince o = sweepStopSince (opening x) ->
  sweepGapStop (reclamationStateOf (with_opening x o) t) (reclamationThresholds c) =
  sweepGapStop (reclamationStateOf x t) (reclamationThresholds c).
Proof. intros Hs. unfold sweepGapStop, reclamationStateOf, latchedIn. cbn. by rewrite Hs. Qed.

(** Effects without an open. *)
Definition silent (s s' : machine W) : Prop := exists l, trace s' = trace s ++ l /\ opens l = [].

(** Nothing but the opening moved, no open was sent, and the samples, the
    anchor and the counts of opens stand. *)
Definition asked (s s' : machine W) : Prop :=
  silent s s' /\ exists o, ctx s' = with_opening (ctx s) o /\
    burnSamples o = burnSamples (opening (ctx s)) /\ lastOpenLamports o = lastOpenLamports (opening (ctx s)) /\
    firstOpenAtSec o = firstOpenAtSec (opening (ctx s)) /\ opensObserved o = opensObserved (opening (ctx s)).

Lemma silent_app (s s' : machine W) l : trace s' = trace s ++ l -> opens l = [] -> silent s s'.
Proof. by exists l. Qed.

Lemma asked_intro (s s' : machine W) :
  silent s s' /\ (exists o, ctx s' = with_opening (ctx s) o /\
    burnSamples o = burnSamples (opening (ctx s)) /\ lastOpenLamports o = lastOpenLamports (opening (ctx s)) /\
    firstOpenAtSec o = firstOpenAtSec (opening (ctx s)) /\ opensObserved o = opensObserved (opening (ctx s))) ->
  asked s s'.
Proof. done. Qed.

Lemma with_opening_self x : with_opening x (opening x) = x.
Proof. by destruct x. Qed.

Lemma present_false {A} (x : option A) : present x = false -> x = None.
Proof. by destruct x. Qed.

Ltac traced := eexists; cbn [trace]; rewrite <- ?app_assoc; split; [first [reflexivity | symmetry; apply app_nil_r] | reflexivity].

Ltac asked_by := split; [traced | eexists; split; [reflexivity | split_and!; reflexivity]].
Ltac asked_same := split; [traced | eexists; split; [symmetry; apply with_opening_self | split_and!; reflexivity]].

Lemma affords_spec s :
  wp (affordsAnotherRound (E := E) k) (fun r s' => asked s s' /\
    burnStopSince (opening (ctx s')) = burnStopSince (opening (ctx s)) /\
    sweepStopSince (opening (ctx s')) = sweepStopSince (opening (ctx s)) /\
    forall m, r = Done (Some m) -> operatorLamportsObserved (opening (ctx s')) = Some m /\
      leb (MIN_BALANCE_LAMPORTS k) m = true /\ lowBalanceSince (opening (ctx s')) = None) s.
Proof.
  unfold affordsAnotherRound. destruct s as [w0 x0 tr]. repeat wp_step.
  all: split_and!; [apply asked_intro; first [asked_by | asked_same] | reflexivity | reflexivity |].
  all: intros m [= <-]; (split_and!; [reflexivity | assumption |]).
  - reflexivity.
  - by apply present_false.
Qed.
Lemma burn_spec s :
  wp (rentIsComingBack (E := E) c) (fun r s' => asked s s' /\
    operatorLamportsObserved (opening (ctx s')) = operatorLamportsObserved (opening (ctx s)) /\
    lowBalanceSince (opening (ctx s')) = lowBalanceSince (opening (ctx s)) /\
    sweepStopSince (opening (ctx s')) = sweepStopSince (opening (ctx s)) /\
    r = Done (negb (b_tripped (brake c (burnSamples (opening (ctx s)))))) /\
    (r = Done true -> burnStopSince (opening (ctx s')) = None)) s.
Proof.
  unfold rentIsComingBack. destruct s as [w0 x0 tr]. repeat wp_step.
  all: split_and!; [apply asked_intro; first [asked_by | asked_same] | reflexivity.. |].
  all: intros [=]; first [reflexivity | by apply present_false].
Qed.

Lemma sweep_spec s :
  wp (sweepIsKeepingUp (E := E) c) (fun r s' => asked s s' /\
    operatorLamportsObserved (opening (ctx s')) = operatorLamportsObserved (opening (ctx s)) /\
    lowBalanceSince (opening (ctx s')) = lowBalanceSince (opening (ctx s)) /\
    burnStopSince (opening (ctx s')) = burnStopSince (opening (ctx s)) /\
    (present (sweepStopSince (opening (ctx s))) = true -> sweepStopSince (opening (ctx s')) = sweepStopSince (opening (ctx s))) /\
    exists t, r = Done (negb (s_tripped (sweepGapStop (reclamationStateOf (ctx s) t) (reclamationThresholds c)))) /\
    (r = Done true -> ctx s' = ctx s)) s.
Proof.
  unfold sweepIsKeepingUp. destruct s as [w0 x0 tr]. repeat wp_step.
  all: split_and!; [apply asked_intro; first [asked_by | asked_same] | reflexivity.. | |].
  all: try (intros P; first [reflexivity | rewrite P in *; discriminate]).
  all: eexists; (split; [f_equal; symmetry; eassumption | done]).
Qed.

(** The samples the brake is asked with. *)
Definition samplesAfter (x : KeeperContext) (m : num) : list num :=
  match lastOpenLamports (opening x) with
  | Some last =>
      if closeCatchUpAhead (closing_ x) then burnSamples (opening x)
      else recordBurnSample (burnSamples (opening x)) (sub last m) (BURN_ARM_AFTER_ROUNDS (ROUND_RETENTION c))
  | None => burnSamples (opening x)
  end.

(** Everything an open promises about the keeper that sent it. *)
Record gates_passed (s s' : machine W) : Prop := {
  gate_latch : sweepStopSince (opening (ctx s)) = None /\ sweepStopSince (opening (ctx s')) = None;
  gate_money : exists m, operatorLamportsObserved (opening (ctx s')) = Some m /\
    leb (MIN_BALANCE_LAMPORTS k) m = true /\ lowBalanceSince (opening (ctx s')) = None /\
    burnSamples (opening (ctx s')) = samplesAfter (ctx s) m;
  gate_burn : b_tripped (brake c (burnSamples (opening (ctx s')))) = false /\ burnStopSince (opening (ctx s')) = None;
  gate_sweep : exists t, s_tripped (sweepGapStop (reclamationStateOf (ctx s) t) (reclamationThresholds c)) = false;
}.

Definition lobbySecondsOf (x : KeeperContext) : num :=
  if opt_holdOpen (options x) && negb (houseOnlyRounds (options x))
  then HOLD_OPEN_LOBBY_SECONDS c else of_Z DEFAULT_LOBBY_SECONDS.

(** What the gates of an open read, and no further open. *)
Record kept (s s' : machine W) : Prop := {
  kept_low : lowBalanceSince (opening (ctx s')) = lowBalanceSince (opening (ctx s));
  kept_seen : operatorLamportsObserved (opening (ctx s')) = operatorLamportsObserved (opening (ctx s));
  kept_samples : burnSamples (opening (ctx s')) = burnSamples (opening (ctx s));
  kept_burn : burnStopSince (opening (ctx s')) = burnStopSince (opening (ctx s));
  kept_sweep : sweepStopSince (opening (ctx s')) = sweepStopSince (opening (ctx s));
  kept_silent : silent s s';
}.

#[local] Instance silent_preorder : PreOrder silent.
Proof.
  split.
  - intros s. exists []. by rewrite app_nil_r.
  - intros s1 s2 s3 (l & A & Al) (l' & B & Bl). exists (l ++ l'). by rewrite B, A, app_assoc, opens_app, Al, Bl.
Qed.

#[local] Instance kept_preorder : PreOrder kept.
Proof. split; [intros s; by split |]. intros s1 s2 s3 [] []. split; congruence || by etransitivity. Qed.

#[local] Instance asked_preorder : PreOrder asked.
Proof.
  split.
  - intros s. apply asked_intro. asked_same.
  - intros s1 s2 s3 (A & o & Eo & ?) (B & o' & Eo' & ?). split; [by etransitivity |]. exists o'.
    rewrite Eo', Eo in *. cbn in *. destruct_and!. split_and!; congruence || done.
Qed.

Lemma after_open_kept n m : respects kept (afterOpen n m).
Proof.
  unfold afterOpen, delegateRound. repeat respects_step; (split; try done); by traced.
Qed.

Lemma sample_spec m (s : machine W) :
  wp (takeSample (E := E) c m) (fun r s' => r = Done tt /\
    s' = mkMachine (world s) (with_opening (ctx s) (sampled (samplesAfter (ctx s) m) (opening (ctx s)))) (trace s)) s.
Proof.
  unfold takeSample, samplesAfter. destruct s as [w0 x0 tr]. do 2 wp_step.
  assert (G : sampled (burnSamples (opening x0)) (opening x0) = opening x0) by by destruct (opening x0).
  destruct (lastOpenLamports (opening x0)); [destruct (closeCatchUpAhead (closing_ x0))|]; cbn [negb];
    wp_step; rewrite ?G, ?with_opening_self; done.
Qed.

(** The pass either opened nothing or opened the round with its gates passed. *)
Definition gated (n : Z) (s s' : machine W) : Prop :=
  exists l, trace s' = trace s ++ l /\
    (opens l = [] \/ opens l = [Sending (open_round n (lobbySecondsOf (ctx s)))] /\ gates_passed s s').

Lemma silent_gated n s s' : silent s s' -> gated n s s'.
Proof. intros (l & ? & ?). exists l. auto. Qed.

Lemma sent_gated n s s4 s' w :
  silent s s4 -> gates_passed s s4 ->
  kept (mkMachine w (ctx s4) (trace s4 ++ [Sending (open_round n (lobbySecondsOf (ctx s)))])) s' -> gated n s s'.
Proof.
  intros (l & El & Hl) [G1 G2 G3 G4] [K1 K2 K3 K4 K5 (l' & El' & Hl')]. cbn [ctx trace] in *.
  exists (l ++ [Sending (open_round n (lobbySecondsOf (ctx s)))] ++ l'). split; [by rewrite El', El, <- !app_assoc |].
  right. rewrite !opens_app, Hl, Hl'. split; [done |]. split; rewrite ?K1, ?K2, ?K3, ?K4, ?K5; done.
Qed.

Lemma open_gated n s : gated n s (snd (openNextRound (E := E) c k n s)).
Proof.
  change (wp (openNextRound (E := E) c k n) (fun _ s' => gated n s s') s).
  unfold openNextRound. do 2 wp_step.
  destruct (present (sweepStopSince (opening (ctx s)))) eqn:Hl.
  { wp_step. eapply wp_mono; [apply sweep_spec |]. intros r s' ([Hs _] & _).
    apply (silent_gated n) in Hs. by destruct r; [apply wp_ret |]. }
  wp_step. eapply wp_mono; [apply affords_spec |]. intros r s1 (A1 & B1 & S1 & M).
  destruct r as [[m |] | e]; [| by apply silent_gated, A1..].
  destruct (M m eq_refl) as (Hm & Hmin & Hlow). wp_step. eapply wp_mono; [apply sample_spec |].
  intros r s2 [-> E2]. wp_step. eapply wp_mono; [apply burn_spec |].
  intros r s3 (A3 & Hm3 & Hlow3 & S3 & -> & Hb3).
  assert (Q3 : silent s s3).
  { destruct A1 as [Q1 _], A3 as [Q3 _]. etransitivity; [exact Q1 |]. by rewrite E2 in Q3. }
  cbv iota. destruct (b_tripped _) eqn:Et; cbn [negb]; [by apply wp_ret, silent_gated |].
  wp_step. eapply wp_mono; [apply sweep_spec |]. intros r s4 (A4 & Hm4 & Hlow4 & Hb4 & _ & t & -> & H4).
  assert (Q4 : silent s s4) by (etransitivity; [exact Q3 | apply A4]).
  cbv iota. destruct (s_tripped _) eqn:Es; cbn [negb]; [by apply wp_ret, silent_gated |]. specialize (H4 eq_refl).
  assert (G : gates_passed s s4).
  { subst s2. destruct A1 as (_ & o1 & E1 & Hs1 & Hl1 & _), A3 as (_ & o3 & E3 & Hs3 & _).
    rewrite H4, E3, E1 in *. cbn in *. apply present_false in Hl. split; rewrite ?H4; cbn.
    - split; congruence.
    - exists m. split_and!; try congruence. rewrite Hs3. unfold samplesAfter. cbn. by rewrite Hl1, Hs1.
    - rewrite Hs3. split; [done | by apply Hb3].
    - exists t. rewrite <- Es. unfold sweepGapStop, reclamationStateOf, latchedIn. cbn. by rewrite S3, S1. }
  wp_step. unfold sending. do 2 wp_step. apply wp_call. intros r w _. fold (lobbySecondsOf (ctx s)).
  destruct r as [b | e]; [destruct b; cbn [negb] |].
  - eapply wp_respects; [apply after_open_kept |]. intros r s' Hk. eapply sent_gated; eassumption.
  - apply wp_ret. eapply sent_gated; [eassumption.. | reflexivity].
  - eapply sent_gated; [eassumption.. | reflexivity].
Qed.

(** ** Passes while the brake is on *)

(** Calls to [openNextRound], one a pass. *)
Definition passes (ns : list Z) (s : machine W) : machine W :=
  foldl (fun s n => snd (openNextRound (E := E) c k n s)) s ns.

Definition sent_open (s s' : machine W) : Prop := exists l, trace s' = trace s ++ l /\ opens l <> [].

Lemma silent_sent s s' s'' : silent s s' -> sent_open s' s'' -> sent_open s s''.
Proof.
  intros (l & E1 & Hl) (l' & E2 & Hl'). exists (l ++ l'). by rewrite E2, E1, app_assoc, opens_app, Hl.
Qed.

Lemma gated_grows n s s' : gated n s s' -> exists l, trace s' = trace s ++ l.
Proof. intros (l & El & _). eauto. Qed.

Lemma passes_grow ns s : exists l, trace (passes ns s) = trace s ++ l.
Proof.
  revert s. unfold passes. induction ns as [| n ns IH]; intros s; [exists []; by rewrite app_nil_r |]. cbn [foldl].
  destruct (IH (snd (openNextRound (E := E) c k n s))) as [l' ->].
  destruct (gated_grows n s _ (open_gated n s)) as [l ->]. exists (l ++ l'). by rewrite app_assoc.
Qed.

Lemma sent_passes ns s s' : sent_open s s' -> sent_open s (passes ns s').
Proof.
  intros (l & El & Hl). destruct (passes_grow ns s') as [l' El']. exists (l ++ l').
  rewrite El', El, app_assoc, opens_app. split; [done |]. by destruct (opens l).
Qed.

(** A keeper with money, whose balance reads [m] and whose treasury is swept. *)
Record solvent (m : num) (s : machine W) : Prop := {
  solvent_reads : forall w, fst (balance (E := E) w) = Done m;
  solvent_floor : leb (MIN_BALANCE_LAMPORTS k) m = true;
  solvent_low : lowBalanceSince (opening (ctx s)) = None;
  solvent_latch : sweepStopSince (opening (ctx s)) = None;
  solvent_swept : forall t, s_tripped (sweepGapStop (reclamationStateOf (ctx s) t) (reclamationThresholds c)) = false;
}.

Lemma affords_solvent m s : solvent m s ->
  wp (affordsAnotherRound (E := E) k) (fun r _ => r = Done (Some m)) s.
Proof.
  intros [Hb Hm Hl _ _]. unfold affordsAnotherRound. do 4 wp_step. rewrite Hl. cbn [present andb]. wp_step. apply wp_call.
  intros r w' Ew. specialize (Hb w). cbn [world] in Ew. rewrite Ew in Hb. cbn [fst] in Hb. subst r. wp_step. wp_step.
  rewrite Hm. repeat wp_step. done.
Qed.

Lemma solvent_asked m s s' : solvent m s -> asked s s' ->
  lowBalanceSince (opening (ctx s')) = None -> sweepStopSince (opening (ctx s')) = None -> solvent m s'.
Proof.
  intros [Hb Hm Hl Hs Ht] (_ & o & E1 & _) Hl' Hs'. rewrite E1 in *. cbn in Hl', Hs'. split; rewrite ?E1; try done.
  intros t. specialize (Ht t). rewrite <- Ht. unfold sweepGapStop, reclamationStateOf, latchedIn. cbn. by rewrite Hs, Hs'.
Qed.

(** A pass of a solvent keeper: the round is opened, or the brake has judged
    the samples with one more among them. *)
Definition judged (m : num) (s s' : machine W) : Prop :=
  sent_open s s' \/
  silent s s' /\ solvent m s' /\ lastOpenLamports (opening (ctx s')) = lastOpenLamports (opening (ctx s)) /\
  closing_ (ctx s') = closing_ (ctx s) /\ burnSamples (opening (ctx s')) = samplesAfter (ctx s) m /\
  b_tripped (brake c (samplesAfter (ctx s) m)) = true.

Lemma sent_judged m s s4 s5 s' e :
  silent s s4 -> trace s5 = trace s4 ++ [e] -> is_open e = true -> kept s5 s' -> judged m s s'.
Proof.
  intros Q4 E5 He [_ _ _ _ _ (l & El & _)]. left. apply (silent_sent _ s4); [done |].
  exists ([e] ++ l). rewrite El, E5, <- app_assoc, opens_app. split; [done |]. unfold opens. simpl. by rewrite He.
Qed.

Lemma solvent_pass n m s : solvent m s -> judged m s (snd (openNextRound (E := E) c k n s)).
Proof.
  intros Hs. change (wp (openNextRound (E := E) c k n) (fun _ s' => judged m s s') s).
  unfold openNextRound. do 2 wp_step. rewrite (solvent_latch m s Hs). cbn [present]. wp_step.
  eapply wp_mono; [apply wp_and; [apply affords_spec | apply affords_solvent, Hs] |].
  intros r s1 [(A1 & B1 & S1 & M) ->]. destruct (M m eq_refl) as (_ & _ & Hlow). clear M.
  rewrite (solvent_latch m s Hs) in S1. pose proof (solvent_asked m s s1 Hs A1 Hlow S1) as Hs1.
  wp_step. eapply wp_mono; [apply sample_spec |]. intros r s2 [-> E2].
  assert (Es : samplesAfter (ctx s1) m = samplesAfter (ctx s) m).
  { destruct A1 as (_ & o & E1 & Ex & El & _). unfold samplesAfter. by rewrite E1; cbn; rewrite Ex, El. }
  assert (Hs2 : solvent m s2).
  { rewrite E2. destruct Hs1 as [Hb Hm Hl Hw Ht]. split; cbn; done. }
  wp_step. eapply wp_mono; [apply burn_spec |]. intros r s3 (A3 & Hm3 & Hlow3 & S3 & -> & Hb3).
  cbv iota. rewrite (solvent_low m s2 Hs2) in Hlow3. rewrite (solvent_latch m s2 Hs2) in S3.
  pose proof (solvent_asked m s2 s3 Hs2 A3 Hlow3 S3) as Hs3.
  assert (Q3 : silent s s3).
  { destruct A1 as [Q1 _], A3 as [Q3 _]. etransitivity; [exact Q1 |]. by rewrite E2 in Q3. }
  assert (E3 : burnSamples (opening (ctx s2)) = samplesAfter (ctx s) m) by (by rewrite E2).
  rewrite E3 in Hb3 |- *.
  destruct (b_tripped (brake c (samplesAfter (ctx s) m))) eqn:Et; cbn [negb].
  { apply wp_ret. right. destruct A1 as (_ & o1 & E1 & _ & El1 & _), A3 as (_ & o3 & E3' & Ex3 & El3 & _).
    rewrite E2, E1 in *. rewrite E3' in *. cbn in *.
    split; [done | split; [done | split; [by rewrite El3 | split; [done | split; [by rewrite Ex3 | done]]]]]. }
  wp_step. eapply wp_mono; [apply sweep_spec |]. intros r s4 (A4 & Hm4 & Hlow4 & Hb4 & _ & t & -> & H4).
  rewrite (solvent_swept m s3 Hs3). cbn [negb].
  assert (Q4 : silent s s4) by (etransitivity; [exact Q3 | apply A4]).
  wp_step. unfold sending. do 2 wp_step. apply wp_call. intros r w _.
  destruct r as [b | e]; [destruct b; cbn [negb] |].
  - eapply wp_respects; [apply after_open_kept |]. intros r s' Hk.
    eapply (sent_judged m s s4); [exact Q4 | | | exact Hk]; reflexivity.
  - apply wp_ret. eapply (sent_judged m s s4); [exact Q4 | | | reflexivity]; reflexivity.
  - eapply (sent_judged m s s4); [exact Q4 | | | reflexivity]; reflexivity.
Qed.

(** The brake's numbers: a retention of [w] rounds, a ceiling of [T] lamports. *)
Record brake_numbers (w : nat) (T : Z) : Prop := {
  brake_window : ROUND_RETENTION c = of_Z (Z.of_nat w) /\ (0 < w <= 1024)%nat;
  brake_ceiling : MAX_BURN_LAMPORTS_PER_ROUND c = of_Z T /\ Z.abs T <= 2 ^ 40;
}.

Definition ring_cap (w : nat) : num := of_Z (Z.of_nat (2 * w + 5)).

Lemma arm_cap w T : brake_numbers w T -> BURN_ARM_AFTER_ROUNDS (ROUND_RETENTION c) = ring_cap w.
Proof.
  intros [[-> Hw] _]. unfold BURN_ARM_AFTER_ROUNDS, ring_cap. rewrite mul_int, add_int by (unfold safe; lia). f_equal. lia.
Qed.

Lemma brake_reads w T zs :
  brake_numbers w T -> safe (Z.of_nat (length zs)) -> Forall (fun z => Z.abs z <= 2 ^ 40) zs ->
  b_tripped (brake c (ring (ring_cap w) (of_Z <$> zs))) = true -> T * Z.of_nat w < total (last_n w zs).
Proof.
  intros Hb Hz HF. unfold brake. rewrite (arm_cap w T Hb). destruct Hb as [[Hw Hw'] [HT HT']]. rewrite HT.
  unfold BURN_SAMPLE_ROUNDS. rewrite Hw. unfold ring_cap. unfold safe in *.
  rewrite brake_ring, brake_int by (rewrite ?length_fmap; unfold safe; lia || done).
  rewrite andb_true_iff, Z.ltb_lt. by intros [_ ?].
Qed.

(** A keeper anchored at [L] lamports whose ring holds the history [zs]. *)
Definition holding (w : nat) (L : Z) (zs : list Z) (s : machine W) : Prop :=
  burnSamples (opening (ctx s)) = ring (ring_cap w) (of_Z <$> zs) /\
  lastOpenLamports (opening (ctx s)) = Some (of_Z L) /\ closeCatchUpAhead (closing_ (ctx s)) = false.

Lemma holding_pass w T L B zs n s :
  brake_numbers w T -> safe L -> safe B -> holding w L zs s -> solvent (of_Z B) s ->
  let s' := snd (openNextRound (E := E) c k n s) in
  sent_open s s' \/
  silent s s' /\ solvent (of_Z B) s' /\ holding w L (zs ++ [L - B]) s' /\
  b_tripped (brake c (ring (ring_cap w) (of_Z <$> zs ++ [L - B]))) = true.
Proof.
  intros Hb HL HB (Hx & Hl & Hc) Hs s'. subst s'.
  destruct (solvent_pass n _ s Hs) as [? | (Q & Hs' & El & Ec & Ex & Et)]; [by left |]. right.
  assert (Hsam : samplesAfter (ctx s) (of_Z B) = ring (ring_cap w) (of_Z <$> zs ++ [L - B])).
  { unfold samplesAfter. rewrite Hl, Hc, Hx, (arm_cap w T Hb), sub_int by done.
    unfold ring. by rewrite fmap_app, foldl_app. }
  rewrite Hsam in *. unfold holding. rewrite Ec, El. done.
Qed.

Lemma total_replicate j z : total (replicate j z) = Z.of_nat j * z.
Proof. unfold total. induction j as [| j IH]; [done |]. cbn [replicate zsum foldr]. unfold zsum in IH. lia. Qed.

Lemma last_n_replicate {A} j (xs : list A) x : last_n j (xs ++ replicate j x) = replicate j x.
Proof. unfold last_n. rewrite length_app, length_replicate. replace (_ + j - j)%nat with (length xs) by lia. by rewrite drop_app_length. Qed.

(** After [j] passes: an open was sent, or [j] samples were added and the last
    of them left the brake on. *)
Lemma holding_passes w T L B zs ns s :
  brake_numbers w T -> safe L -> safe B -> holding w L zs s -> solvent (of_Z B) s ->
  sent_open s (passes ns s) \/
  solvent (of_Z B) (passes ns s) /\ holding w L (zs ++ replicate (length ns) (L - B)) (passes ns s) /\
  (ns <> [] -> b_tripped (brake c (ring (ring_cap w) (of_Z <$> zs ++ replicate (length ns) (L - B)))) = true).
Proof.
  intros Hb HL HB. revert zs s. induction ns as [| n ns IH]; intros zs s Hh Hs.
  { right. cbn. by rewrite app_nil_r. }
  destruct (holding_pass w T L B zs n s Hb HL HB Hh Hs) as [Hsent | (Q & Hs' & Hh' & Ht)].
  { left. by apply (sent_passes ns). }
  assert (Ea : (zs ++ [L - B]) ++ replicate (length ns) (L - B) = zs ++ replicate (S (length ns)) (L - B))
    by (by rewrite <- app_assoc).
  destruct (IH _ _ Hh' Hs') as [Hsent | (Hs'' & Hh'' & Ht'')].
  { left. by apply (silent_sent _ (snd (openNextRound (E := E) c k n s))). }
  right. rewrite Ea in *. split; [done |]. split; [done |]. intros _.
  destruct ns as [| n' ns]; [cbn in *; exact Ht | by apply Ht''].
Qed.
End OpenLaws.

(** C7. A round is opened only when every gate is open.  One pass of
    [openNextRound] attempts at most one [open_round], for the round asked for,
    with the lobby length the mode calls for; and when it does, the sweep-gap
    stop had never latched and does not trip on what the keeper has read, the
    balance it just read is at or above the floor, the burn brake does not trip
    on the samples including the newest, and the three published reasons for
    not opening are all cleared. *)
Theorem open_needs_every_gate {W E} `{!ChainClient W E} c k n (s : machine W) :
  let s' := snd (openNextRound (E := E) c k n s) in
  exists l, trace s' = trace s ++ l /\
    (opens l = [] \/
     opens l = [Sending (open_round n (lobbySecondsOf c (ctx s)))] /\ gates_passed c k s s').
Proof. apply open_gated. Qed.

(** C15. The burn stop clears itself.  Take a keeper stopped by the brake, its
    anchor [L] standing, whose balance now reads [B] with [L - B] at or under
    the ceiling, because rent came back or somebody topped the wallet up.  Every
    pass pushes one more sample although nothing was opened, so within as many
    passes as the window is long (about that many seconds) the keeper sends
    [open_round] again, without a restart. *)
Theorem burn_stop_clears_itself {W E} `{!ChainClient W E} c k w T L B zs ns (s : machine W) :
  brake_numbers c w T -> safe L -> safe B -> Z.abs (L - B) <= 2 ^ 40 -> L - B <= T ->
  Forall (fun z => Z.abs z <= 2 ^ 40) zs -> Z.of_nat (length zs) <= 2 ^ 52 ->
  present (burnStopSince (opening (ctx s))) = true ->
  holding w L zs s -> solvent (E := E) c k (of_Z B) s -> length ns = w ->
  exists l, trace (passes (E := E) c k ns s) = trace s ++ l /\ opens l <> [].
Proof.
  intros Hb HL HB Hd HT HF Hz _ Hh Hs Hn.
  destruct (holding_passes c k w T L B zs ns s Hb HL HB Hh Hs) as [? | (_ & _ & Ht)]; [done | exfalso].
  destruct (brake_window c w T Hb) as [_ Hw]. rewrite Hn in Ht.
  apply (brake_reads c w T _ Hb) in Ht; [| | | by destruct ns; [simpl in Hn; lia |]].
  - rewrite last_n_replicate, total_replicate in Ht. nia.
  - unfold safe. rewrite length_app, length_replicate. lia.
  - apply Forall_app. split; [done |]. by apply Forall_replicate.
Qed.

(** A devnet where everything succeeds and the operator holds [lamports]. *)
Definition calm_client (lamports : num) : ChainClient unit unit := {|
  nowSec := fun w => (of_Z 1700000000, w);
  date_now := fun w => (of_Z 1700000000000, w);
  readChainState := fun w => (Throw tt, w);
  fetchRound := fun _ w => (Done None, w);
  roundsExist := fun w _ => (Done [], w);
  send := fun _ w => (Done true, w);
  balance := fun w => (Done lamports, w);
  treasuryExists := fun w => (Done true, w);
  fetchTreasury := fun w => (Done None, w);
  isDelegated := fun _ w => (Done false, w);
  roundValidatorFqdn := fun _ w => (Done tt, w);
  routerSaysDelegated := fun _ w => (Done false, w);
  waitForDelegation := fun _ w => (Done true, w);
  waitForUndelegation := fun _ w => (Done true, w);
  topUpHouse := fun w => (Done tt, w);
  fightNotOverYet := fun _ => false;
  thrown := fun _ => tt;
  unknownPhase := fun _ => tt;
|}.

Definition sample_knobs : Knobs :=
  mkKnobs (of_Z 12) (of_Z 3) (of_Z 90) (of_Z 30) (of_Z 30) (of_Z 300000000).

Definition burn_history : list Z := replicate 45 23497000.

(** A keeper the brake stopped after 45 rounds that gave no rent back. *)
Definition stopped_keeper : machine unit :=
  mkMachine tt
    (with_opening
       (freshContext (mkOptions true false true false None) (mkFeatures true true)
          (mkBank [] []) None 1 None false)
       (mkOpening None (of_Z 1699999990) (ring (ring_cap 20) (of_Z <$> burn_history)) (Some (of_Z 1000000000))
          (Some (of_Z 1699999990)) None (Some (of_Z 976503000)) (Some (of_Z 1699990000)) 46))
    [].

Lemma burn_stop_clears_itself_witness :
  exists l, trace (passes (ChainClient0 := calm_client (of_Z 999000000)) default_config sample_knobs (replicate 20 301)
    stopped_keeper) = [] ++ l /\ opens l <> [].
Proof.
  apply (burn_stop_clears_itself (ChainClient0 := calm_client (of_Z 999000000)) default_config sample_knobs
    20 5000000 1000000000 999000000 burn_history (replicate 20 301) stopped_keeper).
  - split; (split; [vm_compute; reflexivity | lia]).
  - unfold safe. lia.
  - unfold safe. lia.
  - lia.
  - lia.
  - apply Forall_replicate. lia.
  - unfold burn_history. rewrite length_replicate. lia.
  - reflexivity.
  - split; [reflexivity | split; reflexivity].
  - split; [intros []; reflexivity | vm_compute; reflexivity | reflexivity | reflexivity | intros t; vm_compute; reflexivity].
  - reflexivity.
Defined.

(** A funded keeper with nothing against it opens the round asked for. *)
Example fresh_keeper_opens :
  let s := mkMachine tt (with_opening (ctx stopped_keeper) (emptyOpening None)) [] in
  opens (trace (snd (openNextRound (ChainClient0 := calm_client (of_Z 999000000)) default_config sample_knobs 301 s)))
  = [Sending (open_round 301 (of_Z 3600))].
Proof. vm_compute. reflexivity. Qed.
