(* ===== verification/KeeperCloser.v ===== *)
(** * Reclaiming rent, one round a pass

    [sweepHouseTake], [skipClosedRoundsAhead], [seedCloseCursor],
    [closeOneFinishedRound] and [pollTreasury] of
    [er-demo/scripts/keeper/keeper.ts]: the close cursor, its retries and the
    books of the rounds it leaves behind. *)
From S2P Require Import Prelude JsNum ErSim Chain KeeperConfig HouseSizing HouseBank Closer Reclamation KeeperState KeeperChain.

Definition CLOSE_CURSOR_SCAN_SECONDS : Z := 20.
Definition CLOSE_CURSOR_SCAN_MAX_BATCHES : Z := 200.

Definition sweep_retry (at_ : num) (t : RoundTimeline) : RoundTimeline :=
  mkTimeline (tl_roundNo t) (drawRequestedAtMs t) (fightObservedAtMs t) (settledObservedAtSec t)
    (abandonedObservedAtSec t) (firstRealEntryObservedAt t) (operatorLamportsAtOpen t) (houseRetryAfterSec t) at_
    (scheduleCloseRetryAfter t) (completedCounted t).

(** The cursor moves to [n]; attempts as given. *)
Definition cursor_at (n attempts : Z) (x : Closing) : Closing :=
  mkClosing n (closeCursorKnownLiveAt x) (closeCatchUpAhead x) (closeCursorCaughtUp x) attempts (closeRetryAfterSec x)
    (rentReclaimed x) (closeSkipped x) (closeStrandedNeverTerminal x) (closeStrandedStillDelegated x).

Definition catch_up (b : bool) (x : Closing) : Closing :=
  mkClosing (closeCursor x) (closeCursorKnownLiveAt x) b (closeCursorCaughtUp x) (closeAttempts x) (closeRetryAfterSec x)
    (rentReclaimed x) (closeSkipped x) (closeStrandedNeverTerminal x) (closeStrandedStillDelegated x).

Definition caught_up_once (x : Closing) : Closing :=
  mkClosing (closeCursor x) (closeCursorKnownLiveAt x) false true (closeAttempts x) (closeRetryAfterSec x)
    (rentReclaimed x) (closeSkipped x) (closeStrandedNeverTerminal x) (closeStrandedStillDelegated x).

Definition seen_alive (n : Z) (x : Closing) : Closing :=
  mkClosing (closeCursor x) (Some n) false (closeCursorCaughtUp x) (closeAttempts x) (closeRetryAfterSec x)
    (rentReclaimed x) (closeSkipped x) (closeStrandedNeverTerminal x) (closeStrandedStillDelegated x).

Definition close_failed (retryAfter : num) (x : Closing) : Closing :=
  mkClosing (closeCursor x) (closeCursorKnownLiveAt x) (closeCatchUpAhead x) (closeCursorCaughtUp x) (closeAttempts x + 1)
    retryAfter (rentReclaimed x) (closeSkipped x) (closeStrandedNeverTerminal x) (closeStrandedStillDelegated x).

Definition reclaimed_one (x : Closing) : Closing :=
  mkClosing (closeCursor x) (closeCursorKnownLiveAt x) (closeCatchUpAhead x) (closeCursorCaughtUp x) (closeAttempts x)
    (closeRetryAfterSec x) (rentReclaimed x + 1) (closeSkipped x) (closeStrandedNeverTerminal x)
    (closeStrandedStillDelegated x).

Definition with_ledgers (skipped never still : CloseLossLedger) (x : Closing) : Closing :=
  mkClosing (closeCursor x) (closeCursorKnownLiveAt x) (closeCatchUpAhead x) (closeCursorCaughtUp x) (closeAttempts x)
    (closeRetryAfterSec x) (rentReclaimed x) skipped never still.

Definition lose_skipped (n : Z) (x : Closing) : Closing :=
  with_ledgers (recordCloseLoss (closeSkipped x) n) (closeStrandedNeverTerminal x) (closeStrandedStillDelegated x) x.

Definition lose_stranded (because : AdvanceReason) (n : Z) (x : Closing) : Closing :=
  match because with
  | never_terminal =>
      with_ledgers (closeSkipped x) (recordCloseLoss (closeStrandedNeverTerminal x) n) (closeStrandedStillDelegated x) x
  | still_delegated =>
      with_ledgers (closeSkipped x) (closeStrandedNeverTerminal x) (recordCloseLoss (closeStrandedStillDelegated x) n) x
  | already_closed => x
  end.

(** [BigInt(ROUND_RETENTION)]: a whole number in every configuration that boots. *)
Definition retention (c : Config) : Z := match to_bigint (ROUND_RETENTION c) with Done z => z | Throw _ => 0 end.

Section Closer.
Context {W E : Type} `{!ChainClient W E} (c : Config) (k : Knobs).
Open Scope keeper_scope.

Definition sweepHouseTake (st : KeeperChainState) (r : RoundAccount) : K W E unit :=
  let* x := get in
  if negb (houseTakeSweep (features x)) then kret tt else
  if negb (r_houseSwept r =? 0) then kret tt else
  if negb (bool_decide (roundDelegated st = Some false)) then kret tt else
  if ltb (st_nowSec st) (sweepRetryAfterSec (timeline x)) then kret tt else
  kcatch
    (let* there := call treasuryExists in
     if negb there then let* _sent := sending init_treasury in kret tt else
     let* _sent := sending (sweep_house_take (r_roundNo r)) in
     kret tt)
    (fun _ =>
       onTimeline (sweep_retry (add (st_nowSec st) (of_Z SWEEP_RETRY_SECONDS)));;
       emit (LastError (Some take_sweep))).

(** The scan of one idle pass: one batch, no deadline. *)
Definition ahead_opts (cur through : Z) : CloseCursorScanOptions W E :=
  mkOpts cur through roundsExist date_now (Inf false) 1 None.

(** The scan as a call of the world; it always returns ([find_good]). *)
Definition scanning (opts : CloseCursorScanOptions W E) : K W E (CloseCursorScan E) :=
  call_total (fun w => default (scan_done opts (of_Z 0) (from opts) deadline 0 None w) (findOldestLivingRound opts w)).

Definition skipClosedRoundsAhead (st : KeeperChainState) : K W E unit :=
  let* x := get in
  let cur := closeCursor (closing_ x) in
  let through := st_roundCounter st - retention c in
  if negb (probeIsWorthARead cur (closeCursorKnownLiveAt (closing_ x)) through CLOSE_CURSOR_PROBE_BATCH) then kret tt else
  let* scan := scanning (ahead_opts cur through) in
  if bool_decide (stoppedBecause scan = failed) then kret tt else
  when catchUpAhead scan do onClosing (catch_up true);;
  if cursor scan =? cur then kret tt else
  onClosing (fun x => cursor_at (cursor scan) (closeAttempts x) x).

(** The loss ledgers and cursor after an [advance]. *)
Definition advancePast (because : AdvanceReason) (roundNo : Z) : K W E unit :=
  onClosing (lose_stranded because roundNo);;
  onClosing (fun x => cursor_at (closeCursor x + 1) 0 x).

Definition closeIt (st : KeeperChainState) (roundNo : Z) : K W E unit :=
  kcatch
    (let* sent := sending (close_round_account roundNo) in
     when sent do onClosing reclaimed_one;;
     onClosing (fun x => cursor_at (closeCursor x + 1) 0 x))
    (fun _ =>
       onClosing (close_failed (add (st_nowSec st) (CLOSE_RETRY_SECONDS k)));;
       let* x := get in
       when CLOSE_ATTEMPTS_PER_ROUND <=? closeAttempts (closing_ x) do
         (onClosing (lose_skipped roundNo);; onClosing (fun x => cursor_at (closeCursor x + 1) 0 x))).

Definition closeOneFinishedRound (st : KeeperChainState) : K W E unit :=
  let* x := get in
  if negb (closeRounds (options x)) || negb (roundAccountClose (features x)) then kret tt else
  if negb (housekeepingIsWelcome (r_phase <$> st_round st)) then kret tt else
  if ltb (st_nowSec st) (closeRetryAfterSec (closing_ x)) then kret tt else
  skipClosedRoundsAhead st;;
  let* x := get in
  if negb (isPastRetention (closeCursor (closing_ x)) (st_roundCounter st) (retention c))
  then onClosing caught_up_once else
  let roundNo := closeCursor (closing_ x) in
  let* round := call (fetchRound roundNo) in
  when present round do onClosing (seen_alive roundNo);;
  let* delegated := (if present round then call (isDelegated roundNo) else kret false) in
  match decideClose (mkCandidate ((fun r => (r_phase r, negb (r_houseSwept r =? 0))) <$> round) delegated), round with
  | advance because, _ => advancePast because roundNo
  | sweep_first, Some r => sweepHouseTake st r
  | sweep_first, None => kret tt
  | CloseIt, _ => closeIt st roundNo
  end.

Definition pollTreasury (st : KeeperChainState) : K W E unit :=
  let* x := get in
  if negb (houseTakeSweep (features x)) then kret tt else
  if ltb (st_nowSec st) (add (treasuryPolledAtSec x) (TREASURY_POLL_SECONDS k)) then kret tt else
  put (fun x => with_treasury x (treasury x) (st_nowSec st));;
  kcatch
    (let* swept := call fetchTreasury in
     put (fun x => with_treasury x (Some (mkArena (of_Z (st_roundCounter st)) swept (st_nowSec st))) (treasuryPolledAtSec x)))
    (fun _ => kret tt).

(** Where the cursor starts: its place, what is known alive there, and whether
    a walk over closed rounds lies ahead. *)
Definition seedCloseCursor (roundCounter : Z) (o : KeeperCliOptions) (f : ProgramFeatures) : K W E Closing :=
  if negb (closeRounds o) || negb (roundAccountClose f) then kret (seededClosing 1 None false) else
  let* scan := scanning (mkOpts 1 (roundCounter - retention c) roundsExist date_now
    (of_Z (CLOSE_CURSOR_SCAN_SECONDS * 1000)) CLOSE_CURSOR_SCAN_MAX_BATCHES None) in
  kret (seededClosing (cursor scan) (if bool_decide (stoppedBecause scan = found) then Some (cursor scan) else None)
    (catchUpAhead scan)).
End Closer.

(** ** The books *)

(** What became of a round the cursor has passed and that was still there. *)
Inductive Fate : Type := reclaimed | gave_up | stranded_live | stranded_delegated.

#[global] Instance Fate_eq_dec : EqDecision Fate.
Proof. solve_decision. Defined.

(** The rounds of one fate, oldest first. *)
Definition fated (f : Fate) (es : list (Fate * Z)) : list Z := snd <$> base.filter (fun p => fst p = f) es.

Lemma fated_app f es es' : fated f (es ++ es') = fated f es ++ fated f es'.
Proof. unfold fated. by rewrite filter_app, fmap_app. Qed.

Lemma fated_one f g n : fated f [(g, n)] = if decide (g = f) then [n] else [].
Proof. unfold fated. rewrite filter_cons. cbn [fst]. by case_decide. Qed.

Lemma ledger_of_app ns n : ledger_of (ns ++ [n]) = recordCloseLoss (ledger_of ns) n.
Proof. unfold ledger_of. by rewrite foldl_app. Qed.

(** The books of a closer that started at [start]: [es] are the rounds it met,
    in order, each once; every other round below the cursor is [dead], and the
    four counters are what the entries say. *)
Record books (start : Z) (dead : Z -> Prop) (es : list (Fate * Z)) (x : Closing) : Prop := {
  books_cursor : start <= closeCursor x;
  books_once : NoDup (snd <$> es);
  books_below : Forall (fun p => start <= snd p < closeCursor x) es;
  books_all : forall n, start <= n < closeCursor x -> n ∈ snd <$> es \/ dead n;
  books_reclaimed : rentReclaimed x = Z.of_nat (length (fated reclaimed es));
  books_skipped : closeSkipped x = ledger_of (fated gave_up es);
  books_live : closeStrandedNeverTerminal x = ledger_of (fated stranded_live es);
  books_delegated : closeStrandedStillDelegated x = ledger_of (fated stranded_delegated es);
  books_attempts : 0 <= closeAttempts x < CLOSE_ATTEMPTS_PER_ROUND;
  books_known : 0 < closeAttempts x -> closeCursorKnownLiveAt x = Some (closeCursor x);
}.

Lemma books_seed start dead known ahead : books start dead [] (seededClosing start known ahead).
Proof.
  split; try done; unfold CLOSE_ATTEMPTS_PER_ROUND; cbn; try constructor; try lia.
Qed.

Section Books.
Context (start : Z) (dead : Z -> Prop).

Lemma books_skip n x es :
  books start dead es x -> closeCursor x <= n -> (forall m, closeCursor x <= m < n -> dead m) -> closeAttempts x = 0 ->
  books start dead es (cursor_at n (closeAttempts x) x).
Proof.
  intros [] Hn Hd Ha. split; cbn; try done; try lia.
  - eapply Forall_impl; [eassumption |]. cbn. lia.
  - intros m Hm. destruct (decide (m < closeCursor x)); [apply books_all0 | right; apply Hd]; lia.
Qed.

(** The entry a fate adds to the counters. *)
Definition enter_fate (f : Fate) (n : Z) (x : Closing) : Closing :=
  match f with
  | reclaimed => reclaimed_one x
  | gave_up => lose_skipped n x
  | stranded_live => lose_stranded never_terminal n x
  | stranded_delegated => lose_stranded still_delegated n x
  end.

Lemma books_pass f x es :
  books start dead es x ->
  books start dead (es ++ [(f, closeCursor x)])
    (cursor_at (closeCursor x + 1) 0 (enter_fate f (closeCursor x) x)).
Proof.
  intros []. split; rewrite ?fmap_app, ?fated_app, ?fated_one; cbn [fmap list_fmap snd].
  - cbn. lia.
  - apply NoDup_app. split; [done |]. split; [| apply NoDup_singleton]. intros m Hm ->%list_elem_of_singleton.
    apply list_elem_of_fmap in Hm as (p & Hp & Hin). rewrite Forall_forall in books_below0.
    specialize (books_below0 p Hin). lia.
  - apply Forall_app. split; [| constructor; [cbn; lia | constructor]].
    eapply Forall_impl; [eassumption |]. cbn. lia.
  - cbn. intros m Hm. rewrite elem_of_app, list_elem_of_singleton. destruct (decide (m = closeCursor x)); [tauto |].
    destruct (books_all0 m ltac:(lia)); tauto.
  - destruct f; cbn [decide]; (case_decide; [try discriminate | try congruence]); cbn;
      rewrite ?app_nil_r, ?length_app; cbn; lia.
  - destruct f; (case_decide; [try discriminate | try congruence]); cbn; rewrite ?app_nil_r, ?ledger_of_app; congruence.
  - destruct f; (case_decide; [try discriminate | try congruence]); cbn; rewrite ?app_nil_r, ?ledger_of_app; congruence.
  - destruct f; (case_decide; [try discriminate | try congruence]); cbn; rewrite ?app_nil_r, ?ledger_of_app; congruence.
  - cbn. unfold CLOSE_ATTEMPTS_PER_ROUND. lia.
  - cbn. lia.
Qed.

Lemma books_absent x es :
  books start dead es x -> dead (closeCursor x) -> books start dead es (cursor_at (closeCursor x + 1) 0 x).
Proof.
  intros [] Hd. split; cbn; try done; unfold CLOSE_ATTEMPTS_PER_ROUND; try lia.
  - eapply Forall_impl; [eassumption |]. cbn. lia.
  - intros m Hm. destruct (decide (m = closeCursor x)) as [-> | Hne]; [by right | apply books_all0; lia].
Qed.

Lemma books_catch_up b x es : books start dead es x -> books start dead es (catch_up b x).
Proof. by intros []. Qed.

Lemma books_caught_up x es : books start dead es x -> books start dead es (caught_up_once x).
Proof. by intros []. Qed.

Lemma books_alive x es : books start dead es x -> books start dead es (seen_alive (closeCursor x) x).
Proof. by intros []. Qed.

Lemma books_failed t x es :
  books start dead es x -> closeCursorKnownLiveAt x = Some (closeCursor x) ->
  closeAttempts x + 1 < CLOSE_ATTEMPTS_PER_ROUND -> books start dead es (close_failed t x).
Proof. intros [] Hk Ha. split; cbn; done || lia. Qed.
End Books.

Lemma fated_split es :
  (length (fated reclaimed es) + length (fated gave_up es) + length (fated stranded_live es) +
   length (fated stranded_delegated es))%nat = length es.
Proof.
  induction es as [| [f n] es IH]; [done |]. unfold fated in *. rewrite !filter_cons. cbn [fst].
  destruct f; repeat (case_decide; [try discriminate | try congruence]); csimpl; lia.
Qed.

Lemma books_total start dead es x : books start dead es x ->
  rentReclaimed x + lost (closeSkipped x) + lost (closeStrandedNeverTerminal x) + lost (closeStrandedStillDelegated x)
    = Z.of_nat (length es).
Proof.
  intros Hb. rewrite (books_reclaimed _ _ _ _ Hb), (books_skipped _ _ _ _ Hb), (books_live _ _ _ _ Hb), (books_delegated _ _ _ _ Hb).
  rewrite !(proj2 (ledger_sample _)). pose proof (fated_split es). lia.
Qed.

(** Distinct rounds of a range are no more than the range. *)
Lemma NoDup_range a b (ns : list Z) :
  a <= b -> NoDup ns -> Forall (fun n => a <= n < b) ns -> Z.of_nat (length ns) <= b - a.
Proof.
  intros Hab Hn Hf. rewrite <- (length_fmap (fun n => Z.to_nat (n - a))).
  assert (Hi : NoDup ((fun n => Z.to_nat (n - a)) <$> ns)).
  { apply NoDup_fmap_2_strong; [| done]. intros x y Hx Hy. rewrite Forall_forall in Hf.
    pose proof (Hf x Hx). pose proof (Hf y Hy). cbn in *. lia. }
  assert (Hs : (fun n => Z.to_nat (n - a)) <$> ns ⊆+ seq 0 (Z.to_nat (b - a))).
  { apply NoDup_submseteq; [done |]. intros i Hi'. apply list_elem_of_fmap in Hi' as (n & -> & Hn'). rewrite Forall_forall in Hf.
    specialize (Hf n Hn'). cbn in Hf. apply elem_of_seq. lia. }
  apply submseteq_length in Hs. rewrite length_seq in Hs. lia.
Qed.

Lemma books_length start dead es x : books start dead es x -> Z.of_nat (length es) <= closeCursor x - start.
Proof.
  intros []. rewrite <- (length_fmap snd). apply NoDup_range; [done.. |]. by apply Forall_fmap.
Qed.

Section CloserLaws.
Context {W E : Type} `{!ChainClient W E} (c : Config) (k : Knobs).

(** The chain as the closer may trust it: a round answered absent is gone for
    good ([dead]), and a send that does not throw was sent (no dry run). *)
Record honest (dead : Z -> Prop) : Prop := {
  honest_probe : forall w rounds answer w', roundsExist (E := E) w rounds = (Done answer, w') ->
    forall i r, rounds !! i = Some r -> answer !! i = Some false -> dead r;
  honest_fetch : forall n w w', fetchRound (E := E) n w = (Done None, w') -> dead n;
  real_run : forall t w w', send (E := E) t w <> (Done false, w');
}.

Context (dead : Z -> Prop) (Hhon : honest dead) (start : Z).

Lemma scanning_spec opts s (Q : outcome E (CloseCursorScan E) -> machine W -> Prop) :
  probe opts = roundsExist ->
  (forall r w, scan_good opts dead (fun _ => True) r -> Q (Done r) (mkMachine w (ctx s) (trace s))) ->
  wp (scanning opts) Q s.
Proof.
  intros Hp HQ. apply wp_call_total. intros r w Er.
  assert (Ht : truthful opts dead (fun _ => True)).
  { intros w0 rounds answer w' Ea i n b Hi Hb. destruct b; [done |]. rewrite Hp in Ea.
    eapply (honest_probe dead Hhon); eassumption. }
  destruct (find_good opts dead (fun _ => True) Ht (world s)) as (r' & w' & E1 & Hg). rewrite E1 in Er.
  cbn in Er. injection Er as <- <-. by apply HQ.
Qed.

(** Only the closing part of the context may have changed, and nothing was done. *)
Definition closing_only (s s' : machine W) : Prop :=
  trace s' = trace s /\ exists x, ctx s' = with_closing (ctx s) x.

Lemma closing_only_refl (s s' : machine W) : ctx s' = ctx s -> trace s' = trace s -> closing_only s s'.
Proof. intros H Ht. split; [done |]. exists (closing_ (ctx s)). rewrite H. by destruct (ctx s). Qed.

Lemma skip_spec st es s :
  books start dead es (closing_ (ctx s)) ->
  wp (skipClosedRoundsAhead (E := E) c st)
    (fun r s' => books start dead es (closing_ (ctx s')) /\ closing_only s s') s.
Proof.
  intros Hb. unfold skipClosedRoundsAhead. do 2 wp_step. set (x := closing_ (ctx s)) in *.
  wp_step; [wp_step; split; [done | by apply closing_only_refl] |].
  assert (Ha : closeAttempts x = 0).
  { destruct Hb as [_ _ _ _ _ _ _ _ Ha Hk]. unfold probeIsWorthARead in *. apply negb_false_iff in Heqb.
    case_bool_decide; [discriminate |]. destruct (decide (0 < closeAttempts x)) as [Hp |]; [by apply Hk in Hp | lia]. }
  wp_step. apply scanning_spec; [done |]. intros r w (Hc & Hd & _). cbn [from ahead_opts] in Hc, Hd.
  wp_step; [wp_step; split; [done | by apply closing_only_refl] |].
  assert (Hahead : wp (W := W) (E := E) (when catchUpAhead r do onClosing (catch_up true))%keeper
    (fun o s' => o = Done tt /\ trace s' = trace s /\ exists b, ctx s' = with_closing (ctx s) (catch_up b x))
    (mkMachine w (ctx s) (trace s))).
  { wp_step; wp_step; split_and!; try done; [by exists true | exists (closeCatchUpAhead x)]. cbn.
    unfold x. by destruct (ctx s) as [? ? ? ? ? ? []]. }
  wp_step. eapply wp_mono; [exact Hahead |]. intros o s' (-> & Et & b & Ex). cbn [fst]. destruct (cursor r =? closeCursor x) eqn:Ec.
  - apply wp_ret. rewrite Ex. split; [by apply books_catch_up | split; [done | by eexists]].
  - apply wp_put. cbn. rewrite Ex. cbn. split; [| split; [done | by eexists]].
    apply (books_skip start dead (cursor r) (catch_up b x) es); cbn; [by apply books_catch_up | lia | | done].
    intros m Hm. apply Hd. lia.
Qed.

Definition is_close (e : Effect) : bool := match e with Sending (close_round_account _) => true | _ => false end.

(** The closes among the effects of a pass. *)
Definition closes (l : list Effect) : list Effect := List.filter is_close l.

(** What the chain had just answered about a round the pass closes. *)
Record close_gates (st : KeeperChainState) (n : Z) : Prop := {
  gate_retention : n + retention c <= st_roundCounter st;
  gate_phase : (r_phase <$> st_round st) <> Some Phase_Drawing /\ (r_phase <$> st_round st) <> Some Phase_Fight;
  gate_round : exists w r w' w'', fetchRound (E := E) n w = (Done (Some r), w') /\
    (r_phase r = Phase_Settled \/ r_phase r = Phase_Abandoned) /\ r_houseSwept r <> 0 /\
    isDelegated (E := E) n w' = (Done false, w'');
}.

(** A pass keeps the books and sends at most one close, through its gates. *)
Definition pass_ok (st : KeeperChainState) (es : list (Fate * Z)) (s s' : machine W) : Prop :=
  (exists es', books start dead (es ++ es') (closing_ (ctx s'))) /\
  exists l, trace s' = trace s ++ l /\
    (closes l = [] \/ exists n, closes l = [Sending (close_round_account n)] /\ close_gates st n).

Lemma pass_ok_quiet st es s s' :
  books start dead es (closing_ (ctx s')) -> trace s' = trace s -> pass_ok st es s s'.
Proof.
  intros Hb Ht. split; [exists []; by rewrite app_nil_r |]. exists []. rewrite app_nil_r. split; [done | by left].
Qed.

Lemma pass_ok_books st es es' s s' l :
  books start dead (es ++ es') (closing_ (ctx s')) -> trace s' = trace s ++ l -> closes l = [] -> pass_ok st es s s'.
Proof. intros Hb Ht Hl. split; [by exists es' |]. exists l. split; [done | by left]. Qed.

Lemma pass_ok_from st es s s1 s' : trace s1 = trace s -> pass_ok st es s1 s' -> pass_ok st es s s'.
Proof. intros E1. unfold pass_ok. by rewrite E1. Qed.

Definition same_closing (s s' : machine W) : Prop :=
  closing_ (ctx s') = closing_ (ctx s) /\ exists l, trace s' = trace s ++ l /\ closes l = [].

#[local] Instance same_closing_preorder : PreOrder same_closing.
Proof.
  split.
  - intros s. split; [done |]. exists []. by rewrite app_nil_r.
  - intros s1 s2 s3 [A (l & E1 & H1)] [B (l' & E2 & H2)]. split; [congruence |]. exists (l ++ l').
    split; [by rewrite E2, E1, app_assoc |]. unfold closes in *. by rewrite List.filter_app, H1, H2.
Qed.

Lemma sweep_take_closing st r : respects same_closing (sweepHouseTake (W := W) (E := E) st r).
Proof.
  unfold sweepHouseTake. repeat respects_step; (split; [done |]);
    first [by exists []; rewrite app_nil_r | eexists; split; reflexivity].
Qed.

Lemma close_it_spec st es s n :
  books start dead es (closing_ (ctx s)) -> n = closeCursor (closing_ (ctx s)) ->
  closeCursorKnownLiveAt (closing_ (ctx s)) = Some n -> close_gates st n ->
  wp (closeIt (E := E) k st n) (fun _ s' => pass_ok st es s s') s.
Proof.
  intros Hb -> Hk Hg. unfold closeIt. wp_step. wp_step. unfold sending. do 2 wp_step. apply wp_call.
  intros r w Er. set (x := closing_ (ctx s)) in *.
  assert (G : forall es' s', books start dead (es ++ es') (closing_ (ctx s')) ->
    trace s' = trace s ++ [Sending (close_round_account (closeCursor x))] -> pass_ok st es s s').
  { intros es' s' Hb' Et. split; [by exists es' |]. eexists. split; [exact Et |]. right. by exists (closeCursor x). }
  destruct r as [[|] | e]; [| by apply (real_run dead Hhon) in Er |].
  - repeat wp_step. apply (G [(reclaimed, closeCursor x)]); [| done]. apply (books_pass start dead reclaimed x es Hb).
  - repeat wp_step.
    + apply (G [(gave_up, closeCursor x)]); [| done].
      pose proof (books_pass start dead gave_up x es Hb) as Hp. destruct Hp. split; done.
    + apply (G []); [| done]. rewrite app_nil_r. apply books_failed; [done.. |]. cbn in *. lia.
Qed.

Lemma close_one_spec st es s :
  books start dead es (closing_ (ctx s)) ->
  wp (closeOneFinishedRound (E := E) c k st) (fun _ s' => pass_ok st es s s') s.
Proof.
  intros Hb. unfold closeOneFinishedRound. do 2 wp_step.
  wp_step; [by wp_step; apply pass_ok_quiet |]. wp_step; [by wp_step; apply pass_ok_quiet |]. rename Heqb0 into Hwelcome.
  wp_step; [by wp_step; apply pass_ok_quiet |]. wp_step.
  eapply wp_mono; [apply (skip_spec st es s Hb) |]. intros r s1 (Hb1 & Et1 & x1 & Ex1).
  destruct r as [u | e]; [| by apply pass_ok_quiet]. do 2 wp_step.
  wp_step; [wp_step; apply pass_ok_quiet; [by apply books_caught_up | done] |]. rename Heqb1 into Hret.
  set (n := closeCursor (closing_ (ctx s1))) in *. wp_step. apply wp_call. intros o w1 Ef.
  destruct o as [[r |] | e]; cbn [present]; [| | by apply pass_ok_quiet].
  - do 3 wp_step. apply wp_call. intros d w2 Ed. cbn [world] in Ed.
    destruct d as [d | e]; [| apply pass_ok_quiet; [by apply books_alive | done]].
    unfold decideClose. cbn [fmap option_fmap option_map round delegated].
    destruct (negb (r_phase r =? Phase_Settled) && negb (r_phase r =? Phase_Abandoned)) eqn:Eph; [| destruct d].
    + repeat wp_step. eapply (pass_ok_books st es [(stranded_live, n)] _ _ []);
        [| cbn; by rewrite app_nil_r | done]. apply (books_pass start dead stranded_live _ es (books_alive start dead _ es Hb1)).
    + repeat wp_step. eapply (pass_ok_books st es [(stranded_delegated, n)] _ _ []);
        [| cbn; by rewrite app_nil_r | done].
      apply (books_pass start dead stranded_delegated _ es (books_alive start dead _ es Hb1)).
    + destruct (r_houseSwept r =? 0) eqn:Esw; cbn [negb].
      * eapply wp_respects; [apply sweep_take_closing |]. intros r' s' (Ec & l & El & Hl). cbn [ctx trace] in *.
        eapply (pass_ok_books st es [] _ _ l); [| by rewrite El, Et1 | done]. rewrite app_nil_r, Ec.
        by apply books_alive.
      * set (s2 := mkMachine w2 _ _). eapply wp_mono; [apply (close_it_spec st es s2 n); [by apply books_alive | done.. |] |].
        -- split.
           ++ unfold isPastRetention in Hret. apply negb_false_iff, Z.leb_le in Hret. exact Hret.
           ++ unfold housekeepingIsWelcome in Hwelcome. zbool. done.
           ++ exists (world s1), r, w1, w2. zbool. split_and!; try done.
              apply andb_false_iff in Eph as [Eph | Eph]; apply negb_false_iff, Z.eqb_eq in Eph; auto.
        -- intros r' s'. by apply pass_ok_from.
  - do 4 wp_step. cbn [decideClose round fmap option_fmap option_map]. repeat wp_step.
    apply pass_ok_quiet; [| done]. cbn. apply books_absent; [done |]. eapply (honest_fetch dead Hhon); eassumption.
Qed.
End CloserLaws.

(** ** A run of the closer *)

(** Passes of the closer, with whatever the rest of the keeper does between
    them: nothing else writes the closing part of the context. *)
Inductive closer_run {W E} `{!ChainClient W E} (c : Config) (k : Knobs) : machine W -> machine W -> Prop :=
| run_start s : closer_run c k s s
| run_pass s s' st : closer_run c k s s' -> closer_run c k s (snd (closeOneFinishedRound (E := E) c k st s'))
| run_other s s' s'' : closer_run c k s s' -> closing_ (ctx s'') = closing_ (ctx s') -> closer_run c k s s''.

(** The books of a run. *)
Lemma closer_books {W E} `{!ChainClient W E} c k dead (s s' : machine W) start known ahead :
  honest (E := E) dead -> closing_ (ctx s) = seededClosing start known ahead -> closer_run (E := E) c k s s' ->
  let x := closing_ (ctx s') in
  exists es, books start dead es x /\
    rentReclaimed x + lost (closeSkipped x) + lost (closeStrandedNeverTerminal x) + lost (closeStrandedStillDelegated x)
      = Z.of_nat (length es) /\
    Z.of_nat (length es) <= closeCursor x - start /\
    sample (closeSkipped x) = last_n CLOSE_LOSS_SAMPLE (fated gave_up es).
Proof.
  intros Hh Hs Hr x. assert (H : exists es, books start dead es x).
  { subst x. induction Hr as [s | s s' st Hr IH | s s' s'' Hr IH Ec].
    - exists []. rewrite Hs. apply books_seed.
    - destruct (IH Hs) as [es Hb]. destruct (close_one_spec c k dead Hh start st es s' Hb) as [[es' Hb'] _].
      by exists (es ++ es').
    - rewrite Ec. by apply IH. }
  destruct H as [es Hb]. exists es. split; [done |].
  split; [by apply (books_total start dead) | split; [by apply (books_length start dead) |]].
  rewrite (books_skipped _ _ _ _ Hb). apply ledger_sample.
Qed.

(** A round's account is closed only when it may be.  A pass sends at most
    one [close_round_account]; when it does, at least the retention window has
    been opened since, no draw or fight is running, and the chain has just
    answered that this round is settled or abandoned, swept, and home on the
    base layer. *)
Theorem close_needs_every_gate {W E} `{!ChainClient W E} c k dead st start es (s : machine W) :
  honest (E := E) dead -> books start dead es (closing_ (ctx s)) ->
  exists l, trace (snd (closeOneFinishedRound (E := E) c k st s)) = trace s ++ l /\
    (closes l = [] \/ exists n, closes l = [Sending (close_round_account n)] /\ close_gates (E := E) c st n).
Proof. intros Hh Hb. apply (close_one_spec c k dead Hh start st es s Hb). Qed.

(** A backlog round is not swept while the newest round is delegated.  The
    closer finds the round under its cursor finished, home and unswept, and
    hands it to [sweepHouseTake]; but that function asks whether the newest
    round is home.  While it is not, as in every lobby, the pass sends nothing
    and leaves the cursor, so the account stays unclosed. *)
Theorem backlog_sweep_waits_for_newest {W E} `{!ChainClient W E} c k st (s : machine W) r w' w'' :
  roundDelegated st <> Some false ->
  closeRounds (options (ctx s)) = true -> roundAccountClose (features (ctx s)) = true ->
  housekeepingIsWelcome (r_phase <$> st_round st) = true ->
  ltb (st_nowSec st) (closeRetryAfterSec (closing_ (ctx s))) = false ->
  closeCursorKnownLiveAt (closing_ (ctx s)) = Some (closeCursor (closing_ (ctx s))) ->
  closeCursor (closing_ (ctx s)) + retention c <= st_roundCounter st ->
  fetchRound (E := E) (closeCursor (closing_ (ctx s))) (world s) = (Done (Some r), w') ->
  isDelegated (E := E) (closeCursor (closing_ (ctx s))) w' = (Done false, w'') ->
  r_phase r = Phase_Settled \/ r_phase r = Phase_Abandoned -> r_houseSwept r = 0 ->
  let s' := snd (closeOneFinishedRound (E := E) c k st s) in
  trace s' = trace s /\ closeCursor (closing_ (ctx s')) = closeCursor (closing_ (ctx s)) /\
  rentReclaimed (closing_ (ctx s')) = rentReclaimed (closing_ (ctx s)).
Proof.
  intros Hd Ho Hf Hw Ht Hk Hr Ef Ed Hph Hsw s'. subst s'.
  change (wp (closeOneFinishedRound (E := E) c k st) (fun _ s' => trace s' = trace s /\
    closeCursor (closing_ (ctx s')) = closeCursor (closing_ (ctx s)) /\
    rentReclaimed (closing_ (ctx s')) = rentReclaimed (closing_ (ctx s))) s).
  unfold closeOneFinishedRound. do 2 wp_step. rewrite Ho, Hf, Hw, Ht. cbn [negb orb]. wp_step.
  unfold skipClosedRoundsAhead. do 2 wp_step. unfold probeIsWorthARead. rewrite Hk, bool_decide_true by done.
  cbn [negb]. do 3 wp_step. unfold isPastRetention. rewrite (proj2 (Z.leb_le _ _) Hr). cbn [negb].
  wp_step. apply wp_call. intros o w1 E1. rewrite Ef in E1. injection E1 as <- <-. cbn [present].
  do 3 wp_step. apply wp_call. cbn [world]. intros d w1 E1. rewrite Ed in E1. injection E1 as <- <-.
  cbv beta iota. unfold decideClose. cbn [fmap option_fmap option_map round delegated]. rewrite Hsw.
  assert (Hp : negb (r_phase r =? Phase_Settled) && negb (r_phase r =? Phase_Abandoned) = false)
    by (destruct Hph as [-> | ->]; reflexivity).
  rewrite Hp. cbn [Z.eqb negb]. unfold sweepHouseTake. do 2 wp_step. rewrite Hsw, (bool_decide_false _ Hd). cbn [Z.eqb negb].
  wp_step; by wp_step.
Qed.

(** ** A small chain *)

Definition past_round (n phase swept : Z) : RoundAccount :=
  mkAccount n phase (of_Z 0) (of_Z 0) (of_Z 0) 2 [] swept.

(** Rounds one to three are gone, four never ended, the rest are settled and
    home; every round from nine on is still unswept. *)
Definition backlog (n : Z) : option RoundAccount :=
  if n <=? 3 then None else Some (past_round n (if n =? 4 then Phase_Drawing else Phase_Settled) (if n <=? 8 then 1 else 0)).

(** A chain with that backlog, read as [st], where every third send is refused;
    the world counts the sends. *)
Definition chain_client (st : outcome unit KeeperChainState) : ChainClient Z unit := {|
  nowSec := fun w => (of_Z 1700000000, w);
  date_now := fun w => (of_Z 1700000000000, w);
  readChainState := fun w => (st, w);
  fetchRound := fun n w => (Done (backlog n), w);
  roundsExist := fun w ns => (Done (map (Z.leb 4) ns), w);
  send := fun _ w => (if w mod 3 =? 2 then Throw tt else Done true, w + 1);
  balance := fun w => (Done (of_Z 1000000000), w);
  treasuryExists := fun w => (Done true, w);
  fetchTreasury := fun w => (Done None, w);
  isDelegated := fun _ w => (Done false, w);
  roundValidatorFqdn := fun _ w => (Done tt, w);
  routerSaysDelegated := fun _ w => (Done false, w);
  waitForDelegation := fun _ w => (Done true, w);
  waitForUndelegation := fun _ w => (Done true, w);
  topUpHouse := fun w => (Done tt, w);
  fightNotOverYet := fun _ => false;
  thrown := fun _ => tt;
  unknownPhase := fun _ => tt;
|}.

#[local] Instance backlog_client : ChainClient Z unit := chain_client (Throw tt).

Lemma backlog_honest st : honest (ChainClient0 := chain_client st) (fun n => n <= 3).
Proof.
  split; cbn.
  - intros w rounds answer w' [= <- _] i r Hr Hb. rewrite list_lookup_fmap, Hr in Hb. injection Hb as Hb.
    apply Z.leb_gt in Hb. lia.
  - intros n w w' [= Hn _]. unfold backlog in Hn. destruct (Z.leb_spec n 3); [done | discriminate].
  - intros t w w' [=]. by destruct (w mod 3 =? 2).
Qed.

(** The newest round is an open lobby, delegated, number thirty. *)
Definition lobby_state (now : Z) : KeeperChainState :=
  mkChainState (of_Z now) true 30 (Some (past_round 30 Phase_Lobby 0)) (Some true).

Definition backlog_knobs : Knobs := mkKnobs (of_Z 12) (of_Z 3) (of_Z 90) (of_Z 30) (of_Z 30) (of_Z 300000000).

Definition backlog_start : machine Z :=
  mkMachine 0 (freshContext (mkOptions true false true false None) (mkFeatures true true) (mkBank [] []) None 1 None false) [].

Lemma close_needs_every_gate_witness :
  exists l, trace (snd (closeOneFinishedRound default_config backlog_knobs (lobby_state 1700000000) backlog_start)) = [] ++ l /\
    (closes l = [] \/ exists n, closes l = [Sending (close_round_account n)] /\
       close_gates (W := Z) (E := unit) default_config (lobby_state 1700000000) n).
Proof.
  apply (close_needs_every_gate default_config backlog_knobs (fun n => n <= 3) (lobby_state 1700000000) 1 [] backlog_start).
  - exact (backlog_honest (Throw tt)).
  - apply books_seed.
Defined.

(** The keeper whose cursor has reached an unswept round. *)
Definition unswept_keeper : machine Z := mkMachine 0 (with_closing (ctx backlog_start) (seededClosing 9 (Some 9) false)) [].

Lemma backlog_sweep_waits_for_newest_witness :
  let s' := snd (closeOneFinishedRound default_config backlog_knobs (lobby_state 1700000000) unswept_keeper) in
  trace s' = [] /\ closeCursor (closing_ (ctx s')) = 9 /\ rentReclaimed (closing_ (ctx s')) = 0.
Proof.
  apply (backlog_sweep_waits_for_newest default_config backlog_knobs (lobby_state 1700000000) unswept_keeper
    (past_round 9 Phase_Settled 0) 0 0); try reflexivity.
  - discriminate.
  - vm_compute. discriminate.
  - by left.
Defined.
