(* ===== verification/KeeperDrive.v ===== *)
(** * Driving a round, one step a pass

    The phase machine of [er-demo/scripts/keeper/keeper.ts] ([driveOneStep] and
    the functions under it) and the pass of its main loop.  Log lines are left
    out, and with them the two latches that only pace them. *)
From S2P Require Import Prelude JsNum ErSim Chain KeeperConfig HouseSizing HouseBank LobbyPolicy Closer Reclamation.
From S2P Require Import KeeperState KeeperChain KeeperOpen KeeperCloser.

(** ** What a step writes on the timeline *)

Definition first_real_at (t : num) (l : RoundTimeline) : RoundTimeline :=
  mkTimeline (tl_roundNo l) (drawRequestedAtMs l) (fightObservedAtMs l) (settledObservedAtSec l)
    (abandonedObservedAtSec l) (Some t) (operatorLamportsAtOpen l) (houseRetryAfterSec l) (sweepRetryAfterSec l)
    (scheduleCloseRetryAfter l) (completedCounted l).

Definition house_retry (t : num) (l : RoundTimeline) : RoundTimeline :=
  mkTimeline (tl_roundNo l) (drawRequestedAtMs l) (fightObservedAtMs l) (settledObservedAtSec l)
    (abandonedObservedAtSec l) (firstRealEntryObservedAt l) (operatorLamportsAtOpen l) t (sweepRetryAfterSec l)
    (scheduleCloseRetryAfter l) (completedCounted l).

Definition draw_requested (t : num) (l : RoundTimeline) : RoundTimeline :=
  mkTimeline (tl_roundNo l) (Some t) (fightObservedAtMs l) (settledObservedAtSec l) (abandonedObservedAtSec l)
    (firstRealEntryObservedAt l) (operatorLamportsAtOpen l) (houseRetryAfterSec l) (sweepRetryAfterSec l)
    (scheduleCloseRetryAfter l) (completedCounted l).

Definition schedule_retry (t : num) (l : RoundTimeline) : RoundTimeline :=
  mkTimeline (tl_roundNo l) (drawRequestedAtMs l) (fightObservedAtMs l) (settledObservedAtSec l)
    (abandonedObservedAtSec l) (firstRealEntryObservedAt l) (operatorLamportsAtOpen l) (houseRetryAfterSec l)
    (sweepRetryAfterSec l) t (completedCounted l).

Definition abandoned_at (t : num) (l : RoundTimeline) : RoundTimeline :=
  mkTimeline (tl_roundNo l) (drawRequestedAtMs l) (fightObservedAtMs l) (settledObservedAtSec l) (Some t)
    (firstRealEntryObservedAt l) (operatorLamportsAtOpen l) (houseRetryAfterSec l) (sweepRetryAfterSec l)
    (scheduleCloseRetryAfter l) (completedCounted l).

Definition fight_observed (t : num) (l : RoundTimeline) : RoundTimeline :=
  mkTimeline (tl_roundNo l) (drawRequestedAtMs l) (Some t) (settledObservedAtSec l) (abandonedObservedAtSec l)
    (firstRealEntryObservedAt l) (operatorLamportsAtOpen l) (houseRetryAfterSec l) (sweepRetryAfterSec l)
    (scheduleCloseRetryAfter l) (completedCounted l).

Definition settled_at (t : num) (l : RoundTimeline) : RoundTimeline :=
  mkTimeline (tl_roundNo l) (drawRequestedAtMs l) (fightObservedAtMs l) (Some t) (abandonedObservedAtSec l)
    (firstRealEntryObservedAt l) (operatorLamportsAtOpen l) (houseRetryAfterSec l) (sweepRetryAfterSec l)
    (scheduleCloseRetryAfter l) (completedCounted l).

Definition counted (l : RoundTimeline) : RoundTimeline :=
  mkTimeline (tl_roundNo l) (drawRequestedAtMs l) (fightObservedAtMs l) (settledObservedAtSec l)
    (abandonedObservedAtSec l) (firstRealEntryObservedAt l) (operatorLamportsAtOpen l) (houseRetryAfterSec l)
    (sweepRetryAfterSec l) (scheduleCloseRetryAfter l) true.

(** ** The fight *)

(** A seat of the fight: its side, and whether it fell. *)
Definition standing_on (p : Z -> bool) (r : RoundAccount) : Z :=
  zsum (fun f => if (snd f =? 0) && p (raw_side (fst f)) then 1 else 0)
    (take (Z.to_nat (r_fighterCount r)) (r_seats r)).

Definition fightIsOver (r : RoundAccount) : bool :=
  (standing_on (Z.eqb 0) r =? 0) || (standing_on (fun s => negb (s =? 0)) r =? 0).

Section Drive.
Context {W E : Type} `{!ChainClient W E} (c : Config) (k : Knobs).
Open Scope keeper_scope.

(** ** Lobby *)

(** [enterHouseFighters]: how many entries failed and how many were dropped.
    The sends are concurrent in the code; each checks the clock, then sends. *)
Fixpoint enterHouseFighters (drawAt : num) (entries : list HouseEntry) : K W E (Z * Z) :=
  match entries with
  | [] => kret (0, 0)
  | entry :: entries =>
      let* now := clock in
      if leb (sub drawAt now) (of_Z CLOCK_SKEW_MARGIN_SECONDS) then
        let* rest := enterHouseFighters drawAt entries in
        kret (fst rest, snd rest + 1)
      else
        let* landed := kcatch (let* _sent := sending (enter_house entry) in kret true) (fun _ => kret false) in
        let* rest := enterHouseFighters drawAt entries in
        kret (if landed then fst rest else fst rest + 1, snd rest)
  end.

(** A throw of the language inside the keeper's own code. *)
Definition lift {A} (o : outcome js_error A) : K W E A :=
  match o with Done a => kret a | Throw e => kthrow (thrown e) end.

Definition fieldHouseFighters (st : KeeperChainState) (r : RoundAccount) (plan : LobbyPlan) : K W E unit :=
  let* x := get in
  if ltb (st_nowSec st) (houseRetryAfterSec (timeline x)) then kret tt else
  let* planned := lift (plannedHouseEntries c (bank x) (roster r) (st_roundCounter st) (st_nowSec st)
                          (mkLobbyView (drawAt plan) (ctx_emptyRoom x))) in
  match entries planned with
  | [] => kret tt
  | es =>
      let* result := enterHouseFighters (drawAt plan) es in
      if 0 <? fst result + snd result then
        when 0 <? fst result do
          onTimeline (house_retry (add (st_nowSec st) (of_Z HOUSE_ENTRY_RETRY_SECONDS)));;
        emit (LastError (Some entry_fill))
      else kret tt
  end.

Definition drawSeed (r : RoundAccount) (authority : bool) : K W E unit :=
  let* _fqdn := call (roundValidatorFqdn (r_roundNo r)) in
  let* sent := sending (close_lobby_and_draw (r_roundNo r) authority) in
  if negb sent then kret tt else
  let* at_ := dateNow in
  onTimeline (draw_requested at_);;
  put (fun x => with_refresh x true).

Definition closeLobbyOntoSchedule (st : KeeperChainState) (r : RoundAccount) : K W E unit :=
  onTimeline (schedule_retry (add (st_nowSec st) (of_Z SCHEDULE_CLOSE_RETRY_SECONDS)));;
  drawSeed r true.

Definition abandonRound (st : KeeperChainState) (r : RoundAccount) : K W E unit :=
  let* sent := sending (abandon_round (r_roundNo r)) in
  if negb sent then kret tt else
  put (fun x => with_counts x (roundsCompleted x) (roundsAbandoned x + 1) (stop x));;
  onTimeline (abandoned_at (st_nowSec st));;
  put (fun x => with_refresh x true);;
  let* _home := call (waitForUndelegation (r_roundNo r)) in
  kret tt.

(** The lobby as its policy sees it. *)
Definition viewOf (x : KeeperContext) (st : KeeperChainState) (r : RoundAccount) : LobbyView :=
  mkView (st_nowSec st) (r_lobbyClosesAt r) (r_fighterCount r) (realCount (classify (bank x) (roster r)))
    (firstRealEntryObservedAt (timeline x)) (opt_holdOpen (options x)) (houseOnlyRounds (options x))
    (scheduleCloseRetryAfter (timeline x)).

Definition driveLobby (st : KeeperChainState) (r : RoundAccount) : K W E unit :=
  emit (NextLobbyOpensAt None);;
  emit (EntriesCloseAt None);;
  if bool_decide (roundDelegated st = Some false) then
    let* saysDelegated := call (routerSaysDelegated (r_roundNo r)) in
    if saysDelegated then kret tt else delegateRound (r_roundNo r)
  else
    let* x := get in
    when (0 <? realCount (classify (bank x) (roster r))) && negb (present (firstRealEntryObservedAt (timeline x))) do
      onTimeline (first_real_at (st_nowSec st));;
    let* x := get in
    let plan := planLobby c (viewOf x st r) in
    emit (EntriesCloseAt (entriesCloseAt plan));;
    match step plan with
    | abandon => abandonRound st r
    | close => drawSeed r false
    | closeEarly => drawSeed r true
    | closeToSchedule => closeLobbyOntoSchedule st r
    | waitForFighters | wait => fieldHouseFighters st r plan
    end.

(** ** Drawing and fight *)

Definition driveDrawing (st : KeeperChainState) (r : RoundAccount) : K W E unit :=
  emit (NextLobbyOpensAt None);;
  if leb (sub (st_nowSec st) (r_lobbyClosesAt r)) (DRAW_TIMEOUT_SECONDS k) then kret tt else
  let* x := get in
  when negb (bool_decide (r_roundNo r ∈ wedgedRounds x)) do
    (put (fun x => with_wedged x (wedgedRounds x ++ [r_roundNo r]));; emit Publish);;
  openNextRound c k (st_roundCounter st + 1).

Fixpoint resolveRound (attempts : nat) (r : RoundAccount) : K W E unit :=
  match attempts with
  | O => kret tt
  | S attempts =>
      kcatch
        (let* sent := sending (resolve_round (r_roundNo r)) in
         when sent do put (fun x => with_refresh x true))
        (fun e =>
           if negb (fightNotOverYet e) then kthrow e
           else match attempts with
                | O => kret tt
                | S _ => emit (Sleep (of_Z RESOLVE_RETRY_WAIT_SECONDS));; resolveRound attempts r
                end)
  end.

Definition driveFight (st : KeeperChainState) (r : RoundAccount) : K W E unit :=
  emit (NextLobbyOpensAt None);;
  let* x := get in
  when negb (present (fightObservedAtMs (timeline x))) do
    (let* at_ := dateNow in onTimeline (fight_observed at_));;
  let elapsed := sub (st_nowSec st) (r_fightStartedAt r) in
  let bellHasRung := leb (of_Z (FIGHT_TIMEOUT_SECONDS + CLOCK_SKEW_MARGIN_SECONDS)) elapsed in
  if fightIsOver r || bellHasRung then resolveRound RESOLVE_RETRY_ATTEMPTS r else
  let backlog := sub (canonicalCursor (r_fightStartedAt r) (r_fighterCount r) (st_nowSec st)) (r_tickCount r) in
  if leb backlog (of_Z 0) then kret tt else
  kcatch (let* _sent := sending (tick_round (r_roundNo r) backlog) in kret tt) (fun _ => kret tt).

(** ** Terminal phases *)

(** [summariseRound], but for its log lines. *)
Definition summariseRound : K W E unit :=
  let* lamportsAfter := call balance in
  onOpening (fun o => mkOpening (lowBalanceSince o) (lowBalanceCheckedAtSec o) (burnSamples o) (lastOpenLamports o)
    (burnStopSince o) (sweepStopSince o) (Some lamportsAfter) (firstOpenAtSec o) (opensObserved o)).

Definition countCompleted : K W E unit :=
  let* x := get in
  if completedCounted (timeline x) then kret tt else
  onTimeline counted;;
  put (fun x => with_counts x (roundsCompleted x + 1) (roundsAbandoned x) (stop x));;
  emit (CompletedCount (roundsCompleted x + 1));;
  summariseRound;;
  match rounds (options x) with
  | Some limit =>
      when limit <=? roundsCompleted x + 1 do
        put (fun x => with_counts x (roundsCompleted x) (roundsAbandoned x) true)
  | None => kret tt
  end.

Definition driveSettled (st : KeeperChainState) (r : RoundAccount) : K W E unit :=
  let* x := get in
  let settled := default (st_nowSec st) (settledObservedAtSec (timeline x)) in
  onTimeline (settled_at settled);;
  let opensAt := add settled (RESULT_HOLD_SECONDS k) in
  emit (NextLobbyOpensAt (Some opensAt));;
  if bool_decide (roundDelegated st = Some true) then
    let* sent := sending (close_round (r_roundNo r)) in
    if negb sent then kret tt else
    let* _home := call (waitForUndelegation (r_roundNo r)) in
    countCompleted
  else
    sweepHouseTake st r;;
    if ltb (st_nowSec st) opensAt then kret tt else openNextRound c k (st_roundCounter st + 1).

Definition driveAbandoned (st : KeeperChainState) (r : RoundAccount) : K W E unit :=
  let* x := get in
  let abandoned := default (st_nowSec st) (abandonedObservedAtSec (timeline x)) in
  onTimeline (abandoned_at abandoned);;
  sweepHouseTake st r;;
  let opensAt := add abandoned (ABANDON_HOLD_SECONDS k) in
  emit (NextLobbyOpensAt (Some opensAt));;
  if ltb (st_nowSec st) opensAt then kret tt else openNextRound c k (st_roundCounter st + 1).

Definition driveOneStep (st : KeeperChainState) : K W E unit :=
  if negb (hasArena st) then let* _sent := sending init_arena in kret tt else
  if st_roundCounter st =? 0 then openNextRound c k 1 else
  match st_round st with
  | None => kret tt
  | Some r =>
      if r_phase r =? Phase_Lobby then driveLobby st r
      else if r_phase r =? Phase_Drawing then driveDrawing st r
      else if r_phase r =? Phase_Fight then driveFight st r
      else if r_phase r =? Phase_Settled then driveSettled st r
      else if r_phase r =? Phase_Abandoned then driveAbandoned st r
      else kthrow (unknownPhase (r_phase r))
  end.

(** ** The main loop *)

(** [publishRoundSnapshot]: the round and whether its lobby is held open. *)
Definition publishRoundSnapshot (st : KeeperChainState) : K W E unit :=
  let* x := get in
  match st_round st with
  | None => emit (RoundSnapshot None)
  | Some r => emit (RoundSnapshot (Some (r, lobbyIsHeldOpen (r_phase r) (viewOf x st r))))
  end.

Definition recordError (what : ErrorContext) : K W E unit :=
  let* _at := clock in
  emit (LastError (Some what));;
  emit Publish.

(** [Math.min(ERROR_BACKOFF_BASE_SECONDS * 2 ** (n - 1), ERROR_BACKOFF_MAX_SECONDS)] *)
Definition backoffSeconds (n : Z) : num :=
  min (mul (of_Z ERROR_BACKOFF_BASE_SECONDS) (of_Z (2 ^ (n - 1)))) (of_Z ERROR_BACKOFF_MAX_SECONDS).

Definition cleanPass : K W E unit :=
  let* st := call readChainState in
  let* x := get in
  when (0 <? st_roundCounter st) && negb (bool_decide (tl_roundNo (timeline x) = Some (st_roundCounter st))) do
    onTimeline (fun _ => freshTimeline (Some (st_roundCounter st)) None);;
  publishRoundSnapshot st;;
  driveOneStep st;;
  let* x := get in
  (if refreshAfterStep x then
     put (fun x => with_refresh x false);;
     let* again := call readChainState in publishRoundSnapshot again
   else
     pollTreasury k st;; closeOneFinishedRound c k st);;
  let* _renderedAt := clock in
  emit Publish;;
  emit PassCompleted;;
  emit (LastError None);;
  emit (StalledSince None).

(** One turn of the loop: the count of consecutive failures after it. *)
Definition loopPass (consecutiveErrors : Z) : K W E Z :=
  kcatch (cleanPass;; kret 0)
    (fun _ =>
       let failures := consecutiveErrors + 1 in
       recordError main_loop;;
       emit PassCompleted;;
       when failures =? STALL_AFTER_CONSECUTIVE_FAILURES do
         (let* at_ := clock in emit (StalledSince (Some at_)));;
       emit Publish;;
       emit (Sleep (backoffSeconds failures));;
       kret failures).

(** At most [fuel] turns of [while (!ctx.stop)]; a signal ends it after any of
    them. *)
Fixpoint mainLoop (fuel : nat) (consecutiveErrors : Z) : K W E Z :=
  match fuel with
  | O => kret consecutiveErrors
  | S fuel =>
      let* x := get in
      if stop x then kret consecutiveErrors else
      let* failures := loopPass consecutiveErrors in
      let* x := get in
      if dryRun (options x) && (failures =? 0) then kret failures else mainLoop fuel failures
  end.
End Drive.

(** ** The recursive steps respect what their operations respect *)

Section DriveRespects.
Context {W E : Type} `{!ChainClient W E} (R : machine W -> machine W -> Prop) `{!PreOrder R}.
Context (R_world : forall s w, R s (mkMachine w (ctx s) (trace s))).

Lemma respects_lift {A} (o : outcome js_error A) : respects R (lift (W := W) (E := E) o).
Proof. unfold lift. repeat respects_step. Qed.

Lemma respects_enter drawAt es :
  (forall s e, e ∈ es -> R s (mkMachine (world s) (ctx s) (trace s ++ [Sending (enter_house e)]))) ->
  respects R (enterHouseFighters (W := W) (E := E) drawAt es).
Proof.
  induction es as [| e es IH]; intros He; cbn [enterHouseFighters]; [by apply respects_ret |].
  assert (IH' : respects R (enterHouseFighters (W := W) (E := E) drawAt es)).
  { apply IH. intros s e' He'. apply He. by right. }
  repeat first [exact IH' | respects_step]; try apply R_world. apply He. by left.
Qed.

Lemma respects_resolve n r :
  (forall s, R s (mkMachine (world s) (ctx s) (trace s ++ [Sending (resolve_round (r_roundNo r))]))) ->
  (forall s t, R s (mkMachine (world s) (ctx s) (trace s ++ [Sleep t]))) ->
  (forall s b, R s (mkMachine (world s) (with_refresh (ctx s) b) (trace s))) ->
  respects R (resolveRound (W := W) (E := E) n r).
Proof.
  intros Hs Hz Hp. induction n as [| n IH]; cbn [resolveRound]; [by apply respects_ret |].
  repeat first [exact IH | respects_step]; auto.
Qed.
End DriveRespects.

(** Decompose the steps of a drive, recursion included. *)
Ltac drive_step :=
  lazymatch goal with
  | |- respects _ (lift _) => apply respects_lift; [apply _]
  | |- respects _ (enterHouseFighters _ _) => apply respects_enter; [apply _ | intros ? ? | intros ? ? ?]
  | |- respects _ (resolveRound _ _) =>
      apply respects_resolve; [apply _ | intros ? ? | intros ? | intros ? ? | intros ? ?]
  | |- _ => respects_step
  end.
