(* ===== verification/KeeperLaws.v ===== *)
(** * Laws of the whole keeper

    Theorems about [KeeperDrive]'s step, pass and main loop, over every client:
    what a step may send in each phase, that the sweep-gap stop is for the life
    of the process, that the closer's books survive whatever the loop does, and
    that no failure ends the loop. *)
From S2P Require Import Prelude JsNum ErSim Chain KeeperConfig HouseSizing HouseBank LobbyPolicy Closer Reclamation.
From S2P Require Import KeeperState KeeperChain KeeperOpen KeeperCloser KeeperDrive.

Section Latch.
Context {W E : Type} `{!ChainClient W E} (c : Config) (k : Knobs).

(** Effects are only added, and none is an open once the sweep stop is set,
    which stays set. *)
Definition latched (s s' : machine W) : Prop :=
  exists l, trace s' = trace s ++ l /\
    (present (sweepStopSince (opening (ctx s))) = true ->
     opens l = [] /\ present (sweepStopSince (opening (ctx s'))) = true).

#[local] Instance latched_preorder : PreOrder latched.
Proof.
  split.
  - intros s. exists []. by rewrite app_nil_r.
  - intros s1 s2 s3 (l & E1 & H1) (l' & E2 & H2). exists (l ++ l'). split; [by rewrite E2, E1, app_assoc |].
    intros P. destruct (H1 P) as [O1 P1]. destruct (H2 P1) as [O2 P2]. by rewrite opens_app, O1, O2.
Qed.

(** The stop is never unset, by anything an open does. *)
Definition stop_kept (s s' : machine W) : Prop :=
  present (sweepStopSince (opening (ctx s))) = true -> present (sweepStopSince (opening (ctx s'))) = true.

#[local] Instance stop_kept_preorder : PreOrder stop_kept.
Proof. split; [intros s P; exact P |]. intros s1 s2 s3 H1 H2 P. auto. Qed.

Lemma delegate_stop n : respects stop_kept (delegateRound (W := W) (E := E) n).
Proof. unfold delegateRound. repeat respects_step; by intros P. Qed.

Lemma open_stop n : respects stop_kept (openNextRound (W := W) (E := E) c k n).
Proof.
  unfold openNextRound, sweepIsKeepingUp, affordsAnotherRound, takeSample, rentIsComingBack, afterOpen.
  repeat first [apply delegate_stop | respects_step]; intros P; exact P || done.
Qed.

Lemma open_latched n : respects latched (openNextRound (W := W) (E := E) c k n).
Proof.
  intros s. destruct (open_gated c k n s) as (l & El & Hl). exists l. split; [done |].
  intros P. split; [| by apply open_stop]. destruct Hl as [? | [_ [[G _] _ _ _]]]; [done |]. by rewrite G in P.
Qed.

Lemma latched_world s w : latched s (mkMachine w (ctx s) (trace s)).
Proof. exists []. by rewrite app_nil_r. Qed.

Lemma latched_emit s e : is_open e = false -> latched s (mkMachine (world s) (ctx s) (trace s ++ [e])).
Proof. intros He. exists [e]. split; [done |]. intros P. unfold opens. cbn. by rewrite He. Qed.

Lemma latched_put s x :
  sweepStopSince (opening x) = sweepStopSince (opening (ctx s)) -> latched s (mkMachine (world s) x (trace s)).
Proof. intros Hx. exists []. rewrite app_nil_r. split; [done |]. cbn. by rewrite Hx. Qed.

Ltac latch :=
  first [apply latched_world | apply latched_emit; reflexivity | apply latched_put; reflexivity | by destruct (ctx _)].

Ltac latch_all :=
  repeat lazymatch goal with |- respects _ (openNextRound _ _ _) => apply open_latched | |- _ => drive_step end; try latch.

Lemma step_latched st : respects latched (driveOneStep (W := W) (E := E) c k st).
Proof.
  unfold driveOneStep, driveLobby, driveDrawing, driveFight, driveSettled, driveAbandoned, delegateRound, abandonRound,
    closeLobbyOntoSchedule, drawSeed, fieldHouseFighters, countCompleted, summariseRound, sweepHouseTake.
  latch_all.
Qed.

Lemma close_one_latched st : respects latched (closeOneFinishedRound (W := W) (E := E) c k st).
Proof.
  unfold closeOneFinishedRound, skipClosedRoundsAhead, advancePast, closeIt, sweepHouseTake, scanning. latch_all.
Qed.

Lemma pass_latched n : respects latched (loopPass (W := W) (E := E) c k n).
Proof.
  unfold loopPass, cleanPass, recordError, publishRoundSnapshot, pollTreasury.
  repeat first [apply step_latched | apply close_one_latched | respects_step]; try latch.
Qed.

Lemma loop_latched fuel n : respects latched (mainLoop (W := W) (E := E) c k fuel n).
Proof.
  revert n. induction fuel as [| fuel IH]; intros n; cbn [mainLoop];
    repeat first [apply pass_latched | apply IH | respects_step].
Qed.
End Latch.

(** ** The closer's part of the loop *)

Section LoopBooks.
Context {W E : Type} `{!ChainClient W E} (c : Config) (k : Knobs).

#[local] Instance closer_run_preorder : PreOrder (closer_run (W := W) (E := E) c k).
Proof.
  split; [intros s; constructor |]. intros s1 s2 s3 H1 H2. revert s1 H1.
  induction H2; intros s1 H1; [done | by apply run_pass, IHcloser_run | eapply run_other; [by apply IHcloser_run | done]].
Qed.

Lemma run_same s s' : closing_ (ctx s') = closing_ (ctx s) -> closer_run (E := E) c k s s'.
Proof. intros Hc. eapply run_other; [constructor | done]. Qed.

Ltac books_all := repeat drive_step; try (apply run_same; reflexivity).

Lemma open_run n : respects (closer_run (E := E) c k) (openNextRound (W := W) (E := E) c k n).
Proof.
  unfold openNextRound, sweepIsKeepingUp, affordsAnotherRound, takeSample, rentIsComingBack, afterOpen, delegateRound.
  books_all.
Qed.

Lemma step_run st : respects (closer_run (E := E) c k) (driveOneStep (W := W) (E := E) c k st).
Proof.
  unfold driveOneStep, driveLobby, driveDrawing, driveFight, driveSettled, driveAbandoned, delegateRound, abandonRound,
    closeLobbyOntoSchedule, drawSeed, fieldHouseFighters, countCompleted, summariseRound, sweepHouseTake.
  repeat lazymatch goal with |- respects _ (openNextRound _ _ _) => apply open_run | |- _ => drive_step end;
    try (apply run_same; reflexivity).
Qed.

Lemma close_one_run st : respects (closer_run (E := E) c k) (closeOneFinishedRound (W := W) (E := E) c k st).
Proof. intros s. apply run_pass. constructor. Qed.

Lemma loop_run fuel n : respects (closer_run (E := E) c k) (mainLoop (W := W) (E := E) c k fuel n).
Proof.
  revert n. induction fuel as [| fuel IH]; intros n; cbn [mainLoop];
  unfold loopPass, cleanPass, recordError, publishRoundSnapshot, pollTreasury;
    repeat lazymatch goal with
    | |- respects _ (driveOneStep _ _ _) => apply step_run
    | |- respects _ (closeOneFinishedRound _ _ _) => apply close_one_run
    | |- respects _ (mainLoop _ _ fuel _) => apply IH
    | |- _ => drive_step
    end; try (apply run_same; reflexivity).
Qed.
End LoopBooks.

(** ** What a step may send *)

(** The context a lobby is planned with: the first real entry is latched first. *)
Definition lobbyContext (x : KeeperContext) (st : KeeperChainState) (r : RoundAccount) : KeeperContext :=
  if (0 <? realCount (classify (bank x) (roster r))) && negb (present (firstRealEntryObservedAt (timeline x)))
  then with_timeline x (first_real_at (st_nowSec st) (timeline x)) else x.

Definition in_phase (st : KeeperChainState) (phase : Z) (r : RoundAccount) : Prop :=
  hasArena st = true /\ st_roundCounter st <> 0 /\ st_round st = Some r /\ r_phase r = phase.

Section Allowed.
Context {W E : Type} `{!ChainClient W E} (c : Config) (k : Knobs).

Definition lobbyPlan (x : KeeperContext) (st : KeeperChainState) (r : RoundAccount) : LobbyPlan :=
  planLobby c (viewOf (lobbyContext x st r) st r).

Definition bellHasRung (st : KeeperChainState) (r : RoundAccount) : bool :=
  leb (of_Z (FIGHT_TIMEOUT_SECONDS + CLOCK_SKEW_MARGIN_SECONDS)) (sub (st_nowSec st) (r_fightStartedAt r)).

(** When round [n] may be opened. *)
Definition opening_allowed (x : KeeperContext) (st : KeeperChainState) (n : Z) : Prop :=
  hasArena st = true /\ n = st_roundCounter st + 1 /\
  (st_roundCounter st = 0 \/
   (exists r, in_phase st Phase_Drawing r /\
      leb (sub (st_nowSec st) (r_lobbyClosesAt r)) (DRAW_TIMEOUT_SECONDS k) = false) \/
   (exists r, in_phase st Phase_Settled r /\ roundDelegated st <> Some true /\
      ltb (st_nowSec st) (add (default (st_nowSec st) (settledObservedAtSec (timeline x))) (RESULT_HOLD_SECONDS k)) = false) \/
   (exists r, in_phase st Phase_Abandoned r /\
      ltb (st_nowSec st) (add (default (st_nowSec st) (abandonedObservedAtSec (timeline x))) (ABANDON_HOLD_SECONDS k)) = false)).

(** When the newest round's take may be swept. *)
Definition sweep_allowed (st : KeeperChainState) (r : RoundAccount) : Prop :=
  (in_phase st Phase_Settled r \/ in_phase st Phase_Abandoned r) /\ roundDelegated st = Some false /\ r_houseSwept r = 0.

Definition phase_allows (x : KeeperContext) (st : KeeperChainState) (t : Transaction) : Prop :=
  match t with
  | init_arena => hasArena st = false
  | open_round n _ => opening_allowed x st n
  | delegate_round n =>
      opening_allowed x st n \/
      exists r, in_phase st Phase_Lobby r /\ roundDelegated st = Some false /\ n = r_roundNo r
  | enter_house e =>
      exists r plan, in_phase st Phase_Lobby r /\ roundDelegated st <> Some false /\
        (step (lobbyPlan x st r) = wait \/ step (lobbyPlan x st r) = waitForFighters) /\
        plannedHouseEntries c (bank x) (roster r) (st_roundCounter st) (st_nowSec st)
          (mkLobbyView (drawAt (lobbyPlan x st r)) (ctx_emptyRoom x)) = Done plan /\ e ∈ entries plan
  | close_lobby_and_draw n authority =>
      exists r, in_phase st Phase_Lobby r /\ roundDelegated st <> Some false /\ n = r_roundNo r /\
        if authority then step (lobbyPlan x st r) = closeEarly \/ step (lobbyPlan x st r) = closeToSchedule
        else step (lobbyPlan x st r) = close
  | abandon_round n =>
      exists r, in_phase st Phase_Lobby r /\ roundDelegated st <> Some false /\ n = r_roundNo r /\
        step (lobbyPlan x st r) = abandon
  | tick_round n steps =>
      exists r, in_phase st Phase_Fight r /\ n = r_roundNo r /\ fightIsOver r = false /\ bellHasRung st r = false /\
        steps = sub (canonicalCursor (r_fightStartedAt r) (r_fighterCount r) (st_nowSec st)) (r_tickCount r) /\
        leb steps (of_Z 0) = false
  | resolve_round n =>
      exists r, in_phase st Phase_Fight r /\ n = r_roundNo r /\ (fightIsOver r = true \/ bellHasRung st r = true)
  | close_round n => exists r, in_phase st Phase_Settled r /\ roundDelegated st = Some true /\ n = r_roundNo r
  | init_treasury => exists r, sweep_allowed st r
  | sweep_house_take n => exists r, sweep_allowed st r /\ n = r_roundNo r
  | close_round_account _ => False
  end.

(** Only transactions of [P] are sent. *)
Definition sends_in (P : Transaction -> Prop) (s s' : machine W) : Prop :=
  exists l, trace s' = trace s ++ l /\ forall t, Sending t ∈ l -> P t.

#[local] Instance sends_in_preorder P : PreOrder (sends_in P).
Proof.
  split.
  - intros s. exists []. rewrite app_nil_r. split; [done | by intros t ?%elem_of_nil].
  - intros s1 s2 s3 (l & E1 & H1) (l' & E2 & H2). exists (l ++ l'). split; [by rewrite E2, E1, app_assoc |].
    intros t [?|?]%elem_of_app; auto.
Qed.

Lemma sends_world P s x w : sends_in P s (mkMachine w x (trace s)).
Proof. exists []. rewrite app_nil_r. split; [done | by intros t ?%elem_of_nil]. Qed.

Lemma sends_emit P s w x e : (forall t, e = Sending t -> P t) -> sends_in P s (mkMachine w x (trace s ++ [e])).
Proof. intros He. exists [e]. split; [done |]. intros t Ht%list_elem_of_singleton. by apply He. Qed.

Ltac sends := first [apply sends_world | apply sends_emit; intros ? [= <-] | apply sends_emit; intros ? [=]].

Lemma open_sends P n :
  (forall secs, P (open_round n secs)) -> P (delegate_round n) -> respects (sends_in P) (openNextRound (W := W) (E := E) c k n).
Proof.
  intros Ho Hd.
  unfold openNextRound, sweepIsKeepingUp, affordsAnotherRound, takeSample, rentIsComingBack, afterOpen, delegateRound.
  repeat respects_step; sends; auto.
Qed.

Lemma sweep_sends P st r :
  (roundDelegated st = Some false -> r_houseSwept r = 0 -> P init_treasury /\ P (sweep_house_take (r_roundNo r))) ->
  respects (sends_in P) (sweepHouseTake (W := W) (E := E) st r).
Proof.
  intros HP. unfold sweepHouseTake. repeat respects_step; sends; zbool; by apply HP.
Qed.

Lemma sends_after P {A} (m : K W E A) s s1 :
  sends_in P s s1 -> respects (sends_in P) m -> wp m (fun _ s' => sends_in P s s') s1.
Proof. intros H1 Hm. apply wp_respects with (sends_in P); [done |]. intros r s'. by etransitivity. Qed.

Lemma field_sends P st r plan s s1 :
  sends_in P s s1 ->
  (forall p e, plannedHouseEntries c (bank (ctx s1)) (roster r) (st_roundCounter st) (st_nowSec st)
     (mkLobbyView (drawAt plan) (ctx_emptyRoom (ctx s1))) = Done p -> e ∈ entries p -> P (enter_house e)) ->
  wp (fieldHouseFighters (W := W) (E := E) c st r plan) (fun _ s' => sends_in P s s') s1.
Proof.
  intros H1 He. unfold fieldHouseFighters. do 2 wp_step. wp_step; [by wp_step |]. wp_step.
  destruct (plannedHouseEntries _ _ _ _ _ _) as [p | e] eqn:Ep; [| done]. cbn [lift]. wp_step.
  destruct (entries p) as [| e0 es] eqn:Ee; [by wp_step |]. apply sends_after; [done |].
  repeat lazymatch goal with |- respects _ (openNextRound _ _ _) => fail | |- _ => drive_step end; try sends.
  apply (He p); [done | by rewrite Ee].
Qed.

Lemma lobby_sends st r s :
  in_phase st Phase_Lobby r ->
  wp (driveLobby (W := W) (E := E) c st r) (fun _ s' => sends_in (phase_allows (ctx s) st) s s') s.
Proof.
  intros Hin. set (P := phase_allows (ctx s) st). unfold driveLobby. do 4 wp_step.
  set (s0 := mkMachine _ _ _). assert (H0 : sends_in P s s0).
  { eexists. split; [cbn; by rewrite <- app_assoc |]. intros t Ht. cbn in Ht.
    rewrite !elem_of_cons, elem_of_nil in Ht. destruct Ht as [[=] | [[=] | []]]. }
  destruct (bool_decide (roundDelegated st = Some false)) eqn:Ed; zbool.
  { apply sends_after; [done |]. unfold delegateRound. repeat respects_step; sends. right. by exists r. }
  do 2 wp_step. cbn [ctx s0].
  assert (HL : wp (W := W) (E := E)
    (when (0 <? realCount (classify (bank (ctx s)) (roster r))) && negb (present (firstRealEntryObservedAt (timeline (ctx s)))) do
       onTimeline (first_real_at (st_nowSec st)))%keeper
    (fun o s' => o = Done tt /\ ctx s' = lobbyContext (ctx s) st r /\ sends_in P s s') s0).
  { unfold lobbyContext. wp_step; wp_step; done. }
  wp_step. eapply wp_mono; [exact HL |]. clear HL H0. intros o s1 (-> & Ex & H1). do 4 wp_step. rewrite Ex. fold (lobbyPlan (ctx s) st r).
  set (s2 := mkMachine _ _ _). assert (H2 : sends_in P s s2) by (etransitivity; [exact H1 | sends]).
  assert (Eb : bank (ctx s2) = bank (ctx s) /\ ctx_emptyRoom (ctx s2) = ctx_emptyRoom (ctx s)).
  { cbn. unfold lobbyContext. by case_match. }
  destruct Eb as [Eb Er].
  destruct (step (lobbyPlan (ctx s) st r)) eqn:Est.
  1, 6: apply field_sends; [exact H2 |]; rewrite Eb, Er; intros p e Hp Hmem; exists r, p; split_and!; auto.
  all: apply sends_after; [exact H2 |]; unfold closeLobbyOntoSchedule, drawSeed, abandonRound; repeat respects_step; sends;
    exists r; split_and!; auto.
Qed.

Lemma drawing_sends st r x :
  in_phase st Phase_Drawing r -> respects (sends_in (phase_allows x st)) (driveDrawing (W := W) (E := E) c k st r).
Proof.
  intros Hin. unfold driveDrawing. repeat lazymatch goal with |- respects _ (openNextRound _ _ _) => fail | |- _ => respects_step end;
    try sends.
  assert (Ho : opening_allowed x st (st_roundCounter st + 1)).
  { destruct Hin as (? & ? & ? & ?). split_and!; [done.. |]. right. left. by exists r. }
  apply open_sends; [done | by left].
Qed.

Lemma fight_sends st r x :
  in_phase st Phase_Fight r -> respects (sends_in (phase_allows x st)) (driveFight (W := W) (E := E) st r).
Proof.
  intros Hin. unfold driveFight. repeat drive_step; try sends.
  - exists r. split; [done |]. split; [done |]. by apply orb_true_iff.
  - exists r. zbool. split; [exact Hin |]. split; [reflexivity |]. split; [assumption |]. split; [assumption |].
    split; [reflexivity | assumption].
Qed.

Lemma settled_sends st r s :
  in_phase st Phase_Settled r ->
  wp (driveSettled (W := W) (E := E) c k st r) (fun _ s' => sends_in (phase_allows (ctx s) st) s s') s.
Proof.
  intros Hin. unfold driveSettled. do 2 wp_step. apply sends_after; [reflexivity |].
  repeat lazymatch goal with
  | |- respects _ (openNextRound _ _ _) => fail
  | |- respects _ (sweepHouseTake _ _) => fail
  | |- respects _ countCompleted => unfold countCompleted, summariseRound
  | |- _ => respects_step
  end; try sends.
  - exists r. zbool. done.
  - apply sweep_sends. intros Hd Hs.
    assert (Hw : sweep_allowed st r) by (split; [by left | done]). split; by exists r.
  - zbool. assert (Ho : opening_allowed (ctx s) st (st_roundCounter st + 1)).
    { destruct Hin as (? & ? & ? & ?). split_and!; [done.. |]. right. right. left. by exists r. }
    apply open_sends; [done | by left].
Qed.

Lemma abandoned_sends st r s :
  in_phase st Phase_Abandoned r ->
  wp (driveAbandoned (W := W) (E := E) c k st r) (fun _ s' => sends_in (phase_allows (ctx s) st) s s') s.
Proof.
  intros Hin. unfold driveAbandoned. do 2 wp_step. apply sends_after; [reflexivity |].
  repeat lazymatch goal with
  | |- respects _ (openNextRound _ _ _) => fail
  | |- respects _ (sweepHouseTake _ _) => fail
  | |- _ => respects_step
  end; try sends.
  - apply sweep_sends. intros Hd Hs.
    assert (Hw : sweep_allowed st r) by (split; [by right | done]). split; by exists r.
  - zbool. assert (Ho : opening_allowed (ctx s) st (st_roundCounter st + 1)).
    { destruct Hin as (? & ? & ? & ?). split_and!; [done.. |]. right. right. right. by exists r. }
    apply open_sends; [done | by left].
Qed.

Lemma step_sends st s :
  wp (driveOneStep (W := W) (E := E) c k st) (fun _ s' => sends_in (phase_allows (ctx s) st) s s') s.
Proof.
  unfold driveOneStep. destruct (hasArena st) eqn:Ha; cbn [negb].
  2: { apply sends_after; [reflexivity |]. repeat respects_step; sends. done. }
  destruct (Z.eqb_spec (st_roundCounter st) 0) as [E0 | Hne].
  { assert (Ho : opening_allowed (ctx s) st 1) by (rewrite <- (Z.add_0_l 1), <- E0 at 1; split_and!; auto).
    apply sends_after; [reflexivity |]. apply open_sends; [done | by left]. }
  destruct (st_round st) as [r |] eqn:Er; [| by apply wp_ret].
  assert (Hin : forall ph, r_phase r = ph -> in_phase st ph r) by (intros ph Hp; by split_and!).
  repeat (case_match; zbool).
  - by apply lobby_sends, Hin.
  - apply sends_after; [reflexivity |]. by apply drawing_sends, Hin.
  - apply sends_after; [reflexivity |]. by apply fight_sends, Hin.
  - by apply settled_sends, Hin.
  - by apply abandoned_sends, Hin.
  - apply sends_after; [reflexivity |]. apply respects_throw; apply _.
Qed.
End Allowed.

(** ** The loop's failures *)

Lemma of_Z_mono a b : a <= b -> leb (of_Z a) (of_Z b) = true.
Proof. intros Hab. pose proof one_pos. apply of_ratio_mono; [lia.. | nia]. Qed.

Lemma min_large x y : leb y x = true -> min x y = y.
Proof.
  intros H. destruct (leb_nan _ _ H) as [Hy Hx]. apply leb_antisym.
  - apply min_r. by rewrite min_nan, Hx, Hy.
  - apply min_glb; [done | by apply leb_refl].
Qed.

Lemma mul_one_not_nan y : is_nan y = false -> is_nan (mul (Fin one) y) = false.
Proof.
  intros Hy. pose proof one_pos. destruct y as [| s |]; simpl; [done | | apply mk_not_nan].
  by rewrite (proj2 (Z.eqb_neq one 0)) by lia.
Qed.

Lemma backoff_int n : 1 <= n -> backoffSeconds n = of_Z (Z.min (2 ^ (n - 1)) 30).
Proof.
  intros Hn. unfold backoffSeconds, ERROR_BACKOFF_BASE_SECONDS, ERROR_BACKOFF_MAX_SECONDS.
  destruct (decide (n <= 6)) as [Hs | Hl].
  - assert (H : 2 ^ 0 <= 2 ^ (n - 1) <= 2 ^ 5) by (split; apply Z.pow_le_mono_r; lia).
    rewrite mul_int, Z.mul_1_l, min_int by (unfold safe; lia). done.
  - assert (H : 2 ^ 5 <= 2 ^ (n - 1)) by (apply Z.pow_le_mono_r; lia).
    rewrite Z.min_r by lia. apply min_large. generalize dependent (2 ^ (n - 1)). intros p Hp.
    assert (E1 : of_Z 30 = mul (of_Z 1) (of_Z 30)) by (rewrite mul_int by (unfold safe; lia); done).
    rewrite E1 at 1. rewrite (of_Z_exact 1), Z.mul_1_l by lia. pose proof one_pos.
    apply mul_mono_nonneg; [rewrite leb_fin; apply Z.leb_le; lia | reflexivity | apply of_Z_mono; lia |
      apply mul_one_not_nan, of_Z_not_nan..].
Qed.

Section Failures.
Context {W E : Type} `{!ChainClient W E} (c : Config) (k : Knobs).

(** What the loop does about a failed pass. *)
Definition after_failure (failures : Z) (t : num) : list Effect :=
  [LastError (Some main_loop); Publish; PassCompleted] ++
  (if failures =? STALL_AFTER_CONSECUTIVE_FAILURES then [StalledSince (Some t)] else []) ++
  [Publish; Sleep (backoffSeconds failures)].

(** A turn of the loop: a clean pass, or one that threw. *)
Definition pass_result (n : Z) (r : outcome E Z) (s' : machine W) : Prop :=
  (r = Done 0 /\ exists l, trace s' = l ++ [Publish; PassCompleted; LastError None; StalledSince None]) \/
  (r = Done (n + 1) /\ exists l t, trace s' = l ++ after_failure (n + 1) t).

Lemma loop_pass_cases n s : wp (loopPass (E := E) c k n) (pass_result n) s.
Proof.
  assert (G : wp (cleanPass (E := E) c k) (fun r s' => r = Done tt ->
    exists l, trace s' = l ++ [Publish; PassCompleted; LastError None; StalledSince None]) s).
  { unfold cleanPass. do 8 (apply wp_bind, wp_any; intros [? | ?] ?; [| discriminate]).
    repeat wp_step. intros _.
    match goal with |- exists l, (((?t ++ _) ++ _) ++ _) ++ _ = _ => exists t end. by rewrite <- !app_assoc. }
  unfold loopPass. wp_step. wp_step. eapply wp_mono; [exact G |]. intros [[] | e] s' H'.
  - wp_step. left. split; [done | by apply H'].
  - unfold recordError. repeat wp_step; right; (split; [reflexivity |]); exists (trace s'); first [exists a0 | exists a];
      unfold after_failure; rewrite Heqb; cbn [trace]; rewrite <- !app_assoc; reflexivity.
Qed.

Lemma main_loop_survives fuel n s : exists n', fst (mainLoop (E := E) c k fuel n s) = Done n'.
Proof.
  enough (H : wp (mainLoop (E := E) c k fuel n) (fun r _ => exists n', r = Done n') s) by exact H.
  revert n s. induction fuel as [| fuel IH]; intros n s; cbn [mainLoop]; [wp_step; eauto |].
  do 2 wp_step. wp_step; [wp_step; eauto |]. wp_step. eapply wp_mono; [apply loop_pass_cases |].
  intros r s' [[-> _] | [-> _]]; do 2 wp_step; (wp_step; [wp_step; eauto | apply IH]).
Qed.
End Failures.

(** C8. The sweep-gap stop is for the life of the process.  Once it is set,
    whatever the chain answers, whatever fails and however many turns the main
    loop takes, it stays set and no round is ever opened again. *)
Theorem sweep_stop_is_for_life {W E} `{!ChainClient W E} c k fuel n (s : machine W) :
  present (sweepStopSince (opening (ctx s))) = true ->
  let s' := snd (mainLoop (E := E) c k fuel n s) in
  present (sweepStopSince (opening (ctx s'))) = true /\ exists l, trace s' = trace s ++ l /\ opens l = [].
Proof.
  intros P s'. destruct (loop_latched c k fuel n s) as (l & El & Hl). destruct (Hl P) as [Ho Hp].
  split; [done | by exists l].
Qed.

(** C4. The closer's books balance over the life of the process.  Start the
    closer at any cursor and run the main loop for any number of turns over any
    chain whose absences are final: every round between where the cursor started
    and where it stands is either gone from the chain or entered exactly once,
    as reclaimed, given up on, stranded live or stranded while delegated; the
    four published counters count those entries and the samples are their newest
    fifty; a round under the cursor has been retried fewer than three times. *)
Theorem keeper_books_balance {W E} `{!ChainClient W E} c k dead start known ahead fuel n (s : machine W) :
  honest (E := E) dead -> closing_ (ctx s) = seededClosing start known ahead ->
  let x := closing_ (ctx (snd (mainLoop (E := E) c k fuel n s))) in
  exists es, books start dead es x /\
    rentReclaimed x + lost (closeSkipped x) + lost (closeStrandedNeverTerminal x) + lost (closeStrandedStillDelegated x)
      = Z.of_nat (length es) /\
    Z.of_nat (length es) <= closeCursor x - start /\
    sample (closeSkipped x) = last_n CLOSE_LOSS_SAMPLE (fated gave_up es).
Proof. intros Hh Hs. apply (closer_books c k dead s _ start known ahead Hh Hs), loop_run. Qed.

(** C2. A step sends only what the phase allows.  Whatever the chain answers
    along the way, every transaction a step attempts is one [phase_allows] lists
    for the state it read: a lobby is drawn, closed early, abandoned or filled
    exactly as its policy plans, with the house entries the planner names; a
    fight is ticked by exactly its backlog until it is over or the bell has
    rung, and only then resolved; a settled round is brought home before its
    take is swept; and the next round is opened only after a draw timed out or
    a result was held. *)
Theorem step_sends_what_phase_allows {W E} `{!ChainClient W E} c k st (s : machine W) :
  exists l, trace (snd (driveOneStep (E := E) c k st s)) = trace s ++ l /\
    forall t, Sending t ∈ l -> phase_allows c k (ctx s) st t.
Proof. apply step_sends. Qed.

(** No failure ends the loop.  The loop returns whatever throws inside it;
    a turn is either a clean pass, which publishes, marks the pass and clears
    the error and the stall, or a failed one, which publishes the error, marks
    the pass, announces a stall on exactly the sixth failure in a row, and backs
    off for [2 ^ (n - 1)] seconds capped at thirty. *)
Theorem loop_survives_failures {W E} `{!ChainClient W E} c k fuel n (s : machine W) :
  0 <= n ->
  (exists n', fst (mainLoop (E := E) c k fuel n s) = Done n') /\
  let r := fst (loopPass (E := E) c k n s) in let s' := snd (loopPass (E := E) c k n s) in
  (r = Done 0 /\ exists l, trace s' = l ++ [Publish; PassCompleted; LastError None; StalledSince None]) \/
  (r = Done (n + 1) /\ exists l t, trace s' =
     l ++ [LastError (Some main_loop); Publish; PassCompleted] ++ (if n + 1 =? 6 then [StalledSince (Some t)] else []) ++
       [Publish; Sleep (of_Z (Z.min (2 ^ n) 30))]).
Proof.
  intros Hn. split; [apply main_loop_survives |]. cbv zeta. destruct (loop_pass_cases c k n s) as [H | (Hr & l & t & El)]; [by left |].
  right. split; [done |]. exists l, t. unfold after_failure in El. rewrite backoff_int in El by lia.
  by replace (n + 1 - 1) with n in El by lia.
Qed.

(** ** Runs on a small chain *)

(** Round thirty settled and home, its result held long enough. *)
Definition settled_state : KeeperChainState :=
  mkChainState (of_Z 1700000000) true 30 (Some (past_round 30 Phase_Settled 1)) (Some false).

#[local] Instance settled_client : ChainClient Z unit := chain_client (Done settled_state).

Definition sweep_stopped : machine Z :=
  mkMachine 0 (with_opening (ctx backlog_start) (sweep_stop (of_Z 1699999000) (emptyOpening None))) [].

Lemma sweep_stop_is_for_life_witness :
  let s' := snd (mainLoop default_config backlog_knobs 20 0 sweep_stopped) in
  present (sweepStopSince (opening (ctx s'))) = true /\ exists l, trace s' = [] ++ l /\ opens l = [].
Proof. apply (sweep_stop_is_for_life default_config backlog_knobs 20 0 sweep_stopped). reflexivity. Defined.

Lemma keeper_books_balance_witness :
  let x := closing_ (ctx (snd (mainLoop default_config backlog_knobs 20 0 backlog_start))) in
  exists es, books 1 (fun n => n <= 3) es x /\
    rentReclaimed x + lost (closeSkipped x) + lost (closeStrandedNeverTerminal x) + lost (closeStrandedStillDelegated x)
      = Z.of_nat (length es) /\
    Z.of_nat (length es) <= closeCursor x - 1 /\
    sample (closeSkipped x) = last_n CLOSE_LOSS_SAMPLE (fated gave_up es).
Proof.
  apply (keeper_books_balance default_config backlog_knobs (fun n => n <= 3) 1 None false 20 0 backlog_start).
  - exact (backlog_honest (Done settled_state)).
  - reflexivity.
Defined.

Lemma loop_survives_failures_witness :
  (exists n', fst (mainLoop default_config backlog_knobs 20 5 backlog_start) = Done n') /\
  let r := fst (loopPass default_config backlog_knobs 5 backlog_start) in
  let s' := snd (loopPass default_config backlog_knobs 5 backlog_start) in
  (r = Done 0 /\ exists l, trace s' = l ++ [Publish; PassCompleted; LastError None; StalledSince None]) \/
  (r = Done (5 + 1) /\ exists l t, trace s' =
     l ++ [LastError (Some main_loop); Publish; PassCompleted] ++ (if 5 + 1 =? 6 then [StalledSince (Some t)] else []) ++
       [Publish; Sleep (of_Z (Z.min (2 ^ 5) 30))]).
Proof. apply (loop_survives_failures default_config backlog_knobs 20 5 backlog_start). lia. Defined.

(** Twenty turns at one instant: the result is still held, so nothing opens; the
    closer reclaims five and six and waits to retry the refused close of seven. *)
Example held_arena_waits :
  let s' := snd (mainLoop default_config backlog_knobs 20 0 backlog_start) in
  (Z.of_nat (length (opens (trace s'))), closeCursor (closing_ (ctx s')), rentReclaimed (closing_ (ctx s'))) = (0, 7, 2).
Proof. vm_compute. reflexivity. Qed.
