(* ===== verification/AutoSession.v ===== *)
(** * Who signs a move

    [er-demo/src/v2/data/autoSession.ts]: how the next move is signed, what a
    failed session open and a refused transaction lead to, and the write path's
    session behaviour.  The wallet, the chain and the session SDK are effects
    on a world the model is parametric in; every effect is also logged, so the
    theorems can count dialogs and sends. *)
From S2P Require Import Prelude JsNum.

(** [0.021] *)
Definition ASSUMED_SESSION_START_SOL : num := of_ratio (21 * one) 1000.

Inductive SessionOffReason : Type := fixture_off | burner_off | stopped | unaffordable | blocked_off.

Inductive SigningPlan : Type := plan_session | open_then_session | plan_wallet (reason : SessionOffReason).

#[global] Instance SessionOffReason_eq_dec : EqDecision SessionOffReason.
Proof. solve_decision. Defined.
#[global] Instance SigningPlan_eq_dec : EqDecision SigningPlan.
Proof. solve_decision. Defined.

Inductive SignerMode : Type := mode_burner | mode_wallet.

(** [gated]: [playGate] gives a reason nobody can act ([gate !== null]). *)
Record SigningPlanInput : Type := mkPlanInput {
  fixture : bool;
  mode : SignerMode;
  auto : bool;
  sessionActive : bool;
  gated : bool;
  solBalance : option num;
}.

Definition canAffordSession (balance : option num) : bool :=
  match balance with None => true | Some b => leb ASSUMED_SESSION_START_SOL b end.

Definition signingPlan (input : SigningPlanInput) : SigningPlan :=
  if fixture input then plan_wallet fixture_off else
  if sessionActive input && auto input then plan_session else
  if negb (auto input) then plan_wallet stopped else
  match mode input with
  | mode_burner => plan_wallet burner_off
  | mode_wallet =>
      if gated input then plan_wallet blocked_off else
      if negb (canAffordSession (solBalance input)) then plan_wallet unaffordable else open_then_session
  end.

Inductive WalletFaultCode : Type :=
| not_installed | rejected | connect_failed | disconnected | wrong_network | session_expired | unknown_fault.

#[global] Instance WalletFaultCode_eq_dec : EqDecision WalletFaultCode.
Proof. solve_decision. Defined.

Inductive OpenFailurePlan : Type := abandon_move | sign_with_wallet.

Definition afterFailedOpen (fault : WalletFaultCode) : OpenFailurePlan :=
  if bool_decide (fault = rejected) || bool_decide (fault = disconnected) || bool_decide (fault = not_installed)
  then abandon_move else sign_with_wallet.

Inductive RefusalPlan : Type := renew_and_retry | report.

Definition afterRefusal (fault : WalletFaultCode) (alreadyRenewed : bool) : RefusalPlan :=
  if bool_decide (fault = session_expired) && negb alreadyRenewed then renew_and_retry else report.

(** What [runSigned] needs from outside: [W] the world, [S] a session, [E] what
    a rejected promise carries. *)
Record SessionSigning (W S E : Type) : Type := mkSigning {
  current : W -> option S;
  open_session : W -> outcome E S * W;
  renew : W -> outcome E (option S) * W;
  classify : E -> WalletFaultCode;
}.
Arguments mkSigning {W S E}.
Arguments current {W S E}.
Arguments open_session {W S E}.
Arguments renew {W S E}.
Arguments classify {W S E}.

(** The effects, as they happen. *)
Inductive sign_event (S E : Type) : Type :=
| Opened
| FellBack (e : E)
| Sent (session : option S)
| Renewed.
Arguments Opened {S E}.
Arguments FellBack {S E} e.
Arguments Sent {S E} session.
Arguments Renewed {S E}.

Section Sign.
Context {W S E R : Type} (signing : SessionSigning W S E) (send : option S -> W -> outcome E R * W).

(** The retry loop over the session in hand and the attempt number; [None]
    when the fuel runs out. *)
Fixpoint sign_loop (fuel : nat) (attempt : Z) (session : S) (w : W)
  : option (outcome E R * list (sign_event S E) * W) :=
  match fuel with
  | O => None
  | Datatypes.S fuel =>
      match send (Some session) w with
      | (Done r, w) => Some (Done r, [Sent (Some session)], w)
      | (Throw e, w) =>
          match afterRefusal (classify signing e) (0 <? attempt) with
          | report => Some (Throw e, [Sent (Some session)], w)
          | renew_and_retry =>
              match renew signing w with
              | (Throw e', w) => Some (Throw e', [Sent (Some session); Renewed], w)
              | (Done None, w) => Some (Throw e, [Sent (Some session); Renewed], w)
              | (Done (Some fresh), w) =>
                  match sign_loop fuel (attempt + 1) fresh w with
                  | None => None
                  | Some (o, log, w) => Some (o, Sent (Some session) :: Renewed :: log, w)
                  end
              end
          end
      end
  end.

Definition runSigned (plan : SigningPlan) (w : W) : option (outcome E R * list (sign_event S E) * W) :=
  match plan with
  | plan_wallet _ => let '(o, w) := send None w in Some (o, [Sent None], w)
  | _ =>
      match current signing w with
      | Some session => sign_loop 2 0 session w
      | None =>
          match open_session signing w with
          | (Throw e, w) =>
              match afterFailedOpen (classify signing e) with
              | abandon_move => Some (Throw e, [Opened], w)
              | sign_with_wallet =>
                  let '(o, w) := send None w in Some (o, [Opened; FellBack e; Sent None], w)
              end
          | (Done session, w) =>
              match sign_loop 2 0 session w with
              | None => None
              | Some (o, log, w) => Some (o, Opened :: log, w)
              end
          end
      end
  end.

(** ** Laws *)

Definition sends (log : list (sign_event S E)) : Z := zsum (fun e => match e with Sent _ => 1 | _ => 0 end) log.
Definition dialogs (log : list (sign_event S E)) : Z :=
  zsum (fun e => match e with Opened | Renewed => 1 | _ => 0 end) log.
Definition wallet_sends (log : list (sign_event S E)) : Z :=
  zsum (fun e => match e with Sent None => 1 | _ => 0 end) log.

Lemma sign_loop_spec session w :
  exists o log w', sign_loop 2 0 session w = Some (o, log, w') /\ 1 <= sends log <= 2 /\
    dialogs log <= 1 /\ wallet_sends log = 0 /\
    (sends log = 2 -> exists e w1, send (Some session) w = (Throw e, w1) /\ classify signing e = session_expired) /\
    ((exists r, o = Done r) -> exists s w1 r, last log = Some (Sent (Some s)) /\ send (Some s) w1 = (Done r, w') /\ o = Done r).
Proof.
  unfold sends, dialogs, wallet_sends. cbn [sign_loop]. destruct (send (Some session) w) as [[r | e] w1] eqn:E1.
  { do 3 eexists. split; [reflexivity |]. simpl. split_and!; try lia. intros _. eauto 6. }
  unfold afterRefusal at 1. destruct (bool_decide (classify signing e = session_expired)) eqn:Ex; simpl.
  2: { do 3 eexists. split; [reflexivity |]. simpl. split_and!; try lia. by intros []. }
  apply bool_decide_eq_true in Ex.
  destruct (renew signing w1) as [[[fresh |] | e'] w2].
  2, 3: do 3 eexists; (split; [reflexivity |]); simpl; split_and!; try lia; by intros [].
  destruct (send (Some fresh) w2) as [[r | e2] w3] eqn:E2.
  { do 3 eexists. split; [reflexivity |]. simpl. split_and!; try lia; [by eauto |]. intros _. eauto 6. }
  unfold afterRefusal. rewrite andb_false_r.
  do 3 eexists. split; [reflexivity |]. simpl. split_and!; try lia; [by eauto |]. by intros [].
Qed.

(** A press always ends, and costs what it should.  Every run of
    [runSigned] returns; it sends at most twice, and twice only after the chain
    refused the first send as an expired session; it opens or replaces a
    session at most twice in all; under a wallet plan it sends exactly once,
    with the wallet; the wallet signs a move under a session plan only when
    opening a session failed for a reason that is neither a rejection nor a
    missing wallet; a cancelled open sends nothing; and a press that reports
    success has just had that very send confirmed. *)
Theorem run_signed_bounded plan w :
  exists o log w', runSigned plan w = Some (o, log, w') /\
    sends log <= 2 /\ dialogs log <= 2 /\ wallet_sends log <= 1 /\
    (sends log = 2 -> exists s e w1 w2, send (Some s) w1 = (Throw e, w2) /\ classify signing e = session_expired) /\
    (forall reason, plan = plan_wallet reason -> log = [Sent None]) /\
    ((forall reason, plan <> plan_wallet reason) -> wallet_sends log = 1 ->
       exists e w1, open_session signing w = (Throw e, w1) /\ log = [Opened; FellBack e; Sent None] /\
       classify signing e <> rejected /\ classify signing e <> disconnected /\ classify signing e <> not_installed) /\
    ((forall reason, plan <> plan_wallet reason) -> current signing w = None ->
       forall e w1, open_session signing w = (Throw e, w1) -> classify signing e = rejected ->
       o = Throw e /\ sends log = 0) /\
    ((exists r, o = Done r) -> exists s w1 r, last log = Some (Sent s) /\ send s w1 = (Done r, w') /\ o = Done r).
Proof.
  assert (Hsplit : (exists reason, plan = plan_wallet reason) \/ plan = plan_session \/ plan = open_then_session)
    by (destruct plan; eauto).
  destruct Hsplit as [[reason ->] | Hplan].
  { simpl. destruct (send None w) as [o w'] eqn:Es. do 3 eexists. split; [reflexivity |].
    unfold sends, dialogs, wallet_sends. simpl. split_and!; try lia; try done.
    - intros H. by destruct (H reason).
    - intros H. by destruct (H reason).
    - intros [r ->]. eauto 6. }
  assert (Hrun : runSigned plan w = runSigned plan_session w) by (by destruct Hplan as [-> | ->]).
  assert (Hw : forall reason, plan = plan_wallet reason -> False) by (intros ? ->; by destruct Hplan).
  rewrite Hrun. clear Hrun. unfold runSigned. cbv beta iota. destruct (current signing w) as [session |] eqn:Ec.
  { destruct (sign_loop_spec session w) as (o & log & w' & -> & Hs & Hd & Hws & H2 & Hok).
    do 3 eexists. split; [reflexivity |]. split_and!; try lia; try done.
    - intros H. destruct (H2 H) as (e & w1 & ? & ?). eauto 6.
    - intros reason Hr. by destruct (Hw reason).
    - intros Hr. destruct (Hok Hr) as (s & w1 & r & ? & ? & ?). eauto 6. }
  destruct (open_session signing w) as [[session | e] w1] eqn:Eo.
  { destruct (sign_loop_spec session w1) as (o & log & w' & -> & Hs & Hd & Hws & H2 & Hok).
    do 3 eexists. split; [reflexivity |]. unfold sends, dialogs, wallet_sends in *. simpl. split_and!; try lia; try done.
    - intros H. destruct H2 as (e & w2 & ? & ?); [lia |]. eauto 6.
    - intros reason Hr. by destruct (Hw reason).
    - intros Hr. destruct (Hok Hr) as (s & w2 & r & Hl & ? & ?). exists (Some s), w2, r. split_and!; try done.
      destruct log; done. }
  unfold afterFailedOpen. destruct (bool_decide (classify signing e = rejected)) eqn:E1,
    (bool_decide (classify signing e = disconnected)) eqn:E2, (bool_decide (classify signing e = not_installed)) eqn:E3;
    simpl; zbool.
  1-7: do 3 eexists; (split; [reflexivity |]); unfold sends, dialogs, wallet_sends; simpl; split_and!; try lia; try done;
    [intros reason Hr; by destruct (Hw reason) | intros; naive_solver | by intros []].
  destruct (send None w1) as [o w'] eqn:Es. do 3 eexists. split; [reflexivity |].
  unfold sends, dialogs, wallet_sends. simpl. split_and!; try lia; try done.
  - intros reason Hr. by destruct (Hw reason).
  - eauto 10.
  - intros _ _ e0 w0 [= <- <-] ?. done.
  - intros [r ->]. eauto 6.
Qed.
End Sign.
