(* ===== verification/AutoPolicy.v ===== *)
(** * The bounds of an unattended run

    [er-demo/src/v2/data/autoPolicy.ts]: who can sign with nobody watching, the
    limits of a run, its running profit and loss, its tally and its runway.
    Dollars are doubles, chain amounts and round numbers whole numbers. *)
From S2P Require Import Prelude JsNum ErSim Chain AutoSession.

(** ** Signing with nobody watching *)

Inductive UnattendedBlock : Type := needs_session | session_stopped | session_unaffordable | no_signer.

Inductive UnattendedSigning : Type := silent | blocked (reason : UnattendedBlock).

Definition unattendedSigning (plan : SigningPlan) : UnattendedSigning :=
  match plan with
  | plan_session => silent
  | open_then_session => blocked needs_session
  | plan_wallet burner_off | plan_wallet fixture_off => silent
  | plan_wallet stopped => blocked session_stopped
  | plan_wallet unaffordable => blocked session_unaffordable
  | plan_wallet blocked_off => blocked no_signer
  end.

Record UnattendedEntry : Type := mkEntry { ue_roundNo : Z; ue_side : Side; ue_amountUsd : num }.

(** What [runUnattendedEntry] rejects with: its own refusal, or the send's error. *)
Inductive unattended_error (E : Type) : Type := UNATTENDED_REFUSED | SendError (e : E).
Arguments UNATTENDED_REFUSED {E}.
Arguments SendError {E} e.

(** [send] acts on a world [W]; a run that refuses leaves it as it was. *)
Definition runUnattendedEntry {W S E R} (plan : SigningPlan) (session : option S) (entry : UnattendedEntry)
    (send : UnattendedEntry -> option S -> W -> outcome E R * W) (w : W) : outcome (unattended_error E) R * W :=
  let sent session :=
    match send entry session w with
    | (Done r, w) => (Done r, w)
    | (Throw e, w) => (Throw (SendError e), w)
    end in
  match unattendedSigning plan with
  | blocked _ => (Throw UNATTENDED_REFUSED, w)
  | silent =>
      match plan with
      | plan_session => match session with None => (Throw UNATTENDED_REFUSED, w) | Some s => sent (Some s) end
      | _ => sent None
      end
  end.

(** ** The limits *)

Record AutoLimits : Type := mkLimits {
  budgetUsd : num;
  perRoundCapUsd : num;
  drawdownStopPct : option num;
  maxRounds : option num;
}.

Definition DEFAULT_LIMITS : AutoLimits := mkLimits (of_Z 250) STAKE_CAP_USD (Some (of_Z 50)) None.

Inductive LimitBlock : Type := drawdown_stopped | drawdown_unknown | budget_spent | round_ceiling.

Definition drawdownStopUsd (limits : AutoLimits) : option num :=
  match drawdownStopPct limits with
  | None => None
  | Some pct =>
      if negb (is_finite pct) || negb (is_finite (budgetUsd limits)) then None
      else Some (div (mul (budgetUsd limits) pct) (of_Z 100))
  end.

(** ** The run's profit and loss *)

Record RunPnl : Type := mkPnl {
  settledUnits : Z;
  bookedThrough : option Z;
  pnl_wallet : string;
  lastEnteredRound : option Z;
}.

Definition EMPTY_RUN_PNL : RunPnl := mkPnl 0 None EmptyString None.

Inductive RunPnlReading : Type :=
| known (usd : num)
| unreadable (bookedUsd : num)
| gap (fromRound : Z) (bookedUsd : num).

Definition provenLossUsd (pnl : RunPnlReading) : num :=
  let usd := match pnl with known usd => usd | unreadable b | gap _ b => b end in
  if is_finite usd then max (of_Z 0) (neg usd) else of_Z 0.

Definition roundIsFinal (phase : PhaseName) : bool :=
  match phase with Settled | Abandoned => true | _ => false end.

Definition playerUnits (round : RoundSummary) (youPubkey : string) : Z :=
  foldl (fun units player => if decide (rp_wallet player = youPubkey) then units + rp_pnl player else units)
    0 (rs_players round).

Definition pnlEntered (p : RunPnl) (roundNo : Z) (wallet : string) : RunPnl :=
  if negb (bool_decide (pnl_wallet p = EmptyString)) && negb (bool_decide (pnl_wallet p = wallet)) then p else
  if match lastEnteredRound p with Some last => roundNo <=? last | None => false end then p else
  let square := bool_decide (bookedThrough p = lastEnteredRound p) in
  mkPnl (settledUnits p) (if square then Some (roundNo - 1) else bookedThrough p) wallet (Some roundNo).

(** [byRound.get(r)] after every round was set in order: the last one wins. *)
Definition byRound (rounds : list RoundSummary) (r : Z) : option RoundSummary :=
  snd <$> list_find (fun s => rs_roundNo s = r) (reverse rounds).

(** The forward walk over [n] rounds from [r]. *)
Fixpoint bookFrom (n : nat) (r : Z) (rounds : list RoundSummary) (you : string) (units : Z) (through : option Z)
  : Z * option Z :=
  match n with
  | O => (units, through)
  | S n =>
      match byRound rounds r with
      | Some round =>
          if roundIsFinal (rs_phase round)
          then bookFrom n (r + 1) rounds you (units + playerUnits round you) (Some r)
          else (units, through)
      | None => (units, through)
      end
  end.

Definition bookSettledRounds (p : RunPnl) (rounds : list RoundSummary) (youPubkey : string) : RunPnl :=
  match lastEnteredRound p with
  | None => p
  | Some last =>
      if bool_decide (youPubkey = EmptyString) then p else
      if negb (bool_decide (pnl_wallet p = EmptyString)) && negb (bool_decide (pnl_wallet p = youPubkey)) then p else
      let from := default (last - 1) (bookedThrough p) + 1 in
      if last <? from then p else
      let '(units, through) :=
        bookFrom (Z.to_nat (last - from + 1)) from rounds youPubkey (settledUnits p) (bookedThrough p) in
      if bool_decide (through = bookedThrough p) then p
      else mkPnl units through (pnl_wallet p) (lastEnteredRound p)
  end.

(** The newest round of a log, and what its rows between [next] and [last] say. *)
Definition newestRound (rounds : list RoundSummary) : option Z :=
  foldl (fun newest s => match newest with
    | None => Some (rs_roundNo s)
    | Some n => if n <? rs_roundNo s then Some (rs_roundNo s) else Some n
    end) None rounds.

Definition openUnits (rounds : list RoundSummary) (next last : Z) (you : string) : Z :=
  foldl (fun units s => if (next <=? rs_roundNo s) && (rs_roundNo s <=? last) then units + playerUnits s you else units)
    0 rounds.

Definition readRunPnl (p : RunPnl) (rounds : list RoundSummary) (youPubkey : string) : RunPnlReading :=
  match lastEnteredRound p with
  | None => known (of_Z 0)
  | Some last =>
      let bookedUsd := unitsToUsd (settledUnits p) in
      if bool_decide (youPubkey = EmptyString) then unreadable bookedUsd else
      if negb (bool_decide (pnl_wallet p = EmptyString)) && negb (bool_decide (pnl_wallet p = youPubkey))
      then unreadable bookedUsd else
      let next := default (last - 1) (bookedThrough p) + 1 in
      if last <? next then known bookedUsd else
      let nextIsReadable := existsb (fun s => rs_roundNo s =? next) rounds in
      match newestRound rounds with
      | None => unreadable bookedUsd
      | Some newest =>
          let pending := unitsToUsd (settledUnits p + openUnits rounds next last youPubkey) in
          if nextIsReadable then known pending else
          if newest <? next then known pending else
          let guaranteed := if MIN_RETAINED_ROUNDS <? newest then newest - MIN_RETAINED_ROUNDS + 1 else 1 in
          if guaranteed <=? next then unreadable bookedUsd else gap next bookedUsd
      end
  end.

(** ** The tally *)

Inductive TallyOutcome : Type := t_entered | t_missed.

#[global] Instance TallyOutcome_eq_dec : EqDecision TallyOutcome.
Proof. solve_decision. Defined.

Record RunTally : Type := mkTally {
  armedAtMs : num;
  entered : Z;
  spentUsd : num;
  missed : Z;
  firstRound : option Z;
  lastRound : option Z;
  lastOutcome : option TallyOutcome;
}.

Definition EMPTY_TALLY : RunTally := mkTally (of_Z 0) 0 (of_Z 0) 0 None None None.

Definition tallyEntered (t : RunTally) (roundNo : Z) (amountUsd : num) : RunTally :=
  if match lastRound t with Some last => roundNo <? last | None => false end then t else
  let same := bool_decide (lastRound t = Some roundNo) in
  let correctingAMiss := same && bool_decide (lastOutcome t = Some t_missed) in
  if same && negb correctingAMiss then t else
  mkTally (armedAtMs t) (entered t + 1) (add (spentUsd t) (if is_finite amountUsd then amountUsd else of_Z 0))
    (if correctingAMiss then missed t - 1 else missed t) (Some (default roundNo (firstRound t))) (Some roundNo)
    (Some t_entered).

Definition tallyMissed (t : RunTally) (roundNo : Z) : RunTally :=
  if match lastRound t with Some last => roundNo <=? last | None => false end then t else
  mkTally (armedAtMs t) (entered t) (spentUsd t) (missed t + 1) (Some (default roundNo (firstRound t))) (Some roundNo)
    (Some t_missed).

(** ** What may be sent *)

Definition limitBlock (limits : AutoLimits) (tally : RunTally) (pnl : RunPnlReading) : option LimitBlock :=
  let stopUsd := drawdownStopUsd limits in
  let stopSet := match drawdownStopPct limits with Some _ => true | None => false end in
  let knownUsd := match pnl with known usd => if is_finite usd then Some usd else None | _ => None end in
  let lostUsd := provenLossUsd pnl in
  if match stopUsd with Some stop => ltb (of_Z 0) lostUsd && leb stop lostUsd | None => false end
  then Some drawdown_stopped else
  let budgetLeftUsd := sub (budgetUsd limits) (spentUsd tally) in
  if negb (is_finite budgetLeftUsd) || ltb budgetLeftUsd MIN_STAKE_USD then Some budget_spent else
  if match maxRounds limits with Some m => negb (ltb (of_Z (entered tally)) m) | None => false end
  then Some round_ceiling else
  if stopSet && (bool_decide (stopUsd = None) || bool_decide (knownUsd = None)) then Some drawdown_unknown else None.

(** [Math.min] of the four bounds. *)
Definition sendRoom (amountUsd : num) (limits : AutoLimits) (spent : num) : num :=
  min (min (min amountUsd (perRoundCapUsd limits)) (sub (budgetUsd limits) spent)) STAKE_CAP_USD.

Definition clampToLimits (amountUsd : num) (limits : AutoLimits) (spent : num) : option num :=
  if negb (is_finite amountUsd) || leb amountUsd (of_Z 0) then None else
  let room := sendRoom amountUsd limits spent in
  if negb (is_finite room) then None else
  if ltb room MIN_STAKE_USD then None else
  let cents := round (mul room (of_Z 100)) in
  let cents := if ltb room (div cents (of_Z 100)) then sub cents (of_Z 1) else cents in
  Some (div cents (of_Z 100)).

(** ** The runway *)

Definition ASSUMED_ROUND_SECONDS : num := of_Z 90.

Inductive RunwayBound : Type := bound_money | bound_session | bound_rounds.

Record Runway : Type := mkRunway {
  feePerRoundUsd : num;
  roundsIfBreakEven : option num;
  roundsIfAllLost : num;
  roundsThisSession : option num;
  roundsToCeiling : option num;
  binding : RunwayBound;
}.

Definition finiteOrZero (n : num) : num := if is_finite n then max (of_Z 0) n else of_Z 0.

Section Runway_.
Open Scope js_scope.

(** [usdToUnits] throws when the stake in units overflows to infinity. *)
Definition runway (stake : num) (fee : FeeRate) (limits : AutoLimits) (tally : RunTally)
    (sessionMinutesLeft : option num) : outcome js_error Runway :=
  let stakeUsd := finiteOrZero stake in
  let! units := usdToUnits stakeUsd in
  let feePerRoundUsd := unitsToUsd (feeOn units fee) in
  let budgetLeftUsd := finiteOrZero (sub (budgetUsd limits) (spentUsd tally)) in
  let roundsIfAllLost := if leb stakeUsd (of_Z 0) then of_Z 0 else floor (div budgetLeftUsd stakeUsd) in
  let roundsThisSession :=
    (fun m => floor (div (finiteOrZero (mul m (of_Z 60))) ASSUMED_ROUND_SECONDS)) <$> sessionMinutesLeft in
  let roundsToCeiling := (fun m => max (of_Z 0) (sub m (of_Z (entered tally)))) <$> maxRounds limits in
  let '(binding, least) :=
    match roundsToCeiling with
    | Some r => if ltb r roundsIfAllLost then (bound_rounds, r) else (bound_money, roundsIfAllLost)
    | None => (bound_money, roundsIfAllLost)
    end in
  let binding :=
    match roundsThisSession with
    | Some r => if ltb r least then bound_session else binding
    | None => binding
    end in
  Done (mkRunway feePerRoundUsd
    (if leb feePerRoundUsd (of_Z 0) then None else Some (floor (div budgetLeftUsd feePerRoundUsd)))
    roundsIfAllLost roundsThisSession roundsToCeiling binding).
End Runway_.

(** ** The strategy *)

Inductive SideRule : Type := repeat_side.

Inductive AmountRule : Type := fixed (usd : num) | pct (pct_ : num).

Record Strategy : Type := mkStrategy { st_amount : AmountRule; st_side : SideRule }.

Definition chooseSide (rule : SideRule) (lastSide : option Side) : option Side :=
  match rule with repeat_side => lastSide end.
