(* ===== verification/AutoPolicyLaws.v ===== *)
(** * What the bounds of an unattended run guarantee

    The theorems about [AutoPolicy]: what may be sent, when the limits stop a
    run, and that each round is booked once in the profit and loss and in the
    tally. *)
From stdpp Require Import sorting.
From S2P Require Import Prelude JsNum ErSim Chain AutoSession AutoPolicy.

(** ** Whole cents *)

(** [k] cents, as the double the code divides out. *)
Definition cents_usd (k : Z) : num := unitsToUsd (k * 10000).

Lemma cents_usd_eq k : 0 <= k <= 2 ^ 30 -> cents_usd k = Fin (rnd (k * one) 100) /\ Z.abs (rnd (k * one) 100) < overflow.
Proof.
  intros Hk. pose proof one_pos. pose proof overflow_big. unfold cents_usd, unitsToUsd, UNITS_PER_USD.
  assert (Hb : Z.abs (rnd (k * one) 100) < overflow).
  { pose proof (rnd_nonneg (k * one) 100 ltac:(nia) ltac:(lia)).
    pose proof (rnd_le (k * one) (k * one) 100 ltac:(lia) ltac:(apply rnd_int; lia) ltac:(nia)).
    assert (k * one <= 2 ^ 53 * one) by (apply Z.mul_le_mono_nonneg_r; lia). lia. }
  split; [| done]. rewrite !of_Z_exact by lia. simpl div. rewrite (proj2 (Z.eqb_neq _ _)) by lia.
  rewrite Z.sgn_pos, Z.abs_eq, Z.mul_1_l by lia. unfold of_ratio.
  replace (k * 10000 * one * one) with (k * one * (10000 * one)) by ring.
  replace (1000000 * one) with (100 * (10000 * one)) by ring. rewrite rnd_scale by lia. by apply mk_fin.
Qed.

Lemma div_cents k : 0 <= k <= 2 ^ 30 -> div (of_Z k) (of_Z 100) = cents_usd k.
Proof.
  intros Hk. pose proof one_pos. destruct (cents_usd_eq k Hk) as [-> Hb].
  rewrite !of_Z_exact by lia. simpl div. rewrite (proj2 (Z.eqb_neq _ _)) by lia.
  rewrite Z.sgn_pos, Z.abs_eq, Z.mul_1_l by lia. unfold of_ratio. rewrite rnd_scale by lia. by apply mk_fin.
Qed.

Lemma cents_usd_mono j k : 0 <= j <= k -> k <= 2 ^ 30 -> leb (cents_usd j) (cents_usd k) = true.
Proof.
  intros Hj Hk. destruct (cents_usd_eq j ltac:(lia)) as [-> _], (cents_usd_eq k ltac:(lia)) as [-> _].
  rewrite leb_fin. apply Z.leb_le, rnd_mono; [lia.. |]. pose proof one_pos. nia.
Qed.

Lemma min_stake_cent : MIN_STAKE_USD = cents_usd 1.
Proof. destruct (cents_usd_eq 1 ltac:(lia)) as [-> H]. unfold MIN_STAKE_USD, of_ratio. by apply mk_fin. Qed.

Lemma min_stake_not_nan : is_nan MIN_STAKE_USD = false.
Proof. unfold MIN_STAKE_USD, of_ratio. apply mk_not_nan. Qed.

Lemma one_large : 2 ^ 60 <= one.
Proof. rewrite one_pow. apply Z.pow_le_mono_r; lia. Qed.

(** The nearest number of cents to a room between the smallest stake and the cap. *)
Lemma room_cents R :
  representable R -> rnd (1 * one) 100 <= R <= 100 * one ->
  exists c, round (mul (Fin R) (of_Z 100)) = of_Z c /\ 1 <= c <= 10000 /\
    (c - 1) * one <= R * 100 /\ 4 * (R * 100) + one <= 4 * ((c + 1) * one).
Proof.
  intros HR [Hlo Hhi]. pose proof one_large as H1. pose proof overflow_big as Hov.
  set (p := rnd (R * 100) 1).
  assert (HR0 : 0 <= R) by (pose proof (rnd_nonneg (1 * one) 100 ltac:(lia) ltac:(lia)); lia).
  pose proof (rnd_err (R * 100) 1 ltac:(lia) ltac:(lia)) as Ep. fold p in Ep.
  pose proof (rnd_err (1 * one) 100 ltac:(lia) ltac:(lia)) as Em.
  assert (Em2 : 2 ^ 53 * Z.abs (rnd (1 * one) 100 * 100 - 1 * one) <= one) by lia. clear Em.
  assert (Hp : 8 * Z.abs (p * 1 - R * 100) < one) by lia.
  assert (Hmul : mul (Fin R) (of_Z 100) = Fin p).
  { rewrite of_Z_exact by lia. simpl. unfold of_ratio.
    replace (R * (100 * one)) with (R * 100 * one) by ring. replace one with (1 * one) at 2 by ring.
    rewrite rnd_scale by lia. apply mk_fin. fold p. lia. }
  set (c := (2 * p + one) / (2 * one)).
  pose proof (Z.div_mod (2 * p + one) (2 * one) ltac:(lia)) as Hc. fold c in Hc.
  pose proof (Z.mod_pos_bound (2 * p + one) (2 * one) ltac:(lia)) as Hm.
  assert (Hc1 : 1 <= c).
  { apply Z.div_le_lower_bound; lia. }
  assert (Hc2 : c <= 10000).
  { assert (c < 10001); [| lia]. apply Z.div_lt_upper_bound; lia. }
  exists c. split_and!; try lia.
  rewrite Hmul, of_Z_exact by lia. reflexivity.
Qed.

Lemma room_bounds a b c d :
  let room := min (min (min a b) c) d in
  is_nan room = false ->
  leb room a = true /\ leb room b = true /\ leb room c = true /\ leb room d = true.
Proof.
  intros room Hn. subst room. pose proof Hn as Hn'. rewrite !min_nan in Hn'.
  assert (H3 : is_nan (min (min a b) c) = false) by (rewrite !min_nan; by destruct (is_nan a), (is_nan b), (is_nan c)).
  assert (H2 : is_nan (min a b) = false) by (rewrite min_nan; destruct (is_nan a), (is_nan b); done).
  pose proof (min_l _ _ Hn) as L3. pose proof (min_l _ _ H3) as L2.
  split_and!; [| | | exact (min_r _ _ Hn)].
  - exact (leb_trans _ _ _ L3 (leb_trans _ _ _ L2 (min_l _ _ H2))).
  - exact (leb_trans _ _ _ L3 (leb_trans _ _ _ L2 (min_r _ _ H2))).
  - exact (leb_trans _ _ _ L3 (min_r _ _ H3)).
Qed.

Lemma cents_in_room k R :
  representable R -> 0 <= k <= 10000 -> k * one <= R * 100 -> leb (cents_usd k) (Fin R) = true.
Proof.
  intros [HR _] Hk Hle. destruct (cents_usd_eq k ltac:(lia)) as [-> _]. rewrite leb_fin. apply Z.leb_le, rnd_le; lia.
Qed.

Lemma cents_above_room k R :
  0 <= R -> 0 <= k <= 10001 -> 4 * (R * 100) + one <= 4 * (k * one) -> ltb (Fin R) (cents_usd k) = true.
Proof.
  intros HR Hk Hle. pose proof one_large. destruct (cents_usd_eq k ltac:(lia)) as [-> _].
  assert (Hk0 : 0 <= k * one <= 10001 * one) by (split; [apply Z.mul_nonneg_nonneg | apply Z.mul_le_mono_nonneg_r]; lia).
  pose proof (rnd_err (k * one) 100 ltac:(lia) ltac:(lia)) as E. apply Z.ltb_lt.
  generalize dependent (k * one). intros. lia.
Qed.

(** What the clamp answers inside a room that is worth something. *)
Lemma clamp_in_room R :
  representable R -> leb MIN_STAKE_USD (Fin R) = true -> R <= 100 * one ->
  let cents := round (mul (Fin R) (of_Z 100)) in
  let cents' := if ltb (Fin R) (div cents (of_Z 100)) then sub cents (of_Z 1) else cents in
  exists k, div cents' (of_Z 100) = cents_usd k /\ 1 <= k <= 10000 /\ leb (cents_usd k) (Fin R) = true /\
    ltb (Fin R) (cents_usd (k + 1)) = true.
Proof.
  intros HR Hmin Hcap cents cents'. pose proof one_large.
  rewrite min_stake_cent in Hmin. destruct (cents_usd_eq 1 ltac:(lia)) as [E1 _].
  pose proof Hmin as Hmin'. rewrite E1, leb_fin in Hmin'. apply Z.leb_le in Hmin'.
  assert (HR0 : 0 <= R) by (pose proof (rnd_nonneg (1 * one) 100 ltac:(lia) ltac:(lia)); lia).
  destruct (room_cents R HR (conj Hmin' Hcap)) as (c & Ec & Hc & Hlo & Hhi).
  subst cents' cents. rewrite Ec, div_cents by lia. destruct (ltb (Fin R) (cents_usd c)) eqn:El.
  - assert (Hc2 : 2 <= c).
    { destruct (decide (c = 1)) as [-> |]; [| lia]. apply leb_not_ltb in Hmin. congruence. }
    exists (c - 1). rewrite sub_int, div_cents by (unfold safe; lia).
    split_and!; [done | lia.. | apply cents_in_room; [done | lia..] |]. by replace (c - 1 + 1) with c by lia.
  - exists c. rewrite div_cents by lia. split_and!; [done | lia.. | | apply cents_above_room; lia].
    apply not_ltb; [done | | exact El]. destruct (cents_usd_eq c ltac:(lia)) as [-> _]. done.
Qed.

(** The amount sent is whole cents, at least the smallest stake, at most every
    bound, and within a cent of the tightest one. *)
Definition sendable (amount : num) (limits : AutoLimits) (spent x : num) : Prop :=
  exists k, x = cents_usd k /\ 1 <= k <= 10000 /\ usdToUnits x = Done (k * 10000) /\
    leb MIN_STAKE_USD x = true /\ leb x amount = true /\ leb x (perRoundCapUsd limits) = true /\
    leb x (sub (budgetUsd limits) spent) = true /\ leb x STAKE_CAP_USD = true /\
    ltb (sendRoom amount limits spent) (cents_usd (k + 1)) = true.

Lemma clamp_some amount limits spent x :
  is_double amount -> is_double (perRoundCapUsd limits) ->
  clampToLimits amount limits spent = Some x -> sendable amount limits spent x.
Proof.
  intros Ha Hcap. unfold clampToLimits. destruct (negb (is_finite amount) || _); [discriminate |].
  set (room := sendRoom amount limits spent). cbv zeta.
  destruct (is_finite room) eqn:Hf; simpl; [| discriminate].
  destruct (ltb room MIN_STAKE_USD) eqn:Hmin; [discriminate |]. intros Hx.
  assert (Hroom : is_double room).
  { exact (min_double _ _ (min_double _ _ (min_double _ _ Ha Hcap) (sub_double _ _)) stake_cap_double). }
  destruct (room_bounds amount (perRoundCapUsd limits) (sub (budgetUsd limits) spent) STAKE_CAP_USD
    (finite_nan _ Hf)) as (B1 & B2 & B3 & B4).
  fold (sendRoom amount limits spent) in B1, B2, B3, B4. fold room in B1, B2, B3, B4.
  destruct room as [| |R] eqn:ER; [discriminate Hf.. |].
  assert (Hmin' : leb MIN_STAKE_USD (Fin R) = true).
  { exact (not_ltb (Fin R) MIN_STAKE_USD eq_refl min_stake_not_nan Hmin). }
  assert (HRcap : R <= 100 * one).
  { unfold STAKE_CAP_USD in B4. rewrite of_Z_exact, leb_fin in B4 by lia. by apply Z.leb_le in B4. }
  destruct (clamp_in_room R Hroom Hmin' HRcap) as (k & Ek & Hk & Hle & Habove). cbv zeta in Ek.
  rewrite Ek in Hx. assert (Ex : cents_usd k = x) by exact (f_equal (default NaN) Hx). subst x.
  exists k. split_and!; [reflexivity | lia.. | apply units_roundtrip; lia | | | | | |].
  - rewrite min_stake_cent. apply cents_usd_mono; lia.
  - exact (leb_trans _ _ _ Hle B1).
  - exact (leb_trans _ _ _ Hle B2).
  - exact (leb_trans _ _ _ Hle B3).
  - exact (leb_trans _ _ _ Hle B4).
  - fold room. rewrite ER. exact Habove.
Qed.

(** What the clamp lets through is a whole number of cents, at least the
    smallest stake and at most the amount asked, the per-round cap, what is
    left of the budget and the arena's cap; it converts to chain units exactly,
    as ten thousand units a cent; and it is never a whole cent short of the
    tightest bound.  It answers nothing only for an amount that is no positive
    number or a room that is no number or below the smallest stake. *)
Theorem clamp_within_limits amount limits spent :
  is_double amount -> is_double (perRoundCapUsd limits) ->
  (forall x, clampToLimits amount limits spent = Some x -> sendable amount limits spent x) /\
  (clampToLimits amount limits spent = None <->
     is_finite amount = false \/ leb amount (of_Z 0) = true \/
     is_finite (sendRoom amount limits spent) = false \/ ltb (sendRoom amount limits spent) MIN_STAKE_USD = true).
Proof.
  intros Ha Hcap. split; [intros x; by apply clamp_some |].
  unfold clampToLimits. cbv zeta. destruct (is_finite amount); simpl negb; cbv iota; simpl orb; [| tauto].
  destruct (leb amount (of_Z 0)); [tauto |]. destruct (is_finite (sendRoom _ _ _)); simpl negb; cbv iota; [| tauto].
  destruct (ltb (sendRoom _ _ _) MIN_STAKE_USD); [tauto |].
  split; [discriminate |]. intros [H | [H | [H | H]]]; discriminate H.
Qed.

(** Seventy cents left of a budget: the last round of a run is a partial one. *)
Lemma clamp_within_limits_witness :
  let amount := of_Z 25 in let spent := of_ratio (24930 * one) 100 in
  (forall x, clampToLimits amount DEFAULT_LIMITS spent = Some x -> sendable amount DEFAULT_LIMITS spent x) /\
  (clampToLimits amount DEFAULT_LIMITS spent = None <->
     is_finite amount = false \/ leb amount (of_Z 0) = true \/
     is_finite (sendRoom amount DEFAULT_LIMITS spent) = false \/
     ltb (sendRoom amount DEFAULT_LIMITS spent) MIN_STAKE_USD = true).
Proof.
  exact (clamp_within_limits (of_Z 25) DEFAULT_LIMITS (of_ratio (24930 * one) 100) (of_Z_double 25) stake_cap_double).
Defined.

(** ** The limits *)

Lemma not_lost usd stop :
  is_finite usd = true -> is_nan stop = false ->
  ltb (of_Z 0) (max (of_Z 0) (neg usd)) && leb stop (max (of_Z 0) (neg usd)) = false ->
  leb (of_Z 0) usd = true \/ ltb (neg usd) stop = true.
Proof.
  rewrite of_Z_exact by lia. destruct usd as [| |u]; try discriminate. intros _ Hs. unfold max. simpl is_nan.
  cbv beta iota. simpl orb. cbv iota. simpl neg. simpl (ltb (Fin _) (Fin (- u))). rewrite Z.mul_0_l.
  destruct (Z.ltb_spec 0 (- u)).
  - simpl. rewrite (proj2 (Z.ltb_lt 0 (- u))) by lia. simpl. intros Hle. right.
    destruct stop as [| [] |]; try done. simpl in *. unfold leb in Hle. simpl in Hle.
    apply Z.ltb_lt. apply orb_false_iff in Hle as [H1 H2]. zbool. lia.
  - intros _. left. rewrite leb_fin. lia.
Qed.

Lemma stop_not_nan limits stop : drawdownStopUsd limits = Some stop -> is_nan stop = false.
Proof.
  unfold drawdownStopUsd. destruct (drawdownStopPct limits) as [pct |]; [| discriminate].
  destruct pct as [| |p]; try discriminate. destruct (budgetUsd limits) as [| |b]; try discriminate.
  simpl negb. cbv iota beta. simpl orb. cbv iota. intros [= <-]. rewrite of_Z_exact by lia. simpl mul.
  pose proof one_pos. unfold of_ratio, mk. destruct (overflow <=? _); simpl; [done |].
  rewrite (proj2 (Z.eqb_neq (100 * one) 0)) by lia. apply mk_not_nan.
Qed.

(** What a run that no limit blocks knows. *)
Lemma limit_block_none limits tally pnl :
  limitBlock limits tally pnl = None ->
  let left := sub (budgetUsd limits) (spentUsd tally) in
  is_finite left = true /\ leb MIN_STAKE_USD left = true /\
  (forall m, maxRounds limits = Some m -> ltb (of_Z (entered tally)) m = true) /\
  (forall pct, drawdownStopPct limits = Some pct ->
     exists usd stop, pnl = known usd /\ is_finite usd = true /\ is_finite pct = true /\
       stop = div (mul (budgetUsd limits) pct) (of_Z 100) /\
       (leb (of_Z 0) usd = true \/ ltb (neg usd) stop = true)).
Proof.
  unfold limitBlock. cbv zeta. set (left := sub (budgetUsd limits) (spentUsd tally)).
  destruct (match drawdownStopUsd limits with Some stop => _ | None => false end) eqn:Edd; [discriminate |].
  destruct (is_finite left) eqn:Hf; [| discriminate]. simpl negb. simpl orb.
  destruct (ltb left MIN_STAKE_USD) eqn:Hmin; [discriminate |].
  destruct (match maxRounds limits with Some m => _ | None => false end) eqn:Em; [discriminate |].
  intros Hst. split_and!; [reflexivity | exact (not_ltb _ _ (finite_nan _ Hf) min_stake_not_nan Hmin) | |].
  - intros m E. rewrite E in Em. by apply negb_false_iff in Em.
  - intros pct E. rewrite E in Hst. simpl andb in Hst.
    destruct (drawdownStopUsd limits) as [stop |] eqn:Es; [| rewrite bool_decide_true in Hst by done; discriminate].
    destruct pnl as [usd | b | r b]; try (rewrite (bool_decide_true (None = None)) in Hst by done;
      rewrite orb_true_r in Hst; discriminate).
    destruct (is_finite usd) eqn:Hu; [| rewrite (bool_decide_true (None = None)) in Hst by done;
      rewrite orb_true_r in Hst; discriminate].
    exists usd, stop. unfold provenLossUsd in Edd. rewrite Hu in Edd.
    pose proof (stop_not_nan _ _ Es) as Hn. unfold drawdownStopUsd in Es. rewrite E in Es.
    destruct (is_finite pct); [| discriminate]. simpl in Es. destruct (negb _); [discriminate |]. injection Es as <-.
    split_and!; [done.. | exact (not_lost usd _ Hu Hn Edd)].
Qed.

(** A run the limits let through is inside every one of them, whatever
    numbers the controls hold: what is left of the budget is a number and at
    least the smallest stake, fewer rounds were entered than the ceiling, and a
    run with a drawdown stop has a known profit and loss that is no loss or a
    loss below the stop.  In particular no limit that is not a number, and no
    unknown loss, lets a run through. *)
Theorem limits_clear limits tally pnl :
  limitBlock limits tally pnl = None ->
  let left := sub (budgetUsd limits) (spentUsd tally) in
  is_finite left = true /\ leb MIN_STAKE_USD left = true /\
  (forall m, maxRounds limits = Some m -> ltb (of_Z (entered tally)) m = true) /\
  (forall pct, drawdownStopPct limits = Some pct ->
     exists usd stop, pnl = known usd /\ is_finite usd = true /\ is_finite pct = true /\
       stop = div (mul (budgetUsd limits) pct) (of_Z 100) /\
       (leb (of_Z 0) usd = true \/ ltb (neg usd) stop = true)).
Proof. exact (limit_block_none limits tally pnl). Qed.

Lemma limits_clear_witness :
  limitBlock DEFAULT_LIMITS EMPTY_TALLY (known (of_Z (-100))) = None /\
  let left := sub (budgetUsd DEFAULT_LIMITS) (spentUsd EMPTY_TALLY) in
  is_finite left = true /\ leb MIN_STAKE_USD left = true /\
  (forall m, maxRounds DEFAULT_LIMITS = Some m -> ltb (of_Z (entered EMPTY_TALLY)) m = true) /\
  (forall pct, drawdownStopPct DEFAULT_LIMITS = Some pct ->
     exists usd stop, known (of_Z (-100)) = known usd /\ is_finite usd = true /\ is_finite pct = true /\
       stop = div (mul (budgetUsd DEFAULT_LIMITS) pct) (of_Z 100) /\
       (leb (of_Z 0) usd = true \/ ltb (neg usd) stop = true)).
Proof.
  assert (H : limitBlock DEFAULT_LIMITS EMPTY_TALLY (known (of_Z (-100))) = None) by (vm_compute; reflexivity).
  split; [exact H | exact (limits_clear DEFAULT_LIMITS EMPTY_TALLY (known (of_Z (-100))) H)].
Defined.

(** ** The profit and loss *)

Section Pnl.
(** The account a run is about, and what each finished round was worth to it. *)
Context (you : string) (outcome_of : Z -> Z) (Hyou : you <> EmptyString).

(** A log whose finished rounds are the chain's. *)
Definition honest (log : list RoundSummary) : Prop :=
  forall s, s ∈ log -> roundIsFinal (rs_phase s) = true -> playerUnits s you = outcome_of (rs_roundNo s).

(** A run's register over any interleaving of its confirmed deposits, any
    account's late confirmations, and readings of honest logs by any account;
    [es] are the rounds it took, latest first. *)
Inductive pnl_run : list Z -> RunPnl -> Prop :=
| pnl_start : pnl_run [] EMPTY_RUN_PNL
| pnl_enter es p r :
    pnl_run es p -> (forall last, lastEnteredRound p = Some last -> last < r) -> pnl_run (r :: es) (pnlEntered p r you)
| pnl_repeat es p r w :
    pnl_run es p -> es <> [] -> w <> you \/ (exists last, lastEnteredRound p = Some last /\ r <= last) ->
    pnl_run es (pnlEntered p r w)
| pnl_book es p log w :
    pnl_run es p -> (w = you -> honest log) -> pnl_run es (bookSettledRounds p log w).

(** The books: [booked] are the rounds in the total, each once; [through] the
    cursor; every entered round up to it is in, every one above it is owed. *)
Definition books (es : list Z) (p : RunPnl) (booked : list Z) : Prop :=
  NoDup booked /\ settledUnits p = zsum outcome_of booked /\
  lastEnteredRound p = head es /\ (bookedThrough p = None <-> es = []) /\ (es = [] -> booked = []) /\
  pnl_wallet p = match es with [] => EmptyString | _ => you end /\
  (forall through, bookedThrough p = Some through ->
     Forall (fun r => r <= through) booked /\ (forall r, r ∈ es -> r <= through -> r ∈ booked) /\
     (forall last, head es = Some last -> through <= last)) /\
  StronglySorted Z.gt es.

Lemma bookFrom_spec n : forall r log units through,
  honest log ->
  exists k, (k <= n)%nat /\
    bookFrom n r log you units through =
      (units + zsum outcome_of (seqZ r (Z.of_nat k)),
       if decide (k = 0%nat) then through else Some (r + Z.of_nat k - 1)) /\
    ((k < n)%nat -> ~ exists s, byRound log (r + Z.of_nat k) = Some s /\ roundIsFinal (rs_phase s) = true).
Proof.
  induction n as [| n IH]; intros r log units through Hlog; cbn [bookFrom].
  { exists 0%nat. split_and!; [lia | simpl; f_equal; lia | lia]. }
  destruct (byRound log r) as [s |] eqn:Eb.
  2: { exists 0%nat. split_and!; [lia | simpl; f_equal; lia |]. intros _ (s & Es & _).
       rewrite Z.add_0_r, Eb in Es. discriminate. }
  destruct (roundIsFinal (rs_phase s)) eqn:Ef.
  2: { exists 0%nat. split_and!; [lia | simpl; f_equal; lia |]. intros _ (s' & Es & Ef').
       rewrite Z.add_0_r, Eb in Es. injection Es as <-. congruence. }
  unfold byRound in Eb. apply fmap_Some in Eb as ([i s'] & Hfind & ->). simpl in *.
  apply list_find_Some in Hfind as (Hi & Hr & _). apply list_elem_of_lookup_2 in Hi. rewrite elem_of_reverse in Hi.
  rewrite (Hlog s' Hi Ef), Hr.
  destruct (IH (r + 1) log (units + outcome_of r) (Some r) Hlog) as (k & Hk & -> & Hstop).
  exists (S k). split_and!; [lia | | intros Hlt; replace (r + Z.of_nat (S k)) with (r + 1 + Z.of_nat k) by lia; apply Hstop; lia].
  rewrite (decide_False (P := S k = 0%nat)) by lia. f_equal.
  - rewrite (seqZ_cons r (Z.of_nat (S k))) by lia. simpl.
    replace (Z.succ r) with (r + 1) by lia. replace (Z.pred (Z.of_nat (S k))) with (Z.of_nat k) by lia. lia.
  - case_decide; [subst; f_equal; lia | f_equal; lia].
Qed.

Lemma books_start : books [] EMPTY_RUN_PNL [].
Proof. split_and!; try done; try constructor. Qed.

(** A deposit the register accepts. *)
Lemma pnlEntered_accepts es p booked r :
  books es p booked -> (forall last, lastEnteredRound p = Some last -> last < r) ->
  exists through, pnlEntered p r you = mkPnl (settledUnits p) (Some through) you (Some r) /\
    (bookedThrough p = Some through \/ bookedThrough p = lastEnteredRound p /\ through = r - 1).
Proof.
  intros (_ & _ & Hlast & Hnone & _ & Hw & _) Hr. unfold pnlEntered.
  assert (Hwal : negb (bool_decide (pnl_wallet p = EmptyString)) && negb (bool_decide (pnl_wallet p = you)) = false).
  { rewrite Hw. destruct es; [done |]. by rewrite (bool_decide_true (you = you)), andb_false_r by done. }
  rewrite Hwal.
  assert (Hle : match lastEnteredRound p with Some last => r <=? last | None => false end = false).
  { destruct (lastEnteredRound p) as [last |]; [| done]. specialize (Hr last eq_refl). lia. }
  rewrite Hle. destruct (decide (bookedThrough p = lastEnteredRound p)) as [Es | Es].
  - rewrite bool_decide_true by done. exists (r - 1). auto.
  - rewrite bool_decide_false by done. destruct (bookedThrough p) as [t |]; [exists t; auto |].
    destruct Hnone as [Hn _]. rewrite (Hn eq_refl) in Hlast. by rewrite Hlast in Es.
Qed.

Lemma books_enter es p booked r :
  books es p booked -> (forall last, lastEnteredRound p = Some last -> last < r) ->
  books (r :: es) (pnlEntered p r you) booked.
Proof.
  intros Hb Hr. destruct (pnlEntered_accepts _ _ _ _ Hb Hr) as (through & -> & Ht).
  destruct Hb as (Hnd & Hsum & Hlast & Hnone & Hnil & _ & Hthr & Hsort).
  assert (Hgt : Forall (Z.gt r) es).
  { destruct es as [| e es]; [constructor |]. simpl in Hlast. specialize (Hr e Hlast).
    inversion Hsort as [| ?? Hs Hf]; subst. constructor; [lia |]. eapply Forall_impl; [exact Hf |]. simpl. lia. }
  split_and!; simpl; try done.
  - intros t [= <-]. destruct Ht as [Ht | [Ht ->]].
    + destruct (Hthr _ Ht) as (H1 & H2 & H3). split_and!; [done | |].
      * intros x Hx Hle. apply elem_of_cons in Hx as [-> | Hx]; [| by apply H2].
        exfalso. destruct es as [| e es]; [by rewrite (proj2 Hnone eq_refl) in Ht |].
        specialize (H3 e eq_refl). specialize (Hr e Hlast). lia.
      * intros last [= <-]. destruct es as [| e es]; [by rewrite (proj2 Hnone eq_refl) in Ht |].
        specialize (H3 e eq_refl). specialize (Hr e Hlast). lia.
    + destruct (bookedThrough p) as [t |] eqn:Eb.
      * destruct (Hthr t eq_refl) as (H1 & H2 & H3). rewrite <- Ht in Hr. specialize (Hr t eq_refl). split_and!.
        -- eapply Forall_impl; [exact H1 |]. simpl. lia.
        -- intros x Hx Hle. apply elem_of_cons in Hx as [-> | Hx]; [lia |].
           apply H2; [done |]. destruct es as [| e es]; [by apply not_elem_of_nil in Hx |]. simpl in Hlast.
           rewrite Hlast in Ht. injection Ht as ->. apply elem_of_cons in Hx as [-> | Hx]; [lia |].
           inversion Hsort as [| ?? _ Hf]; subst. rewrite Forall_forall in Hf. specialize (Hf x Hx). lia.
        -- intros last [= <-]. lia.
      * pose proof (proj1 Hnone eq_refl) as E. subst es. rewrite (Hnil eq_refl).
        split_and!; [constructor | | intros last [= <-]; lia].
        intros x Hx Hle. rewrite list_elem_of_singleton in Hx. lia.
  - constructor; done.
Qed.

Lemma books_book es p booked log :
  books es p booked -> honest log -> exists booked', books es (bookSettledRounds p log you) booked'.
Proof.
  intros Hb Hlog. pose proof Hb as (Hnd & Hsum & Hlast & Hnone & Hnil & Hw & Hthr & Hsort).
  unfold bookSettledRounds. destruct (lastEnteredRound p) as [last |] eqn:El; [| by exists booked].
  destruct es as [| e es]; [done |]. simpl in Hlast, Hw. injection Hlast as <-.
  rewrite (bool_decide_false (you = EmptyString)), Hw, (bool_decide_true (you = you)), andb_false_r by done.
  destruct (bookedThrough p) as [t |] eqn:Et; [| discriminate (proj1 Hnone eq_refl)].
  simpl default. destruct (Z.ltb_spec last (t + 1)); [by exists booked |].
  destruct (bookFrom_spec (Z.to_nat (last - (t + 1) + 1)) (t + 1) log (settledUnits p) (Some t) Hlog)
    as (k & Hk & -> & _).
  destruct (decide (k = 0%nat)) as [-> | Hk0]; [rewrite bool_decide_true by done; by exists booked |].
  rewrite bool_decide_false by (intros [= ?]; lia).
  destruct (Hthr t eq_refl) as (H1 & H2 & H3).
  exists (seqZ (t + 1) (Z.of_nat k) ++ booked). unfold books. simpl.
  assert (Hin : forall x, x ∈ seqZ (t + 1) (Z.of_nat k) <-> t < x <= t + Z.of_nat k).
  { intros x. rewrite elem_of_seqZ. lia. }
  split_and!; try done.
  - apply NoDup_app. split_and!; [apply NoDup_seqZ | | done]. intros x Hx Hx'. apply Hin in Hx.
    rewrite Forall_forall in H1. specialize (H1 x Hx'). lia.
  - rewrite zsum_app. lia.
  - intros t' [= <-]. split_and!.
    + apply Forall_app. split; [apply Forall_forall; intros x Hx; apply Hin in Hx; lia |].
      eapply Forall_impl; [exact H1 |]. simpl. lia.
    + intros x Hx Hle. apply elem_of_app. destruct (decide (x <= t)); [right; by apply H2 | left; apply Hin; lia].
    + intros last' [= <-]. lia.
Qed.

Lemma pnl_run_books es p : pnl_run es p -> exists booked, books es p booked.
Proof.
  induction 1 as [| es p r H [b Hb] Hr | es p r w H [b Hb] Hne Hrep | es p log w H [b Hb] Hlog].
  - exists []. apply books_start.
  - exists b. by apply books_enter.
  - exists b. replace (pnlEntered p r w) with p; [done |].
    destruct Hb as (_ & _ & Hlast & _ & _ & Hw & _). destruct es as [| e es]; [done |].
    unfold pnlEntered. rewrite Hw, bool_decide_false by done. simpl andb.
    destruct (decide (you = w)) as [<- | Hwy]; [| by rewrite bool_decide_false].
    rewrite bool_decide_true by done. simpl. destruct Hrep as [? | (last & -> & Hle)]; [done |].
    by rewrite (proj2 (Z.leb_le r last)) by done.
  - destruct (decide (w = you)) as [-> | Hwy]; [by apply (books_book _ _ b); [| apply Hlog] |].
    exists b. replace (bookSettledRounds p log w) with p; [done |].
    destruct Hb as (_ & _ & Hlast & _ & _ & Hw & _). unfold bookSettledRounds.
    destruct es as [| e es]; [by rewrite Hlast |]. simpl in Hlast. rewrite Hlast.
    destruct (decide (w = EmptyString)); [by rewrite bool_decide_true |].
    by rewrite (bool_decide_false (w = EmptyString)), Hw, !bool_decide_false by done.
Qed.

(** A log that has every outstanding round finished squares the books. *)
Lemma book_squares es p booked log last :
  books es p booked -> honest log -> lastEnteredRound p = Some last ->
  (forall through, bookedThrough p = Some through ->
   forall r, through < r <= last -> exists s, byRound log r = Some s /\ roundIsFinal (rs_phase s) = true) ->
  bookedThrough (bookSettledRounds p log you) = Some last.
Proof.
  intros (Hnd & Hsum & Hlast & Hnone & Hnil & Hw & Hthr & _) Hlog El Hall.
  destruct es as [| e es]; [by rewrite Hlast in El |]. simpl in Hlast, Hw. rewrite El in Hlast. injection Hlast as <-.
  destruct (bookedThrough p) as [t |] eqn:Et; [| discriminate (proj1 Hnone eq_refl)].
  destruct (Hthr t eq_refl) as (_ & _ & Hle). specialize (Hle last eq_refl). specialize (Hall t eq_refl).
  unfold bookSettledRounds. rewrite El, Et.
  rewrite (bool_decide_false (you = EmptyString)), Hw, (bool_decide_true (you = you)), andb_false_r by done.
  simpl default. destruct (Z.ltb_spec last (t + 1)); [rewrite Et; f_equal; lia |].
  destruct (bookFrom_spec (Z.to_nat (last - (t + 1) + 1)) (t + 1) log (settledUnits p) (Some t) Hlog)
    as (k & Hk & -> & Hstop).
  assert (Hkn : k = Z.to_nat (last - (t + 1) + 1)).
  { destruct (decide (k < Z.to_nat (last - (t + 1) + 1))%nat) as [Hlt |]; [| lia].
    exfalso. apply (Hstop Hlt), Hall. lia. }
  rewrite decide_False, bool_decide_false by (lia || intros [= ?]; lia). simpl. f_equal. lia.
Qed.

(** Every round of a run is counted once and none is forgotten, however the
    log is re-read and whichever account is looking.  After any interleaving of
    confirmed deposits, repeated or foreign confirmations and readings of the
    round log, the total is the sum of the outcomes of a set of distinct
    rounds; an entered round is in that set exactly when the cursor has passed
    it; and as soon as a log holds every round still owed as finished, booking
    it leaves nothing owed and the reading is the total, with no log needed. *)
Theorem pnl_books_each_round_once es p :
  pnl_run es p ->
  exists booked, NoDup booked /\ settledUnits p = zsum outcome_of booked /\
    (forall r, r ∈ es -> (r ∈ booked <-> exists through, bookedThrough p = Some through /\ r <= through)) /\
    (forall log last, honest log -> lastEnteredRound p = Some last ->
      (forall through, bookedThrough p = Some through ->
       forall r, through < r <= last -> exists s, byRound log r = Some s /\ roundIsFinal (rs_phase s) = true) ->
      let p' := bookSettledRounds p log you in
      pnl_run es p' /\ bookedThrough p' = Some last /\
      (forall log', readRunPnl p' log' you = known (unitsToUsd (settledUnits p')))).
Proof.
  intros Hrun. destruct (pnl_run_books _ _ Hrun) as [booked Hb]. exists booked.
  pose proof Hb as (Hnd & Hsum & Hlast & Hnone & Hnil & Hw & Hthr & _). split_and!; [done.. | |].
  - intros r Hr. split.
    + intros Hin. destruct (bookedThrough p) as [t |] eqn:Et.
      * exists t. destruct (Hthr t eq_refl) as (H1 & _). rewrite Forall_forall in H1. auto.
      * rewrite (proj1 Hnone eq_refl) in Hr. by apply not_elem_of_nil in Hr.
    + intros (t & Et & Hle). destruct (Hthr t Et) as (_ & H2 & _). auto.
  - intros log last Hlog El Hall p'. pose proof (book_squares _ _ _ _ _ Hb Hlog El Hall) as Hsq. fold p' in Hsq.
    assert (Hrun' : pnl_run es p') by (apply pnl_book; [done | by intros _]).
    split_and!; [done.. |]. intros log'. destruct (pnl_run_books _ _ Hrun') as (b' & _ & _ & Hl' & _ & _ & Hw' & _).
    assert (El' : lastEnteredRound p' = Some last).
    { rewrite Hl', <- Hlast, El. done. }
    unfold readRunPnl. rewrite El', Hsq, (bool_decide_false (you = EmptyString)) by done.
    destruct es as [| e es]; [by rewrite Hlast in El |].
    rewrite Hw', (bool_decide_true (you = you)), andb_false_r by done. simpl default.
    by rewrite (proj2 (Z.ltb_lt last (last + 1))) by lia.
Qed.
End Pnl.

Lemma toy_pnl_run : pnl_run "me" (fun _ => -5) [40] (pnlEntered EMPTY_RUN_PNL 40 "me").
Proof. apply pnl_enter; [constructor | discriminate]. Qed.

Lemma pnl_books_each_round_once_witness :
  let p := pnlEntered EMPTY_RUN_PNL 40 "me" in
  exists booked, NoDup booked /\ settledUnits p = zsum (fun _ => -5) booked /\
    (forall r, r ∈ [40] -> (r ∈ booked <-> exists through, bookedThrough p = Some through /\ r <= through)) /\
    (forall log last, honest "me" (fun _ => -5) log -> lastEnteredRound p = Some last ->
      (forall through, bookedThrough p = Some through ->
       forall r, through < r <= last -> exists s, byRound log r = Some s /\ roundIsFinal (rs_phase s) = true) ->
      let p' := bookSettledRounds p log "me" in
      pnl_run "me" (fun _ => -5) [40] p' /\ bookedThrough p' = Some last /\
      (forall log', readRunPnl p' log' "me" = known (unitsToUsd (settledUnits p')))).
Proof.
  exact (pnl_books_each_round_once "me" (fun _ => -5) ltac:(discriminate) [40] _ toy_pnl_run).
Defined.

(** ** The tally *)

Inductive tally_event : Type := Confirmed (roundNo : Z) (amountUsd : num) | WrittenOff (roundNo : Z).

Definition tally_apply (t : RunTally) (e : tally_event) : RunTally :=
  match e with
  | Confirmed r amount => tallyEntered t r amount
  | WrittenOff r => tallyMissed t r
  end.

(** What a confirmed amount adds. *)
Definition charge (amount : num) : num := if is_finite amount then amount else of_Z 0.

(** A run's account: the rounds accounted for, latest first, each with the
    amount confirmed into it or nothing for a miss. *)
Definition account : Type := list (Z * option num).

Definition spent_of (l : account) : num :=
  foldr (fun e n => match snd e with Some a => add n (charge a) | None => n end) (of_Z 0) l.

Definition tallied (t : RunTally) (l : account) : Prop :=
  StronglySorted Z.gt (fst <$> l) /\
  entered t = zsum (fun e => match snd e with Some _ => 1 | None => 0 end) l /\
  missed t = zsum (fun e => match snd e with Some _ => 0 | None => 1 end) l /\
  spentUsd t = spent_of l /\
  lastRound t = fst <$> head l /\
  lastOutcome t = (fun e => match snd e with Some _ => t_entered | None => t_missed end) <$> head l /\
  firstRound t = fst <$> last l.

Lemma last_cons_some {A B} (f : A -> B) (x : A) (l : list A) :
  f <$> last (x :: l) = Some (default (f x) (f <$> last l)).
Proof. destruct l as [| y l]; [done |]. rewrite last_cons. by destruct (last (y :: l)) eqn:E; [| apply last_None in E]. Qed.

Lemma tallied_push t l r o :
  tallied t l -> (forall last, lastRound t = Some last -> last < r) -> StronglySorted Z.gt (fst <$> (r, o) :: l).
Proof.
  intros (Hs & _ & _ & _ & Hl & _) Hr. csimpl. constructor; [done |].
  destruct l as [| [r' o'] l]; [constructor |]. simpl in Hl. specialize (Hr r' Hl). csimpl in *.
  inversion Hs as [| ?? _ Hf]; subst. constructor; [lia |]. eapply Forall_impl; [exact Hf |]. simpl. lia.
Qed.

(** What one event does to the account: nothing, a new round on top, or the
    latest miss corrected. *)
Definition account_step (l : account) (e : tally_event) (l' : account) : Prop :=
  l' = l \/
  match e with
  | Confirmed r a => l' = (r, Some a) :: l \/ (exists k, l = (r, None) :: k /\ l' = (r, Some a) :: k)
  | WrittenOff r => l' = (r, None) :: l
  end.

Lemma tally_step t l e : tallied t l -> exists l', account_step l e l' /\ tallied (tally_apply t e) l'.
Proof.
  intros Ht. pose proof Ht as (Hs & He & Hm & Hsp & Hl & Ho & Hf). destruct e as [r a | r]; simpl.
  - unfold tallyEntered. destruct (lastRound t) as [last |] eqn:El.
    + destruct (Z.ltb_spec r last); [exists l; split; [by left | done] |].
      destruct (decide (last = r)) as [-> | Hne].
      * rewrite (bool_decide_true (Some r = Some r)) by done. simpl.
        destruct l as [| [r' o'] l]; [done |]. simpl in *. injection Hl as <-.
        destruct o' as [a' |]; rewrite Ho; simpl.
        -- exists ((r, Some a') :: l). split; [by left | done].
        -- exists ((r, Some a) :: l).
           split; [right; right; by exists l |]. unfold tallied. simpl. split_and!; try done; [lia.. | |].
           ++ by rewrite Hsp.
           ++ rewrite Hf, !(last_cons_some fst). done.
      * rewrite (bool_decide_false (Some last = Some r)) by congruence. simpl. exists ((r, Some a) :: l).
        split; [right; by left |].
        pose proof (tallied_push t l r (Some a) Ht ltac:(intros x Hx; rewrite El in Hx; injection Hx as <-; lia)).
        unfold tallied. cbn [entered missed spentUsd lastRound lastOutcome firstRound].
        rewrite last_cons_some, <- Hf. simpl. split_and!; try done; [lia.. |]. by rewrite Hsp.
    + rewrite (bool_decide_false (None = Some r)) by done. simpl. exists ((r, Some a) :: l).
      split; [right; by left |].
      pose proof (tallied_push t l r (Some a) Ht ltac:(intros x Hx; rewrite El in Hx; discriminate)).
      unfold tallied. cbn [entered missed spentUsd lastRound lastOutcome firstRound].
      rewrite last_cons_some, <- Hf. simpl. split_and!; try done; [lia.. |]. by rewrite Hsp.
  - unfold tallyMissed. destruct (lastRound t) as [last |] eqn:El.
    + destruct (Z.leb_spec r last); [exists l; split; [by left | done] |].
      exists ((r, None) :: l). split; [by right |].
      pose proof (tallied_push t l r None Ht ltac:(intros x Hx; rewrite El in Hx; injection Hx as <-; lia)).
      unfold tallied. cbn [entered missed spentUsd lastRound lastOutcome firstRound].
      rewrite last_cons_some, <- Hf. simpl. split_and!; try done; lia.
    + exists ((r, None) :: l). split; [by right |].
      pose proof (tallied_push t l r None Ht ltac:(intros x Hx; rewrite El in Hx; discriminate)).
      unfold tallied. cbn [entered missed spentUsd lastRound lastOutcome firstRound].
      rewrite last_cons_some, <- Hf. simpl. split_and!; try done; lia.
Qed.

Definition justified (evs : list tally_event) (l : account) : Prop :=
  forall r o, (r, o) ∈ l -> match o with Some a => Confirmed r a ∈ evs | None => WrittenOff r ∈ evs end.

Lemma justified_step evs l e l' : justified evs l -> account_step l e l' -> justified (evs ++ [e]) l'.
Proof.
  intros Hj Hs r o Hin.
  assert (Hold : (r, o) ∈ l -> match o with Some a => Confirmed r a ∈ evs ++ [e] | None => WrittenOff r ∈ evs ++ [e] end).
  { intros Hi. specialize (Hj r o Hi). destruct o; apply elem_of_app; by left. }
  destruct Hs as [-> | Hs]; [by apply Hold |].
  destruct e as [r' a | r']; [destruct Hs as [-> | (k & -> & ->)] | subst l'];
    apply elem_of_cons in Hin as [[= -> ->] | Hin]; try (apply elem_of_app; right; by apply list_elem_of_singleton);
    apply Hold; [done | by right | done].
Qed.

Lemma tally_run t0 evs :
  tallied t0 [] -> exists l, tallied (foldl tally_apply t0 evs) l /\ justified evs l.
Proof.
  intros H0. induction evs as [| e evs IH] using rev_ind; [exists []; split; [done | by intros r o ?%not_elem_of_nil] |].
  destruct IH as (l & Ht & Hj). rewrite foldl_app. simpl.
  destruct (tally_step _ _ e Ht) as (l' & Hs & Ht'). exists l'. split; [done | by apply (justified_step evs l)].
Qed.

Lemma sorted_gt_NoDup (l : list Z) : StronglySorted Z.gt l -> NoDup l.
Proof.
  induction 1 as [| x l _ IH Hf]; constructor; [| done]. intros Hin. rewrite Forall_forall in Hf.
  specialize (Hf x Hin). lia.
Qed.

(** A round is counted once whatever order its reports arrive in.  After
    any sequence of confirmations and write-offs a run's tally is the account of
    a set of distinct rounds, each either entered, with one confirmed amount
    somebody really reported, or missed; the counts, the dollars and the span
    are those of the account, so neither count is ever negative; and a
    confirmation for the newest round or a newer one always ends as entered,
    even when the round had been written off. *)
Theorem tally_counts_each_round_once armedAt evs :
  let t := foldl tally_apply (mkTally armedAt 0 (of_Z 0) 0 None None None) evs in
  exists l, tallied t l /\ NoDup (fst <$> l) /\ justified evs l /\
    0 <= entered t /\ 0 <= missed t /\ entered t + missed t = Z.of_nat (length l) /\
    (forall r a, (forall last, lastRound t = Some last -> last <= r) ->
       lastRound (tallyEntered t r a) = Some r /\ lastOutcome (tallyEntered t r a) = Some t_entered).
Proof.
  intros t. destruct (tally_run (mkTally armedAt 0 (of_Z 0) 0 None None None) evs) as (l & Ht & Hj).
  { split_and!; try done. constructor. }
  exists l. fold t in Ht. pose proof Ht as (Hs & He & Hm & _ & Hl & Ho & _).
  assert (Hcount : 0 <= entered t /\ 0 <= missed t /\ entered t + missed t = Z.of_nat (length l)).
  { rewrite He, Hm. clear. induction l as [| [r [a |]] l IH]; simpl; lia. }
  destruct Hcount as (? & ? & ?). split_and!; try done; [by apply sorted_gt_NoDup |].
  intros r a Hr. unfold tallyEntered. destruct (lastRound t) as [last |] eqn:El; [| done].
  specialize (Hr last eq_refl). rewrite (proj2 (Z.ltb_ge r last)) by lia.
  destruct (decide (last = r)) as [-> | Hne]; [| by rewrite (bool_decide_false (Some last = Some r)) by congruence].
  rewrite (bool_decide_true (Some r = Some r)) by done. simpl.
  destruct (decide (lastOutcome t = Some t_missed)) as [E | E]; [by rewrite bool_decide_true |].
  rewrite bool_decide_false by done. simpl. split; [done |].
  destruct l as [| [r' [a' |]] l]; [done | by rewrite Ho | by rewrite Ho in E].
Qed.

(** ** Signing with nobody watching *)

(** Nothing sent unattended can put a dialog in front of anybody.  A plan
    is silent exactly for the fixture, for a live session while signing is
    automatic, and for a local burner key; and a run that is not refused, with
    the world untouched, makes exactly one send, of the entry it was given,
    signed by the session in hand under a session plan and by no wallet
    otherwise. *)
Theorem unattended_never_prompts {W S E R} (input : SigningPlanInput) (session : option S) entry
    (send : UnattendedEntry -> option S -> W -> outcome E R * W) (w : W) :
  let plan := signingPlan input in
  (unattendedSigning plan = silent <->
     fixture input = true \/ auto input = true /\ (sessionActive input = true \/ mode input = mode_burner)) /\
  (runUnattendedEntry plan session entry send w = (Throw UNATTENDED_REFUSED, w) \/
   exists signer o w', send entry signer w = (o, w') /\
     runUnattendedEntry plan session entry send w =
       (match o with Done r => Done r | Throw e => Throw (SendError e) end, w') /\
     match signer with
     | Some s => plan = plan_session /\ session = Some s
     | None => fixture input = true \/ mode input = mode_burner /\ sessionActive input = false
     end).
Proof.
  unfold signingPlan, runUnattendedEntry. split.
  - destruct (fixture input); [simpl; tauto |]. destruct (sessionActive input), (auto input); simpl; try tauto;
      [split; [discriminate | intros [? | [? _]]; discriminate].. | |].
    + destruct (mode input); [simpl; tauto |].
      destruct (gated input); [| destruct (negb _)]; simpl; (split; [discriminate |]);
        intros [? | [_ [? | ?]]]; discriminate.
    + split; [discriminate | intros [? | [? _]]; discriminate].
  - destruct (fixture input); simpl.
    { right. destruct (send entry None w) as [[r | e] w'] eqn:Es; exists None; do 2 eexists; eauto. }
    destruct (sessionActive input) eqn:Ea, (auto input); simpl; try (left; reflexivity).
    + destruct session as [s |]; [right | by left].
      destruct (send entry (Some s) w) as [[r | e] w'] eqn:Es; exists (Some s); do 2 eexists; eauto.
    + destruct (mode input) eqn:Em; simpl.
      * right. destruct (send entry None w) as [[r | e] w'] eqn:Es; exists None; do 2 eexists; eauto 6.
      * destruct (gated input); [| destruct (negb _)]; by left.
Qed.
