(* ===== verification/AutoDeploy.v ===== *)
(** * The repeat-deposit rule

    [er-demo/src/v2/data/autoDeploy.ts], the decision ladder and the state
    transitions of unattended play, and the transitions the hook
    [useAutoDeploy.ts] composes them into. *)
From S2P Require Import Prelude JsNum ErSim Chain AutoSession AutoPolicy.

Definition MAX_TRIES : Z := 3.
Definition RETRY_BACKOFF_MS : num := of_Z 2000.

Inductive AttemptOutcome : Type := sending | landed | retrying | abandoned.

#[global] Instance AttemptOutcome_eq_dec : EqDecision AttemptOutcome.
Proof. solve_decision. Defined.

Inductive AbandonReason : Type :=
| entries_closed | phase_moved_on | retries_exhausted | round_moved_on | session_lapsed_round.

Record AutoDeployAttempt : Type := mkAttempt {
  at_roundNo : Z;
  outcome_ : AttemptOutcome;
  tries : Z;
  nextTryAtMs : option num;
  signature : option string;
  at_error : option string;
  abandonedBecause : option AbandonReason;
}.

Record AutoDeployState : Type := mkState {
  armed : bool;
  side : option Side;
  rule : AmountRule;
  floorRound : option Z;
  attempt : option AutoDeployAttempt;
  sideRule : SideRule;
  limits : AutoLimits;
  tally : RunTally;
  pnl : RunPnl;
  deadSessionEpoch : option Z;
}.

Definition ARMED_BY_DEFAULT : bool := false.

Definition INITIAL_AUTO_DEPLOY : AutoDeployState :=
  mkState ARMED_BY_DEFAULT None (fixed (of_Z 5)) None None repeat_side DEFAULT_LIMITS EMPTY_TALLY EMPTY_RUN_PNL None.

(** ** How much *)

Record SimBalances : Type := mkBalances { ansem : num; uwu : num; sol : num }.

Definition simBankrollUsd (balances : SimBalances) : num := min (ansem balances) (uwu balances).

Definition resolveAmountUsd (rule : AmountRule) (simWalletUsd : num) : option num :=
  let raw := match rule with fixed usd => usd | pct p => div (mul simWalletUsd p) (of_Z 100) end in
  if negb (is_finite raw) then None else
  if ltb raw MIN_STAKE_USD then None else
  Some (min STAKE_CAP_USD (div (round (mul raw (of_Z 100))) (of_Z 100))).

(** ** The decision *)

Inductive HoldReason : Type :=
| hold_disarmed | hold_no_side | hold_no_round | hold_round_changing | hold_waiting_for_next_round
| hold_deployed_this_round | hold_missed_this_round | hold_sending | hold_already_in | hold_amount_unusable
| hold_busy | hold_backing_off | hold_session_lapsed
| hold_signing (why : UnattendedBlock)
| hold_limit (which : LimitBlock).

Inductive AutoDeployDecision : Type :=
| fire (attemptNo : Z) (entry : UnattendedEntry)
| abandon (roundNo : Z) (reason : AbandonReason)
| hold (reason : HoldReason).

Record AutoDeployInput : Type := mkInput {
  in_state : AutoDeployState;
  in_roundNo : option Z;
  in_targetRoundNo : option Z;
  in_phase : option PhaseName;
  in_entriesOpen : bool;
  in_alreadyIn : bool;
  in_entering : bool;
  in_amountUsd : option num;
  in_signing : UnattendedSigning;
  in_sessionEpoch : Z;
  in_roundLog : list RoundSummary;
  in_youPubkey : string;
  in_nowMs : num;
}.

(** The record of this round's attempt; an attempt at another round is history. *)
Definition attemptFor (state : AutoDeployState) (roundNo : Z) : option AutoDeployAttempt :=
  match attempt state with
  | Some a => if decide (at_roundNo a = roundNo) then Some a else None
  | None => None
  end.

Definition outcomeIs (a : option AutoDeployAttempt) (o : AttemptOutcome) : bool :=
  match a with Some a => bool_decide (outcome_ a = o) | None => false end.

Definition decideAutoDeploy (input : AutoDeployInput) : AutoDeployDecision :=
  let state := in_state input in
  if negb (armed state) then hold hold_disarmed else
  match chooseSide (sideRule state) (side state) with None => hold hold_no_side | Some side =>
  match in_roundNo input with None => hold hold_no_round | Some roundNo =>
  if negb (bool_decide (in_targetRoundNo input = Some roundNo)) then hold hold_round_changing else
  if match floorRound state with Some f => roundNo <=? f | None => false end then hold hold_waiting_for_next_round else
  let this := attemptFor state roundNo in
  if outcomeIs this landed then hold hold_deployed_this_round else
  if outcomeIs this abandoned then hold hold_missed_this_round else
  if outcomeIs this sending then hold hold_sending else
  if outcomeIs (attempt state) sending then hold hold_sending else
  if in_alreadyIn input then hold hold_already_in else
  if bool_decide (deadSessionEpoch state = Some (in_sessionEpoch input)) then hold hold_session_lapsed else
  match in_signing input with blocked reason => hold (hold_signing reason) | silent =>
  match limitBlock (limits state) (tally state) (readRunPnl (pnl state) (in_roundLog input) (in_youPubkey input)) with
  | Some limited => hold (hold_limit limited) | None =>
  match in_amountUsd input with None => hold hold_amount_unusable | Some amountUsd =>
  match clampToLimits amountUsd (limits state) (spentUsd (tally state)) with
  | None => hold hold_amount_unusable | Some sendableUsd =>
  if negb (bool_decide (in_phase input = Some Lobby)) then abandon roundNo phase_moved_on else
  if negb (in_entriesOpen input) then abandon roundNo entries_closed else
  if match this with Some a => MAX_TRIES <=? tries a | None => false end then abandon roundNo retries_exhausted else
  if in_entering input then hold hold_busy else
  if match this with
     | Some a => match nextTryAtMs a with Some t => ltb (in_nowMs input) t | None => false end
     | None => false
     end then hold hold_backing_off else
  fire (match this with Some a => tries a | None => 0 end + 1) (mkEntry roundNo side sendableUsd)
  end end end end end end.

(** ** Transitions *)

Definition with_attempt (s : AutoDeployState) (a : AutoDeployAttempt) : AutoDeployState :=
  mkState (armed s) (side s) (rule s) (floorRound s) (Some a) (sideRule s) (limits s) (tally s) (pnl s) (deadSessionEpoch s).

Definition armWith (s : AutoDeployState) (strategy : Strategy) (lims : AutoLimits) (visibleRoundNo : option Z)
    (nowMs : num) : AutoDeployState :=
  mkState true (side s) (st_amount strategy) visibleRoundNo None (st_side strategy) lims
    (mkTally nowMs 0 (of_Z 0) 0 None None None) EMPTY_RUN_PNL None.

Definition arm (s : AutoDeployState) (r : AmountRule) (visibleRoundNo : option Z) (nowMs : num) : AutoDeployState :=
  armWith s (mkStrategy r (sideRule s)) (limits s) visibleRoundNo nowMs.

Definition disarm (s : AutoDeployState) : AutoDeployState :=
  mkState false (side s) (rule s) (floorRound s) (attempt s) (sideRule s) (limits s) (tally s) (pnl s) (deadSessionEpoch s).

Definition sameRule (a b : AmountRule) : bool :=
  match a, b with fixed x, fixed y => eqb x y | pct x, pct y => eqb x y | _, _ => false end.

Definition setRule (s : AutoDeployState) (r : AmountRule) : AutoDeployState :=
  if sameRule (rule s) r then s else
  mkState (armed s) (side s) r (floorRound s) (attempt s) (sideRule s) (limits s) (tally s) (pnl s) (deadSessionEpoch s).

(** [===] on a number or [null]. *)
Definition sameOpt (a b : option num) : bool :=
  match a, b with Some x, Some y => eqb x y | None, None => true | _, _ => false end.

Definition sameLimits (a b : AutoLimits) : bool :=
  eqb (budgetUsd a) (budgetUsd b) && eqb (perRoundCapUsd a) (perRoundCapUsd b) &&
  sameOpt (drawdownStopPct a) (drawdownStopPct b) && sameOpt (maxRounds a) (maxRounds b).

Definition setLimits (s : AutoDeployState) (l : AutoLimits) : AutoDeployState :=
  if sameLimits (limits s) l then s else
  mkState (armed s) (side s) (rule s) (floorRound s) (attempt s) (sideRule s) l (tally s) (pnl s) (deadSessionEpoch s).

Definition noteDeploy (s : AutoDeployState) (sd : Side) : AutoDeployState :=
  if bool_decide (side s = Some sd) then s else
  mkState (armed s) (Some sd) (rule s) (floorRound s) (attempt s) (sideRule s) (limits s) (tally s) (pnl s) (deadSessionEpoch s).

Definition priorTries (prior : option AutoDeployAttempt) : Z := match prior with Some a => tries a | None => 0 end.
Definition priorError (prior : option AutoDeployAttempt) : option string := prior ≫= at_error.

Definition noteRoundEntered (s : AutoDeployState) (roundNo : Z) : AutoDeployState :=
  if match attempt s with Some a => roundNo <? at_roundNo a | None => false end then s else
  let prior := attemptFor s roundNo in
  if outcomeIs prior landed then s else
  with_attempt s (mkAttempt roundNo landed (priorTries prior) None (prior ≫= signature) None None).

Definition beginAttempt (s : AutoDeployState) (roundNo : Z) : AutoDeployState :=
  let prior := attemptFor s roundNo in
  with_attempt s (mkAttempt roundNo sending (priorTries prior) None None (priorError prior) None).

Definition attemptLanded (s : AutoDeployState) (roundNo : Z) (sig : string) (amountUsd : num) (wallet : string)
  : AutoDeployState :=
  match attempt s with
  | Some a =>
      if negb (at_roundNo a =? roundNo) then s else
      mkState (armed s) (side s) (rule s) (floorRound s)
        (Some (mkAttempt (at_roundNo a) landed (tries a + 1) None (Some sig) None (abandonedBecause a)))
        (sideRule s) (limits s) (tallyEntered (tally s) roundNo amountUsd) (pnlEntered (pnl s) roundNo wallet)
        (deadSessionEpoch s)
  | None => s
  end.

Definition bookRunPnl (s : AutoDeployState) (roundLog : list RoundSummary) (youPubkey : string) : AutoDeployState :=
  mkState (armed s) (side s) (rule s) (floorRound s) (attempt s) (sideRule s) (limits s) (tally s)
    (bookSettledRounds (pnl s) roundLog youPubkey) (deadSessionEpoch s).

Definition attemptFailed (s : AutoDeployState) (roundNo : Z) (err : string) (nowMs : num) : AutoDeployState :=
  match attempt s with
  | Some a =>
      if negb (at_roundNo a =? roundNo) then s else
      if bool_decide (outcome_ a = landed) then s else
      with_attempt s (mkAttempt (at_roundNo a) retrying (tries a + 1) (Some (add nowMs RETRY_BACKOFF_MS)) (signature a)
        (Some err) (abandonedBecause a))
  | None => s
  end.

Definition abandonAttempt (s : AutoDeployState) (roundNo : Z) (reason : AbandonReason) : AutoDeployState :=
  let prior := attemptFor s roundNo in
  mkState (armed s) (side s) (rule s) (floorRound s)
    (Some (mkAttempt roundNo abandoned (priorTries prior) None None (priorError prior) (Some reason)))
    (sideRule s) (limits s) (tallyMissed (tally s) roundNo) (pnl s) (deadSessionEpoch s).

Definition noteSessionRefused (s : AutoDeployState) (roundNo sessionEpoch : Z) : AutoDeployState :=
  let s := abandonAttempt s roundNo session_lapsed_round in
  mkState (armed s) (side s) (rule s) (floorRound s) (attempt s) (sideRule s) (limits s) (tally s) (pnl s)
    (Some sessionEpoch).

Definition expireStaleAttempt (s : AutoDeployState) (roundNo : option Z) : AutoDeployState :=
  match attempt s, roundNo with
  | Some a, Some r =>
      if r <=? at_roundNo a then s else
      if negb (bool_decide (outcome_ a = retrying)) then s else
      abandonAttempt s (at_roundNo a) round_moved_on
  | _, _ => s
  end.

(** ** The hook's compositions *)

Definition walletSwapped (previous next : string) : bool :=
  negb (bool_decide (previous = EmptyString)) && negb (bool_decide (next = EmptyString)) &&
  negb (bool_decide (previous = next)).

Definition bookConfirmedDeposit (s : AutoDeployState) (sd : Side) (roundNo : option Z) : AutoDeployState :=
  let withSide := noteDeploy s sd in
  match roundNo with
  | None => withSide
  | Some r => if outcomeIs (attempt s) sending then withSide else noteRoundEntered withSide r
  end.

(** How an unattended send ended: confirmed with its signature, refused because
    its session is gone, or failed with words. *)
Inductive SendResult : Type := Landed_with (sig : string) | SessionLapsed | FailedWith (message : string).

Definition applySendOutcome (s : AutoDeployState) (roundNo : Z) (amountUsd : num) (sessionEpochAtSend : Z)
    (walletAtSend : string) (result : SendResult) (nowMs : num) : AutoDeployState :=
  match result with
  | Landed_with sig => attemptLanded s roundNo sig amountUsd walletAtSend
  | SessionLapsed => noteSessionRefused s roundNo sessionEpochAtSend
  | FailedWith message => attemptFailed s roundNo message nowMs
  end.
