(* ===== verification/AutoDeployLaws.v ===== *)
(** * What the repeat-deposit rule guarantees

    The theorems about [AutoDeploy]: when it fires and when it writes a round
    off, and the invariants of a run under every interleaving of polls,
    confirmations, failures, hand deposits and control changes. *)
From S2P Require Import Prelude JsNum ErSim Chain AutoSession AutoPolicy AutoPolicyLaws AutoDeploy.

(** ** The ladder *)

(** A round the rule means to enter: every reason not to spend is out of the
    way, and [x] is what it may send. *)
Record intends (input : AutoDeployInput) (r : Z) (sd : Side) (x : num) : Prop := {
  i_armed : armed (in_state input) = true;
  i_side : side (in_state input) = Some sd;
  i_round : in_roundNo input = Some r /\ in_targetRoundNo input = Some r;
  i_floor : forall f, floorRound (in_state input) = Some f -> f < r;
  i_fresh : forall a, attempt (in_state input) = Some a -> outcome_ a <> sending /\
    (at_roundNo a = r -> outcome_ a = retrying);
  i_out : in_alreadyIn input = false;
  i_session : deadSessionEpoch (in_state input) <> Some (in_sessionEpoch input);
  i_silent : in_signing input = silent;
  i_limits : limitBlock (limits (in_state input)) (tally (in_state input))
    (readRunPnl (pnl (in_state input)) (in_roundLog input) (in_youPubkey input)) = None;
  i_amount : exists amount, in_amountUsd input = Some amount /\
    clampToLimits amount (limits (in_state input)) (spentUsd (tally (in_state input))) = Some x;
}.

(** What stands between an intended round and a send. *)
Definition ready (input : AutoDeployInput) (r : Z) : Prop :=
  in_phase input = Some Lobby /\ in_entriesOpen input = true /\ in_entering input = false /\
  forall a, attemptFor (in_state input) r = Some a ->
    tries a < MAX_TRIES /\ (forall t, nextTryAtMs a = Some t -> ltb (in_nowMs input) t = false).

Lemma attemptFor_some s r a : attemptFor s r = Some a <-> attempt s = Some a /\ at_roundNo a = r.
Proof.
  unfold attemptFor. destruct (attempt s) as [b |]; [| split; [discriminate | by intros []]].
  case_decide as Hr; split.
  - by intros [= <-].
  - by intros [[= <-] _].
  - discriminate.
  - by intros [[= <-] ?].
Qed.

Lemma outcomeIs_false a o : outcomeIs (Some a) o = false <-> outcome_ a <> o.
Proof. apply bool_decide_eq_false. Qed.

(** The one way past the tests that hold the rule still. *)
Lemma ladder_intends input d :
  decideAutoDeploy input = d -> (forall h, d <> hold h) -> exists r sd x, intends input r sd x.
Proof.
  unfold decideAutoDeploy. intros Hd Hnh.
  destruct (negb (armed _)) eqn:E1; [by destruct (Hnh hold_disarmed) |].
  destruct (sideRule (in_state input)). simpl chooseSide in Hd.
  destruct (side (in_state input)) as [sd |] eqn:E2; [| by destruct (Hnh hold_no_side)].
  destruct (in_roundNo input) as [r |] eqn:E3; [| by destruct (Hnh hold_no_round)].
  destruct (bool_decide (in_targetRoundNo input = Some r)) eqn:E4; [| by destruct (Hnh hold_round_changing)]. simpl in Hd.
  destruct (match floorRound (in_state input) with Some f => r <=? f | None => false end) eqn:E5;
    [by destruct (Hnh hold_waiting_for_next_round) |].
  destruct (outcomeIs (attemptFor _ r) landed) eqn:E6; [by destruct (Hnh hold_deployed_this_round) |].
  destruct (outcomeIs (attemptFor _ r) abandoned) eqn:E7; [by destruct (Hnh hold_missed_this_round) |].
  destruct (outcomeIs (attemptFor _ r) sending) eqn:E8; [by destruct (Hnh hold_sending) |].
  destruct (outcomeIs (attempt _) sending) eqn:E9; [by destruct (Hnh hold_sending) |].
  destruct (in_alreadyIn input) eqn:E10; [by destruct (Hnh hold_already_in) |].
  destruct (bool_decide (deadSessionEpoch _ = _)) eqn:E11; [by destruct (Hnh hold_session_lapsed) |].
  destruct (in_signing input) as [| why] eqn:E12; [| by destruct (Hnh (hold_signing why))].
  destruct (limitBlock _ _ _) as [l |] eqn:E13; [by destruct (Hnh (hold_limit l)) |].
  destruct (in_amountUsd input) as [amount |] eqn:E14; [| by destruct (Hnh hold_amount_unusable)].
  destruct (clampToLimits _ _ _) as [x |] eqn:E15; [| by destruct (Hnh hold_amount_unusable)].
  exists r, sd, x. zbool. split; auto.
  - intros f Ef. rewrite Ef in E5. lia.
  - intros a Ea. rewrite Ea in E9. apply outcomeIs_false in E9. split; [done |]. intros Hr.
    assert (Hfor : attemptFor (in_state input) r = Some a) by (by apply attemptFor_some).
    rewrite Hfor in E6, E7. apply outcomeIs_false in E6, E7. by destruct (outcome_ a).
  - eauto.
Qed.

Definition tried_out (this : option AutoDeployAttempt) : bool :=
  match this with Some a => MAX_TRIES <=? tries a | None => false end.

Definition backing_off (this : option AutoDeployAttempt) (nowMs : num) : bool :=
  match this with
  | Some a => match nextTryAtMs a with Some t => ltb nowMs t | None => false end
  | None => false
  end.

(** The rungs below the intent. *)
Definition last_rungs (input : AutoDeployInput) (r : Z) (sd : Side) (x : num) : AutoDeployDecision :=
  let this := attemptFor (in_state input) r in
  if negb (bool_decide (in_phase input = Some Lobby)) then abandon r phase_moved_on else
  if negb (in_entriesOpen input) then abandon r entries_closed else
  if tried_out this then abandon r retries_exhausted else
  if in_entering input then hold hold_busy else
  if backing_off this (in_nowMs input) then hold hold_backing_off else
  fire (priorTries this + 1) (mkEntry r sd x).

Lemma ladder_reaches input r sd x : intends input r sd x -> decideAutoDeploy input = last_rungs input r sd x.
Proof.
  intros [Ha Hsd [Hr Ht] Hfl Hfresh Hout Hses Hsil Hlim (amount & Ham & Hx)].
  unfold decideAutoDeploy, last_rungs, tried_out, backing_off, priorTries. rewrite Ha. destruct (sideRule (in_state input)).
  simpl chooseSide. rewrite Hsd, Hr, (bool_decide_true (in_targetRoundNo input = Some r)) by done. simpl negb. cbv iota.
  assert (E5 : match floorRound (in_state input) with Some f => r <=? f | None => false end = false).
  { destruct (floorRound (in_state input)) as [f |]; [| done]. specialize (Hfl f eq_refl). lia. }
  assert (E6 : forall o, o <> retrying -> outcomeIs (attemptFor (in_state input) r) o = false).
  { intros o Ho. destruct (attemptFor (in_state input) r) as [a |] eqn:Ea; [| done].
    apply attemptFor_some in Ea as [Ea Ear]. destruct (Hfresh a Ea) as [_ Hre]. apply outcomeIs_false.
    rewrite (Hre Ear). congruence. }
  assert (E9 : outcomeIs (attempt (in_state input)) sending = false).
  { destruct (attempt (in_state input)) as [a |]; [| done]. by apply outcomeIs_false, Hfresh. }
  rewrite E5, !E6, E9, Hout, (bool_decide_false (deadSessionEpoch _ = _)), Hsil, Hlim, Ham, Hx by done. reflexivity.
Qed.

Lemma intends_unique input r sd x r' sd' x' :
  intends input r sd x -> intends input r' sd' x' -> r = r' /\ sd = sd' /\ x = x'.
Proof.
  intros [_ H1 [H2 _] _ _ _ _ _ _ (a & H3 & H4)] [_ K1 [K2 _] _ _ _ _ _ _ (b & K3 & K4)].
  split_and!; congruence.
Qed.

Lemma rungs_ready input r sd x :
  ready input r -> last_rungs input r sd x = fire (priorTries (attemptFor (in_state input) r) + 1) (mkEntry r sd x).
Proof.
  intros (Hp & Ho & Hb & Ha). unfold last_rungs, tried_out, backing_off. rewrite Hp, Ho, Hb, bool_decide_true by done. simpl.
  destruct (attemptFor (in_state input) r) as [a |]; [| done]. destruct (Ha a eq_refl) as [Ht Hn].
  rewrite (proj2 (Z.leb_gt _ _)) by done. destruct (nextTryAtMs a) as [t |]; [| done]. by rewrite (Hn t eq_refl).
Qed.

Lemma rungs_fire input r sd x n e :
  last_rungs input r sd x = fire n e -> ready input r /\ n = priorTries (attemptFor (in_state input) r) + 1 /\ e = mkEntry r sd x.
Proof.
  unfold last_rungs. destruct (bool_decide (in_phase input = Some Lobby)) eqn:E1; [| discriminate].
  destruct (in_entriesOpen input) eqn:E2; [| discriminate]. simpl.
  destruct (tried_out _) eqn:E3; [discriminate |].
  destruct (in_entering input) eqn:E4; [discriminate |].
  destruct (backing_off _ _) eqn:E5; [discriminate |].
  intros [= <- <-]. zbool. split_and!; try done. split_and!; try done. intros a Ea.
  rewrite Ea in *. unfold tried_out, backing_off in *. zbool. split; [done |]. intros t Et. by rewrite Et in E5.
Qed.

(** Money moves only through every gate, and moves when all are open.  The
    rule fires exactly when it is armed with a side to repeat, the round read is
    the round that would be written and newer than the one it was armed in, no
    attempt is in flight and this round's is absent or waiting to be retried,
    the player is not already in, the session was not refused and the signature
    needs nobody, no limit is reached and the clamp leaves an amount, the lobby
    is open and taking entries, nothing else is being sent, fewer than three
    tries were made and the backoff has run out; and what it fires is that
    round, that side, and that amount. *)
Theorem fire_exact input n e :
  decideAutoDeploy input = fire n e <->
  exists r sd x, intends input r sd x /\ ready input r /\
    n = priorTries (attemptFor (in_state input) r) + 1 /\ e = mkEntry r sd x.
Proof.
  split.
  - intros Hd. destruct (ladder_intends input _ Hd) as (r & sd & x & Hi); [discriminate |].
    rewrite (ladder_reaches _ _ _ _ Hi) in Hd. exists r, sd, x. split; [done |]. by apply rungs_fire.
  - intros (r & sd & x & Hi & Hr & -> & ->). rewrite (ladder_reaches _ _ _ _ Hi). by apply rungs_ready.
Qed.

(** Declining is not missing.  A round is written off only when the rule
    meant to enter it, inside its limits and able to sign, and the lobby had
    moved on, had stopped taking entries, or had refused three tries; a rule
    that is held for a limit or a session never writes a round off. *)
Theorem abandon_only_intended input r why :
  decideAutoDeploy input = abandon r why ->
  exists sd x, intends input r sd x /\
    match why with
    | phase_moved_on => in_phase input <> Some Lobby
    | entries_closed => in_phase input = Some Lobby /\ in_entriesOpen input = false
    | retries_exhausted => exists a, attemptFor (in_state input) r = Some a /\ MAX_TRIES <= tries a
    | _ => False
    end.
Proof.
  intros Hd. destruct (ladder_intends input _ Hd) as (r' & sd & x & Hi); [discriminate |].
  rewrite (ladder_reaches _ _ _ _ Hi) in Hd. revert Hd. unfold last_rungs.
  destruct (bool_decide (in_phase input = Some Lobby)) eqn:E1; simpl; zbool; [| intros [= <- <-]; by exists sd, x].
  destruct (in_entriesOpen input) eqn:E2; simpl; [| intros [= <- <-]; exists sd, x; auto].
  destruct (tried_out _) eqn:E3.
  { intros [= <- <-]. exists sd, x. split; [done |]. destruct (attemptFor _ r') as [a |]; [| done]. exists a. unfold tried_out in E3. by zbool. }
  destruct (in_entering input); [discriminate |].
  destruct (backing_off _ _); discriminate.
Qed.

(** A lobby of round 42 closing with the rule armed in round 41: the round is lost. *)
Definition lost_input : AutoDeployInput :=
  mkInput (armWith (noteDeploy INITIAL_AUTO_DEPLOY side0) (mkStrategy (fixed (of_Z 5)) repeat_side) DEFAULT_LIMITS
      (Some 41) (of_Z 1000))
    (Some 42) (Some 42) (Some Lobby) false false false (Some (of_Z 5)) silent 1 [] "me" (of_Z 2000).

Lemma abandon_only_intended_witness :
  decideAutoDeploy lost_input = abandon 42 entries_closed /\
  exists sd x, intends lost_input 42 sd x /\ (in_phase lost_input = Some Lobby /\ in_entriesOpen lost_input = false).
Proof.
  assert (H : decideAutoDeploy lost_input = abandon 42 entries_closed) by (vm_compute; reflexivity).
  split; [exact H | exact (abandon_only_intended lost_input 42 entries_closed H)].
Defined.

(** ** A run *)

Record Flight : Type := mkFlight { fl_round : Z; fl_amount : num; fl_epoch : Z; fl_wallet : string }.

(** What happened to the money, latest first. *)
Inductive money : Type := Sent_to (r : Z) (x : num) | Landed_in (r : Z) (x : num).

(** A poll of the armed rule, as the hook's [evaluate] composes it: expire,
    book, decide, and act on the decision. *)
Definition polled (s : AutoDeployState) (input : AutoDeployInput) : AutoDeployState :=
  bookRunPnl (expireStaleAttempt s (in_roundNo input)) (in_roundLog input) (in_youPubkey input).

(** One run, from the press that armed it: the transactions in flight, what was
    sent and landed so far, and the newest round the page has targeted.  Round
    numbers only ever increase, on the page and in what a hand deposit was
    written to; everything else may come in any order. *)
Inductive auto_run : list money -> list Flight -> Z -> AutoDeployState -> Prop :=
| run_arm s strategy lims visible nowMs top :
    auto_run [] [] top (armWith s strategy lims visible nowMs)
| run_hold tr fl top s input h :
    auto_run tr fl top s -> in_state input = polled s input -> decideAutoDeploy input = hold h ->
    auto_run tr fl top (polled s input)
| run_abandon tr fl top s input r why :
    auto_run tr fl top s -> in_state input = polled s input -> decideAutoDeploy input = abandon r why -> top <= r ->
    auto_run tr fl r (abandonAttempt (polled s input) r why)
| run_fire tr fl top s input n e :
    auto_run tr fl top s -> in_state input = polled s input -> decideAutoDeploy input = fire n e -> top <= ue_roundNo e ->
    auto_run (Sent_to (ue_roundNo e) (ue_amountUsd e) :: tr)
      (mkFlight (ue_roundNo e) (ue_amountUsd e) (in_sessionEpoch input) (in_youPubkey input) :: fl)
      (ue_roundNo e) (beginAttempt (polled s input) (ue_roundNo e))
| run_settle tr fl fl' top s f result nowMs :
    auto_run tr (fl ++ f :: fl') top s ->
    auto_run (match result with Landed_with _ => [Landed_in (fl_round f) (fl_amount f)] | _ => [] end ++ tr)
      (fl ++ fl') top (applySendOutcome s (fl_round f) (fl_amount f) (fl_epoch f) (fl_wallet f) result nowMs)
| run_hand tr fl top s sd r :
    auto_run tr fl top s -> (forall n, r = Some n -> n <= top) -> auto_run tr fl top (bookConfirmedDeposit s sd r)
| run_disarm tr fl top s : auto_run tr fl top s -> auto_run tr fl top (disarm s)
| run_rule tr fl top s r : auto_run tr fl top s -> auto_run tr fl top (setRule s r)
| run_limits tr fl top s l : auto_run tr fl top s -> auto_run tr fl top (setLimits s l).

Definition sent_to (r : Z) (tr : list money) : Z :=
  zsum (fun m => match m with Sent_to r' _ => if r' =? r then 1 else 0 | _ => 0 end) tr.
Definition landed_in (r : Z) (tr : list money) : Z :=
  zsum (fun m => match m with Landed_in r' _ => if r' =? r then 1 else 0 | _ => 0 end) tr.
Definition landings (tr : list money) : Z := zsum (fun m => match m with Landed_in _ _ => 1 | _ => 0 end) tr.
Definition landed_usd (tr : list money) : num :=
  foldr (fun m n => match m with Landed_in _ x => add n (charge x) | _ => n end) (of_Z 0) tr.

#[local] Arguments sent_to : simpl never.
#[local] Arguments landed_in : simpl never.
#[local] Arguments landings : simpl never.
#[local] Arguments landed_usd : simpl never.

Lemma sent_to_sent r r' x tr : sent_to r (Sent_to r' x :: tr) = sent_to r tr + (if r' =? r then 1 else 0).
Proof. unfold sent_to. simpl. lia. Qed.
Lemma sent_to_landed r r' x tr : sent_to r (Landed_in r' x :: tr) = sent_to r tr.
Proof. unfold sent_to. simpl. lia. Qed.
Lemma landed_in_sent r r' x tr : landed_in r (Sent_to r' x :: tr) = landed_in r tr.
Proof. unfold landed_in. simpl. lia. Qed.
Lemma landed_in_landed r r' x tr : landed_in r (Landed_in r' x :: tr) = landed_in r tr + (if r' =? r then 1 else 0).
Proof. unfold landed_in. simpl. lia. Qed.

Create Rewrite HintDb money.
#[local] Hint Rewrite sent_to_sent sent_to_landed landed_in_sent landed_in_landed : money.

(** The attempt record against what was sent and landed in its round. *)
Definition attempt_ok (tr : list money) (a : AutoDeployAttempt) : Prop :=
  let r := at_roundNo a in
  0 <= tries a /\ landed_in r tr <= 1 /\
  match outcome_ a with
  | sending => sent_to r tr = tries a + 1 /\ tries a < MAX_TRIES /\ landed_in r tr = 0
  | retrying => sent_to r tr = tries a /\ tries a <= MAX_TRIES /\ landed_in r tr = 0
  | abandoned => sent_to r tr <= MAX_TRIES /\ landed_in r tr = 0
  | landed => sent_to r tr <= MAX_TRIES
  end.

Definition tally_in_step (s : AutoDeployState) : Prop :=
  forall l, lastRound (tally s) = Some l -> exists a, attempt s = Some a /\ l <= at_roundNo a /\
    (l = at_roundNo a -> lastOutcome (tally s) = Some t_missed \/ outcome_ a = landed).

Record run_ok (tr : list money) (fl : list Flight) (top : Z) (s : AutoDeployState) : Prop := {
  ok_flight : match fl with
    | [] => forall a, attempt s = Some a -> outcome_ a <> sending
    | [f] => exists a, attempt s = Some a /\ outcome_ a = sending /\ at_roundNo a = fl_round f
    | _ => False
    end;
  ok_attempt : forall a, attempt s = Some a -> attempt_ok tr a /\ at_roundNo a <= top;
  ok_fresh : forall r, (forall a, attempt s = Some a -> at_roundNo a < r) -> sent_to r tr = 0 /\ landed_in r tr = 0;
  ok_bound : forall r, sent_to r tr <= MAX_TRIES /\ landed_in r tr <= 1;
  ok_tally : tally_in_step s;
  ok_entered : entered (tally s) = landings tr /\ spentUsd (tally s) = landed_usd tr;
}.

Lemma run_ok_same tr fl top s s' :
  attempt s' = attempt s -> tally s' = tally s -> run_ok tr fl top s -> run_ok tr fl top s'.
Proof.
  intros Ea Et [H1 H2 H3 H4 H5 H6]. split; unfold tally_in_step in *; rewrite ?Ea, ?Et; done.
Qed.

Lemma attemptFor_case s r :
  (exists a, attempt s = Some a /\ at_roundNo a = r /\ attemptFor s r = Some a) \/
  attemptFor s r = None /\ (forall a, attempt s = Some a -> at_roundNo a <> r).
Proof.
  unfold attemptFor. destruct (attempt s) as [a |]; [| right; split; [done | discriminate]].
  case_decide as Hd; [left; by exists a | right; split; [done | by intros ? [= <-]]].
Qed.

(** Writing a round off, at or above the attempt in hand. *)
Lemma abandon_ok tr fl top top' s r why :
  run_ok tr fl top s ->
  (forall a, attempt s = Some a -> at_roundNo a <= r /\ (at_roundNo a = r -> outcome_ a <> landed)) ->
  top <= top' -> r <= top' -> run_ok tr [] top' (abandonAttempt s r why).
Proof.
  intros [Hfl Hat Hfr Hbd Htl [He Hs]] Hr Htop Hrtop. unfold abandonAttempt.
  assert (Hnew : sent_to r tr <= MAX_TRIES /\ landed_in r tr = 0 /\ 0 <= priorTries (attemptFor s r)).
  { destruct (attemptFor_case s r) as [(a & Ea & Er & ->) | [-> Hne]].
    - destruct (Hat a Ea) as [(Ht & _ & Ho) _]. destruct (Hr a Ea) as [_ Hl]. specialize (Hl Er). rewrite Er in Ho.
      simpl. specialize (Hbd r). destruct (outcome_ a); [lia | done | lia | lia].
    - simpl. destruct (Hfr r) as [H1 H2]; [| unfold MAX_TRIES; lia].
      intros a Ea. specialize (Hne a Ea). specialize (Hr a Ea). lia. }
  split; simpl.
  - intros a [= <-]. done.
  - intros a [= <-]. unfold attempt_ok. simpl. lia.
  - intros r' Hlt. specialize (Hlt _ eq_refl). simpl in Hlt. apply Hfr. intros a Ea. specialize (Hr a Ea). lia.
  - done.
  - intros l. simpl. unfold tallyMissed. destruct (lastRound (tally s)) as [last |] eqn:El.
    + destruct (Htl last El) as (a & Ea & Hle & Hcase). destruct (Hr a Ea) as [Har Hnl].
      destruct (Z.leb_spec r last); simpl; [rewrite El |]; intros [= <-]; eexists; (split; [reflexivity |]); simpl; (split; [lia |]).
      * intros _. left. destruct Hcase as [? | Hlanded]; [lia | done |]. exfalso. apply Hnl; [lia | done].
      * by left.
    + simpl. intros [= <-]. eexists. split; [reflexivity |]. simpl. split; [lia | by left].
  - unfold tallyMissed. by destruct (match lastRound (tally s) with Some _ => _ | None => _ end).
Qed.

Lemma polled_ok tr fl top s input : run_ok tr fl top s -> run_ok tr fl top (polled s input).
Proof.
  intros Hok. unfold polled.
  apply (run_ok_same _ _ _ (expireStaleAttempt s (in_roundNo input))); [reflexivity.. |].
  unfold expireStaleAttempt. destruct (attempt s) as [a |] eqn:Ea; [| done]. destruct (in_roundNo input) as [r |]; [| done].
  destruct (r <=? at_roundNo a); [done |]. destruct (bool_decide (outcome_ a = retrying)) eqn:Eo; simpl; [| done]. zbool.
  pose proof (ok_attempt _ _ _ _ Hok a Ea) as [_ Hle].
  assert (fl = []) as ->.
  { pose proof (ok_flight _ _ _ _ Hok) as Hfl. destruct fl as [| f [| f' fl]]; [done | | done].
    destruct Hfl as (b & Eb & Hb & _). rewrite Ea in Eb. injection Eb as <-. congruence. }
  apply (abandon_ok _ [] top); [done | | lia | done]. intros b [= <-]%(eq_trans (eq_sym Ea)). split; [lia |]. congruence.
Qed.

(** An intended round is at or above the attempt in hand, and nothing is in flight. *)
Lemma intends_above tr fl top s input r sd x :
  run_ok tr fl top s -> in_state input = s -> intends input r sd x -> top <= r ->
  fl = [] /\ forall a, attempt s = Some a -> at_roundNo a <= r /\ (at_roundNo a = r -> outcome_ a = retrying).
Proof.
  intros Hok <- Hi Htop. pose proof (i_fresh _ _ _ _ Hi) as Hfresh. split.
  - pose proof (ok_flight _ _ _ _ Hok) as Hfl. destruct fl as [| f [| f' fl]]; [done | | done].
    destruct Hfl as (b & Eb & Hb & _). by destruct (Hfresh b Eb).
  - intros a Ea. pose proof (ok_attempt _ _ _ _ Hok a Ea) as [_ ?]. destruct (Hfresh a Ea). split; [lia | done].
Qed.

Lemma fire_ok tr fl top s input n e :
  run_ok tr fl top s -> in_state input = s -> decideAutoDeploy input = fire n e -> top <= ue_roundNo e ->
  run_ok (Sent_to (ue_roundNo e) (ue_amountUsd e) :: tr)
    (mkFlight (ue_roundNo e) (ue_amountUsd e) (in_sessionEpoch input) (in_youPubkey input) :: fl)
    (ue_roundNo e) (beginAttempt s (ue_roundNo e)).
Proof.
  intros Hok Es Hd Htop. destruct (ladder_intends input _ Hd) as (r & sd & x & Hi); [discriminate |].
  rewrite (ladder_reaches _ _ _ _ Hi) in Hd. apply rungs_fire in Hd as (Hready & -> & ->). simpl in *.
  destruct (intends_above _ _ _ _ _ _ _ _ Hok Es Hi Htop) as [-> Habove].
  destruct Hready as (_ & _ & _ & Hready). rewrite Es in Hready.
  destruct Hok as [_ Hat Hfr Hbd Htl Hen].
  assert (Hnew : sent_to r tr = priorTries (attemptFor s r) /\ 0 <= priorTries (attemptFor s r) < MAX_TRIES /\ landed_in r tr = 0).
  { destruct (attemptFor_case s r) as [(a & Ea & Er & Ef) | [Ef Hne]].
    - destruct (Hready a Ef) as [Ht _]. destruct (Habove a Ea) as [_ Hre]. rewrite Ef. simpl.
      destruct (Hat a Ea) as [(? & _ & Ho) _]. rewrite (Hre Er), Er in Ho. lia.
    - rewrite Ef. simpl. destruct (Hfr r) as [H1 H2]; [| unfold MAX_TRIES; lia].
      intros a Ea. specialize (Hne a Ea). destruct (Habove a Ea). lia. }
  unfold beginAttempt. split; simpl.
  - eexists. split; [reflexivity |]. done.
  - intros a [= <-]. unfold attempt_ok. simpl. autorewrite with money. rewrite Z.eqb_refl. specialize (Hbd r). lia.
  - intros r' Hlt. specialize (Hlt _ eq_refl). simpl in Hlt. autorewrite with money.
    rewrite (proj2 (Z.eqb_neq r r')) by lia. destruct (Hfr r') as [H1 H2]; [| lia].
    intros a Ea. destruct (Habove a Ea). lia.
  - intros r'. autorewrite with money. specialize (Hbd r'). destruct (Z.eqb_spec r r') as [<- |]; lia.
  - intros l Hl. destruct (Htl l Hl) as (a & Ea & Hle & Hcase). destruct (Habove a Ea) as [? Hre].
    eexists. split; [reflexivity |]. simpl. split; [lia |]. intros ->.
    destruct Hcase as [? | Hlanded]; [lia | by left |]. rewrite Hre in Hlanded by lia. discriminate.
  - done.
Qed.

Lemma flight_one tr fl f fl' top s :
  run_ok tr (fl ++ f :: fl') top s -> fl = [] /\ fl' = [] /\
  exists a, attempt s = Some a /\ outcome_ a = sending /\ at_roundNo a = fl_round f.
Proof.
  intros Hok. pose proof (ok_flight _ _ _ _ Hok) as H. destruct fl as [| g fl]; simpl in H.
  - destruct fl' as [| g fl']; [done | done].
  - destruct fl; done.
Qed.

Lemma landed_ok tr f top s sig :
  run_ok tr [f] top s ->
  run_ok (Landed_in (fl_round f) (fl_amount f) :: tr) [] top
    (attemptLanded s (fl_round f) sig (fl_amount f) (fl_wallet f)).
Proof.
  intros Hok. destruct (flight_one _ [] f [] _ _ Hok) as (_ & _ & a & Ea & Eo & Er).
  destruct Hok as [_ Hat Hfr Hbd Htl [He Hs]]. destruct (Hat a Ea) as [(Ht & _ & Ho) Htop]. rewrite Eo in Ho.
  unfold attemptLanded. rewrite Ea, Er, Z.eqb_refl. simpl negb. cbv iota. rewrite Er in Ho, Htop. set (r := fl_round f) in *.
  assert (Htally : tallyEntered (tally s) r (fl_amount f) =
    mkTally (armedAtMs (tally s)) (entered (tally s) + 1) (add (spentUsd (tally s)) (charge (fl_amount f)))
      (missed (tallyEntered (tally s) r (fl_amount f))) (Some (default r (firstRound (tally s)))) (Some r) (Some t_entered)).
  { unfold tallyEntered, charge. destruct (lastRound (tally s)) as [l |] eqn:El; [| done].
    destruct (Htl l El) as (b & Eb & Hle & Hcase). rewrite Ea in Eb. injection Eb as <-. rewrite Er in Hle, Hcase.
    rewrite (proj2 (Z.ltb_ge r l)) by lia. destruct (decide (l = r)) as [-> | Hne].
    - destruct Hcase as [Hm | Hl]; [done | | congruence].
      by rewrite Hm, !bool_decide_true by done.
    - by rewrite (bool_decide_false (Some l = Some r)) by congruence. }
  split; simpl.
  - intros b [= <-]. done.
  - intros b [= <-]. unfold attempt_ok. simpl. autorewrite with money. rewrite Z.eqb_refl. lia.
  - intros r' Hlt. specialize (Hlt _ eq_refl). simpl in Hlt. autorewrite with money.
    rewrite (proj2 (Z.eqb_neq r r')) by lia. destruct (Hfr r') as [H1 H2]; [| lia].
    intros b Eb. rewrite Ea in Eb. injection Eb as <-. lia.
  - intros r'. autorewrite with money. specialize (Hbd r'). destruct (Z.eqb_spec r r') as [<- |]; lia.
  - intros l Hl. simpl in Hl. rewrite Htally in Hl. injection Hl as <-. eexists. split; [reflexivity |]. simpl.
    split; [lia | by right].
  - rewrite Htally. simpl. unfold landings, landed_usd in *. simpl. split; [lia | by rewrite Hs].
Qed.

Lemma failed_ok tr f top s err nowMs :
  run_ok tr [f] top s -> run_ok tr [] top (attemptFailed s (fl_round f) err nowMs).
Proof.
  intros Hok. destruct (flight_one _ [] f [] _ _ Hok) as (_ & _ & a & Ea & Eo & Er).
  destruct Hok as [_ Hat Hfr Hbd Htl Hen]. destruct (Hat a Ea) as [(Ht & Hl & Ho) Htop]. rewrite Eo in Ho.
  unfold attemptFailed. rewrite Ea, Er, Z.eqb_refl, Eo. simpl negb. cbv iota.
  rewrite bool_decide_false by done. rewrite Er in *.
  split; simpl.
  - intros b [= <-]. done.
  - intros b [= <-]. unfold attempt_ok, MAX_TRIES in *. simpl. lia.
  - intros r' Hlt. apply Hfr. intros b Eb. rewrite Ea in Eb. injection Eb as <-.
    specialize (Hlt _ eq_refl). simpl in Hlt. lia.
  - done.
  - intros l El. destruct (Htl l El) as (b & Eb & Hle & Hcase). rewrite Ea in Eb. injection Eb as <-.
    eexists. split; [reflexivity |]. simpl. rewrite Er in *. split; [lia |]. intros Hlr.
    destruct (Hcase Hlr) as [? | ?]; [by left | congruence].
  - done.
Qed.

Lemma hand_ok tr fl top s sd r :
  run_ok tr fl top s -> (forall n, r = Some n -> n <= top) -> run_ok tr fl top (bookConfirmedDeposit s sd r).
Proof.
  intros Hok Hr.
  assert (Hside : run_ok tr fl top (noteDeploy s sd) /\ attempt (noteDeploy s sd) = attempt s).
  { unfold noteDeploy. destruct (bool_decide _); [done |]. split; [by apply (run_ok_same _ _ _ s) | done]. }
  unfold bookConfirmedDeposit. destruct Hside as [Hok' Ea']. destruct r as [r |]; [| done].
  specialize (Hr r eq_refl). destruct (outcomeIs (attempt s) sending) eqn:Es; [done |]. revert Hok' Ea'.
  generalize (noteDeploy s sd). clear Hok. intros s' Hok Ea'. rewrite <- Ea' in Es. clear s Ea'. unfold noteRoundEntered.
  destruct (match attempt s' with Some a => r <? at_roundNo a | None => false end) eqn:Elt; [done |].
  destruct (outcomeIs (attemptFor s' r) landed) eqn:El; [done |].
  destruct Hok as [Hfl Hat Hfr Hbd Htl Hen].
  assert (Habove : forall a, attempt s' = Some a -> at_roundNo a <= r) by (intros a Ea; rewrite Ea in Elt; zbool; lia).
  assert (Hpt : 0 <= priorTries (attemptFor s' r)).
  { destruct (attemptFor_case s' r) as [(a & Ea & _ & ->) | [-> _]]; simpl; [by apply (Hat a Ea) | lia]. }
  split; simpl.
  - destruct fl as [| f [| f' fl]]; [by intros a [= <-] | | done].
    destruct Hfl as (a & Ea & Eo & _). rewrite Ea in Es. by apply outcomeIs_false in Es.
  - intros a [= <-]. unfold attempt_ok. simpl. specialize (Hbd r). lia.
  - intros r' Hlt. specialize (Hlt _ eq_refl). simpl in Hlt. apply Hfr. intros a Ea. specialize (Habove a Ea). lia.
  - done.
  - intros l Hl. destruct (Htl l Hl) as (a & Ea & Hle & Hcase). eexists. split; [reflexivity |]. simpl.
    specialize (Habove a Ea). split; [lia | by right].
  - done.
Qed.

Lemma auto_run_ok tr fl top s : auto_run tr fl top s -> run_ok tr fl top s.
Proof.
  induction 1 as [s st l v t top | tr fl top s input h H IH Es Hd | tr fl top s input r why H IH Es Hd Htop
    | tr fl top s input n e H IH Es Hd Htop | tr fl fl' top s f result t H IH | tr fl top s sd r H IH Hr
    | tr fl top s H IH | tr fl top s r H IH | tr fl top s l H IH].
  - split; simpl; done.
  - by apply polled_ok.
  - apply (polled_ok _ _ _ _ input) in IH. destruct (ladder_intends input _ Hd) as (r' & sd & x & Hi); [discriminate |].
    assert (r' = r) as ->.
    { rewrite (ladder_reaches _ _ _ _ Hi) in Hd. unfold last_rungs in Hd.
      repeat match type of Hd with (if ?b then _ else _) = _ => destruct b; [congruence |] end. discriminate. }
    destruct (intends_above _ _ _ _ _ _ _ _ IH Es Hi Htop) as [-> Habove].
    apply (abandon_ok _ [] top); [done | | done | done]. intros a Ea. destruct (Habove a Ea) as [? Hre].
    split; [done |]. intros Er. rewrite (Hre Er). done.
  - apply (polled_ok _ _ _ _ input) in IH. exact (fire_ok tr fl top _ input n e IH Es Hd Htop).
  - destruct (flight_one _ _ _ _ _ _ IH) as (-> & -> & a & Ea & Eo & Er). destruct result; simpl.
    + by apply landed_ok.
    + apply (run_ok_same _ _ _ (abandonAttempt s (fl_round f) session_lapsed_round)); [reflexivity.. |]. apply (abandon_ok _ [f] top); [done | | done |].
      * intros b Eb. rewrite Ea in Eb. injection Eb as <-. split; [lia |]. congruence.
      * pose proof (ok_attempt _ _ _ _ IH a Ea). lia.
    + by apply failed_ok.
  - by apply hand_ok.
  - by apply (run_ok_same _ _ _ s).
  - unfold setRule. destruct (sameRule _ _); [done | by apply (run_ok_same _ _ _ s)].
  - unfold setLimits. destruct (sameLimits _ _); [done | by apply (run_ok_same _ _ _ s)].
Qed.

(** C3. An unattended run cannot run away, whatever the order of polls,
    confirmations, failures, lapsed sessions, hand deposits and control
    changes.  At most one transaction is in flight, and it is the one the
    attempt record says is being sent; no round is sent to more than three
    times; no round receives more than one of the rule's deposits; a round whose
    deposit landed, or that was written off, has nothing in flight; and the
    tally charges each landed deposit exactly once, for the amount that was
    sent. *)
Theorem run_cannot_run_away tr fl top s :
  auto_run tr fl top s ->
  (length fl <= 1)%nat /\
  (forall f, f ∈ fl -> exists a, attempt s = Some a /\ outcome_ a = sending /\ at_roundNo a = fl_round f) /\
  (forall r, sent_to r tr <= MAX_TRIES /\ landed_in r tr <= 1) /\
  (forall a, attempt s = Some a -> outcome_ a = landed \/ outcome_ a = abandoned -> fl = []) /\
  entered (tally s) = landings tr /\ spentUsd (tally s) = landed_usd tr.
Proof.
  intros Hrun. destruct (auto_run_ok _ _ _ _ Hrun) as [Hfl _ _ Hbd _ [He Hs]].
  split_and!; try done.
  - destruct fl as [| f [| f' fl]]; simpl; [lia | lia | done].
  - intros f Hf. destruct fl as [| g [| f' fl]]; [by apply not_elem_of_nil in Hf | | done].
    apply list_elem_of_singleton in Hf as ->. done.
  - intros a Ea Ho. destruct fl as [| g [| f' fl]]; [done | | done].
    destruct Hfl as (b & Eb & Eo & _). rewrite Ea in Eb. injection Eb as <-. rewrite Eo in Ho. by destruct Ho.
Qed.

(** A run armed in round 41 that fires into round 42 and lands. *)
Definition toy_start : AutoDeployState :=
  armWith (noteDeploy INITIAL_AUTO_DEPLOY side0) (mkStrategy (fixed (of_Z 5)) repeat_side) DEFAULT_LIMITS (Some 41)
    (of_Z 1000).

Definition toy_input : AutoDeployInput :=
  mkInput (polled toy_start lost_input) (Some 42) (Some 42) (Some Lobby) true false false (Some (of_Z 5)) silent 1 []
    "me" (of_Z 2000).

Definition toy_sent : AutoDeployState := beginAttempt (polled toy_start toy_input) 42.

Definition toy_entry : UnattendedEntry := mkEntry 42 side0 (of_Z 5).

Lemma toy_fires : decideAutoDeploy toy_input = fire 1 toy_entry.
Proof. vm_compute. reflexivity. Qed.

Lemma toy_run :
  auto_run [Landed_in 42 (of_Z 5); Sent_to 42 (of_Z 5)] [] 42
    (applySendOutcome toy_sent 42 (of_Z 5) 1 "me" (Landed_with "sig") (of_Z 3000)).
Proof.
  apply (run_settle [Sent_to 42 (of_Z 5)] [] [] 42 toy_sent (mkFlight 42 (of_Z 5) 1 "me") (Landed_with "sig")).
  apply (run_fire [] [] 41 toy_start toy_input 1 toy_entry); [apply run_arm | reflexivity | exact toy_fires | simpl; lia].
Qed.

Lemma run_cannot_run_away_witness :
  let s := applySendOutcome toy_sent 42 (of_Z 5) 1 "me" (Landed_with "sig") (of_Z 3000) in
  let tr := [Landed_in 42 (of_Z 5); Sent_to 42 (of_Z 5)] in
  (length (@nil Flight) <= 1)%nat /\
  (forall f : Flight, f ∈ [] -> exists a, attempt s = Some a /\ outcome_ a = sending /\ at_roundNo a = fl_round f) /\
  (forall r, sent_to r tr <= MAX_TRIES /\ landed_in r tr <= 1) /\
  (forall a, attempt s = Some a -> outcome_ a = landed \/ outcome_ a = abandoned -> @nil Flight = []) /\
  entered (tally s) = landings tr /\ spentUsd (tally s) = landed_usd tr.
Proof. exact (run_cannot_run_away _ _ _ _ toy_run). Defined.
