(* ===== verification/Text.v ===== *)
(** * Text

    What the identity API uses of the language's strings: character classes,
    anchored patterns, [trim], [toLowerCase], [split], [join], zero-padded
    decimals and the UTF-8 of a string.  A string is a list of code units below
    256; what the API itself writes, checks or compares is ASCII. *)
From Stdlib Require Export Ascii.
From S2P Require Import Prelude.

Abbreviation chars := String.list_ascii_of_string.
Abbreviation text := String.string_of_list_ascii.

(** ** Classes and patterns *)

Definition between (lo hi c : ascii) : bool :=
  (nat_of_ascii lo <=? nat_of_ascii c)%nat && (nat_of_ascii c <=? nat_of_ascii hi)%nat.

Definition every (p : ascii -> bool) (s : string) : bool := forallb p (chars s).

Definition is_digit (c : ascii) : bool := between "0" "9" c.
Definition is_hex (c : ascii) : bool := is_digit c || between "a" "f" c.
Definition is_letter (c : ascii) : bool := between "A" "Z" c || between "a" "z" c.
Definition is_base58 (c : ascii) : bool :=
  between "1" "9" c || between "A" "H" c || between "J" "N" c || between "P" "Z" c || between "a" "k" c || between "m" "z" c.

(** [/^[p]{lo,hi}$/] *)
Definition matches (p : ascii -> bool) (lo hi : nat) (s : string) : bool :=
  every p s && (lo <=? String.length s)%nat && (String.length s <=? hi)%nat.

(** White space below 256. *)
Definition is_space (c : ascii) : bool :=
  let n := nat_of_ascii c in ((9 <=? n)%nat && (n <=? 13)%nat) || (n =? 32)%nat || (n =? 160)%nat.

Fixpoint drop_spaces (l : list ascii) : list ascii :=
  match l with
  | c :: l' => if is_space c then drop_spaces l' else l
  | [] => []
  end.

Definition trim (s : string) : string := text (rev (drop_spaces (rev (drop_spaces (chars s))))).

Definition lower (c : ascii) : ascii :=
  let n := nat_of_ascii c in
  if between "A" "Z" c || ((192 <=? n)%nat && (n <=? 222)%nat && negb (n =? 215)%nat) then ascii_of_nat (n + 32) else c.

Definition toLowerCase (s : string) : string := text (lower <$> chars s).

(** The text before the first [c], and what follows it if there is one. *)
Fixpoint cut (c : ascii) (l : list ascii) : list ascii * option (list ascii) :=
  match l with
  | [] => ([], None)
  | a :: l => if Ascii.eqb a c then ([], Some l) else let '(h, t) := cut c l in (a :: h, t)
  end.

(** [s.split(c)] *)
Fixpoint split_chars (c : ascii) (l : list ascii) : list (list ascii) :=
  match l with
  | [] => [[]]
  | a :: l =>
      if Ascii.eqb a c then [] :: split_chars c l else
      match split_chars c l with
      | w :: ws => (a :: w) :: ws
      | [] => [[a]]
      end
  end.

Definition split (c : ascii) (s : string) : list string := text <$> split_chars c (chars s).

(** ["\n"], and [lines.join("\n")]. *)
Definition newline : ascii := ascii_of_nat 10.
Definition unlines (ls : list string) : string := String.concat (String newline EmptyString) ls.

(** [n] decimal digits of [z]. *)
Fixpoint padded (n : nat) (z : Z) : string :=
  match n with
  | O => EmptyString
  | S n => padded n (z / 10) +:+ String (ascii_of_nat (48 + Z.to_nat (z mod 10))) EmptyString
  end.

(** [TextEncoder] below 256. *)
Definition utf8 (s : string) : list Z :=
  flat_map (fun c => let n := Z.of_nat (nat_of_ascii c) in if n <? 128 then [n] else [192 + n / 64; 128 + n mod 64]) (chars s).

(** ** Laws *)

Lemma app_chars s t : chars (s +:+ t) = chars s ++ chars t.
Proof. induction s as [| a s IH]; [done |]. apply (f_equal (cons a)), IH. Qed.

Lemma chars_inj s t : chars s = chars t -> s = t.
Proof. intros H. by rewrite <- (String.string_of_list_ascii_of_string s), H, String.string_of_list_ascii_of_string. Qed.

Lemma length_chars s : length (chars s) = String.length s.
Proof. induction s as [| a s IH]; [done |]. cbn. by rewrite IH. Qed.

Definition lacks (c : ascii) (s : string) : Prop := c ∉ chars s.

Lemma lacks_app c s t : lacks c (s +:+ t) <-> lacks c s /\ lacks c t.
Proof. unfold lacks. by rewrite app_chars, not_elem_of_app. Qed.

Lemma lacks_cons c a s : lacks c (String a s) <-> c <> a /\ lacks c s.
Proof. unfold lacks. cbn. by rewrite not_elem_of_cons. Qed.

Lemma lacks_nil c : lacks c EmptyString.
Proof. by intros ?%not_elem_of_nil. Qed.

(** A text made of literals, fields and texts known to lack the character. *)
Ltac lacking :=
  repeat match goal with
  | |- lacks _ (_ +:+ _) => apply lacks_app; split
  | |- lacks _ EmptyString => apply lacks_nil
  | |- lacks _ (String _ _) => apply lacks_cons; split; [done |]
  | |- lacks _ (if ?b then _ else _) => destruct b
  end.

Lemma every_lacks p c s : every p s = true -> p c = false -> lacks c s.
Proof.
  intros Hp Hc Hin. apply list_elem_of_In in Hin. unfold every in Hp. rewrite forallb_forall in Hp.
  apply Hp in Hin. congruence.
Qed.

Lemma matches_every p lo hi s : matches p lo hi s = true -> every p s = true.
Proof. unfold matches. intros H. by apply andb_prop in H as [[H _]%andb_prop _]. Qed.

Lemma matches_lacks p lo hi c s : matches p lo hi s = true -> p c = false -> lacks c s.
Proof. intros H. by apply every_lacks, matches_every with lo hi. Qed.

(** Text before the first separator is determined. *)
Lemma chars_split {A} (l1 l2 r1 r2 : list A) (x : A) :
  x ∉ l1 -> x ∉ l2 -> l1 ++ x :: r1 = l2 ++ x :: r2 -> l1 = l2 /\ r1 = r2.
Proof.
  revert l2. induction l1 as [| a l1 IH]; intros [| b l2] H1 H2 E; cbn in E.
  - by injection E.
  - injection E as <- _. exfalso. apply H2. left.
  - injection E as -> _. exfalso. apply H1. left.
  - injection E as <- E. apply not_elem_of_cons in H1 as [_ H1], H2 as [_ H2]. by destruct (IH l2 H1 H2 E) as [-> ->].
Qed.

Lemma text_split c s1 s2 t1 t2 : lacks c s1 -> lacks c s2 ->
  s1 +:+ String c t1 = s2 +:+ String c t2 -> s1 = s2 /\ t1 = t2.
Proof.
  intros H1 H2 E. apply (f_equal chars) in E. rewrite !app_chars in E. cbn in E.
  apply chars_split in E as [E1 E2]; [| done..]. split; by apply chars_inj.
Qed.

Lemma append_inj_l s t1 t2 : s +:+ t1 = s +:+ t2 -> t1 = t2.
Proof. intros E. apply (f_equal chars) in E. rewrite !app_chars in E. by apply app_inv_head in E; apply chars_inj. Qed.

Lemma append_inj_r s1 s2 t : s1 +:+ t = s2 +:+ t -> s1 = s2.
Proof. intros E. apply (f_equal chars) in E. rewrite !app_chars in E. by apply app_inv_tail in E; apply chars_inj. Qed.

Lemma append_inj_length s1 s2 t1 t2 : String.length s1 = String.length s2 ->
  s1 +:+ t1 = s2 +:+ t2 -> s1 = s2 /\ t1 = t2.
Proof.
  intros Hl E. apply (f_equal chars) in E. rewrite !app_chars in E. apply app_inj_1 in E as [E1 E2].
  - split; by apply chars_inj.
  - by rewrite !length_chars.
Qed.

(** Lines are recovered from their block. *)
Lemma unlines_cons a b ls : unlines (a :: b :: ls) = a +:+ String newline (unlines (b :: ls)).
Proof. done. Qed.

Lemma unlines_no_line a b c ls : lacks newline a -> a <> unlines (b :: c :: ls).
Proof. intros Ha ->. rewrite unlines_cons in Ha. apply lacks_app in Ha as [_ Ha]. apply Ha. left. Qed.

Lemma unlines_inj ls ks : Forall (lacks newline) ls -> Forall (lacks newline) ks -> ls <> [] -> ks <> [] ->
  unlines ls = unlines ks -> ls = ks.
Proof.
  revert ks. induction ls as [| a ls IH]; intros ks Hls Hks Hne Hne' E; [done |].
  destruct ks as [| b ks]; [done |]. apply Forall_cons in Hks as [Hb Hks], Hls as [Ha Hls].
  destruct ls as [| a' ls], ks as [| b' ks].
  - by cbn in E; subst.
  - exfalso. by apply (unlines_no_line a b b' ks).
  - exfalso. by apply (unlines_no_line b a a' ls).
  - rewrite !unlines_cons in E. apply text_split in E as [-> E]; [| done..]. f_equal. by apply IH.
Qed.

Lemma length_padded n z : String.length (padded n z) = n.
Proof.
  revert z. induction n as [| n IH]; intros z; [done |]. cbn [padded].
  rewrite <- length_chars, app_chars, length_app, length_chars, IH. cbn. lia.
Qed.

Lemma digit_inj a b : 0 <= a < 10 -> 0 <= b < 10 -> ascii_of_nat (48 + Z.to_nat a) = ascii_of_nat (48 + Z.to_nat b) -> a = b.
Proof. intros Ha Hb E. apply (f_equal nat_of_ascii) in E. rewrite !nat_ascii_embedding in E by lia. lia. Qed.

Lemma padded_inj n a b : 0 <= a < 10 ^ Z.of_nat n -> 0 <= b < 10 ^ Z.of_nat n -> padded n a = padded n b -> a = b.
Proof.
  revert a b. induction n as [| n IH]; intros a b Ha Hb E; [cbn in Ha, Hb; lia |].
  rewrite Nat2Z.inj_succ, Z.pow_succ_r in Ha, Hb by lia. cbn [padded] in E.
  apply append_inj_length in E as [E1 E2]; [| by rewrite !length_padded].
  apply IH in E1; [| split; [apply Z.div_pos; lia | apply Z.div_lt_upper_bound; lia]..].
  injection E2 as E2. apply digit_inj in E2; [| apply Z.mod_pos_bound; lia..].
  rewrite (Z.div_mod a 10), (Z.div_mod b 10) by lia. congruence.
Qed.

Lemma padded_lacks n z c : is_digit c = false -> lacks c (padded n z).
Proof.
  intros Hc. revert z. induction n as [| n IH]; intros z; [by intros ?%not_elem_of_nil |]. cbn [padded]. apply lacks_app. split; [done |].
  intros Hin%list_elem_of_singleton. subst c. pose proof (Z.mod_pos_bound z 10 ltac:(lia)).
  unfold is_digit, between in Hc. rewrite nat_ascii_embedding in Hc by lia.
  change (nat_of_ascii "0") with 48%nat in Hc. change (nat_of_ascii "9") with 57%nat in Hc.
  apply andb_false_iff in Hc as [Hc | Hc]; apply Nat.leb_gt in Hc; lia.
Qed.

Lemma cut_app c l t : c ∉ l -> cut c (l ++ c :: t) = (l, Some t).
Proof.
  induction l as [| a l IH]; intros Hc; cbn; [by rewrite Ascii.eqb_refl |].
  apply not_elem_of_cons in Hc as [Ha Hc]. destruct (Ascii.eqb_spec a c) as [-> |]; [done |]. by rewrite IH.
Qed.

Lemma cut_none c l : c ∉ l -> cut c l = (l, None).
Proof.
  induction l as [| a l IH]; intros Hc; [done |]. apply not_elem_of_cons in Hc as [Ha Hc]. cbn.
  destruct (Ascii.eqb_spec a c) as [-> |]; [done |]. by rewrite IH.
Qed.
