(* ===== verification/RateLimit.v ===== *)
(** * The rate limit of the identity API

    [er-demo/api/src/rateLimit.ts] over the counter interface of
    [writeStore.ts], and the in-memory counter of [memoryWriteStore.ts].  The
    keyed hash that names a bucket (HMAC-SHA256) is a parameter. *)
From S2P Require Import Prelude Text.

Definition WINDOW_SECONDS : Z := 600.
Definition LIMIT_PER_WALLET : Z := 20.
Definition LIMIT_PER_NETWORK : Z := 60.

Definition windowStart (nowSec : Z) : Z := nowSec - Z.rem nowSec WINDOW_SECONDS.

Inductive RateVerdict : Type := rate_ok | rate_limited (retryAfterSec : Z).

#[global] Instance RateVerdict_eq_dec : EqDecision RateVerdict.
Proof. solve_decision. Defined.

(** What the limiter throws: the counter's own failure, or a wrong answer. *)
Inductive rate_error (E : Type) : Type := CounterFailed (e : E) | WrongCount (n : nat).
Arguments CounterFailed {E} e.
Arguments WrongCount {E} n.

(** ** The counter *)

Class RateCounter (C E : Type) : Type := { hit : list string -> Z -> C -> outcome E (list Z) * C }.

(** What a counter promises: distinct buckets are each counted once more in the
    window, in order; a bucket's earlier windows are forgotten; no other bucket
    moves. *)
Class CountingStore (C E : Type) `{!RateCounter C E} : Type := {
  tally : C -> string -> Z -> Z;
  hit_counts : forall bs w s, NoDup bs -> exists s', hit bs w s = (Done ((fun b => tally s b w + 1) <$> bs), s') /\
    forall b w', tally s' b w' = if decide (b ∈ bs) then (if decide (w' = w) then tally s b w + 1 else 0) else tally s b w';
}.

(** ** The limiter *)

Section Limiter.
Context {C E : Type} `{!RateCounter C E} (hmac : string -> string).

(** [`${kind}:${subject}`] under the deployment's key. *)
Definition walletSubject (network wallet : string) : string := ("wallet:" +:+ (network +:+ ("|" +:+ wallet)))%string.
Definition networkSubject (network : string) : string := ("network:" +:+ network)%string.

Definition enforceRateLimit (network wallet : string) (nowSec : Z) (s : C) : outcome (rate_error E) RateVerdict * C :=
  let start := windowStart nowSec in
  match hit [hmac (walletSubject network wallet); hmac (networkSubject network)] start s with
  | (Done [walletHits; networkHits], s) =>
      (Done (if (LIMIT_PER_WALLET <? walletHits) || (LIMIT_PER_NETWORK <? networkHits)
             then rate_limited (Z.max 1 (start + WINDOW_SECONDS - nowSec)) else rate_ok), s)
  | (Done counts, s) => (Throw (WrongCount (length counts)), s)
  | (Throw e, s) => (Throw (CounterFailed e), s)
  end.
End Limiter.

(** ** The in-memory counter *)

Inductive memory_error : Type := DuplicateBucket.

(** One bucket of a [hit]: its window and count. *)
Definition countOne (w : Z) (b : string) (m : gmap string (Z * Z)) : Z * gmap string (Z * Z) :=
  let hits := match m !! b with Some (w', n) => if w' =? w then n + 1 else 1 | None => 1 end in
  (hits, <[b := (w, hits)]> m).

Fixpoint countAll (w : Z) (bs : list string) (m : gmap string (Z * Z)) : list Z * gmap string (Z * Z) :=
  match bs with
  | [] => ([], m)
  | b :: bs => let '(n, m) := countOne w b m in let '(ns, m) := countAll w bs m in (n :: ns, m)
  end.

#[export] Instance memory_counter : RateCounter (gmap string (Z * Z)) memory_error := {|
  hit := fun bs w m => if decide (NoDup bs) then let '(ns, m) := countAll w bs m in (Done ns, m) else (Throw DuplicateBucket, m)
|}.

Definition memory_tally (m : gmap string (Z * Z)) (b : string) (w : Z) : Z :=
  match m !! b with Some (w', n) => if w' =? w then n else 0 | None => 0 end.

Lemma countAll_counts w bs m : NoDup bs ->
  exists m', countAll w bs m = ((fun b => memory_tally m b w + 1) <$> bs, m') /\
    forall b, m' !! b = if decide (b ∈ bs) then Some (w, memory_tally m b w + 1) else m !! b.
Proof.
  intros Hn. revert m. induction Hn as [| b bs Hb Hn IH]; intros m; cbn [countAll].
  - exists m. split; [done |]. intros b. rewrite decide_False by apply not_elem_of_nil. done.
  - unfold countOne. set (n := match m !! b with Some _ => _ | None => _ end).
    assert (En : n = memory_tally m b w + 1).
    { subst n. unfold memory_tally. destruct (m !! b) as [[w' k] |]; [| done]. by destruct (w' =? w). }
    destruct (IH (<[b := (w, n)]> m)) as (m' & -> & Hm'). exists m'.
    assert (Et : forall b', b' <> b -> memory_tally (<[b := (w, n)]> m) b' w = memory_tally m b' w).
    { intros b' Hne. unfold memory_tally. by rewrite lookup_insert_ne. }
    split.
    + rewrite En at 1. cbn [fmap list_fmap]. do 2 f_equal. apply list_fmap_ext. intros i b' Hi. rewrite Et; [done |].
      intros ->. apply Hb. by eapply list_elem_of_lookup_2.
    + intros b'. rewrite Hm'. destruct (decide (b' = b)) as [-> | Hne].
      * rewrite decide_False, decide_True, lookup_insert_eq, En by (done || by left). done.
      * rewrite Et, lookup_insert_ne by done. destruct (decide (b' ∈ bs)) as [Hin | Hout]; [rewrite decide_True by (by right) | rewrite decide_False]; try done.
        rewrite elem_of_cons. tauto.
Qed.

#[export] Instance memory_counts : CountingStore (gmap string (Z * Z)) memory_error.
Proof.
  refine {| tally := memory_tally |}. intros bs w m Hn.
  destruct (countAll_counts w bs m Hn) as (m' & Em & Hm'). exists m'. cbn. rewrite decide_True, Em by done.
  split; [done |]. intros b w'. unfold memory_tally at 1. rewrite Hm'. case_decide; [| done].
  case_decide; [subst; by rewrite Z.eqb_refl | by rewrite (proj2 (Z.eqb_neq w w')) by done].
Defined.

(** ** Subjects *)

Definition no_bar (s : string) : Prop := lacks "|" s.

Lemma wallet_subject_inj n w n' w' :
  no_bar n -> no_bar n' -> walletSubject n w = walletSubject n' w' -> n = n' /\ w = w'.
Proof.
  intros Hn Hn' H. unfold walletSubject in H. apply (f_equal chars) in H.
  rewrite !app_chars in H. apply app_inv_head in H. cbn in H. apply chars_split in H as [H1 H2]; [| done..].
  split; by apply chars_inj.
Qed.

Lemma network_subject_inj n n' : networkSubject n = networkSubject n' -> n = n'.
Proof.
  intros H. apply (f_equal chars) in H. unfold networkSubject in H. rewrite !app_chars in H.
  apply app_inv_head in H. by apply chars_inj.
Qed.

Lemma subjects_differ n w n' : walletSubject n w <> networkSubject n'.
Proof. by intros [=]. Qed.

(** ** Histories *)

Record RateRequest : Type := mkRequest { q_network : string; q_wallet : string; q_now : Z }.

Definition q_window (q : RateRequest) : Z := windowStart (q_now q).

(** The names the key is asked for by a request. *)
Definition q_subjects (q : RateRequest) : list string :=
  [walletSubject (q_network q) (q_wallet q); networkSubject (q_network q)].

Definition countIf (p : RateRequest -> bool) (qs : list RateRequest) : Z := zsum (fun q => if p q then 1 else 0) qs.

Definition same_wallet (q q' : RateRequest) : bool :=
  (q_window q' =? q_window q) && bool_decide (q_network q' = q_network q) && bool_decide (q_wallet q' = q_wallet q).

Definition same_network (q q' : RateRequest) : bool :=
  (q_window q' =? q_window q) && bool_decide (q_network q' = q_network q).

Lemma countIf_ext p p' qs : (forall q, q ∈ qs -> p q = p' q) -> countIf p qs = countIf p' qs.
Proof. intros H. apply zsum_ext. intros q Hq. by rewrite H. Qed.

Lemma countIf_app p qs q : countIf p (qs ++ [q]) = countIf p qs + (if p q then 1 else 0).
Proof. unfold countIf. rewrite zsum_app. cbn. lia. Qed.

Lemma countIf_false p qs : (forall q, q ∈ qs -> p q = false) -> countIf p qs = 0.
Proof.
  intros H. unfold countIf. rewrite (zsum_ext _ (fun _ => 0)); [| intros q Hq; by rewrite H].
  induction qs as [| q qs IH]; [done |]. apply IH. intros q' Hq'. apply H. by right.
Qed.

Section History.
Context {C E : Type} `{CountingStore C E} (hmac : string -> string).

Definition serveRate (s : C) (q : RateRequest) : C :=
  snd (enforceRateLimit (E := E) hmac (q_network q) (q_wallet q) (q_now q) s).

(** The key does not collide on the names a history asks for, whose networks
    are written without a bar. *)
Definition distinguishes (qs : list RateRequest) : Prop :=
  (forall a b, a ∈ qs ≫= q_subjects -> b ∈ qs ≫= q_subjects -> hmac a = hmac b -> a = b) /\
  Forall (fun q => no_bar (q_network q)) qs.

(** Requests arrive in the order of their windows. *)
Definition in_order (qs : list RateRequest) : Prop :=
  forall i j q q', qs !! i = Some q -> qs !! j = Some q' -> (i <= j)%nat -> q_window q <= q_window q'.

Definition q_buckets (q : RateRequest) : list string := hmac <$> q_subjects q.

Lemma enforce_counts qs q s :
  distinguishes (qs ++ [q]) ->
  exists s', enforceRateLimit (E := E) hmac (q_network q) (q_wallet q) (q_now q) s =
    (Done (if (LIMIT_PER_WALLET <? tally s (hmac (walletSubject (q_network q) (q_wallet q))) (q_window q) + 1) ||
              (LIMIT_PER_NETWORK <? tally s (hmac (networkSubject (q_network q))) (q_window q) + 1)
           then rate_limited (Z.max 1 (windowStart (q_now q) + WINDOW_SECONDS - q_now q)) else rate_ok), s') /\
    forall b w', tally s' b w' =
      if decide (b ∈ q_buckets q) then (if decide (w' = q_window q) then tally s b (q_window q) + 1 else 0) else tally s b w'.
Proof.
  intros [Hd _]. assert (Hn : NoDup (q_buckets q)).
  { unfold q_buckets, q_subjects. cbn. rewrite NoDup_cons, list_elem_of_singleton. split; [| apply NoDup_singleton].
    intros Hc. apply Hd in Hc; [by apply subjects_differ in Hc |..]; apply list_elem_of_bind; exists q; split;
      try (by left); try (right; by left); apply elem_of_app; right; by left. }
  destruct (hit_counts (q_buckets q) (q_window q) s Hn) as (s' & Eh & Ht). exists s'. split; [| exact Ht].
  unfold enforceRateLimit. cbn in Eh. unfold q_window in Eh at 1. by rewrite Eh.
Qed.

Definition in_bucket (b : string) (w : Z) (q : RateRequest) : bool := (q_window q =? w) && bool_decide (b ∈ q_buckets q).

Lemma in_order_init qs q : in_order (qs ++ [q]) -> in_order qs /\ Forall (fun q' => q_window q' <= q_window q) qs.
Proof.
  intros Ho. split.
  - intros i j q1 q2 Hi Hj. apply (Ho i j); by apply lookup_app_l_Some.
  - apply Forall_forall. intros q' Hq'. apply list_elem_of_lookup in Hq' as [i Hi].
    apply (Ho i (length qs)); [by apply lookup_app_l_Some | by apply list_lookup_middle |].
    apply lookup_lt_Some in Hi. lia.
Qed.

Lemma distinguishes_init qs q : distinguishes (qs ++ [q]) -> distinguishes qs.
Proof.
  intros [Hd Hb]. rewrite bind_app in Hd. apply Forall_app in Hb as [Hb _]. split; [| done].
  intros a b Ha Hb'. apply Hd; by apply elem_of_app; left.
Qed.

(** A bucket's tally in the newest window, or any later one, counts the
    requests of the history that fall in it. *)
Lemma tally_history qs s w b :
  (forall b w, tally s b w = 0) -> distinguishes qs -> in_order qs -> Forall (fun q => q_window q <= w) qs ->
  tally (foldl serveRate s qs) b w = countIf (in_bucket b w) qs.
Proof.
  intros H0. revert w b. induction qs as [| q qs IH] using rev_ind; intros w b Hd Ho Hw; [by rewrite H0 |].
  rewrite foldl_app, countIf_app. cbn [foldl]. unfold serveRate at 1.
  destruct (enforce_counts qs q (foldl serveRate s qs) Hd) as (s' & -> & Ht). cbn [snd]. rewrite Ht.
  destruct (in_order_init qs q Ho) as [Ho' Hle]. apply Forall_app in Hw as [Hw Hq]. apply (proj1 (Forall_singleton _ _)) in Hq.
  pose proof (distinguishes_init qs q Hd) as Hd'. unfold in_bucket at 2. case_decide as Hb.
  - rewrite (bool_decide_true _ Hb), andb_true_r. case_decide as Ew.
    + subst w. rewrite Z.eqb_refl, (IH _ _ Hd' Ho' Hle). reflexivity.
    + rewrite (proj2 (Z.eqb_neq (q_window q) w)) by done. rewrite countIf_false; [reflexivity |].
      intros q' Hq'. unfold in_bucket. rewrite Forall_forall in Hle. specialize (Hle q' Hq'). cbv beta in Hle, Hq.
      rewrite (proj2 (Z.eqb_neq (q_window q') w)) by lia. done.
  - rewrite (bool_decide_false _ Hb), andb_false_r, Z.add_0_r. by apply IH.
Qed.

Lemma bucket_wallet qs q : distinguishes (qs ++ [q]) ->
  countIf (in_bucket (hmac (walletSubject (q_network q) (q_wallet q))) (q_window q)) qs = countIf (same_wallet q) qs.
Proof.
  intros [Hd Hb]. apply countIf_ext. intros q' Hq'. unfold in_bucket, same_wallet. rewrite <- andb_assoc. f_equal.
  apply Forall_app in Hb as [Hb Hq]. apply (proj1 (Forall_singleton _ _)) in Hq. rewrite Forall_forall in Hb. specialize (Hb q' Hq').
  rewrite <- bool_decide_and. apply bool_decide_ext. split.
  - unfold q_buckets. intros (x & Ex & Hx)%list_elem_of_fmap. apply Hd in Ex.
    + subst x. unfold q_subjects in Hx. rewrite elem_of_cons, list_elem_of_singleton in Hx.
      destruct Hx as [Hx | Hx]; [by apply wallet_subject_inj in Hx as [-> ->] | by apply subjects_differ in Hx].
    + apply list_elem_of_bind. exists q. split; [by left | apply elem_of_app; right; by left].
    + apply list_elem_of_bind. exists q'. split; [done | apply elem_of_app; by left].
  - intros [En Ew]. unfold q_buckets, q_subjects. rewrite En, Ew. apply list_elem_of_fmap. eexists. split; [done | by left].
Qed.

Lemma bucket_network qs q : distinguishes (qs ++ [q]) ->
  countIf (in_bucket (hmac (networkSubject (q_network q))) (q_window q)) qs = countIf (same_network q) qs.
Proof.
  intros [Hd _]. apply countIf_ext. intros q' Hq'. unfold in_bucket, same_network. f_equal. apply bool_decide_ext. split.
  - unfold q_buckets. intros (x & Ex & Hx)%list_elem_of_fmap. apply Hd in Ex.
    + subst x. unfold q_subjects in Hx. rewrite elem_of_cons, list_elem_of_singleton in Hx.
      destruct Hx as [Hx | Hx]; [by apply eq_sym, subjects_differ in Hx | by apply network_subject_inj in Hx].
    + apply list_elem_of_bind. exists q. split; [right; by left | apply elem_of_app; right; by left].
    + apply list_elem_of_bind. exists q'. split; [done | apply elem_of_app; by left].
  - intros En. unfold q_buckets, q_subjects. rewrite En. apply list_elem_of_fmap. eexists. split; [done | right; by left].
Qed.
End History.

Lemma window_bounds t : 0 <= t -> windowStart t <= t < windowStart t + WINDOW_SECONDS /\ windowStart t mod WINDOW_SECONDS = 0.
Proof.
  intros Ht. unfold windowStart, WINDOW_SECONDS. rewrite Z.rem_mod_nonneg by lia. pose proof (Z.mod_pos_bound t 600 ltac:(lia)).
  split; [lia |]. rewrite (Z.div_mod t 600) at 1 by lia. replace (600 * (t / 600) + t mod 600 - t mod 600) with (t / 600 * 600) by lia.
  apply Z.mod_mul. lia.
Qed.

Lemma over_limit n L : (L <? n + 1) = negb (n <? L).
Proof. destruct (Z.ltb_spec L (n + 1)), (Z.ltb_spec n L); lia || done. Qed.

(** The limit is exact and nobody spends another's budget.  Over any
    counter that keeps its promise, from empty, and any history of requests in
    the order of their windows, the next request passes exactly when fewer than
    twenty requests of its own wallet on its own network and fewer than sixty of
    its network came in its ten-minute window; refused requests count, and
    requests from other networks, whatever wallet they name, do not.  A refusal
    says to come back within the window. *)
Theorem rate_limit_exact {C E} `{CountingStore C E} (hmac : string -> string) s0 qs q :
  (forall b w, tally s0 b w = 0) -> distinguishes hmac (qs ++ [q]) -> in_order (qs ++ [q]) -> 0 <= q_now q ->
  fst (enforceRateLimit (E := E) hmac (q_network q) (q_wallet q) (q_now q) (foldl (serveRate (E := E) hmac) s0 qs)) =
    Done (if (countIf (same_wallet q) qs <? LIMIT_PER_WALLET) && (countIf (same_network q) qs <? LIMIT_PER_NETWORK)
          then rate_ok else rate_limited (q_window q + WINDOW_SECONDS - q_now q)) /\
  1 <= q_window q + WINDOW_SECONDS - q_now q <= WINDOW_SECONDS.
Proof.
  intros H0 Hd Ho Ht. destruct (window_bounds (q_now q) Ht) as [Hw _]. split; [| unfold q_window; lia].
  destruct (enforce_counts (E := E) hmac qs q (foldl (serveRate (E := E) hmac) s0 qs) Hd) as (s' & -> & _). cbn [fst].
  destruct (in_order_init qs q Ho) as [Ho' Hle]. pose proof (distinguishes_init hmac qs q Hd) as Hd'.
  rewrite !(tally_history hmac qs s0) by done. rewrite (bucket_wallet hmac qs q Hd), (bucket_network hmac qs q Hd).
  f_equal. fold (q_window q). rewrite Z.max_r by (unfold q_window; lia).
  rewrite !over_limit. by destruct (_ <? _), (_ <? _).
Qed.

(** Twenty requests of one wallet, some from another network naming it. *)
Definition sample_history : list RateRequest :=
  (fun i => mkRequest (if Nat.eqb (i mod 3) 0 then "203.0.113.0/24" else "198.51.100.0/24") "PLAYER" (1200 + Z.of_nat i)) <$> seq 0 31.

Definition sample_request : RateRequest := mkRequest "198.51.100.0/24" "PLAYER" 1300.

Lemma rate_limit_exact_witness :
  fst (enforceRateLimit (E := memory_error) id "198.51.100.0/24" "PLAYER" 1300
    (foldl (serveRate (E := memory_error) id) (∅ : gmap string (Z * Z)) sample_history)) = Done (rate_limited 500) /\
  1 <= q_window sample_request + WINDOW_SECONDS - 1300 <= WINDOW_SECONDS.
Proof.
  apply (rate_limit_exact (E := memory_error) id (∅ : gmap string (Z * Z)) sample_history sample_request).
  - intros b w. reflexivity.
  - split; [by intros a b _ _ H |]. apply (bool_decide_unpack _). vm_compute. exact I.
  - intros i j q1 q2 Hi Hj _.
    assert (Hall : Forall (fun q => q_window q = 1200) (sample_history ++ [sample_request])) by (vm_compute; repeat constructor).
    rewrite Forall_lookup in Hall. rewrite (Hall _ _ Hi), (Hall _ _ Hj). lia.
  - vm_compute. discriminate.
Defined.
