(* ===== verification/ClientNetwork.v ===== *)
(** * The network a request is counted against

    [er-demo/api/src/clientNetwork.ts]: the block of the caller's address, an
    IPv4 /24 or an IPv6 /48, from the headers the platform sets. *)
From stdpp Require Import pretty.
From S2P Require Import Prelude Text RateLimit.

Definition UNKNOWN_NETWORK : string := "unknown".
Definition ADDRESS_HEADERS : list string := ["x-vercel-forwarded-for"; "x-real-ip"; "x-forwarded-for"].

(** ** IPv4 *)

Definition decimal (s : string) : Z := foldl (fun n c => n * 10 + (Z.of_nat (nat_of_ascii c) - 48)) 0 (chars s).

(** [25[0-5]|2[0-4][0-9]|1[0-9]{2}|[1-9]?[0-9]]: at most 255, no leading zero. *)
Definition is_octet (s : string) : bool :=
  matches is_digit 1 3 s && (decimal s <=? 255) &&
  match chars s with c :: _ :: _ => negb (Ascii.eqb c "0") | _ => true end.

Definition ipv4Network (address : string) : option string :=
  match split "." address with
  | [a; b; c; d] =>
      if is_octet a && is_octet b && is_octet c && is_octet d
      then Some (a +:+ String "." (b +:+ String "." (c +:+ ".0/24"))) else None
  | _ => None
  end.

(** ** IPv6 *)

Definition is_hex_or_upper (c : ascii) : bool := is_hex c || between "A" "F" c.

(** [address.split("::")] *)
Fixpoint split_double (l : list ascii) : list (list ascii) :=
  match l with
  | [] => [[]]
  | a :: l' =>
      match l' with
      | b :: l'' =>
          if Ascii.eqb a ":" && Ascii.eqb b ":" then [] :: split_double l'' else
          match split_double l' with w :: ws => (a :: w) :: ws | [] => [[a]] end
      | [] => [[a]]
      end
  end.

Definition groups_of (l : list ascii) : list (list ascii) := match l with [] => [] | _ => split_chars ":" l end.

(** [parseInt(g, 16).toString(16)] of one to four hex digits. *)
Fixpoint drop_zeros (l : list ascii) : list ascii :=
  match l with
  | c :: ((_ :: _) as l') => if Ascii.eqb c "0" then drop_zeros l' else l
  | _ => l
  end.

Definition normal_group (g : list ascii) : string := text (lower <$> drop_zeros g).

Definition ipv6Groups (address : string) : option (list (list ascii)) :=
  match split_double (chars address) with
  | [whole] => let groups := split_chars ":" whole in if Nat.eqb (length groups) 8 then Some groups else None
  | [head; tail] =>
      let headGroups := groups_of head in
      let tailGroups := groups_of tail in
      if (7 <? length headGroups + length tailGroups)%nat then None
      else Some (headGroups ++ replicate (8 - length headGroups - length tailGroups) ["0"%char] ++ tailGroups)
  | _ => None
  end.

Definition ipv6Network (address : string) : option string :=
  if negb (matches (fun c => is_hex_or_upper c || Ascii.eqb c ":") 2 45 address) then None
  else if negb (existsb (fun c => Ascii.eqb c ":") (chars address)) then None
  else
    match ipv6Groups address with
    | None => None
    | Some groups =>
        if forallb (fun g => matches is_hex_or_upper 1 4 (text g)) groups then
          match groups with
          | a :: b :: c :: _ => Some (normal_group a +:+ String ":" (normal_group b +:+ String ":" (normal_group c +:+ "::/48")))
          | _ => None
          end
        else None
    end.

(** ** One address *)

(** A character the pattern's dot matches, below 256. *)
Definition is_dot (c : ascii) : bool := negb (Ascii.eqb c newline) && negb (Nat.eqb (nat_of_ascii c) 13).

(** [/^\[(.+)\](:\d{1,5})?$/]: the bracket is the last one. *)
Definition unbracketed (raw : list ascii) : option (list ascii) :=
  match raw with
  | [] => None
  | a :: rest =>
      if negb (Ascii.eqb a "[") then None else
      match cut "]" (rev rest) with
      | (_, None) => None
      | (port, Some inner) =>
          let inner := rev inner in
          let portOk := match rev port with
            | [] => true
            | a :: digits => Ascii.eqb a ":" && matches is_digit 1 5 (text digits)
            end in
          if portOk && forallb is_dot inner && negb (Nat.eqb (length inner) 0) then Some inner else None
      end
  end.

Fixpoint after_ignoring_case (p l : list ascii) : option (list ascii) :=
  match p, l with
  | [], _ => Some l
  | a :: p, b :: l => if Ascii.eqb a (lower b) then after_ignoring_case p l else None
  | _, [] => None
  end.

(** [/^::ffff:(.+)$/i] *)
Definition mapped (candidate : list ascii) : option (list ascii) :=
  match after_ignoring_case (chars "::ffff:") candidate with
  | Some rest => if forallb is_dot rest && negb (Nat.eqb (length rest) 0) then Some rest else None
  | None => None
  end.

Definition networkOf (address : string) : option string :=
  let raw := trim address in
  if String.eqb raw EmptyString then None else
  let candidate := match unbracketed (chars raw) with Some inner => inner | None => chars raw end in
  match mapped candidate with
  | Some v4 => ipv4Network (text v4)
  | None =>
      match ipv4Network (text candidate) with
      | Some v4 => Some v4
      | None => ipv6Network (text candidate)
      end
  end.

(** ** The request *)

(** [headers.get] of the first header that says anything. *)
Fixpoint clientNetworkFrom (headers : string -> option string) (names : list string) : string :=
  match names with
  | [] => UNKNOWN_NETWORK
  | name :: names =>
      match headers name with
      | None => clientNetworkFrom headers names
      | Some raw =>
          if String.eqb (trim raw) EmptyString then clientNetworkFrom headers names else
          match networkOf (text (cut "," (chars raw)).1) with
          | Some network => network
          | None => UNKNOWN_NETWORK
          end
      end
  end.

Definition clientNetwork (headers : string -> option string) : string := clientNetworkFrom headers ADDRESS_HEADERS.

Example mapped_is_v4 : networkOf "[::FFFF:203.0.113.9]:443" = Some "203.0.113.0/24".
Proof. reflexivity. Qed.

Example site_of_v6 : networkOf " 2001:0DB8:01::3 " = Some "2001:db8:1::/48".
Proof. reflexivity. Qed.

Example leading_zero_refused : networkOf "203.0.113.09" = None.
Proof. reflexivity. Qed.

Example short_v6 : networkOf "::1" = Some "0:0:0::/48".
Proof. reflexivity. Qed.

(** ** Laws *)

Lemma split_join c w ws : Forall (fun l => c ∉ l) (w :: ws) ->
  split_chars c (w ++ mjoin ((fun l => c :: l) <$> ws)) = w :: ws.
Proof.
  revert w. induction ws as [| v ws IH]; intros w Hws; apply Forall_cons in Hws as [Hw Hws]; cbn [fmap list_fmap mjoin list_join].
  - rewrite app_nil_r. induction w as [| a w IHw]; [done |]. apply not_elem_of_cons in Hw as [Ha Hw]. cbn [split_chars].
    destruct (Ascii.eqb_spec a c) as [-> |]; [done |]. by rewrite IHw.
  - induction w as [| a w IHw].
    + cbn [app split_chars]. rewrite Ascii.eqb_refl. f_equal. apply IH, Hws.
    + apply not_elem_of_cons in Hw as [Ha Hw]. specialize (IHw Hw). cbn [app split_chars] in IHw |- *.
      destruct (Ascii.eqb_spec a c) as [-> |]; [done |]. by rewrite IHw.
Qed.

Definition octet (n : Z) : string := pretty (Z.to_N n).
Definition dotted (a b c d : Z) : string :=
  octet a +:+ String "." (octet b +:+ String "." (octet c +:+ String "." (octet d))).

Definition octet_good (n : Z) : bool :=
  is_octet (octet n) && every is_digit (octet n) && negb (String.eqb (octet n) EmptyString).

Lemma octets_good n : 0 <= n < 256 -> octet_good n = true.
Proof.
  intros Hn. assert (Hall : forallb octet_good (seqZ 0 256) = true) by (vm_compute; reflexivity).
  rewrite forallb_forall in Hall. apply Hall, list_elem_of_In, elem_of_seqZ. lia.
Qed.

Lemma octet_lacks n c : 0 <= n < 256 -> is_digit c = false -> lacks c (octet n).
Proof. intros Hn. pose proof (octets_good n Hn) as H. apply andb_prop in H as [[_ H]%andb_prop _]. by apply every_lacks. Qed.

Lemma octet_is_octet n : 0 <= n < 256 -> is_octet (octet n) = true.
Proof. intros Hn. pose proof (octets_good n Hn) as H. by apply andb_prop in H as [[H _]%andb_prop _]. Qed.

Lemma ipv4_block a b c d : 0 <= a < 256 -> 0 <= b < 256 -> 0 <= c < 256 -> 0 <= d < 256 ->
  ipv4Network (dotted a b c d) = Some (octet a +:+ String "." (octet b +:+ String "." (octet c +:+ ".0/24"))).
Proof.
  intros Ha Hb Hc Hd. unfold ipv4Network, split.
  assert (E : chars (dotted a b c d) = chars (octet a) ++ mjoin ((fun l => "."%char :: l) <$> [chars (octet b); chars (octet c); chars (octet d)])).
  { unfold dotted. rewrite !app_chars. cbn [String.list_ascii_of_string fmap list_fmap mjoin list_join]. rewrite !app_chars. cbn.
    rewrite !app_chars. cbn. by rewrite app_nil_r. }
  rewrite E, split_join by (repeat (apply Forall_cons; split; [by apply octet_lacks |]); by apply Forall_nil).
  cbn [fmap list_fmap]. rewrite !String.string_of_list_ascii_of_string, !octet_is_octet by done. done.
Qed.

(** *** No network is written with a bar *)

Lemma is_octet_digits s : is_octet s = true -> every is_digit s = true.
Proof. unfold is_octet. intros H. apply andb_prop in H as [[H _]%andb_prop _]. by apply matches_every in H. Qed.

Lemma ipv4_no_bar s n : ipv4Network s = Some n -> no_bar n.
Proof.
  unfold ipv4Network. destruct (split "." s) as [| a [| b [| c [| d [|]]]]]; try done.
  destruct (is_octet a) eqn:Ea; [| done]. destruct (is_octet b) eqn:Eb; [| done]. destruct (is_octet c) eqn:Ec; [| done].
  destruct (is_octet d); [| done]. cbn [andb]. intros [= <-]. unfold no_bar.
  lacking; by eapply every_lacks; [apply is_octet_digits |].
Qed.

Lemma drop_zeros_incl l c : c ∈ drop_zeros l -> c ∈ l.
Proof.
  induction l as [| a l IH]; [done |]. cbn [drop_zeros]. destruct l as [| b l]; [done |].
  destruct (Ascii.eqb a "0"); [| done]. intros H. right. by apply IH.
Qed.

Lemma hex_not_bar c : is_hex_or_upper c = true -> lower c <> "|"%char.
Proof.
  intros Hc Hl. assert (Hall : forallb (fun n => negb (is_hex_or_upper (ascii_of_nat (Z.to_nat n)) &&
    Ascii.eqb (lower (ascii_of_nat (Z.to_nat n))) "|")) (seqZ 0 256) = true) by (vm_compute; reflexivity).
  rewrite forallb_forall in Hall. specialize (Hall (Z.of_nat (nat_of_ascii c))).
  rewrite Nat2Z.id, ascii_nat_embedding, Hc, Hl in Hall. discriminate Hall.
  apply list_elem_of_In, elem_of_seqZ. pose proof (nat_ascii_bounded c). lia.
Qed.

Lemma normal_group_no_bar g : matches is_hex_or_upper 1 4 (text g) = true -> lacks "|" (normal_group g).
Proof.
  intros Hg%matches_every. unfold every in Hg. rewrite String.list_ascii_of_string_of_list_ascii in Hg.
  rewrite forallb_forall in Hg. unfold lacks, normal_group. rewrite String.list_ascii_of_string_of_list_ascii.
  intros (c & Hc & Hin%drop_zeros_incl)%list_elem_of_fmap. apply (hex_not_bar c); [| done]. by apply Hg, list_elem_of_In.
Qed.

Lemma ipv6_no_bar s n : ipv6Network s = Some n -> no_bar n.
Proof.
  unfold ipv6Network. destruct (negb _); [done |]. destruct (negb _); [done |]. destruct (ipv6Groups s) as [gs |]; [| done].
  destruct (forallb _ gs) eqn:Eg; [| done]. destruct gs as [| a [| b [| c gs]]]; try done. intros [= <-].
  cbn [forallb] in Eg. apply andb_prop in Eg as [Ha Eg]. apply andb_prop in Eg as [Hb Eg]. apply andb_prop in Eg as [Hc _].
  unfold no_bar. lacking; by apply normal_group_no_bar.
Qed.

Lemma networkOf_no_bar s n : networkOf s = Some n -> no_bar n.
Proof.
  unfold networkOf. destruct (String.eqb _ _); [done |]. destruct (mapped _); [apply ipv4_no_bar |].
  destruct (ipv4Network _) eqn:E; [intros [= <-]; by apply ipv4_no_bar in E | apply ipv6_no_bar].
Qed.

(** What the rate limit assumes of the networks it is given. *)
Lemma clientNetwork_no_bar headers : no_bar (clientNetwork headers).
Proof.
  assert (Hu : no_bar UNKNOWN_NETWORK) by (unfold no_bar, UNKNOWN_NETWORK; lacking).
  unfold clientNetwork. induction ADDRESS_HEADERS as [| name names IH]; [exact Hu |]. cbn [clientNetworkFrom].
  destruct (headers name) as [raw |]; [| exact IH]. destruct (String.eqb _ _); [exact IH |].
  destruct (networkOf _) eqn:E; [by apply networkOf_no_bar in E | exact Hu].
Qed.

(** *** An IPv4 caller is its /24 *)

Lemma drop_spaces_plain l : Forall (fun c => is_space c = false) l -> drop_spaces l = l.
Proof. destruct 1 as [| c l Hc _]; [done |]. cbn. by rewrite Hc. Qed.

Lemma trim_plain s : every (fun c => negb (is_space c)) s = true -> trim s = s.
Proof.
  intros H. assert (Hl : Forall (fun c => is_space c = false) (chars s)).
  { apply Forall_forall. intros c Hc%list_elem_of_In. unfold every in H. rewrite forallb_forall in H. by apply negb_true_iff, H. }
  unfold trim. rewrite (drop_spaces_plain (chars s)) by done. rewrite drop_spaces_plain by by apply Forall_rev.
  by rewrite rev_involutive, String.string_of_list_ascii_of_string.
Qed.

Lemma drop_spaces_last l c : is_space c = false -> exists l', drop_spaces (l ++ [c]) = l' ++ [c].
Proof.
  intros Hc. induction l as [| a l (l' & IH)]; cbn [app drop_spaces]; [rewrite Hc; by exists [] |].
  destruct (is_space a); [by exists l' | by exists (a :: l)].
Qed.

Lemma trim_nonempty c s : is_space c = false -> String.eqb (trim (String c s)) EmptyString = false.
Proof.
  intros Hc. apply String.eqb_neq. unfold trim. cbn [String.list_ascii_of_string drop_spaces]. rewrite Hc. cbn [rev].
  destruct (drop_spaces_last (rev (chars s)) c Hc) as (l' & ->). rewrite rev_app_distr. cbn. done.
Qed.

Definition is_dotted (c : ascii) : bool := is_digit c || Ascii.eqb c ".".

Lemma dotted_plain a b c d : 0 <= a < 256 -> 0 <= b < 256 -> 0 <= c < 256 -> 0 <= d < 256 ->
  every is_dotted (dotted a b c d) = true /\ exists h t, dotted a b c d = String h t /\ is_digit h = true.
Proof.
  intros Ha Hb Hc Hd.
  assert (Ho : forall n, 0 <= n < 256 -> forallb is_dotted (chars (octet n)) = true).
  { intros n Hn. pose proof (octets_good n Hn) as H. apply andb_prop in H as [[_ H]%andb_prop _].
    apply forallb_forall. intros x Hx. unfold every in H. rewrite forallb_forall in H. unfold is_dotted. by rewrite H. }
  split.
  - unfold every, dotted. rewrite app_chars. cbn [String.list_ascii_of_string]. rewrite app_chars. cbn [String.list_ascii_of_string].
    rewrite app_chars, forallb_app. cbn [forallb String.list_ascii_of_string]. rewrite forallb_app. cbn [forallb].
    rewrite forallb_app. cbn [forallb]. by rewrite !Ho.
  - pose proof (octets_good a Ha) as H. apply andb_prop in H as [[_ H]%andb_prop Hne]. unfold dotted.
    destruct (octet a) as [| h t]; [done |]. exists h. eexists. split; [reflexivity |]. unfold every in H. cbn in H.
    by apply andb_prop in H as [H _].
Qed.

(** A dotted quad as a proxy may spell it. *)
Inductive spelled (quad : string) : string -> Prop :=
| as_is : spelled quad quad
| as_mapped : spelled quad ("::ffff:" +:+ quad).

Definition block (a b c : Z) : string := octet a +:+ String "." (octet b +:+ String "." (octet c +:+ ".0/24")).

Lemma every_weaken (p q : ascii -> bool) s : (forall c, p c = true -> q c = true) -> every p s = true -> every q s = true.
Proof. unfold every. rewrite !forallb_forall. auto. Qed.

(** A statement about each of the 256 code units. *)
Lemma each_char (p : ascii -> bool) : forallb (fun n => p (ascii_of_nat (Z.to_nat n))) (seqZ 0 256) = true -> forall c, p c = true.
Proof.
  rewrite forallb_forall. intros Hall c. specialize (Hall (Z.of_nat (nat_of_ascii c))).
  rewrite Nat2Z.id, ascii_nat_embedding in Hall. apply Hall, list_elem_of_In, elem_of_seqZ. pose proof (nat_ascii_bounded c). lia.
Qed.

Lemma dotted_char c : is_dotted c = true ->
  is_space c = false /\ is_dot c = true /\ c <> ","%char /\ c <> "["%char /\ lower c <> ":"%char.
Proof.
  intros Hc. pose proof (each_char (fun c => negb (is_dotted c) || (negb (is_space c) && is_dot c && negb (Ascii.eqb c ",") &&
    negb (Ascii.eqb c "[") && negb (Ascii.eqb (lower c) ":"))) ltac:(vm_compute; reflexivity) c) as H. cbn beta in H. rewrite Hc in H. cbn [negb orb] in H.
  repeat (apply andb_prop in H as [H ?%negb_true_iff]). 
  repeat match goal with E : Ascii.eqb _ _ = false |- _ => apply Ascii.eqb_neq in E end.
  by apply andb_prop in H as [H%negb_true_iff ?].
Qed.

Section Quad.
Context (a b c d : Z) (Ha : 0 <= a < 256) (Hb : 0 <= b < 256) (Hc : 0 <= c < 256) (Hd : 0 <= d < 256).

Lemma spelled_chars s : spelled (dotted a b c d) s -> every (fun x => negb (is_space x)) s = true /\ lacks "," s /\
  exists h t, s = String h t /\ is_space h = false.
Proof.
  destruct (dotted_plain a b c d Ha Hb Hc Hd) as (Hq & h & t & Eq & Hh).
  assert (Hplain : every (fun x => negb (is_space x)) (dotted a b c d) = true /\ lacks "," (dotted a b c d)).
  { split.
    - apply (every_weaken is_dotted); [| done]. intros x Hx. apply negb_true_iff. by apply dotted_char.
    - by apply (every_lacks is_dotted). }
  destruct Hplain as [Hsp Hcomma]. intros [|].
  - split; [done |]. split; [done |]. exists h, t. split; [done |]. apply dotted_char. unfold is_dotted. by rewrite Hh.
  - split; [| split].
    + unfold every in *. rewrite app_chars, forallb_app, Hsp. reflexivity.
    + lacking; done.
    + by exists ":"%char, (":ffff:" +:+ dotted a b c d).
Qed.

Lemma networkOf_quad s : spelled (dotted a b c d) s -> networkOf s = Some (block a b c).
Proof.
  intros Hs. pose proof (spelled_chars s Hs) as (Hsp & _ & h & t & Est & Hh).
  unfold networkOf. rewrite trim_plain by done.
  assert (Ene : String.eqb s EmptyString = false) by by rewrite Est. rewrite Ene.
  destruct (dotted_plain a b c d Ha Hb Hc Hd) as (Hq & h' & t' & Eq & Hh').
  assert (Hd' : is_dotted h' = true) by (unfold is_dotted; by rewrite Hh').
  destruct (dotted_char h' Hd') as (_ & _ & _ & Hbr & Hcol). destruct Hs.
  - assert (Hun : unbracketed (chars (dotted a b c d)) = None).
    { rewrite Eq. cbn [String.list_ascii_of_string unbracketed]. apply Ascii.eqb_neq in Hbr. by rewrite Hbr. }
    assert (Hmap : mapped (chars (dotted a b c d)) = None).
    { rewrite Eq. unfold mapped. cbn [String.list_ascii_of_string after_ignoring_case].
      destruct (Ascii.eqb_spec ":" (lower h')) as [E |]; [by rewrite <- E in Hcol | done]. }
    rewrite Hun, Hmap, String.string_of_list_ascii_of_string. by rewrite ipv4_block.
  - assert (Hun : unbracketed (chars ("::ffff:" +:+ dotted a b c d)) = None) by done.
    assert (Hmap : mapped (chars ("::ffff:" +:+ dotted a b c d)) = Some (chars (dotted a b c d))).
    { unfold mapped. rewrite app_chars.
      change (after_ignoring_case (chars "::ffff:") (chars "::ffff:" ++ chars (dotted a b c d))) with (Some (chars (dotted a b c d))).
      assert (Hdot : forallb is_dot (chars (dotted a b c d)) = true).
      { apply (every_weaken is_dotted); [| done]. intros x Hx. by apply dotted_char. }
      cbv beta iota. rewrite Hdot, Eq. done. }
    rewrite Hun, Hmap, String.string_of_list_ascii_of_string. by apply ipv4_block.
Qed.
End Quad.

Lemma block_inj a b c a' b' c' : 0 <= a < 256 -> 0 <= b < 256 -> 0 <= c < 256 -> 0 <= a' < 256 -> 0 <= b' < 256 -> 0 <= c' < 256 ->
  block a b c = block a' b' c' -> a = a' /\ b = b' /\ c = c'.
Proof.
  intros Ha Hb Hc Ha' Hb' Hc' E.
  assert (Hdot : forall n, 0 <= n < 256 -> lacks "." (octet n)) by (intros n Hn; by apply octet_lacks).
  apply text_split in E as [Ea E]; [| by apply Hdot..]. apply text_split in E as [Eb E]; [| by apply Hdot..].
  apply append_inj_r in E. unfold octet in *. apply (inj pretty) in Ea, Eb, E. lia.
Qed.

(** An IPv4 caller is counted as its /24 and as nothing finer: whatever the
    last octet, whether the platform's header spells the address plainly or
    mapped into IPv6, alone or followed by the chain of proxies, and whatever
    the weaker headers say, the network is the one of the first three octets,
    and two callers share it exactly when they agree on those.  No network is
    ever written with the bar the rate limit separates its subjects by. *)
Theorem network_is_a_block headers a b c d s rest : 0 <= a < 256 -> 0 <= b < 256 -> 0 <= c < 256 -> 0 <= d < 256 ->
  spelled (dotted a b c d) s -> rest = EmptyString \/ (exists chain, rest = String "," chain) ->
  headers "x-vercel-forwarded-for" = Some (s +:+ rest) ->
  clientNetwork headers = block a b c /\ no_bar (clientNetwork headers) /\
  forall a' b' c', 0 <= a' < 256 -> 0 <= b' < 256 -> 0 <= c' < 256 ->
    (block a b c = block a' b' c' <-> a = a' /\ b = b' /\ c = c').
Proof.
  intros Ha Hb Hc Hd Hs Hrest Hhead. split; [| split; [apply clientNetwork_no_bar |]].
  - destruct (spelled_chars a b c d Ha Hb Hc Hd s Hs) as (_ & Hcomma & h & t & Est & Hh).
    unfold clientNetwork, ADDRESS_HEADERS. cbn [clientNetworkFrom]. rewrite Hhead.
    assert (Ene : String.eqb (trim (s +:+ rest)) EmptyString = false).
    { rewrite Est. exact (trim_nonempty h (t +:+ rest) Hh). }
    rewrite Ene, app_chars.
    assert (Hcut : (cut "," (chars s ++ chars rest)).1 = chars s).
    { destruct Hrest as [-> | (chain & ->)]; cbn [String.list_ascii_of_string].
      - rewrite app_nil_r. by rewrite cut_none.
      - by rewrite cut_app. }
    by rewrite Hcut, String.string_of_list_ascii_of_string, (networkOf_quad a b c d).
  - intros a' b' c' Ha' Hb' Hc'. split; [by apply block_inj | by intros (-> & -> & ->)].
Qed.

Definition sample_headers (name : string) : option string :=
  if String.eqb name "x-vercel-forwarded-for" then Some "::ffff:203.0.113.9, 10.0.0.1" else Some "198.51.100.7".

Lemma network_is_a_block_witness : clientNetwork sample_headers = "203.0.113.0/24" /\ no_bar (clientNetwork sample_headers).
Proof.
  destruct (network_is_a_block sample_headers 203 0 113 9 "::ffff:203.0.113.9" ", 10.0.0.1") as (H1 & H2 & _);
    [lia | lia | lia | lia | exact (as_mapped (dotted 203 0 113 9)) | right; by exists " 10.0.0.1" | reflexivity |].
  split; [exact H1 | exact H2].
Defined.
