(* ===== verification/LinkRegister.v ===== *)
(** * Challenges and the register of links

    [er-demo/api/src/writeStore.ts], the interfaces of the identity API's
    stores, and their in-memory implementations [memoryWriteStore.ts] and
    [memoryStore.ts].  A JavaScript [Map] that is iterated is a list in
    insertion order; one that is only looked up is a finite map. *)
From S2P Require Import Prelude Text.

(** ** Patterns *)

Definition is_handle_char (c : ascii) : bool := is_letter c || is_digit c || Ascii.eqb c "_".

Definition NONCE_RE : string -> bool := matches is_hex 64 64.
Definition WALLET_RE : string -> bool := matches is_base58 32 44.
Definition X_ID_RE : string -> bool := matches is_digit 1 20.
Definition HANDLE_RE : string -> bool := matches is_handle_char 1 15.
Definition AVATAR_URL_PREFIX : string := "https://pbs.twimg.com/".

(** ** What is stored *)

Record XIdentity : Type := mkIdentity {
  xId : string;
  handle : string;
  displayName : string;
  avatarUrl : option string;
}.

(** A challenge's purpose; a link carries the identity it will write. *)
Inductive ChallengePurpose : Type := to_link (identity : XIdentity) | to_unlink.

Record Challenge : Type := mkChallenge {
  nonce : string;
  ch_wallet : string;
  message : string;
  issuedAtSec : Z;
  expiresAtSec : Z;
  purpose : ChallengePurpose;
}.

Inductive LinkWriteOutcome : Type := linked | wallet_taken.

(** The constraints of the tables, by what they check. *)
Inductive constraint : Type :=
| nonce_check | wallet_check | message_check | expires_after_issue | x_id_check | handle_check | display_name_check
| avatar_url_check | primary_key.

Definition refuse_if (b : bool) (k : constraint) : outcome constraint unit := if b then Throw k else Done tt.

Section Checks.
Open Scope js_scope.

Definition assertIdentityIsStorable (i : XIdentity) : outcome constraint unit :=
  let! _x := refuse_if (negb (X_ID_RE (xId i))) x_id_check in
  let! _h := refuse_if (negb (HANDLE_RE (handle i))) handle_check in
  let! _d := refuse_if (100 <? Z.of_nat (String.length (displayName i))) display_name_check in
  refuse_if (match avatarUrl i with Some u => negb (String.prefix AVATAR_URL_PREFIX u) | None => false end) avatar_url_check.

Definition assertChallengeIsStorable (c : Challenge) : outcome constraint unit :=
  let! _n := refuse_if (negb (NONCE_RE (nonce c))) nonce_check in
  let! _w := refuse_if (negb (WALLET_RE (ch_wallet c))) wallet_check in
  let! _m := refuse_if (String.eqb (message c) EmptyString || (2000 <? Z.of_nat (String.length (message c)))) message_check in
  let! _e := refuse_if (expiresAtSec c <=? issuedAtSec c) expires_after_issue in
  match purpose c with
  | to_link i => assertIdentityIsStorable i
  | to_unlink => Done tt
  end.

Definition assertRowIsStorable (wallet : string) (i : XIdentity) : outcome constraint unit :=
  let! _x := refuse_if (negb (X_ID_RE (xId i))) x_id_check in
  let! _h := refuse_if (negb (HANDLE_RE (handle i))) handle_check in
  let! _w := refuse_if (negb (WALLET_RE wallet)) wallet_check in
  let! _d := refuse_if (100 <? Z.of_nat (String.length (displayName i))) display_name_check in
  refuse_if (match avatarUrl i with Some u => negb (String.prefix AVATAR_URL_PREFIX u) | None => false end) avatar_url_check.
End Checks.

(** ** Challenges *)

Class ChallengeStore (S E : Type) : Type := {
  put : Challenge -> S -> outcome E unit * S;
  consume : string -> Z -> S -> outcome E (option Challenge) * S;
}.

(** What a challenge store promises: [put] adds one challenge under its nonce or
    fails without effect on the others; [consume] hands a live challenge out and
    destroys it; rows may be swept, never invented. *)
Class OneShotStore (S E : Type) `{!ChallengeStore S E} : Type := {
  held : S -> gmap string Challenge;
  put_holds : forall c s, match put c s with
    | (Done _, s') => held s' ⊆ <[nonce c := c]> (held s)
    | (Throw _, s') => held s' ⊆ held s
    end;
  consume_once : forall n t s, match consume n t s with
    | (Done (Some c), s') => held s !! n = Some c /\ t < expiresAtSec c /\ held s' ⊆ delete n (held s)
    | (_, s') => held s' ⊆ held s
    end;
}.

Definition assertAbsent (n : string) (rows : gmap string Challenge) : outcome constraint unit :=
  match rows !! n with Some _ => Throw primary_key | None => Done tt end.

Definition memory_put (c : Challenge) (rows : gmap string Challenge) : outcome constraint unit * gmap string Challenge :=
  match outcome_bind (assertChallengeIsStorable c) (fun _ => assertAbsent (nonce c) rows) with
  | Done _ => (Done tt, <[nonce c := c]> rows)
  | Throw e => (Throw e, rows)
  end.

Definition memory_consume (n : string) (nowSec : Z) (rows : gmap string Challenge)
  : outcome constraint (option Challenge) * gmap string Challenge :=
  match rows !! n with
  | None => (Done None, rows)
  | Some row => if expiresAtSec row <=? nowSec then (Done None, rows) else (Done (Some row), delete n rows)
  end.

#[export] Instance memory_challenges : ChallengeStore (gmap string Challenge) constraint :=
  {| put := memory_put; consume := memory_consume |}.

#[export] Instance memory_one_shot : OneShotStore (gmap string Challenge) constraint.
Proof.
  refine {| held := id |}.
  - intros c s. cbn. unfold memory_put. by destruct (outcome_bind _ _).
  - intros n t s. cbn. unfold memory_consume. destruct (s !! n) as [row |] eqn:En; [| done].
    destruct (Z.leb_spec (expiresAtSec row) t); done.
Defined.

(** ** The register *)

Record MemoryRow : Type := mkRow {
  row_xId : string;
  row_wallet : string;
  row_handle : string;
  row_displayName : string;
  row_avatarUrl : option string;
  row_avatar : option (string * list Z * Z);
  linkedAt : Z;
  suppressed : bool;
}.

Record Register : Type := mkRegister { rows : list MemoryRow; suppressedXIds : gset string }.

Definition row_of (x : string) (rs : list MemoryRow) : option MemoryRow := List.find (fun r => String.eqb (row_xId r) x) rs.

(** [Map.set] on a key that is there: in place. *)
Definition replace_row (x : string) (f : MemoryRow -> MemoryRow) (rs : list MemoryRow) : list MemoryRow :=
  (fun r => if String.eqb (row_xId r) x then f r else r) <$> rs.

Definition linkRegister (wallet : string) (i : XIdentity) (linkedAtSec : Z) (s : Register)
  : outcome constraint LinkWriteOutcome * Register :=
  match assertRowIsStorable wallet i with
  | Throw e => (Throw e, s)
  | Done _ =>
      if existsb (fun r => String.eqb (row_wallet r) wallet && negb (String.eqb (row_xId r) (xId i))) (rows s)
      then (Done wallet_taken, s) else
      match row_of (xId i) (rows s) with
      | None =>
          (Done linked, mkRegister (rows s ++ [mkRow (xId i) wallet (handle i) (displayName i) (avatarUrl i) None linkedAtSec
             (bool_decide (xId i ∈ suppressedXIds s))]) (suppressedXIds s))
      | Some current =>
          let moved := mkRow (row_xId current) wallet (handle i) (displayName i) (avatarUrl i)
            (match avatarUrl i with Some _ => row_avatar current | None => None end)
            (if negb (String.eqb (row_wallet current) wallet) then linkedAtSec else linkedAt current) (suppressed current) in
          (Done linked, mkRegister (replace_row (xId i) (fun _ => moved) (rows s)) (suppressedXIds s))
      end
  end.

(** The first row of [wallet] is removed; its [x_id] is the answer. *)
Fixpoint remove_wallet (wallet : string) (rs : list MemoryRow) : option string * list MemoryRow :=
  match rs with
  | [] => (None, [])
  | r :: rs =>
      if String.eqb (row_wallet r) wallet then (Some (row_xId r), rs)
      else let '(x, rs) := remove_wallet wallet rs in (x, r :: rs)
  end.

Definition unlinkRegister (wallet : string) (s : Register) : option string * Register :=
  let '(x, rs) := remove_wallet wallet (rows s) in (x, mkRegister rs (suppressedXIds s)).

Definition with_suppressed (b : bool) (r : MemoryRow) : MemoryRow :=
  mkRow (row_xId r) (row_wallet r) (row_handle r) (row_displayName r) (row_avatarUrl r) (row_avatar r) (linkedAt r) b.

Definition setSuppressed (x : string) (b : bool) (s : Register) : bool * Register :=
  let cleared := if b then suppressedXIds s else suppressedXIds s ∖ {[ x ]} in
  match row_of x (rows s) with
  | None => (false, mkRegister (rows s) cleared)
  | Some _ => (true, mkRegister (replace_row x (with_suppressed b) (rows s)) (if b then {[ x ]} ∪ cleared else cleared))
  end.

Definition with_avatar (a : string * list Z * Z) (r : MemoryRow) : MemoryRow :=
  mkRow (row_xId r) (row_wallet r) (row_handle r) (row_displayName r) (row_avatarUrl r) (Some a) (linkedAt r) (suppressed r).

Definition putAvatar (x hash : string) (bytes : list Z) (atSec : Z) (s : Register) : bool * Register :=
  match row_of x (rows s) with
  | None => (false, s)
  | Some _ => (true, mkRegister (replace_row x (with_avatar (hash, bytes, atSec)) (rows s)) (suppressedXIds s))
  end.

Definition findByWallets (wallets : list string) (s : Register) : list MemoryRow :=
  base.filter (fun r => row_wallet r ∈ wallets /\ suppressed r = false) (rows s).

Definition findAvatar (x hash : string) (s : Register) : option (list Z) :=
  match row_of x (rows s) with
  | None => None
  | Some r =>
      if suppressed r then None else
      match row_avatar r with
      | Some (h, bytes, _) => if String.eqb h hash then Some bytes else None
      | None => None
      end
  end.

(** [findForIngest]: the picture's address and whether the row is suppressed. *)
Definition findForIngest (x : string) (s : Register) : option (option string * bool) :=
  (fun r => (row_avatarUrl r, suppressed r)) <$> row_of x (rows s).

(** ** The register's laws *)

Inductive register_op : Type :=
| op_link (wallet : string) (i : XIdentity) (at_ : Z)
| op_unlink (wallet : string)
| op_suppress (x : string) (b : bool)
| op_avatar (x hash : string) (bytes : list Z) (at_ : Z).

Definition apply_op (o : register_op) (s : Register) : Register :=
  match o with
  | op_link w i t => snd (linkRegister w i t s)
  | op_unlink w => snd (unlinkRegister w s)
  | op_suppress x b => snd (setSuppressed x b s)
  | op_avatar x h bs t => snd (putAvatar x h bs t s)
  end.

Definition apply_ops (os : list register_op) (s : Register) : Register := foldl (fun s o => apply_op o s) s os.

(** One row per account and per wallet. *)
Definition unique_rows (s : Register) : Prop := NoDup (row_xId <$> rows s) /\ NoDup (row_wallet <$> rows s).

(** Every row of an account in the durable record is suppressed. *)
Definition tombstones_hold (s : Register) : Prop :=
  Forall (fun r => row_xId r ∈ suppressedXIds s <-> suppressed r = true) (rows s).

Lemma row_of_Some x rs r : row_of x rs = Some r -> r ∈ rs /\ row_xId r = x.
Proof.
  intros H%find_some. destruct H as [Hin Hx]. apply String.eqb_eq in Hx. split; [by apply list_elem_of_In | done].
Qed.

Lemma row_of_None x rs : row_of x rs = None -> x ∉ row_xId <$> rs.
Proof.
  intros H (r & -> & Hin%list_elem_of_In)%list_elem_of_fmap. apply (find_none _ _ H) in Hin.
  by rewrite String.eqb_refl in Hin.
Qed.

Lemma elem_of_replace_row x f rs r : r ∈ replace_row x f rs ->
  (r ∈ rs /\ row_xId r <> x) \/ (exists r0, r0 ∈ rs /\ row_xId r0 = x /\ r = f r0).
Proof.
  intros (r0 & -> & Hin)%list_elem_of_fmap. destruct (String.eqb_spec (row_xId r0) x); [right; by exists r0 | by left].
Qed.

Lemma row_of_replace x f rs r : row_of x rs = Some r -> (forall r0, row_xId (f r0) = row_xId r0) ->
  row_of x (replace_row x f rs) = Some (f r).
Proof.
  intros Hr Hf. induction rs as [| r0 rs IH]; [done |]. unfold row_of, replace_row in *. cbn in Hr |- *.
  destruct (String.eqb_spec (row_xId r0) x) as [Hx | Hx]; cbn.
  - injection Hr as ->. by rewrite Hf, Hx, String.eqb_refl.
  - destruct (String.eqb_spec (row_xId r0) x); [done |]. by apply IH.
Qed.

Lemma replace_row_ids x f rs : (forall r0, row_xId r0 = x -> row_xId (f r0) = x) -> row_xId <$> replace_row x f rs = row_xId <$> rs.
Proof.
  intros Hf. unfold replace_row. rewrite <- list_fmap_compose. apply list_fmap_ext. intros _ r0 _. cbn.
  destruct (String.eqb_spec (row_xId r0) x) as [Hx |]; [| done]. by rewrite Hf, Hx.
Qed.

Lemma replace_row_wallets x f rs : (forall r0, row_wallet (f r0) = row_wallet r0) ->
  row_wallet <$> replace_row x f rs = row_wallet <$> rs.
Proof.
  intros Hf. unfold replace_row. rewrite <- list_fmap_compose. apply list_fmap_ext. intros _ r0 _. cbn. by destruct (String.eqb _ _).
Qed.

Lemma remove_wallet_sublist w rs : sublist (snd (remove_wallet w rs)) rs.
Proof.
  induction rs as [| r rs IH]; [done |]. cbn. destruct (String.eqb _ _); [by apply sublist_cons |].
  destruct (remove_wallet w rs) as [x rs']. cbn in *. by apply sublist_skip.
Qed.

Lemma unlink_rows w s : rows (snd (unlinkRegister w s)) = snd (remove_wallet w (rows s)) /\
  suppressedXIds (snd (unlinkRegister w s)) = suppressedXIds s.
Proof. unfold unlinkRegister. by destruct (remove_wallet w (rows s)). Qed.

(** No other account holds the wallet: the refusal's test. *)
Lemma wallet_free w x rs :
  existsb (fun r => String.eqb (row_wallet r) w && negb (String.eqb (row_xId r) x)) rs = false ->
  forall r, r ∈ rs -> row_wallet r = w -> row_xId r = x.
Proof.
  intros He r Hin Hw. destruct (String.eqb_spec (row_xId r) x) as [| Hx]; [done |]. exfalso.
  enough (existsb (fun r => String.eqb (row_wallet r) w && negb (String.eqb (row_xId r) x)) rs = true) by congruence.
  apply existsb_exists. exists r. split; [by apply list_elem_of_In |]. apply String.eqb_neq in Hx. by rewrite Hw, String.eqb_refl, Hx.
Qed.

(** *** One row per account and per wallet *)

Lemma moved_wallets w x f rs : NoDup (row_xId <$> rs) -> NoDup (row_wallet <$> rs) -> (forall r0, row_wallet (f r0) = w) ->
  (forall r, r ∈ rs -> row_wallet r = w -> row_xId r = x) -> NoDup (row_wallet <$> replace_row x f rs).
Proof.
  intros Hx Hw Hf Hfree. induction rs as [| r rs IH]; [constructor |]. cbn in *.
  apply NoDup_cons in Hx as [Hx Hxs]. apply NoDup_cons in Hw as [Hw Hws].
  assert (Hfree' : forall r, r ∈ rs -> row_wallet r = w -> row_xId r = x) by (intros r' Hr'; apply Hfree; by right).
  apply NoDup_cons. split; [| by apply IH]. intros (r' & Hw' & Hin)%list_elem_of_fmap.
  apply elem_of_replace_row in Hin as [[Hin Hne] | (r0 & Hin & Hx0 & ->)].
  - destruct (String.eqb_spec (row_xId r) x) as [Hr | Hr].
    + rewrite Hf in Hw'. apply Hne, (Hfree' r' Hin). done.
    + apply Hw, list_elem_of_fmap. by exists r'.
  - rewrite Hf in Hw'. destruct (String.eqb_spec (row_xId r) x) as [Hr | Hr].
    + apply Hx. rewrite Hr, <- Hx0. apply list_elem_of_fmap. by exists r0.
    + apply Hr, Hfree; [by left | done].
Qed.

Lemma link_unique w i t s : unique_rows s -> unique_rows (snd (linkRegister w i t s)).
Proof.
  intros [Hx Hw]. unfold linkRegister. destruct (assertRowIsStorable w i); [| done].
  destruct (existsb _ (rows s)) eqn:Ee; [done |]. pose proof (wallet_free _ _ _ Ee) as Hfree.
  destruct (row_of (xId i) (rows s)) as [cur |] eqn:Er; split; cbn.
  - apply row_of_Some in Er as [_ Hcur]. rewrite replace_row_ids; [done |]. by intros.
  - by apply (moved_wallets w).
  - rewrite fmap_app. cbn. apply NoDup_app. split; [done |]. split; [| apply NoDup_singleton].
    intros x Hin ->%list_elem_of_singleton. by apply (row_of_None _ _ Er).
  - rewrite fmap_app. cbn. apply NoDup_app. split; [done |]. split; [| apply NoDup_singleton].
    intros w' Hin ->%list_elem_of_singleton. apply list_elem_of_fmap in Hin as (r & Hr & Hin).
    apply (row_of_None _ _ Er), list_elem_of_fmap. exists r. split; [symmetry; by apply Hfree | done].
Qed.


(** Every operation keeps one row per account and one per wallet. *)
Lemma op_unique o s : unique_rows s -> unique_rows (apply_op o s).
Proof.
  intros Hs. destruct o as [w i t | w | x b | x h bs t]; cbn.
  - by apply link_unique.
  - destruct Hs as [Hx Hw]. unfold unique_rows. destruct (unlink_rows w s) as [-> _].
    split; eapply sublist_NoDup; [exact Hx | by apply sublist_fmap, remove_wallet_sublist | exact Hw | by apply sublist_fmap, remove_wallet_sublist].
  - unfold setSuppressed. destruct (row_of x (rows s)); [| done]. unfold unique_rows. cbn.
    by rewrite replace_row_ids, replace_row_wallets.
  - unfold putAvatar. destruct (row_of x (rows s)); [| done]. unfold unique_rows. cbn.
    by rewrite replace_row_ids, replace_row_wallets.
Qed.

Lemma ops_unique os s : unique_rows s -> unique_rows (apply_ops os s).
Proof. revert s. induction os as [| o os IH]; intros s Hs; [done |]. by apply IH, op_unique. Qed.

(** *** The kill switch *)

(** The account is in the durable record and no row of it shows. *)
Definition hidden (x : string) (s : Register) : Prop :=
  x ∈ suppressedXIds s /\ forall r, r ∈ rows s -> row_xId r = x -> suppressed r = true.

(** Every operation but the operator lifting the suppression of [x]. *)
Definition does_not_lift (x : string) (o : register_op) : Prop :=
  match o with op_suppress x' b => x' = x -> b = true | _ => True end.

Lemma link_hidden x w i t s : hidden x s -> hidden x (snd (linkRegister w i t s)).
Proof.
  intros [Hx Hr]. unfold linkRegister. destruct (assertRowIsStorable w i); [| done].
  destruct (existsb _ (rows s)); [done |].
  destruct (row_of (xId i) (rows s)) as [cur |] eqn:Er; split; cbn; try done; intros r Hin Hrx.
  - apply row_of_Some in Er as [Hcur Hid].
    apply elem_of_replace_row in Hin as [[Hin _] | (r0 & Hin & Hx0 & ->)]; [by apply Hr |]. cbn in *. by apply Hr.
  - apply elem_of_app in Hin as [Hin | ->%list_elem_of_singleton]; [by apply Hr |]. cbn in *. subst x.
    by apply bool_decide_eq_true.
Qed.

Lemma suppress_hidden x x' b s : hidden x s -> (x' = x -> b = true) -> hidden x (snd (setSuppressed x' b s)).
Proof.
  intros [Hx Hr] Hb. unfold setSuppressed.
  assert (Hc : x ∈ (if b then suppressedXIds s else suppressedXIds s ∖ {[x']})).
  { destruct b; [done |]. apply elem_of_difference. split; [done |]. intros ->%elem_of_singleton. by discriminate Hb. }
  destruct (row_of x' (rows s)); split; cbn; try done.
  - destruct b; [by apply elem_of_union_r | done].
  - intros r Hin Hrx. apply elem_of_replace_row in Hin as [[Hin _] | (r0 & Hin & Hx0 & ->)]; [by apply Hr |].
    cbn in *. apply Hb. congruence.
Qed.

Lemma op_hidden x o s : does_not_lift x o -> hidden x s -> hidden x (apply_op o s).
Proof.
  intros Ho Hs. destruct o as [w i t | w | x' b | x' h bs t]; cbn.
  - by apply link_hidden.
  - destruct Hs as [Hx Hr]. unfold hidden. destruct (unlink_rows w s) as [-> ->]. split; [done |].
    intros r Hin. apply Hr. eapply elem_of_sublist; [done | apply remove_wallet_sublist].
  - by apply suppress_hidden.
  - destruct Hs as [Hx Hr]. unfold putAvatar. destruct (row_of x' (rows s)); [| done]. split; [done |]. cbn.
    intros r Hin Hrx. apply elem_of_replace_row in Hin as [[Hin _] | (r0 & Hin & Hx0 & ->)]; [by apply Hr |].
    cbn in *. by apply Hr.
Qed.

Lemma ops_hidden x os s : Forall (does_not_lift x) os -> hidden x s -> hidden x (apply_ops os s).
Proof. intros Hos. revert s. induction Hos as [| o os Ho Hos IH]; intros s Hs; [done |]. by apply IH, op_hidden. Qed.

Lemma suppressing_hides x s r : row_of x (rows s) = Some r -> hidden x (snd (setSuppressed x true s)).
Proof.
  intros Hr. unfold setSuppressed. rewrite Hr. split; cbn; [by apply elem_of_union_l, elem_of_singleton |].
  intros r' Hin Hx. by apply elem_of_replace_row in Hin as [[_ Hne] | (r0 & _ & _ & ->)].
Qed.

Lemma hidden_serves_nothing x s : hidden x s ->
  (forall ws r, r ∈ findByWallets ws s -> row_xId r <> x) /\ (forall h, findAvatar x h s = None) /\
  (forall u b, findForIngest x s = Some (u, b) -> b = true).
Proof.
  intros [Hx Hr]. split; [| split].
  - intros ws r Hin Hrx. apply list_elem_of_filter in Hin as [[_ Hs] Hin]. by rewrite (Hr r Hin Hrx) in Hs.
  - intros h. unfold findAvatar. destruct (row_of x (rows s)) as [r |] eqn:Er; [| done].
    apply row_of_Some in Er as [Hin Hrx]. by rewrite (Hr r Hin Hrx).
  - intros u b. unfold findForIngest. destruct (row_of x (rows s)) as [r |] eqn:Er; [| done].
    apply row_of_Some in Er as [Hin Hrx]. cbn. rewrite (Hr r Hin Hrx). by intros [= _ <-].
Qed.

(** C33. The kill switch survives the ceremony: once an account of the register
    has been suppressed, then whatever follows of links, unlinks, pictures and
    suppressions, short of lifting this account's own, neither its row nor its
    picture is served again and the ingest is told it is suppressed; a link
    that brings it back brings it back suppressed.  Lifting the suppression
    serves the row again. *)
Theorem kill_switch_survives x s r os : row_of x (rows s) = Some r -> Forall (does_not_lift x) os ->
  let s' := apply_ops os (snd (setSuppressed x true s)) in
  ((forall ws r, r ∈ findByWallets ws s' -> row_xId r <> x) /\ (forall h, findAvatar x h s' = None) /\
   (forall u b, findForIngest x s' = Some (u, b) -> b = true)) /\
  (forall r', row_of x (rows s') = Some r' ->
     with_suppressed false r' ∈ findByWallets [row_wallet r'] (snd (setSuppressed x false s'))).
Proof.
  intros Hr Hos s'. split; [by eapply hidden_serves_nothing, ops_hidden, suppressing_hides |].
  intros r' Hr'. unfold setSuppressed, findByWallets. rewrite Hr'. cbn. apply list_elem_of_filter.
  split; [split; [by left | done] |].
  apply row_of_Some in Hr' as [Hin Hx]. unfold replace_row. apply list_elem_of_fmap. exists r'.
  by rewrite Hx, String.eqb_refl.
Qed.

(** Suppressed, unlinked, linked again from another wallet. *)
Definition sample_face : XIdentity := mkIdentity "44196397" "player_one" "Player One" None.
Definition sample_wallet : string := "4Nd1mYw4o7H8a6wR3J2xUuQnJcFqk3nDkLr6S9gJm1xZ".
Definition other_wallet : string := "9xQeWvG816bUx9EPjHmaT23yvVM2ZWbrrpZb9PusVFin".
Definition sample_register : Register := apply_op (op_link sample_wallet sample_face 100) (mkRegister [] ∅).
Definition sample_ops : list register_op := [op_unlink sample_wallet; op_link other_wallet sample_face 200].

Lemma kill_switch_survives_witness :
  exists r r', row_of "44196397" (rows sample_register) = Some r /\
    row_of "44196397" (rows (apply_ops sample_ops (snd (setSuppressed "44196397" true sample_register)))) = Some r' /\
    row_wallet r' = other_wallet /\
    findByWallets [other_wallet] (apply_ops sample_ops (snd (setSuppressed "44196397" true sample_register))) = [] /\
    with_suppressed false r' ∈ findByWallets [row_wallet r']
      (snd (setSuppressed "44196397" false (apply_ops sample_ops (snd (setSuppressed "44196397" true sample_register))))).
Proof.
  eexists _, _. split; [vm_compute; reflexivity |]. split; [vm_compute; reflexivity |]. split; [reflexivity |].
  split; [vm_compute; reflexivity |].
  refine (proj2 (kill_switch_survives "44196397" sample_register _ sample_ops _ _) _ _);
    [vm_compute; reflexivity | repeat constructor; done | vm_compute; reflexivity].
Defined.
