(* ===== verification/Challenge.v ===== *)
(** * The words of a challenge

    [er-demo/api/src/challenge.ts], the message a wallet signs and its nonce;
    [reserved.ts], what the register may never hold; and the parsers of the
    ceremony's fields, [wallets.ts] and [writeHttp.ts#signatureBytes].  The
    decoding of a base58 key ([@solana/web3.js]) is a parameter. *)
From S2P Require Import Prelude Text LinkRegister.

Definition CHALLENGE_TTL_SECONDS : Z := 300.
Definition NONCE_BYTES : nat := 32.
Definition DEFAULT_ORIGIN : string := "bullsvsunicorns.fun".

(** A field of a JSON body: a string, or anything else. *)
Inductive JsonValue : Type := jstr (s : string) | jother.

(** ** The origin *)

Definition is_host_char (c : ascii) : bool := is_letter c || is_digit c || Ascii.eqb c "." || Ascii.eqb c "-".

(** [/^[A-Za-z0-9.-]{1,80}(:[0-9]{1,5})?$/]: no character of the name is a colon. *)
Definition HOST_RE (s : string) : bool :=
  let '(name, port) := cut ":" (chars s) in
  matches is_host_char 1 80 (text name) && match port with Some p => matches is_digit 1 5 (text p) | None => true end.

Definition originFrom (host : option string) : string :=
  match host with
  | None => DEFAULT_ORIGIN
  | Some host => let trimmed := trim host in if HOST_RE trimmed then trimmed else DEFAULT_ORIGIN
  end.

(** ** [Date.toISOString], seconds only *)

(** A day of the proleptic Gregorian calendar by its distance from 1970-01-01:
    the years of a 400-year era start in March. *)
Definition civil_in_era (doe : Z) : Z * Z * Z :=
  let yoe := (doe - doe / 1460 + doe / 36524 - doe / 146096) / 365 in
  let doy := doe - (365 * yoe + yoe / 4 - yoe / 100) in
  let mp := (5 * doy + 2) / 153 in
  (yoe, mp, doy - (153 * mp + 2) / 5 + 1).

Definition civil_of_days (days : Z) : Z * Z * Z :=
  let z := days + 719468 in
  let '(yoe, mp, d) := civil_in_era (z mod 146097) in
  let m := if mp <? 10 then mp + 3 else mp - 9 in
  (yoe + 400 * (z / 146097) + (if m <=? 2 then 1 else 0), m, d).

Definition year_text (y : Z) : string :=
  if (0 <=? y) && (y <=? 9999) then padded 4 y else (if y <? 0 then "-" else "+") +:+ padded 6 (Z.abs y).

Inductive range_error : Type := InvalidTime.

(** The last instant a [Date] can hold, in seconds. *)
Definition MAX_DATE_SECONDS : Z := 8640000000000.

Definition iso_text (unixSec : Z) : string :=
  let '(y, m, d) := civil_of_days (unixSec / 86400) in
  let t := unixSec mod 86400 in
  year_text y +:+ String "-" (padded 2 m +:+ String "-" (padded 2 d +:+ String "T" (padded 2 (t / 3600) +:+
    String ":" (padded 2 (t / 60 mod 60) +:+ String ":" (padded 2 (t mod 60) +:+ "Z"))))).

Definition isoSecond (unixSec : Z) : outcome range_error string :=
  if MAX_DATE_SECONDS <? Z.abs unixSec then Throw InvalidTime else Done (iso_text unixSec).

(** ** The message *)

(** A link names the handle and the account; an unlink names none. *)
Record ChallengeMessageInput : Type := mkInput {
  in_origin : string;
  in_wallet : string;
  in_face : option (string * string);
  in_nonce : string;
  in_issued : Z;
  in_expires : Z;
}.

Definition message_head (i : ChallengeMessageInput) : string :=
  match in_face i with
  | Some _ => in_origin i +:+ " wants to link your X account."
  | None => in_origin i +:+ " wants to unlink your X account."
  end.

Definition face_line (h x : string) : string := "X:       @" +:+ (h +:+ String " " (" (id " +:+ (x +:+ ")"))).

Definition message_lines (i : ChallengeMessageInput) (issued expires : string) : list string :=
  [message_head i; EmptyString; "Wallet:  " +:+ in_wallet i] ++
  (match in_face i with Some (h, x) => [face_line h x] | None => [] end) ++
  ["Nonce:   " +:+ in_nonce i; "Issued:  " +:+ issued; "Expires: " +:+ expires; EmptyString] ++
  (match in_face i with
   | Some _ =>
       ["Signing this proves you control this wallet. It is not a";
        "transaction, it moves no funds, and it costs nothing.";
        EmptyString;
        "Anyone will then be able to see that this wallet belongs to";
        "your X account, including its entire on-chain history."]
   | None =>
       ["Signing this removes your X account from this wallet. It is";
        "not a transaction, it moves no funds, and it costs nothing.";
        EmptyString;
        "It cannot undo what anyone has already seen or copied."]
   end).

Definition challengeMessage (i : ChallengeMessageInput) : outcome range_error string :=
  outcome_bind (isoSecond (in_issued i)) (fun issued =>
  outcome_bind (isoSecond (in_expires i)) (fun expires =>
  Done (unlines (message_lines i issued expires)))).

(** [b.toString(16).padStart(2, "0")] of a byte. *)
Definition hex_digit (n : Z) : ascii := ascii_of_nat (Z.to_nat (if n <? 10 then 48 + n else 87 + n)).
Definition hex_byte (b : Z) : list ascii := [hex_digit (b / 16); hex_digit (b mod 16)].

(** The nonce of the random bytes the caller drew. *)
Definition newNonce (bytes : list Z) : string := text (bytes ≫= hex_byte).

(** ** What is reserved *)

Definition RESERVED_MOCK_X_IDS : gset string := list_to_set
  ["9990000000000001"; "9990000000000002"; "9990000000000003"; "9990000000000004"; "9990000000000005"; "9990000000000006"].

Definition RESERVED_HANDLES : gset string := list_to_set
  ["bullsvsunicorns"; "bullsvunicorns"; "admin"; "administrator"; "help"; "helpdesk"; "moderator"; "official"; "security";
   "staff"; "support"; "team"].

Definition isReservedXId (x : string) (reserved : gset string) : bool := bool_decide (x ∈ reserved).
Definition isReservedHandle (h : string) (reserved : gset string) : bool := bool_decide (toLowerCase (trim h) ∈ reserved).

(** ** Wallets *)

Inductive WalletListRejection : Type := missing | empty_text | too_many | not_base58.

Definition MAX_WALLETS_PER_QUERY : Z := 64.

Section Wallets.
(** The bytes of a base58 key, or nothing where the decoder throws. *)
Context (pubkey : string -> option (list Z)).

Definition isBase58Pubkey (v : string) : bool :=
  match pubkey v with Some bytes => Nat.eqb (length bytes) 32 | None => false end.

(** [None] is a field the body does not have. *)
Definition parseWallet (raw : option JsonValue) : WalletListRejection + string :=
  match raw with
  | Some (jstr raw) =>
      let trimmed := trim raw in
      if String.eqb trimmed EmptyString then inl empty_text
      else if isBase58Pubkey trimmed then inr trimmed else inl not_base58
  | _ => inl missing
  end.

(** [new Set] keeps the first of equal elements. *)
Fixpoint distinct (ws : list string) (seen : list string) : list string :=
  match ws with
  | [] => seen
  | w :: ws => distinct ws (if decide (w ∈ seen) then seen else seen ++ [w])
  end.

Definition parseWalletList (raw : option string) : WalletListRejection + list string :=
  match raw with
  | None => inl missing
  | Some raw =>
      let parts := trim <$> split "," raw in
      if MAX_WALLETS_PER_QUERY <? Z.of_nat (length parts) then inl too_many
      else if bool_decide (parts = [EmptyString]) then inl empty_text
      else if forallb isBase58Pubkey parts then inr (distinct parts []) else inl not_base58
  end.
End Wallets.

(** ** Signatures *)

Definition sextet (c : ascii) : option Z :=
  let n := Z.of_nat (nat_of_ascii c) in
  if between "A" "Z" c then Some (n - 65)
  else if between "a" "z" c then Some (n - 71)
  else if is_digit c then Some (n + 4)
  else if Ascii.eqb c "+" then Some 62
  else if Ascii.eqb c "/" then Some 63
  else None.

(** [/^[A-Za-z0-9+\/]{86}==$/] *)
Definition SIG_RE (s : string) : bool :=
  Nat.eqb (String.length s) 88 &&
  forallb (fun c => match sextet c with Some _ => true | None => false end) (take 86 (chars s)) &&
  bool_decide (drop 86 (chars s) = ["="; "="]%char).

(** [atob]: four characters are three bytes; the spare bits of a padded pair are dropped. *)
Fixpoint bytes_of_sextets (l : list Z) : list Z :=
  match l with
  | a :: b :: c :: d :: l => [a * 4 + b / 16; b mod 16 * 16 + c / 4; c mod 4 * 64 + d] ++ bytes_of_sextets l
  | [a; b] => [a * 4 + b / 16]
  | _ => []
  end.

Definition signatureBytes (raw : option JsonValue) : option (list Z) :=
  match raw with
  | Some (jstr raw) =>
      if SIG_RE raw then
        let bin := bytes_of_sextets (omap sextet (take 86 (chars raw))) in
        if Nat.eqb (length bin) 64 then Some bin else None
      else None
  | _ => None
  end.
