(* ===== verification/ChallengeLaws.v ===== *)
(** * What a challenge says

    The calendar of [isoSecond] is exact, the message determines every fact in
    it, and the parsers of the ceremony's fields accept exactly what they name. *)
From S2P Require Import Prelude Text LinkRegister Challenge.

(** ** The calendar *)

(** The day of a date, counted the other way. *)
Definition day_in_era (yoe mp d : Z) : Z := 365 * yoe + yoe / 4 - yoe / 100 + (153 * mp + 2) / 5 + d - 1.

Definition year_start (yoe : Z) : Z := 365 * yoe + yoe / 4 - yoe / 100.
Definition year_end (yoe : Z) : Z := if yoe =? 399 then 146097 else year_start (yoe + 1).
Definition leap_count (doe : Z) : Z := doe - doe / 1460 + doe / 36524 - doe / 146096.

Lemma leap_count_step n : leap_count n <= leap_count (n + 1).
Proof.
  unfold leap_count.
  assert ((n + 1) / 1460 - n / 1460 <= 1) by (Z.to_euclidean_division_equations; lia).
  assert (0 <= (n + 1) / 36524 - n / 36524 - ((n + 1) / 146096 - n / 146096)) by (Z.to_euclidean_division_equations; lia).
  lia.
Qed.

Lemma leap_count_mono a b : a <= b -> leap_count a <= leap_count b.
Proof.
  intros Hab. replace b with (a + Z.of_nat (Z.to_nat (b - a))) by lia. induction (Z.to_nat (b - a)) as [| n IH].
  - by rewrite Z.add_0_r.
  - rewrite Nat2Z.inj_succ, Z.add_succ_r. etrans; [exact IH | apply leap_count_step].
Qed.

(** The years of an era, and the days of a year, one by one. *)
Definition year_ok (y : Z) : bool :=
  (leap_count (year_start y) / 365 =? y) && (leap_count (year_end y - 1) / 365 =? y) && (year_end y - year_start y <=? 366).

Definition month_ok (doy : Z) : bool :=
  let mp := (5 * doy + 2) / 153 in let d := doy - (153 * mp + 2) / 5 + 1 in
  (0 <=? mp) && (mp <? 12) && (1 <=? d) && (d <=? 31).

Lemma checked (p : Z -> bool) (n : nat) : forallb p (seqZ 0 (Z.of_nat n)) = true -> forall i, 0 <= i < Z.of_nat n -> p i = true.
Proof. intros Hall i Hi. rewrite forallb_forall in Hall. apply Hall, list_elem_of_In, elem_of_seqZ. lia. Qed.

Lemma years_ok y : 0 <= y < 400 -> year_ok y = true.
Proof. apply (checked year_ok 400). vm_compute. reflexivity. Qed.

Lemma months_ok doy : 0 <= doy < 366 -> month_ok doy = true.
Proof. apply (checked month_ok 366). vm_compute. reflexivity. Qed.

Lemma year_found doe n : 0 <= doe < year_end (Z.of_nat n) -> (n < 400)%nat ->
  exists y, 0 <= y <= Z.of_nat n /\ year_start y <= doe < year_end y.
Proof.
  induction n as [| n IH]; intros Hd Hn.
  - exists 0. split; [lia |]. exact Hd.
  - destruct (Z.lt_ge_cases doe (year_start (Z.of_nat (S n)))) as [Hlt | Hge].
    + destruct IH as (y & Hy & Hyd); [| lia | exists y; split; [lia | done]]. split; [lia |].
      unfold year_end. rewrite (proj2 (Z.eqb_neq _ _)) by lia. replace (Z.of_nat n + 1) with (Z.of_nat (S n)) by lia. exact Hlt.
    + exists (Z.of_nat (S n)). split; [lia |]. split; [exact Hge | exact (proj2 Hd)].
Qed.

Lemma civil_in_era_exact doe yoe mp d : 0 <= doe < 146097 -> civil_in_era doe = (yoe, mp, d) ->
  day_in_era yoe mp d = doe /\ 0 <= yoe < 400 /\ 0 <= mp < 12 /\ 1 <= d <= 31.
Proof.
  intros Hd E. destruct (year_found doe 399 Hd ltac:(lia)) as (y & Hy & Hlo & Hhi).
  pose proof (years_ok y ltac:(lia)) as Hok. unfold year_ok in Hok. repeat (apply andb_prop in Hok as [Hok ?]).
  pose proof (leap_count_mono (year_start y) doe Hlo) as H1. pose proof (leap_count_mono doe (year_end y - 1) ltac:(lia)) as H2.
  assert (Hyoe : leap_count doe / 365 = y).
  { apply Z.le_antisymm; [etrans; [apply (Z.div_le_mono _ _ 365 ltac:(lia) H2) | lia] |
      etrans; [| apply (Z.div_le_mono _ _ 365 ltac:(lia) H1)]; lia]. }
  unfold civil_in_era in E. fold (leap_count doe) in E. rewrite Hyoe in E. fold (year_start y) in E.
  pose proof (months_ok (doe - year_start y) ltac:(lia)) as Hm. unfold month_ok in Hm.
  injection E as <- <- <-. repeat (apply andb_prop in Hm as [Hm ?]). unfold day_in_era. fold (year_start y). lia.
Qed.

Lemma civil_ranges days y m d : civil_of_days days = (y, m, d) -> 1 <= m <= 12 /\ 1 <= d <= 31.
Proof.
  unfold civil_of_days. pose proof (Z.mod_pos_bound (days + 719468) 146097 ltac:(lia)).
  destruct (civil_in_era _) as [[yoe mp] d'] eqn:E. intros [= _ <- <-].
  apply civil_in_era_exact in E; [| done]. destruct (Z.ltb_spec mp 10); lia.
Qed.

(** No two days have one date. *)
Lemma civil_inj a b : civil_of_days a = civil_of_days b -> a = b.
Proof.
  unfold civil_of_days.
  pose proof (Z.mod_pos_bound (a + 719468) 146097 ltac:(lia)) as Ha. pose proof (Z.mod_pos_bound (b + 719468) 146097 ltac:(lia)) as Hb.
  pose proof (Z.div_mod (a + 719468) 146097 ltac:(lia)) as Da. pose proof (Z.div_mod (b + 719468) 146097 ltac:(lia)) as Db.
  destruct (civil_in_era ((a + 719468) mod 146097)) as [[ya ma] da] eqn:Ea.
  destruct (civil_in_era ((b + 719468) mod 146097)) as [[yb mb] db] eqn:Eb.
  apply civil_in_era_exact in Ea as (Ea & Hya & Hma & Hda); [| done]. apply civil_in_era_exact in Eb as (Eb & Hyb & Hmb & Hdb); [| done].
  intros [= Ey Em Ed]. assert (Hm : ma = mb) by (destruct (Z.ltb_spec ma 10), (Z.ltb_spec mb 10); lia).
  subst mb db. assert (Hy : ya + 400 * ((a + 719468) / 146097) = yb + 400 * ((b + 719468) / 146097)) by lia.
  assert ((a + 719468) / 146097 = (b + 719468) / 146097) by lia. assert (ya = yb) by lia. subst yb. lia.
Qed.

Definition year_of (unixSec : Z) : Z := (civil_of_days (unixSec / 86400)).1.1.

Lemma time_of_day t u : 0 <= t < 86400 -> 0 <= u < 86400 ->
  t / 3600 = u / 3600 -> t / 60 mod 60 = u / 60 mod 60 -> t mod 60 = u mod 60 -> t = u.
Proof.
  intros Ht Hu H M S. rewrite (Z.div_mod t 60), (Z.div_mod u 60) by lia. rewrite S. f_equal. f_equal.
  rewrite (Z.div_mod (t / 60) 60), (Z.div_mod (u / 60) 60) by lia. rewrite M, !Z.div_div by lia. change (60 * 60) with 3600. lia.
Qed.

(** One field of the text and what separates it from the next. *)
Lemma field_inj n a b c s t : 0 <= a < 10 ^ Z.of_nat n -> 0 <= b < 10 ^ Z.of_nat n ->
  padded n a +:+ String c s = padded n b +:+ String c t -> a = b /\ s = t.
Proof.
  intros Ha Hb E. apply append_inj_length in E as [E1 E2]; [| by rewrite !length_padded].
  apply padded_inj in E1; [| done..]. by injection E2.
Qed.

Lemma iso_text_inj a b : 0 <= year_of a <= 9999 -> 0 <= year_of b <= 9999 -> iso_text a = iso_text b -> a = b.
Proof.
  unfold iso_text, year_of.
  destruct (civil_of_days (a / 86400)) as [[ya ma] da] eqn:Ea, (civil_of_days (b / 86400)) as [[yb mb] db] eqn:Eb.
  cbn [fst snd]. intros Hya Hyb E.
  pose proof (civil_ranges _ _ _ _ Ea). pose proof (civil_ranges _ _ _ _ Eb).
  pose proof (Z.mod_pos_bound a 86400 ltac:(lia)) as Hta. pose proof (Z.mod_pos_bound b 86400 ltac:(lia)) as Htb.
  assert (Hf : forall y, 0 <= y <= 9999 -> year_text y = padded 4 y).
  { intros y Hy. unfold year_text. by rewrite (proj2 (Z.leb_le 0 y)), (proj2 (Z.leb_le y 9999)) by lia. }
  assert (Hh : forall t, 0 <= t < 86400 -> 0 <= t / 3600 < 100).
  { intros t Ht. split; [apply Z.div_pos; lia | apply Z.div_lt_upper_bound; lia]. }
  assert (Hs : forall t, 0 <= t mod 60 < 100). { intros t. pose proof (Z.mod_pos_bound t 60 ltac:(lia)). lia. }
  rewrite !Hf in E by done.
  apply field_inj in E as [-> E]; [| lia..]. apply field_inj in E as [-> E]; [| lia..]. apply field_inj in E as [-> E]; [| lia..].
  apply field_inj in E as [E1 E]; [| by apply Hh..]. apply field_inj in E as [E2 E]; [| by apply Hs..].
  apply append_inj_r, padded_inj in E; [| by apply Hs..].
  pose proof (time_of_day _ _ Hta Htb E1 E2 E) as Ht.
  assert (Hd : a / 86400 = b / 86400) by (apply civil_inj; congruence).
  rewrite (Z.div_mod a 86400), (Z.div_mod b 86400) by lia. congruence.
Qed.

(** ** The message *)

(** What the ceremony's parsers guarantee of a message's fields. *)
Definition plain_input (i : ChallengeMessageInput) : Prop :=
  lacks newline (in_origin i) /\ lacks newline (in_wallet i) /\ lacks newline (in_nonce i) /\
  match in_face i with Some (h, x) => HANDLE_RE h = true /\ X_ID_RE x = true | None => True end /\
  0 <= year_of (in_issued i) <= 9999 /\ 0 <= year_of (in_expires i) <= 9999.

Lemma civil_lacks_newline t : lacks newline (iso_text t).
Proof.
  unfold iso_text. destruct (civil_of_days _) as [[y m] d]. unfold year_text.
  lacking; by apply padded_lacks.
Qed.

Lemma challengeMessage_lines i m : challengeMessage i = Done m ->
  m = unlines (message_lines i (iso_text (in_issued i)) (iso_text (in_expires i))).
Proof.
  unfold challengeMessage, isoSecond. destruct (_ <? _); [done |]. cbn [outcome_bind]. destruct (_ <? _); [done |].
  cbn [outcome_bind]. by intros [=].
Qed.

Lemma message_lines_plain i : plain_input i ->
  Forall (lacks newline) (message_lines i (iso_text (in_issued i)) (iso_text (in_expires i))).
Proof.
  intros (Ho & Hw & Hn & Hf & _ & _). unfold message_lines, message_head, face_line.
  destruct (in_face i) as [[h x] |].
  - destruct Hf as [Hh Hx]. assert (lacks newline h) by by apply (matches_lacks _ _ _ _ _ Hh).
    assert (lacks newline x) by by apply (matches_lacks _ _ _ _ _ Hx).
    cbn [app]. repeat (apply Forall_cons; split); try apply Forall_nil_2; lacking; first [exact Ho | exact Hw | exact Hn | assumption | apply civil_lacks_newline].
  - cbn [app]. repeat (apply Forall_cons; split); try apply Forall_nil_2; lacking; first [exact Ho | exact Hw | exact Hn | apply civil_lacks_newline].
Qed.

(** A signature over a challenge is a signature over everything in it: two
    challenges with one message agree on what is asked for, the origin, the
    wallet, the handle and the account it would wear, the nonce and both
    instants.  A signature collected for one ceremony fits no other. *)
Theorem message_names_everything a b m : plain_input a -> plain_input b ->
  challengeMessage a = Done m -> challengeMessage b = Done m -> a = b.
Proof.
  intros Ha Hb Ea%challengeMessage_lines Eb%challengeMessage_lines. subst m.
  apply unlines_inj in Eb; [| by apply message_lines_plain.. | by destruct (in_face a) as [[] |] | by destruct (in_face b) as [[] |]].
  destruct Ha as (_ & _ & _ & Hfa & Hia & Hea), Hb as (_ & _ & _ & Hfb & Hib & Heb).
  destruct a as [oa wa fa na ia ea], b as [ob wb fb nb ib eb]. unfold message_lines, message_head in Eb.
  cbn [in_face in_origin in_wallet in_nonce in_issued in_expires] in *.
  destruct fa as [[ha xa] |], fb as [[hb xb] |]; cbn [app] in Eb; try discriminate Eb.
  - destruct Hfa as [Hha _], Hfb as [Hhb _]. injection Eb as Eo Ew Ef En Ei Ee.
    apply append_inj_r in Eo. apply iso_text_inj in Ei, Ee; [| done..].
    apply (append_inj_l EmptyString), text_split in Ef as [Eh Ef];
      [| by apply (matches_lacks _ _ _ _ _ Hha) | by apply (matches_lacks _ _ _ _ _ Hhb)].
    apply append_inj_l, append_inj_r in Ef. apply (append_inj_l EmptyString) in Ew, En. congruence.
  - injection Eb as Eo Ew En Ei Ee. apply append_inj_r in Eo. apply iso_text_inj in Ei, Ee; [| done..].
    apply (append_inj_l EmptyString) in Ew, En. congruence.
Qed.

Definition sample_input : ChallengeMessageInput :=
  mkInput DEFAULT_ORIGIN sample_wallet (Some ("player_one", "44196397")) (newNonce (replicate 32 171)) 1700000000 1700000300.

Example sample_time : isoSecond 1700000000 = Done "2023-11-14T22:13:20Z".
Proof. vm_compute. reflexivity. Qed.

Lemma sample_plain : plain_input sample_input.
Proof.
  unfold plain_input, sample_input. cbn [in_face in_origin in_wallet in_nonce in_issued in_expires].
  split_and!; try (vm_compute; done); apply (every_lacks (fun c => negb (Ascii.eqb c newline))); vm_compute; reflexivity.
Qed.

(** Two messages of one text, the second composed field by field. *)
Lemma message_names_everything_witness :
  exists m, challengeMessage sample_input = Done m /\
    forall b, plain_input b -> challengeMessage b = Done m -> in_wallet b = sample_wallet /\ in_face b = Some ("player_one", "44196397").
Proof.
  eexists. split; [vm_compute; reflexivity |]. intros b Hb Eb.
  pose proof (message_names_everything sample_input b _ sample_plain Hb ltac:(vm_compute; reflexivity) Eb) as E.
  rewrite <- E. split; reflexivity.
Defined.

(** ** The fields *)

Definition byte (b : Z) : Prop := 0 <= b < 256.

Lemma hex_digit_is_hex n : 0 <= n < 16 -> is_hex (hex_digit n) = true.
Proof.
  intros Hn. assert (Hs : In n (seqZ 0 16)) by (apply list_elem_of_In, elem_of_seqZ; lia).
  clear Hn. revert n Hs. apply forallb_forall. vm_compute. reflexivity.
Qed.

(** 32 random bytes are always a nonce the store accepts. *)
Lemma newNonce_is_nonce bytes : length bytes = NONCE_BYTES -> Forall byte bytes -> NONCE_RE (newNonce bytes) = true.
Proof.
  intros Hl Hb. unfold NONCE_RE, matches, newNonce, every.
  rewrite String.list_ascii_of_string_of_list_ascii, <- length_chars, String.list_ascii_of_string_of_list_ascii.
  assert (Hlen : length (bytes ≫= hex_byte) = (2 * length bytes)%nat).
  { clear Hl Hb. induction bytes as [| b bytes IH]; [done |]. cbn in *. lia. }
  rewrite Hlen, Hl. cbn. rewrite !andb_true_r. apply forallb_forall. intros c Hc%list_elem_of_In.
  apply list_elem_of_bind in Hc as (b & Hc & Hb'). rewrite Forall_forall in Hb. apply Hb in Hb'. unfold byte in Hb'.
  unfold hex_byte in Hc. apply elem_of_cons in Hc as [-> | ->%list_elem_of_singleton]; apply hex_digit_is_hex.
  - split; [apply Z.div_pos; lia | apply Z.div_lt_upper_bound; lia].
  - apply Z.mod_pos_bound. lia.
Qed.

Lemma cut_eq c l h t : cut c l = (h, t) -> l = h ++ match t with Some t => c :: t | None => [] end.
Proof.
  revert h t. induction l as [| a l IH]; intros h t E; cbn in E; [by injection E as <- <- |].
  destruct (Ascii.eqb_spec a c) as [-> |]; [by injection E as <- <- |].
  destruct (cut c l) as [h' t']. injection E as <- <-. cbn. f_equal. by apply IH.
Qed.

(** Whatever the header held, the origin is one line. *)
Lemma originFrom_one_line host : lacks newline (originFrom host).
Proof.
  destruct host as [host |]; cbn [originFrom]; [| unfold DEFAULT_ORIGIN; lacking].
  destruct (HOST_RE (trim host)) eqn:E; [| unfold DEFAULT_ORIGIN; lacking]. unfold HOST_RE in E.
  destruct (cut ":" (chars (trim host))) as [h t] eqn:Ec. apply cut_eq in Ec.
  apply andb_prop in E as [Eh Et]. unfold lacks. rewrite Ec. apply not_elem_of_app.
  split.
  - apply (matches_lacks _ _ _ newline) in Eh; [| done]. unfold lacks in Eh. by rewrite String.list_ascii_of_string_of_list_ascii in Eh.
  - destruct t as [t |]; [| by intros ?%not_elem_of_nil]. apply not_elem_of_cons. split; [done |].
    apply (matches_lacks _ _ _ newline) in Et; [| done]. unfold lacks in Et. by rewrite String.list_ascii_of_string_of_list_ascii in Et.
Qed.

Lemma length_bytes_of_sextets n l : length l = (4 * n + 2)%nat -> length (bytes_of_sextets l) = (3 * n + 1)%nat.
Proof.
  revert l. induction n as [| n IH]; intros l Hl.
  - destruct l as [| a [| b [| c l]]]; try discriminate Hl; done.
  - destruct l as [| a [| b [| c [| d l]]]]; try (cbn in Hl; lia). cbn in Hl. cbn [bytes_of_sextets]. rewrite length_app, IH by lia. cbn. lia.
Qed.

Lemma omap_all {A B} (f : A -> option B) l :
  forallb (fun c => match f c with Some _ => true | None => false end) l = true -> length (omap f l) = length l.
Proof.
  induction l as [| a l IH]; [done |]. cbn. intros [Ha Hl]%andb_prop. destruct (f a); [| done]. cbn. by rewrite <- IH.
Qed.

(** A signature is read exactly when it is written as one, and is 64 bytes. *)
Lemma signatureBytes_exact raw : match signatureBytes raw with
  | Some bytes => length bytes = 64%nat /\ exists s, raw = Some (jstr s) /\ SIG_RE s = true
  | None => forall s, raw = Some (jstr s) -> SIG_RE s = false
  end.
Proof.
  destruct raw as [[s |] |]; cbn [signatureBytes]; [| by intros ? [=]..].
  destruct (SIG_RE s) eqn:E; [| by intros s' [= <-]].
  assert (Hl : length (bytes_of_sextets (omap sextet (take 86 (chars s)))) = 64%nat).
  { unfold SIG_RE in E. apply andb_prop in E as [[El Ea]%andb_prop _]. apply Nat.eqb_eq in El.
    apply (length_bytes_of_sextets 21). rewrite omap_all by exact Ea. rewrite length_take, length_chars, El. done. }
  rewrite Hl. cbn. split; [exact Hl |]. by exists s.
Qed.

(** A list that parses is bounded, non-empty, without repetition and all keys. *)
Lemma distinct_spec ws seen : NoDup seen -> NoDup (distinct ws seen) /\
  forall w, w ∈ distinct ws seen <-> w ∈ seen \/ w ∈ ws.
Proof.
  revert seen. induction ws as [| w ws IH]; intros seen Hs; cbn [distinct].
  - split; [done |]. intros w. rewrite elem_of_nil. tauto.
  - destruct (decide (w ∈ seen)) as [Hw | Hw].
    + destruct (IH seen Hs) as [H1 H2]. split; [done |]. intros v. rewrite H2, elem_of_cons.
      split; [intros [? | ?]; [by left | by right; right] | intros [? | [-> | ?]]; by auto].
    + assert (Hs' : NoDup (seen ++ [w])).
      { apply NoDup_app. split; [done |]. split; [| apply NoDup_singleton]. by intros v Hv ->%list_elem_of_singleton. }
      destruct (IH _ Hs') as [H1 H2]. split; [done |]. intros v. rewrite H2, elem_of_app, !elem_of_cons, elem_of_nil. tauto.
Qed.

Lemma split_chars_nonempty c l : split_chars c l <> [].
Proof. destruct l as [| a l]; cbn; [done |]. destruct (Ascii.eqb a c); [done |]. by destruct (split_chars c l). Qed.

Lemma parseWalletList_bounded pubkey raw ws : parseWalletList pubkey raw = inr ws ->
  ws <> [] /\ (Z.of_nat (length ws) <= MAX_WALLETS_PER_QUERY) /\ NoDup ws /\ Forall (fun w => isBase58Pubkey pubkey w = true) ws.
Proof.
  destruct raw as [raw |]; [| done]. cbn [parseWalletList].
  destruct (Z.ltb_spec MAX_WALLETS_PER_QUERY (Z.of_nat (length (trim <$> split "," raw)))) as [| Hm]; [done |].
  destruct (bool_decide _); [done |]. destruct (forallb _ _) eqn:Ef; [| done]. intros [= <-].
  destruct (distinct_spec (trim <$> split "," raw) [] ltac:(constructor)) as [Hn He].
  assert (Hin : forall w, w ∈ distinct (trim <$> split "," raw) [] -> w ∈ trim <$> split "," raw).
  { intros w Hw. apply He in Hw as [Hw%elem_of_nil |]; done. }
  split; [| split; [| split; [done |]]].
  - destruct (trim <$> split "," raw) as [| p ps] eqn:Ep.
    + unfold split in Ep. apply fmap_nil_inv, fmap_nil_inv in Ep. by apply split_chars_nonempty in Ep.
    + intros Hnil. assert (Hp : p ∈ distinct (p :: ps) []) by (apply He; right; left). rewrite Hnil in Hp. by apply elem_of_nil in Hp.
  - etrans; [| exact Hm]. apply inj_le, submseteq_length, NoDup_submseteq; [done | exact Hin].
  - apply Forall_forall. intros w Hw. rewrite forallb_forall in Ef. by apply Ef, list_elem_of_In, Hin.
Qed.
