(* ===== verification/HouseList.v ===== *)
(** * The house list as the API sees it

    [er-demo/api/src/houseWallets.ts]: the parser of the keeper's answer and the
    cache in front of it.  The class is a machine over its two fields; a caller
    of [get] is answered at once or waits for the fetch in flight, and the end of
    that fetch answers everybody who waits.  What the keeper's endpoint answered
    (status, redirect, timeout, body) is the event's argument. *)
From S2P Require Import Prelude Text Challenge.

Definition REFRESH_SECONDS : Z := 60.

Record HouseList : Type := mkHouseList { hl_wallets : gset string; unknown : bool }.

Definition HOUSE_LIST_UNKNOWN : HouseList := mkHouseList ∅ true.

(** ** The answer of the keeper *)

(** A parsed body: an object with a field [wallets] that is a list, or not. *)
Definition houseWalletsFrom (body : option (list JsonValue)) : option (gset string) :=
  match body with
  | None => None
  | Some ws =>
      if forallb (fun w => match w with jstr w => negb (String.eqb w EmptyString) | jother => false end) ws
      then Some (list_to_set (omap (fun w => match w with jstr w => Some w | jother => None end) ws)) else None
  end.

(** How the request ended: a response, or a throw. *)
Inductive Fetched : Type := answered (status : Z) (body : option (list JsonValue)) | threw.

Definition fetchOnce (f : Fetched) : option (gset string) :=
  match f with
  | answered status body =>
      if status =? 401 then None
      else if negb ((200 <=? status) && (status <=? 299)) then None
      else houseWalletsFrom body
  | threw => None
  end.

(** ** The cache *)

(** [cached], and the fetch in flight: the instant it was begun with, and how
    many callers wait for it. *)
Record HouseListCache : Type := mkCache { cached : option (HouseList * Z); inflight : option (Z * nat) }.

Definition new_cache : HouseListCache := mkCache None None.

Inductive GetAnswer : Type := now_ (list : HouseList) | waits | starts_fetch.

Definition get_list (now : Z) (s : HouseListCache) : GetAnswer * HouseListCache :=
  let ask :=
    match inflight s with
    | Some (at_, n) => (waits, mkCache (cached s) (Some (at_, S n)))
    | None => (starts_fetch, mkCache (cached s) (Some (now, 1%nat)))
    end in
  match cached s with
  | Some (list, atSec) => if now - atSec <? REFRESH_SECONDS then (now_ list, s) else ask
  | None => ask
  end.

(** [refresh] after its fetch: what its callers get, and the cache after. *)
Definition refresh (nowSec : Z) (fetched : option (gset string)) (c : option (HouseList * Z)) : HouseList * option (HouseList * Z) :=
  match fetched with
  | Some ws => let list := mkHouseList ws false in (list, Some (list, nowSec))
  | None => match c with Some (list, _) => (list, c) | None => (HOUSE_LIST_UNKNOWN, c) end
  end.

(** The fetch in flight ends; everybody waiting is answered with one list. *)
Definition settle_fetch (f : Fetched) (s : HouseListCache) : list HouseList * HouseListCache :=
  match inflight s with
  | None => ([], s)
  | Some (at_, n) => let '(l, c) := refresh at_ (fetchOnce f) (cached s) in (replicate n l, mkCache c None)
  end.

(** ** Histories *)

Inductive cache_event : Type := got (now : Z) | ended (f : Fetched).

(** The lists handed out by one event, and the fetches it begins, by instant. *)
Definition cache_step (e : cache_event) (s : HouseListCache) : (list HouseList * list Z) * HouseListCache :=
  match e with
  | got now =>
      match get_list now s with
      | (now_ l, s) => (([l], []), s)
      | (waits, s) => (([], []), s)
      | (starts_fetch, s) => (([], [now]), s)
      end
  | ended f => let '(ls, s) := settle_fetch f s in ((ls, []), s)
  end.

(** A history's answers, begun fetches and final cache. *)
Fixpoint cache_run (es : list cache_event) (s : HouseListCache) : (list HouseList * list Z) * HouseListCache :=
  match es with
  | [] => (([], []), s)
  | e :: es =>
      let '((ls, ts), s) := cache_step e s in
      let '((ls', ts'), s) := cache_run es s in ((ls ++ ls', ts ++ ts'), s)
  end.

Definition cache_after (es : list cache_event) : HouseListCache := snd (cache_run es new_cache).

(** The newest list the keeper reported to a fetch that was in flight. *)
Fixpoint last_report (es : list cache_event) (s : HouseListCache) (g : option (gset string)) : option (gset string) :=
  match es with
  | [] => g
  | e :: es =>
      let g := match e, inflight s with
        | ended f, Some _ => match fetchOnce f with Some ws => Some ws | None => g end
        | _, _ => g
        end in
      last_report es (snd (cache_step e s)) g
  end.

Definition known (g : option (gset string)) : HouseList :=
  match g with Some ws => mkHouseList ws false | None => HOUSE_LIST_UNKNOWN end.

Definition waiting (s : HouseListCache) : nat := match inflight s with Some (_, n) => n | None => 0%nat end.

Definition gets (es : list cache_event) : nat := length (List.filter (fun e => match e with got _ => true | ended _ => false end) es).

(** The cache holds what was last reported, and nothing else. *)
Definition remembers (s : HouseListCache) (g : option (gset string)) : Prop :=
  match g with
  | Some ws => exists atSec, cached s = Some (mkHouseList ws false, atSec)
  | None => cached s = None
  end.

Lemma step_remembers e s g : remembers s g ->
  remembers (snd (cache_step e s)) (last_report [e] s g) /\
  Forall (fun l => l = known (last_report [e] s g)) (fst (fst (cache_step e s))) /\
  (gets [e] + waiting s = length (fst (fst (cache_step e s))) + waiting (snd (cache_step e s)))%nat.
Proof.
  intros Hg. destruct e as [now | f]; cbn [last_report cache_step gets List.filter length].
  - assert (Hask : forall a s', (match inflight s with
        | Some (at_, n) => (waits, mkCache (cached s) (Some (at_, S n)))
        | None => (starts_fetch, mkCache (cached s) (Some (now, 1%nat))) end) = (a, s') ->
        (a = waits \/ a = starts_fetch) /\ cached s' = cached s /\ waiting s' = S (waiting s)).
    { unfold waiting. destruct (inflight s) as [[t n] |]; intros ? ? [= <- <-]; cbn; auto. }
    assert (Hkept : forall s', cached s' = cached s -> remembers s' g).
    { unfold remembers. intros s' ->. exact Hg. }
    unfold get_list. set (ask := match inflight s with Some _ => _ | None => _ end) in *.
    destruct ask as [a s'] eqn:Ea. destruct (Hask a s' eq_refl) as (Ha & Hc & Hw). clear Hask.
    destruct (cached s) as [[l atSec] |] eqn:Ecs; [destruct (now - atSec <? REFRESH_SECONDS) |].
    + cbn [fst snd length]. split; [by apply Hkept |]. split; [| lia]. apply Forall_singleton.
      destruct g as [ws |]; [destruct Hg as (t & Hg) |]; cbn in Hg |- *; congruence.
    + destruct Ha as [-> | ->]; cbn [fst snd length]; (split; [by apply Hkept |]; split; [constructor | lia]).
    + destruct Ha as [-> | ->]; cbn [fst snd length]; (split; [by apply Hkept |]; split; [constructor | lia]).
  - unfold settle_fetch. destruct (inflight s) as [[t n] |] eqn:Ei; cbn [fst snd].
    + unfold refresh, waiting. rewrite Ei.
      destruct (fetchOnce f) as [ws |]; cbn [fst snd inflight].
      * split; [by exists t |]. split; [by apply Forall_replicate | rewrite length_replicate; lia].
      * destruct g as [ws |]; cbn in Hg; [destruct Hg as (t' & Hg) |]; rewrite Hg; cbn [fst snd inflight].
        -- split; [by exists t' |]. split; [by apply Forall_replicate | rewrite length_replicate; lia].
        -- split; [done |]. split; [by apply Forall_replicate | rewrite length_replicate; lia].
    + split; [exact Hg |]. split; [constructor | cbn; lia].
Qed.

Lemma run_app es e s : snd (cache_run (es ++ [e]) s) = snd (cache_step e (snd (cache_run es s))).
Proof.
  revert s. induction es as [| e' es IH]; intros s; cbn [app cache_run snd].
  - by destruct (cache_step e s) as [[ls ts] s'].
  - destruct (cache_step e' s) as [[ls ts] s'] eqn:E. specialize (IH s').
    destruct (cache_run (es ++ [e]) s') as [[? ?] s1], (cache_run es s') as [[? ?] s2]. exact IH.
Qed.

Lemma report_app es e s g : last_report (es ++ [e]) s g = last_report [e] (snd (cache_run es s)) (last_report es s g).
Proof.
  revert s g. induction es as [| e' es IH]; intros s g; [done |]. cbn [app last_report cache_run]. rewrite IH.
  destruct (cache_step e' s) as [[ls ts] s']. cbn [snd]. by destruct (cache_run es s') as [[? ?] s2].
Qed.

Lemma run_remembers es : remembers (cache_after es) (last_report es new_cache None).
Proof.
  induction es as [| e es IH] using rev_ind; [done |]. unfold cache_after in *. rewrite run_app, report_app.
  by apply step_remembers.
Qed.

Lemma run_counts es s g : remembers s g ->
  (gets es + waiting s = length (fst (fst (cache_run es s))) + waiting (snd (cache_run es s)))%nat.
Proof.
  revert s g. induction es as [| e es IH]; intros s g Hs; [done |].
  destruct (step_remembers e s g Hs) as (Hs' & _ & Hn). specialize (IH _ _ Hs').
  assert (Hgets : gets (e :: es) = (gets [e] + gets es)%nat) by (unfold gets; cbn [List.filter]; by destruct e).
  rewrite Hgets. cbn [cache_run].
  destruct (cache_step e s) as [[ls ts] s']. cbn [fst snd] in *. destruct (cache_run es s') as [[ls' ts'] s2]. cbn [fst snd] in *.
  rewrite length_app. lia.
Qed.

(** The house list fails closed, and only as far as it must.  After any
    history of callers and ended fetches, whatever the next event is: everybody
    it answers is given the newest list the keeper itself reported, and
    "unknown" exactly when it never has, however the later fetches failed; a
    fetch is begun only when none is in flight and the newest list was asked for
    at least sixty seconds before; and of all callers so far each was answered
    once or is waiting. *)
Theorem house_list_fails_closed es e :
  let '((answers, begun), s') := cache_step e (cache_after es) in
  Forall (fun l => l = known (last_report (es ++ [e]) new_cache None)) answers /\
  (forall now, now ∈ begun -> inflight (cache_after es) = None /\
     forall l atSec, cached (cache_after es) = Some (l, atSec) -> REFRESH_SECONDS <= now - atSec) /\
  gets (es ++ [e]) = (length (fst (fst (cache_run es new_cache))) + length answers + waiting s')%nat.
Proof.
  pose proof (step_remembers e _ _ (run_remembers es)) as (_ & Hans & Hcount).
  pose proof (run_counts es new_cache None eq_refl) as Hrun. fold (cache_after es) in Hrun.
  assert (Hgets : gets (es ++ [e]) = (gets es + gets [e])%nat).
  { unfold gets. by rewrite List.filter_app, length_app. }
  assert (Hbegun : forall now, now ∈ snd (fst (cache_step e (cache_after es))) -> inflight (cache_after es) = None /\
     forall l atSec, cached (cache_after es) = Some (l, atSec) -> REFRESH_SECONDS <= now - atSec).
  { intros now Hin. destruct e as [t | f]; cbn [cache_step] in Hin.
    - unfold get_list in Hin. destruct (inflight (cache_after es)) as [[t0 n] |]; cbn [fst snd] in Hin.
      + destruct (cached _) as [[l atSec] |]; [destruct (_ <? _) |]; by apply elem_of_nil in Hin.
      + split; [done |]. intros l atSec Hc. rewrite Hc in Hin. destruct (Z.ltb_spec (t - atSec) REFRESH_SECONDS).
        * by apply elem_of_nil in Hin.
        * apply list_elem_of_singleton in Hin as ->. lia.
    - destruct (settle_fetch f _) as [ls s']. by apply elem_of_nil in Hin. }
  rewrite report_app. fold (cache_after es). destruct (cache_step e (cache_after es)) as [[answers begun] s']. cbn [fst snd] in *.
  split; [exact Hans |]. split; [exact Hbegun |]. cbn in Hrun. lia.
Qed.

(** One bad entry and nothing is read: a deny list has no holes. *)
Lemma houseWalletsFrom_whole body ws : houseWalletsFrom (Some body) = Some ws ->
  Forall (fun w => exists s, w = jstr s /\ s ∈ ws /\ s <> EmptyString) body.
Proof.
  unfold houseWalletsFrom. destruct (forallb _ body) eqn:E; [| done]. intros [= <-]. apply Forall_forall. intros w Hw.
  rewrite forallb_forall in E. pose proof (E w (proj1 (list_elem_of_In _ _) Hw)) as Hok. destruct w as [s |]; [| done].
  exists s. split; [done |]. split; [| by apply String.eqb_neq, negb_true_iff].
  apply elem_of_list_to_set, list_elem_of_omap. by exists (jstr s).
Qed.

(** Two cold callers share a failed fetch; the next one begins another. *)
Example cold_start :
  cache_run [got 0; got 1; ended threw; got 2; ended (answered 200 (Some [jstr "HOUSE"])); got 3] new_cache =
  (([HOUSE_LIST_UNKNOWN; HOUSE_LIST_UNKNOWN; mkHouseList {[ "HOUSE" ]} false; mkHouseList {[ "HOUSE" ]} false], [0; 2]),
   mkCache (Some (mkHouseList {[ "HOUSE" ]} false, 2)) None).
Proof. vm_compute. reflexivity. Qed.
