(* ===== verification/LinkCeremony.v ===== *)
(** * The ceremony that links an account to a wallet

    [er-demo/api/src/challengeHandler.ts] and [linkWriteHandler.ts], the two legs
    of the ceremony, with the error boundary of [writeHttp.ts].  The handlers run
    over any challenge store, register and counter; what one request brings with
    it (its body as [readJsonBody] read it, the network [clientNetwork] names, the
    instant, the random bytes, Privy's verdict on a token and the house list as
    that request sees it) is the record [ApiRequest].  The keyed hash, the base58
    decoder and ed25519 are parameters.  Of a refusal the model keeps the status,
    the machine-readable key and [Retry-After]; the sentence for a log is left out. *)
From S2P Require Import Prelude Text RateLimit LinkRegister Challenge.

(** ** Requests and responses *)

Inductive Response : Type :=
| refusal (status : Z) (error : string) (retryAfter : option Z)
| not_allowed (allow : string)
| challenge_body (message nonce : string) (expiresAt : Z)
| linked_body
| unlinked_body (unlinked : bool).

#[global] Instance Response_eq_dec : EqDecision Response.
Proof. solve_decision. Defined.

Definition refuse (status : Z) (error : string) : Response := refusal status error None.
Definition unavailable : Response := refuse 503 "unavailable".

Definition status_of (r : Response) : Z :=
  match r with refusal status _ _ => status | not_allowed _ => 405 | _ => 200 end.

(** What [readJsonBody] refuses, and its answers. *)
Inductive BodyRefusal : Type := not_json | too_large | malformed_body.

Definition body_response (b : BodyRefusal) : Response :=
  match b with
  | not_json => refuse 415 "content-type"
  | too_large => refuse 413 "too-large"
  | malformed_body => refuse 400 "malformed"
  end.

Inductive PrivyResult : Type := identified (i : XIdentity) | unproven (reason : string).

Record ApiRequest : Type := mkApiRequest {
  method : string;
  host : option string;
  body : BodyRefusal + gmap string JsonValue;
  network : string;
  at_sec : Z;
  randomBytes : list Z;
  privy : string -> PrivyResult;
  house : option (gset string);
}.

(** What a handler does with its stores: a value or a throw, and the stores after. *)
Record Api (CS LS RS : Type) : Type := mkApi { challenges : CS; links : LS; counts : RS }.
Arguments mkApi {CS LS RS}.
Arguments challenges {CS LS RS}.
Arguments links {CS LS RS}.
Arguments counts {CS LS RS}.

Inductive api_error (CE LE RE : Type) : Type :=
| ChallengeFailed (e : CE) | LinkFailed (e : LE) | RateFailed (e : rate_error RE) | BadTime (e : range_error).
Arguments ChallengeFailed {CE LE RE}.
Arguments LinkFailed {CE LE RE}.
Arguments RateFailed {CE LE RE}.
Arguments BadTime {CE LE RE}.

Definition rethrow {E E' A} (f : E -> E') (m : outcome E A) : outcome E' A :=
  match m with Done a => Done a | Throw e => Throw (f e) end.

(** ** The register's writer *)

Class LinkWriter (L E : Type) : Type := {
  link : string -> XIdentity -> Z -> L -> outcome E LinkWriteOutcome * L;
  unlink : string -> L -> outcome E (option string) * L;
}.

(** What a register promises the ceremony: a link makes at most the wallet it was
    given wear the account it was given, an unlink puts nothing on anybody. *)
Class LinkKeeper (L E : Type) `{!LinkWriter L E} : Type := {
  worn : L -> string -> string -> Prop;
  link_wears : forall w i t s w' x, worn (snd (link w i t s)) w' x -> (w' = w /\ x = xId i) \/ worn s w' x;
  unlink_wears : forall w s w' x, worn (snd (unlink w s)) w' x -> worn s w' x;
}.

#[export] Instance memory_links : LinkWriter Register constraint :=
  {| link := linkRegister; unlink := fun w s => let '(x, s) := unlinkRegister w s in (Done x, s) |}.

Definition register_wears (s : Register) (w x : string) : Prop :=
  exists r, r ∈ rows s /\ row_wallet r = w /\ row_xId r = x.

#[export] Instance memory_keeper : LinkKeeper Register constraint.
Proof.
  refine {| worn := register_wears |}.
  - intros w i t s w' x. cbn. unfold linkRegister. destruct (assertRowIsStorable w i); [| by right].
    destruct (existsb _ (rows s)); [by right |].
    destruct (row_of (xId i) (rows s)) as [cur |] eqn:Er; intros (r & Hin & Hw & Hx); cbn in Hin.
    + apply row_of_Some in Er as [_ Hcur].
      apply elem_of_replace_row in Hin as [[Hin _] | (r0 & _ & _ & ->)]; [right; by exists r |]. left. cbn in *. by subst.
    + apply elem_of_app in Hin as [Hin | ->%list_elem_of_singleton]; [right; by exists r |]. left. cbn in *. by subst.
  - intros w s w' x. cbn. destruct (unlink_rows w s) as [Hr _]. destruct (unlinkRegister w s) as [y s']. cbn in *.
    intros (r & Hin & H). rewrite Hr in Hin. exists r. split; [| done].
    eapply elem_of_sublist; [exact Hin | apply remove_wallet_sublist].
Defined.

(** ** The handlers *)

Section Handlers.
Context {CS CE LS LE RS RE : Type} `{!ChallengeStore CS CE} `{!LinkWriter LS LE} `{!RateCounter RS RE}.
Context (hmac : string -> string) (pubkey : string -> option (list Z)).
(** [ed25519.verify] of a signature, a message and a key; it may throw. *)
Context (verify : list Z -> list Z -> list Z -> option bool).
Context (reservedXIds reservedHandles : gset string).

Definition Handler (A : Type) : Type := Api CS LS RS -> outcome (api_error CE LE RE) A * Api CS LS RS.

Definition answer {A} (a : A) : Handler A := fun s => (Done a, s).

Definition then_ {A B} (m : Handler A) (k : A -> Handler B) : Handler B := fun s =>
  match m s with
  | (Done a, s) => k a s
  | (Throw e, s) => (Throw e, s)
  end.

Definition onChallenges {A} (f : CS -> outcome CE A * CS) : Handler A := fun s =>
  let '(r, c) := f (challenges s) in (rethrow ChallengeFailed r, mkApi c (links s) (counts s)).

Definition onLinks {A} (f : LS -> outcome LE A * LS) : Handler A := fun s =>
  let '(r, l) := f (links s) in (rethrow LinkFailed r, mkApi (challenges s) l (counts s)).

Definition onCounts {A} (f : RS -> outcome (rate_error RE) A * RS) : Handler A := fun s =>
  let '(r, c) := f (counts s) in (rethrow RateFailed r, mkApi (challenges s) (links s) c).

Notation "'let*' x ':=' m 'in' k" := (then_ m (fun x => k)) (at level 10, x name, m at level 100, k at level 200).

Definition limited (n : Z) : Response := refusal 429 "rate-limited" (Some n).

(** *** [POST /api/x/challenge] *)

Definition refuseProof (reason : string) : Response :=
  if String.eqb reason "keys-unavailable" then unavailable
  else if String.eqb reason "no-x-account" then refuse 401 "no-x-account"
  else if String.eqb reason "stale" then refuse 401 "stale-proof"
  else refuse 401 "bad-proof".

(** A purpose field: a link or not. *)
Definition wants_link (raw : option JsonValue) : option bool :=
  match raw with
  | Some (jstr p) => if String.eqb p "link" then Some true else if String.eqb p "unlink" then Some false else None
  | _ => None
  end.

(** The identity a challenge will carry, or the refusal. *)
Definition provenIdentity (q : ApiRequest) (linking : bool) (proof : option JsonValue) : Response + option XIdentity :=
  if linking then
    match proof with
    | Some (jstr proof) =>
        if String.eqb proof EmptyString then inl (refuse 400 "malformed") else
        match privy q proof with
        | unproven reason => inl (refuseProof reason)
        | identified i =>
            if isReservedXId (xId i) reservedXIds then inl (refuse 403 "refused")
            else if isReservedHandle (handle i) reservedHandles then inl (refuse 403 "refused")
            else inr (Some i)
        end
    | _ => inl (refuse 400 "malformed")
    end
  else match proof with Some _ => inl (refuse 400 "malformed") | None => inr None end.

Definition challengeInput (q : ApiRequest) (wallet : string) (face : option XIdentity) : ChallengeMessageInput :=
  mkInput (originFrom (host q)) wallet ((fun i => (handle i, xId i)) <$> face) (newNonce (randomBytes q)) (at_sec q)
    (at_sec q + CHALLENGE_TTL_SECONDS).

Definition challengeOf (q : ApiRequest) (wallet : string) (face : option XIdentity) (message : string) : Challenge :=
  mkChallenge (newNonce (randomBytes q)) wallet message (at_sec q) (at_sec q + CHALLENGE_TTL_SECONDS)
    (match face with Some i => to_link i | None => to_unlink end).

Definition handleChallenge (q : ApiRequest) : Handler Response :=
  if negb (String.eqb (method q) "POST") then answer (not_allowed "POST") else
  match body q with
  | inl why => answer (body_response why)
  | inr value =>
      match parseWallet pubkey (value !! "wallet") with
      | inl _ => answer (refuse 400 "malformed")
      | inr wallet =>
          match wants_link (value !! "purpose") with
          | None => answer (refuse 400 "malformed")
          | Some linking =>
              let* verdict := onCounts (enforceRateLimit hmac (network q) wallet (at_sec q)) in
              match verdict with
              | rate_limited n => answer (limited n)
              | rate_ok =>
                  match provenIdentity q linking (value !! "proof") with
                  | inl response => answer response
                  | inr face =>
                      let* message := (fun s => (rethrow BadTime (challengeMessage (challengeInput q wallet face)), s)) in
                      let* _put := onChallenges (put (challengeOf q wallet face message)) in
                      answer (challenge_body message (newNonce (randomBytes q)) (at_sec q + CHALLENGE_TTL_SECONDS))
                  end
              end
          end
      end
  end.

(** *** [POST] and [DELETE /api/x/link] *)

Record Redemption : Type := mkRedemption { red_wallet : string; red_nonce : string; red_signature : list Z }.

Definition parseRedemption (value : gmap string JsonValue) : Response + Redemption :=
  match parseWallet pubkey (value !! "wallet") with
  | inl _ => inl (refuse 400 "malformed")
  | inr wallet =>
      match value !! "nonce" with
      | Some (jstr nonce) =>
          if negb (NONCE_RE nonce) then inl (refuse 400 "malformed") else
          match signatureBytes (value !! "signature") with
          | None => inl (refuse 400 "malformed")
          | Some signature => inr (mkRedemption wallet nonce signature)
          end
      | _ => inl (refuse 400 "malformed")
      end
  end.

Definition signatureVerifies (c : Challenge) (signature : list Z) : bool :=
  match pubkey (ch_wallet c) with
  | Some key =>
      if negb (Nat.eqb (length key) 32) then false else
      match verify signature (utf8 (message c)) key with Some ok => ok | None => false end
  | None => false
  end.

Definition is_link (p : ChallengePurpose) : bool := match p with to_link _ => true | to_unlink => false end.

(** From the verified signature on: policy, and the write. *)
Definition writeLink (q : ApiRequest) (c : Challenge) : Handler Response :=
  match house q with
  | None => answer unavailable
  | Some wallets =>
      match purpose c with
      | to_link i =>
          if bool_decide (ch_wallet c ∈ wallets) then answer unavailable
          else if isReservedXId (xId i) reservedXIds then answer (refuse 403 "refused")
          else if isReservedHandle (handle i) reservedHandles then answer (refuse 403 "refused")
          else
            let* outcome := onLinks (link (ch_wallet c) i (at_sec q)) in
            match outcome with
            | wallet_taken => answer (refuse 409 "wallet-taken")
            | linked => answer linked_body
            end
      | to_unlink =>
          let* removed := onLinks (unlink (ch_wallet c)) in
          answer (unlinked_body (match removed with Some _ => true | None => false end))
      end
  end.

(** The challenge is gone from here on, whatever it turns out to be. *)
Definition redeem (q : ApiRequest) (r : Redemption) (c : Challenge) : Handler Response :=
  if negb (Bool.eqb (is_link (purpose c)) (String.eqb (method q) "POST")) then answer (refuse 400 "malformed")
  else if negb (String.eqb (ch_wallet c) (red_wallet r)) then answer (refuse 400 "malformed")
  else if negb (signatureVerifies c (red_signature r)) then answer (refuse 401 "bad-signature")
  else writeLink q c.

Definition handleLinkWrite (q : ApiRequest) : Handler Response :=
  if negb (String.eqb (method q) "POST") && negb (String.eqb (method q) "DELETE") then answer (not_allowed "POST, DELETE") else
  match body q with
  | inl why => answer (body_response why)
  | inr value =>
      match parseRedemption value with
      | inl response => answer response
      | inr r =>
          let* verdict := onCounts (enforceRateLimit hmac (network q) (red_wallet r) (at_sec q)) in
          match verdict with
          | rate_limited n => answer (limited n)
          | rate_ok =>
              let* challenge := onChallenges (consume (red_nonce r) (at_sec q)) in
              match challenge with
              | None => answer (refuse 400 "expired")
              | Some c => redeem q r c
              end
          end
      end
  end.

(** *** The error boundary *)

Definition guarded (run : Handler Response) (s : Api CS LS RS) : Response * Api CS LS RS :=
  match run s with
  | (Done response, s) => (response, s)
  | (Throw _, s) => (unavailable, s)
  end.

(** A request to either leg. *)
Inductive api_event : Type := asks (q : ApiRequest) | redeems (q : ApiRequest).

Definition serve (e : api_event) (s : Api CS LS RS) : Response * Api CS LS RS :=
  match e with
  | asks q => guarded (handleChallenge q) s
  | redeems q => guarded (handleLinkWrite q) s
  end.

Definition serveAll (es : list api_event) (s : Api CS LS RS) : Api CS LS RS := foldl (fun s e => snd (serve e s)) s es.
End Handlers.
