(* ===== verification/LinkCeremonyLaws.v ===== *)
(** * What a link on the register means

    Over any stores that keep the promises of [OneShotStore] and [LinkKeeper],
    and so over the in-memory ones: every link was consented to, a challenge
    works once, and no caller without a wallet's key learns whether it is the
    arena's. *)
From S2P Require Import Prelude Text RateLimit LinkRegister Challenge ChallengeLaws LinkCeremony.

Section Laws.
Context {CS CE LS LE RS RE : Type}.
Context `{OneShotStore CS CE} `{LinkKeeper LS LE} `{!RateCounter RS RE}.
Context (hmac : string -> string) (pubkey : string -> option (list Z)).
Context (verify : list Z -> list Z -> list Z -> option bool).
Context (reservedXIds reservedHandles : gset string).

Abbreviation serve := (serve (CE := CE) (LE := LE) hmac pubkey verify reservedXIds reservedHandles).
Abbreviation serveAll := (serveAll (CE := CE) (LE := LE) hmac pubkey verify reservedXIds reservedHandles).
Abbreviation redeem := (redeem (CE := CE) (LE := LE) (RE := RE) pubkey verify reservedXIds reservedHandles).
Implicit Types (s : Api CS LS RS).

Definition held_by s : gmap string Challenge := held (challenges s).

(** The first leg's part: Privy vouched for the account, nothing about it is
    reserved, and [c] is the challenge composed for this wallet and account. *)
Definition asked (q : ApiRequest) (i : XIdentity) (c : Challenge) : Prop :=
  method q = "POST" /\ exists value proof, body q = inr value /\
  parseWallet pubkey (value !! "wallet") = inr (ch_wallet c) /\ value !! "proof" = Some (jstr proof) /\
  privy q proof = identified i /\ (xId i ∉ reservedXIds) /\ (toLowerCase (trim (handle i)) ∉ reservedHandles) /\
  challengeMessage (challengeInput q (ch_wallet c) (Some i)) = Done (message c) /\
  c = challengeOf q (ch_wallet c) (Some i) (message c).

(** The second leg's part: in time, the nonce of [c], its wallet, a signature
    of its words by that wallet, and a house list that does not have it. *)
Definition redeemed (p : ApiRequest) (c : Challenge) : Prop :=
  method p = "POST" /\ exists value r wallets, body p = inr value /\ parseRedemption pubkey value = inr r /\
  red_nonce r = nonce c /\ red_wallet r = ch_wallet c /\ at_sec p < expiresAtSec c /\
  signatureVerifies pubkey verify c (red_signature r) = true /\ house p = Some wallets /\ ch_wallet c ∉ wallets.

(** What a held challenge says of the request that made it. *)
Definition made_by (q : ApiRequest) (c : Challenge) : Prop :=
  nonce c = newNonce (randomBytes q) /\ forall i, purpose c = to_link i -> asked q i c.

Lemma proven_link q linking proof face : provenIdentity reservedXIds reservedHandles q linking proof = inr face ->
  match face with
  | Some i => exists p, proof = Some (jstr p) /\ privy q p = identified i /\
      (xId i ∉ reservedXIds) /\ (toLowerCase (trim (handle i)) ∉ reservedHandles)
  | None => True
  end.
Proof.
  unfold provenIdentity, isReservedXId, isReservedHandle. destruct linking; [| by destruct proof; [| intros [= <-]]].
  destruct proof as [[p |] |]; [| done..]. destruct (String.eqb p _); [done |].
  destruct (privy q p) as [i | why] eqn:Ep; [| done].
  case_bool_decide as Hx; [done |]. case_bool_decide as Hh; [done |]. intros [= <-]. by exists p.
Qed.

(** The first leg touches no link, and adds at most the challenge it answers with. *)
Lemma ask_step q s : links (snd (serve (asks q) s)) = links s /\
  forall n c, held_by (snd (serve (asks q) s)) !! n = Some c -> held_by s !! n = Some c \/ (nonce c = n /\ made_by q c).
Proof.
  unfold held_by. cbn [LinkCeremony.serve]. unfold guarded, handleChallenge, then_, answer, onCounts, onChallenges.
  destruct (String.eqb_spec (method q) "POST") as [Hm |]; cbn [negb]; [| by split; [| left]].
  destruct (body q) as [why | value] eqn:Eb; [by split; [| left] |].
  destruct (parseWallet pubkey _) as [why | wallet] eqn:Ew; [by split; [| left] |].
  destruct (wants_link _) as [linking |]; [| by split; [| left]].
  destruct (enforceRateLimit _ _ _ _ _) as [[[| n] |] rs]; cbn [rethrow]; [| by split; [| left]..].
  destruct (provenIdentity _ _ _ _ _) as [why | face] eqn:Ei; [by split; [| left] |].
  destruct (challengeMessage _) as [m | e] eqn:Em; cbn [rethrow]; [| by split; [| left]].
  cbn [challenges links counts].
  pose proof (put_holds (challengeOf q wallet face m) (challenges s)) as Hput.
  destruct (put _ _) as [[[] | e] cs]; cbn [rethrow fst snd links challenges] in *; (split; [done |]); intros n c Hc.
  - apply (lookup_weaken _ _ _ _ Hc) in Hput. apply lookup_insert_Some in Hput as [[<- <-] | [_ Hc']]; [right | by left].
    split; [done |]. split; [done |]. intros i Hi. unfold asked. cbn [challengeOf ch_wallet message purpose] in *.
    destruct face as [i' |]; [| done]. injection Hi as ->.
    apply proven_link in Ei as (p & Hp & Hpr & Hx & Hh). split; [done |]. by exists value, p.
  - left. by apply (lookup_weaken _ _ _ _ Hc).
Qed.

(** Statuses a spent challenge can be answered with. *)
Definition spent (r : Response) : Prop := status_of r ∈ [200; 401; 403; 409].

Definition names_nonce (p : ApiRequest) (n : string) : Prop :=
  exists value r, body p = inr value /\ parseRedemption pubkey value = inr r /\ red_nonce r = n.

Lemma writeLink_effect p c s :
  let '(_, s') := writeLink reservedXIds reservedHandles (CE := CE) (LE := LE) (RE := RE) p c s in
  challenges s' = challenges s /\
  forall w x, worn (links s') w x -> worn (links s) w x \/
    exists i wallets, purpose c = to_link i /\ w = ch_wallet c /\ x = xId i /\ house p = Some wallets /\ ch_wallet c ∉ wallets.
Proof.
  unfold writeLink, then_, onLinks, answer. destruct (house p) as [wallets |]; [| by split; [| left]].
  destruct (purpose c) as [i |] eqn:Ep.
  - case_bool_decide as Hw; [by split; [| left] |].
    destruct (isReservedXId _ _); [by split; [| left] |]. destruct (isReservedHandle _ _); [by split; [| left] |].
    pose proof (link_wears (ch_wallet c) i (at_sec p) (links s)) as Hl.
    destruct (link _ _ _ _) as [[[] | e] l]; cbn [rethrow links challenges snd] in *; (split; [done |]); intros w x Hwx;
      (apply Hl in Hwx as [[-> ->] |]; [right; by exists i, wallets | by left]).
  - pose proof (unlink_wears (ch_wallet c) (links s)) as Hu.
    destruct (unlink _ _) as [[o | e] l]; cbn [rethrow links challenges snd] in *; (split; [done |]); intros w x Hwx; left; by apply Hu.
Qed.

(** Every guard of the second leg stood open for a link that was written. *)
Lemma redeem_effect p r c s :
  let '(_, s') := redeem p r c s in
  challenges s' = challenges s /\
  forall w x, worn (links s') w x -> worn (links s) w x \/
    exists i wallets, purpose c = to_link i /\ w = ch_wallet c /\ x = xId i /\ house p = Some wallets /\ (ch_wallet c ∉ wallets) /\
      method p = "POST" /\ red_wallet r = ch_wallet c /\ signatureVerifies pubkey verify c (red_signature r) = true.
Proof.
  unfold LinkCeremony.redeem, answer. destruct (Bool.eqb _ _) eqn:Em; cbn [negb]; [| by split; [| left]].
  destruct (String.eqb_spec (ch_wallet c) (red_wallet r)) as [Hw |]; cbn [negb]; [| by split; [| left]].
  destruct (signatureVerifies _ _ _ _) eqn:Ev; cbn [negb]; [| by split; [| left]].
  pose proof (writeLink_effect p c s) as Hwrite. destruct (writeLink _ _ _ _ _) as [o s']. destruct Hwrite as [Hc Hl].
  split; [exact Hc |]. intros w x Hwx. destruct (Hl w x Hwx) as [| (i & ws & Hp & -> & -> & Hh & Hn)]; [by left |]. right. exists i, ws.
  apply Bool.eqb_prop in Em. rewrite Hp in Em. symmetry in Em. by apply String.eqb_eq in Em.
Qed.

Lemma spent_refuse st e : bool_decide (st ∈ [200; 401; 403; 409]) = false -> ~ spent (refuse st e).
Proof. by intros Hst%bool_decide_eq_false. Qed.

(** The second leg spends a live challenge or answers as if there were none. *)
Lemma redeem_step p s : let '(response, s') := serve (redeems p) s in
  (~ spent response /\ links s' = links s /\ held_by s' ⊆ held_by s) \/
  exists value r c, body p = inr value /\ parseRedemption pubkey value = inr r /\ held_by s !! red_nonce r = Some c /\
    held_by s' ⊆ delete (red_nonce r) (held_by s) /\
    forall w x, worn (links s') w x -> worn (links s) w x \/
      (nonce c = red_nonce r -> exists i, purpose c = to_link i /\ w = ch_wallet c /\ x = xId i /\ redeemed p c).
Proof.
  unfold held_by. cbn [LinkCeremony.serve]. unfold guarded, handleLinkWrite, then_, answer, onCounts, onChallenges.
  destruct (negb _ && negb _); [cbv beta iota; left; split; [by apply (spent_refuse 405 "m") | done] |].
  destruct (body p) as [why | value] eqn:Eb; [cbv beta iota; left; split; [by destruct why; apply spent_refuse | done] |].
  destruct (parseRedemption pubkey value) as [why | r] eqn:Er.
  { cbv beta iota. left. split; [| done]. revert Er. unfold parseRedemption. destruct (parseWallet _ _); [by intros [= <-]; apply spent_refuse |].
    destruct (value !! "nonce") as [[n |] |]; [| by intros [= <-]; apply spent_refuse..].
    destruct (negb _); [by intros [= <-]; apply spent_refuse |].
    by destruct (signatureBytes _); [| intros [= <-]; apply spent_refuse]. }
  destruct (enforceRateLimit _ _ _ _ _) as [[[| n] | e] rs]; cbn [rethrow challenges links counts];
    [| cbv beta iota; left; split; [by apply (spent_refuse 429 "m") | done] | cbv beta iota; left; split; [by apply spent_refuse | done]].
  pose proof (consume_once (red_nonce r) (at_sec p) (challenges s)) as Hc.
  destruct (consume _ _ _) as [[[c |] | e] cs]; cbn [rethrow challenges links counts];
    [| cbv beta iota; left; split; [by apply spent_refuse | done] | cbv beta iota; left; split; [by apply spent_refuse | done]].
  destruct Hc as (Hheld & Hlive & Hgone).
  pose proof (redeem_effect p r c (mkApi cs (links s) rs)) as Hred.
  destruct (redeem _ _ _ _) as [o s']. destruct Hred as [Hch Hl]. cbn [challenges links] in Hch, Hl.
  assert (Hgone' : held (challenges s') ⊆ delete (red_nonce r) (held (challenges s))) by by rewrite Hch.
  assert (Hnew : forall w x, worn (links s') w x -> worn (links s) w x \/
      (nonce c = red_nonce r -> exists i, purpose c = to_link i /\ w = ch_wallet c /\ x = xId i /\ redeemed p c)).
  { intros w x Hwx. destruct (Hl w x Hwx) as [| (i & ws & Hp & -> & -> & Hh & Hn & Hm & Hw & Hv)]; [by left |].
    right. intros Hnonce. exists i. split; [done |]. split; [done |]. split; [done |]. split; [done |].
    by exists value, r, ws. }
  by destruct o; right; exists value, r, c.
Qed.

(** ** Histories *)

(** A challenge of the store was made by an earlier request; a link of the
    register was asked for and then redeemed. *)
Definition consented (es : list api_event) (w x : string) : Prop :=
  exists es1 q es2 p es3 i c, es = es1 ++ asks q :: es2 ++ redeems p :: es3 /\
    xId i = x /\ ch_wallet c = w /\ asked q i c /\ redeemed p c.

Definition accounted (es : list api_event) s : Prop :=
  (forall n c, held_by s !! n = Some c -> nonce c = n /\ exists es1 q es2, es = es1 ++ asks q :: es2 /\ made_by q c) /\
  (forall w x, worn (links s) w x -> consented es w x).

Lemma consented_snoc es e w x : consented es w x -> consented (es ++ [e]) w x.
Proof.
  intros (es1 & q & es2 & p & es3 & i & c & -> & Hx). exists es1, q, es2, p, (es3 ++ [e]), i, c. split; [| exact Hx].
  by rewrite <- !app_assoc; cbn; rewrite <- app_assoc.
Qed.

Lemma made_snoc es e c : (exists es1 q es2, es = es1 ++ asks q :: es2 /\ made_by q c) ->
  exists es1 q es2, es ++ [e] = es1 ++ asks q :: es2 /\ made_by q c.
Proof. intros (es1 & q & es2 & -> & Hm). exists es1, q, (es2 ++ [e]). split; [by rewrite <- app_assoc | exact Hm]. Qed.

Lemma accounted_step es e s : accounted es s -> accounted (es ++ [e]) (snd (serve e s)).
Proof.
  intros [Hh Hw]. destruct e as [q | p].
  - destruct (ask_step q s) as [Hl Hc]. split.
    + intros n c Hn. destruct (Hc n c Hn) as [Hold | [Hnonce Hmade]].
      * destruct (Hh n c Hold) as [Hnonce Hm]. split; [done | by apply made_snoc].
      * split; [done |]. by exists es, q, [].
    + intros w x Hwx. rewrite Hl in Hwx. by apply consented_snoc, Hw.
  - pose proof (redeem_step p s) as Hstep. destruct (serve (redeems p) s) as [response s']. cbn [snd].
    assert (Hsub : forall n c, held_by s' !! n = Some c -> held_by s !! n = Some c).
    { intros n c Hn. destruct Hstep as [(_ & _ & Hs) | (_ & r & _ & _ & _ & _ & Hs & _)]; apply (lookup_weaken _ _ _ _ Hn) in Hs; [done |].
      by apply lookup_delete_Some in Hs as [_ Hs]. }
    split.
    + intros n c Hn. destruct (Hh n c (Hsub n c Hn)) as [Hnonce Hm]. split; [done | by apply made_snoc].
    + intros w x Hwx. destruct Hstep as [(_ & Hl & _) | (value & r & c & Hb & Hr & Hc & _ & Hnew)].
      * rewrite Hl in Hwx. by apply consented_snoc, Hw.
      * destruct (Hnew w x Hwx) as [Hold | Hi]; [by apply consented_snoc, Hw |].
        destruct (Hh _ _ Hc) as [Hnonce (es1 & q & es2 & -> & _ & Hmade)].
        destruct (Hi Hnonce) as (i & Hp & -> & -> & Hred).
        exists es1, q, es2, p, [], i, c. split; [by rewrite <- app_assoc |]. by eauto.
Qed.

Lemma accounted_all es s0 : accounted [] s0 -> accounted es (serveAll es s0).
Proof.
  intros H0'. induction es as [| e es IH] using rev_ind; [exact H0' |].
  unfold LinkCeremony.serveAll. rewrite foldl_app. apply accounted_step, IH.
Qed.

(** C11. Nobody wears a face without having asked for it with both proofs.  Over
    any sequence of requests served from empty stores, whenever the register
    shows an account on a wallet, an earlier challenge was asked for with a
    token Privy vouched for as that account, nothing of it reserved; and a later
    redemption named that challenge's nonce and wallet within its 300 seconds,
    carried a signature by the wallet's key over exactly the message composed
    for this account and wallet, and met a house list without the wallet. *)
Theorem every_link_was_consented es s0 w x : held_by s0 = ∅ -> (forall w x, ~ worn (links s0) w x) ->
  worn (links (serveAll es s0)) w x -> consented es w x.
Proof.
  intros Hempty Hbare. apply accounted_all. split.
  - intros n c. rewrite Hempty. by rewrite lookup_empty.
  - intros w' x' Hw. by destruct (Hbare w' x').
Qed.

Definition issues (n : string) (e : api_event) : Prop :=
  match e with asks q => newNonce (randomBytes q) = n | redeems _ => False end.

Lemma not_held_stays n es s : Forall (fun e => ~ issues n e) es -> held_by s !! n = None -> held_by (serveAll es s) !! n = None.
Proof.
  intros Hes. revert s. induction Hes as [| e es He Hes IH]; intros s Hn; [exact Hn |]. apply IH.
  destruct e as [q | p].
  - destruct (held_by (snd (serve (asks q) s)) !! n) as [c |] eqn:Ec; [| reflexivity]. apply ask_step in Ec as [Ec | [Hc [Hm _]]]; [congruence |].
    exfalso. apply He. cbn. congruence.
  - pose proof (redeem_step p s) as Hstep. destruct (serve (redeems p) s) as [response s']. cbn [snd].
    destruct Hstep as [(_ & _ & Hs) | (_ & r & _ & _ & _ & _ & Hs & _)]; eapply lookup_weaken_None; try exact Hs; [done |].
    apply lookup_delete_None. by right.
Qed.

(** C18. A challenge is one shot.  Once a redemption of a nonce was answered with
    success, a bad signature, a reserved name or a taken wallet, that nonce is
    dead: unless the server draws the same nonce again, no later request naming
    it is answered with any of these, and none changes the register. *)
Theorem challenge_is_one_shot n p s es p' : names_nonce p n -> spent (fst (serve (redeems p) s)) ->
  Forall (fun e => ~ issues n e) es -> names_nonce p' n ->
  let s' := serveAll es (snd (serve (redeems p) s)) in
  ~ spent (fst (serve (redeems p') s')) /\ links (snd (serve (redeems p') s')) = links s'.
Proof.
  intros (value & r & Hb & Hr & Hn) Hspent Hes (value' & r' & Hb' & Hr' & Hn') s'.
  assert (Hdead : held_by s' !! n = None).
  { apply not_held_stays; [done |]. pose proof (redeem_step p s) as Hstep. destruct (serve (redeems p) s) as [response s1].
    cbn [fst snd] in *. destruct Hstep as [[Hnot _] | (v & r1 & c & Hv & Hr1 & _ & Hs & _)]; [done |].
    assert (r1 = r) as -> by congruence. eapply lookup_weaken_None; [| exact Hs]. apply lookup_delete_None. by left. }
  pose proof (redeem_step p' s') as Hstep. destruct (serve (redeems p') s') as [response' s2]. cbn [fst snd].
  destruct Hstep as [(Hnot & Hl & _) | (v & r1 & c & Hv & Hr1 & Hc & _)]; [done |]. exfalso.
  assert (r1 = r') as -> by congruence. rewrite Hn', Hdead in Hc. done.
Qed.

(** ** What the answers give away *)

Definition with_house (p : ApiRequest) (h : option (gset string)) : ApiRequest :=
  mkApiRequest (method p) (host p) (body p) (network p) (at_sec p) (randomBytes p) (privy p) h.

(** The challenge this redemption would spend. *)
Definition would_spend (p : ApiRequest) s (r : Redemption) (c : Challenge) : Prop :=
  exists value cs, body p = inr value /\ parseRedemption pubkey value = inr r /\
    consume (red_nonce r) (at_sec p) (challenges s) = (Done (Some c), cs).

Lemma house_seen_late p h h' s :
  (forall r c, would_spend p s r c -> forall s1, redeem (with_house p h) r c s1 =
     redeem (with_house p h') r c s1) ->
  serve (redeems (with_house p h)) s = serve (redeems (with_house p h')) s.
Proof.
  intros Hr. cbn [LinkCeremony.serve]. unfold guarded, handleLinkWrite, then_, answer, onCounts, onChallenges. cbn [method body network at_sec with_house].
  destruct (negb _ && negb _); [done |]. destruct (body p) as [why | value] eqn:Eb; [done |].
  destruct (parseRedemption pubkey value) as [why | r] eqn:Er; [done |].
  destruct (enforceRateLimit _ _ _ _ _) as [[[| n] | e] rs]; cbn [rethrow challenges links counts]; [| done | done].
  destruct (consume _ _ _) as [[[c |] | e] cs] eqn:Ec; cbn [rethrow challenges links counts]; [| done | done].
  rewrite (Hr r c); [done |]. by exists value, cs.
Qed.

(** The endpoint is no membership oracle.  A redemption that does not carry
    the wallet's own signature is answered the same, with the same effects,
    whatever the house list says; and a link asked for with the signature of a
    wallet on the list is answered and treated exactly as when the list could
    not be read. *)
Theorem house_list_is_no_oracle p s h h' :
  ((forall r c, would_spend p s r c -> signatureVerifies pubkey verify c (red_signature r) = false) ->
   serve (redeems (with_house p h)) s = serve (redeems (with_house p h')) s) /\
  ((forall r c, would_spend p s r c -> is_link (purpose c) = true /\ match h with Some ws => ch_wallet c ∈ ws | None => True end) ->
   serve (redeems (with_house p h)) s = serve (redeems (with_house p None)) s).
Proof.
  split; intros Hr; apply house_seen_late; intros r c Hspend s1; unfold LinkCeremony.redeem; cbn [method with_house].
  - by rewrite (Hr r c Hspend).
  - destruct (Hr r c Hspend) as [Hl Hh]. do 3 (destruct (negb _); [done |]). unfold writeLink. cbn [house with_house].
    destruct h as [ws |]; [| done]. destruct (purpose c); [| done]. by rewrite bool_decide_eq_true_2 by done.
Qed.
End Laws.

(** ** One ceremony over the in-memory stores *)

Abbreviation MemoryApi := (Api (gmap string Challenge) Register (gmap string (Z * Z))).

Definition sample_stores : MemoryApi := mkApi ∅ (mkRegister [] ∅) ∅.

(** Any base58 text decodes to some key; the one good signature is 64 zeros. *)
Definition sample_pubkey (w : string) : option (list Z) := if matches is_base58 32 44 w then Some (replicate 32 7) else None.
Definition sample_verify (sig msg key : list Z) : option bool := Some (bool_decide (sig = replicate 64 0)).
Definition zeros : string := text (replicate 86 "A"%char ++ ["="; "="]%char).

Definition sample_ask : ApiRequest := mkApiRequest "POST" (Some "bullsvsunicorns.fun")
  (inr {[ "wallet" := jstr sample_wallet; "purpose" := jstr "link"; "proof" := jstr "token" ]}) "198.51.100.0/24" 1700000000
  (replicate 32 171) (fun t => if String.eqb t "token" then identified sample_face else unproven "bad-signature") None.

Definition redemption_of (signature : string) (at_ : Z) : ApiRequest := mkApiRequest "POST" None
  (inr {[ "wallet" := jstr sample_wallet; "nonce" := jstr (newNonce (replicate 32 171)); "signature" := jstr signature ]})
  "198.51.100.0/24" at_ [] (fun _ => unproven "unused") (Some {[ other_wallet ]}).

Abbreviation sample_serve := (serve (CE := constraint) (LE := constraint) (RE := memory_error) id sample_pubkey sample_verify
  RESERVED_MOCK_X_IDS RESERVED_HANDLES).
Abbreviation sample_serveAll := (serveAll (CE := constraint) (LE := constraint) (RE := memory_error) id sample_pubkey sample_verify
  RESERVED_MOCK_X_IDS RESERVED_HANDLES).

Definition asked_stores : MemoryApi := snd (sample_serve (asks sample_ask) sample_stores).

Lemma every_link_was_consented_witness :
  worn (links (sample_serveAll [asks sample_ask; redeems (redemption_of zeros 1700000060)] sample_stores)) sample_wallet "44196397" /\
  consented sample_pubkey sample_verify RESERVED_MOCK_X_IDS RESERVED_HANDLES
    [asks sample_ask; redeems (redemption_of zeros 1700000060)] sample_wallet "44196397".
Proof.
  assert (Hw : worn (links (sample_serveAll [asks sample_ask; redeems (redemption_of zeros 1700000060)] sample_stores))
    sample_wallet "44196397").
  { vm_compute. eexists. split; [left | split; reflexivity]. }
  split; [exact Hw |].
  apply (every_link_was_consented id sample_pubkey sample_verify RESERVED_MOCK_X_IDS RESERVED_HANDLES _ sample_stores).
  - reflexivity.
  - intros w x (r & Hin & _). by apply elem_of_nil in Hin.
  - exact Hw.
Defined.

(** A wrong signature, then the right one. *)
Definition wrong : string := text (replicate 86 "B"%char ++ ["="; "="]%char).

Lemma challenge_is_one_shot_witness :
  fst (sample_serve (redeems (redemption_of wrong 1700000060)) asked_stores) = refuse 401 "bad-signature" /\
  let s' := sample_serveAll [] (snd (sample_serve (redeems (redemption_of wrong 1700000060)) asked_stores)) in
  ~ spent (fst (sample_serve (redeems (redemption_of zeros 1700000061)) s')) /\
  links (snd (sample_serve (redeems (redemption_of zeros 1700000061)) s')) = links s'.
Proof.
  split; [vm_compute; reflexivity |].
  apply (challenge_is_one_shot id sample_pubkey sample_verify RESERVED_MOCK_X_IDS RESERVED_HANDLES (newNonce (replicate 32 171))).
  - eexists _, _. split; [reflexivity |]. split; vm_compute; reflexivity.
  - apply (bool_decide_eq_true_1 _). vm_compute. reflexivity.
  - constructor.
  - eexists _, _. split; [reflexivity |]. split; vm_compute; reflexivity.
Defined.

(** Unsigned, with the wallet on the list or not; and signed, with it on the list. *)
Lemma house_list_is_no_oracle_witness :
  sample_serve (redeems (with_house (redemption_of wrong 1700000060) (Some {[ sample_wallet ]}))) asked_stores =
  sample_serve (redeems (with_house (redemption_of wrong 1700000060) (Some ∅))) asked_stores /\
  sample_serve (redeems (with_house (redemption_of zeros 1700000060) (Some {[ sample_wallet ]}))) asked_stores =
  sample_serve (redeems (with_house (redemption_of zeros 1700000060) None)) asked_stores.
Proof.
  split.
  - refine (proj1 (house_list_is_no_oracle id sample_pubkey sample_verify RESERVED_MOCK_X_IDS RESERVED_HANDLES
      (redemption_of wrong 1700000060) asked_stores (Some {[ sample_wallet ]}) (Some ∅)) _).
    intros r c (value & cs & Hb & Hr & Hc). injection Hb as <-. vm_compute in Hr. injection Hr as <-.
    vm_compute in Hc. injection Hc as <- <-. vm_compute. reflexivity.
  - refine (proj2 (house_list_is_no_oracle id sample_pubkey sample_verify RESERVED_MOCK_X_IDS RESERVED_HANDLES
      (redemption_of zeros 1700000060) asked_stores (Some {[ sample_wallet ]}) None) _).
    intros r c (value & cs & Hb & Hr & Hc). injection Hb as <-. vm_compute in Hr. injection Hr as <-.
    vm_compute in Hc. injection Hc as <- <-. split; [vm_compute; reflexivity |]. cbn [ch_wallet]. apply elem_of_singleton. vm_compute. reflexivity.
Defined.
