(* ===== verification/Json.v ===== *)
(** * JSON

    The language's [JSON.parse], [JSON.stringify] and number-to-string
    conversion, as the keeper's status file, the web page's reader of it and
    the identity API use them.  Text is a list of UTF-16 code units.

    Laws: printing a number and reading it back is the identity on doubles;
    parsing a printed value gives the value back, whatever the white space of
    the indentation. *)
From S2P Require Import Prelude Text JsNum.

Abbreviation units := (list Z).

(** The code units of a text literal. *)
Definition lit (s : string) : units := (fun c => Z.of_nat (nat_of_ascii c)) <$> chars s.

Unset Elimination Schemes.

Inductive json : Type :=
| JNull
| JBool (b : bool)
| JNum (x : num)
| JStr (s : units)
| JArr (l : list json)
| JObj (fields : list (units * json)).

Set Elimination Schemes.

(** The induction scheme over the values inside. *)
Section JsonInd.
Variable P : json -> Prop.
Hypothesis Hnull : P JNull.
Hypothesis Hbool : forall b, P (JBool b).
Hypothesis Hnum : forall x, P (JNum x).
Hypothesis Hstr : forall s, P (JStr s).
Hypothesis Harr : forall l, Forall P l -> P (JArr l).
Hypothesis Hobj : forall fs, Forall (fun kv => P kv.2) fs -> P (JObj fs).

Definition json_ind : forall v, P v :=
  fix go v :=
    match v with
    | JNull => Hnull
    | JBool b => Hbool b
    | JNum x => Hnum x
    | JStr s => Hstr s
    | JArr l => Harr l ((fix each l : Forall P l := match l with [] => List.Forall_nil _ | v :: l => List.Forall_cons P _ _ (go v) (each l) end) l)
    | JObj fs => Hobj fs ((fix each fs : Forall (fun kv => P kv.2) fs :=
        match fs with [] => List.Forall_nil _ | kv :: fs => List.Forall_cons (fun kv => P kv.2) _ _ (go kv.2) (each fs) end) fs)
    end.
End JsonInd.

(** [v.k] on a parsed value: [None] is [undefined]. *)
Definition assoc {A} (k : units) (fs : list (units * A)) : option A :=
  snd <$> List.find (fun kv => bool_decide (kv.1 = k)) fs.

Definition field (k : string) (v : json) : option json :=
  match v with JObj fs => assoc (lit k) fs | _ => None end.

(** ** Numbers *)

Fixpoint digits_go (fuel : nat) (z : Z) (acc : units) : units :=
  match fuel with
  | O => acc
  | S fuel => let acc := 48 + z mod 10 :: acc in if z <? 10 then acc else digits_go fuel (z / 10) acc
  end.

(** The decimal digits of a natural number. *)
Definition digits (z : Z) : units := digits_go (S (Z.to_nat (Z.log2 z))) z [].

Definition undigits (ds : units) : Z := foldl (fun n d => n * 10 + (d - 48)) 0 ds.

Definition digit (c : Z) : bool := (48 <=? c) && (c <=? 57).

(** The number the decimal [s * 10^e] denotes. *)
Definition decimal (s e : Z) : num := of_ratio (s * 10 ^ Z.max 0 e * one) (10 ^ Z.max 0 (- e)).

(** The least [n] with [m / one < 10^n], from an estimate by the logarithm. *)
Definition exponent (m : Z) : Z :=
  let est := (Z.log2 m - 1074) * 30103 / 100000 in
  let below n := m * 10 ^ Z.max 0 (- n) <? one * 10 ^ Z.max 0 n in
  if below est then est else if below (est + 1) then est + 1 else est + 2.

(** [s] digits at exponent [e], written with a leading digit other than a carry. *)
Definition carried (k s e : Z) : Z * Z := if s =? 10 ^ k then (10 ^ (k - 1), e + 1) else (s, e).

(** Number::toString: the fewest digits that still denote [m], the nearer of
    two candidates first; seventeen always do. *)
Fixpoint shortest (fuel : nat) (m k : Z) : Z * Z :=
  match fuel with
  | O => (m * 5 ^ 1074, - 1074)
  | S fuel =>
      let e := exponent m - k in
      let a := m * 10 ^ Z.max 0 (- e) in
      let b := one * 10 ^ Z.max 0 e in
      let near := carried k (rne a b) e in
      let far := carried k (if rne a b =? a / b then a / b + 1 else a / b) e in
      if bool_decide (0 < near.1 /\ decimal near.1 near.2 = Fin m) then near
      else if bool_decide (0 < far.1 /\ decimal far.1 far.2 = Fin m) then far
      else shortest fuel m (k + 1)
  end.

(** The layout of [s * 10^e]. *)
Definition layout (s e : Z) : units :=
  let ds := digits s in
  let k := Z.of_nat (length ds) in
  let n := e + k in
  if (k <=? n) && (n <=? 21) then ds ++ repeat 48 (Z.to_nat (n - k))
  else if (0 <? n) && (n <=? 21) then take (Z.to_nat n) ds ++ 46 :: drop (Z.to_nat n) ds
  else if (-6 <? n) && (n <=? 0) then 48 :: 46 :: repeat 48 (Z.to_nat (- n)) ++ ds
  else
    match ds with
    | [] => []
    | d :: ds' =>
        d :: (if (k =? 1) then [] else 46 :: ds') ++ 101 :: (if n - 1 <? 0 then 45 else 43) :: digits (Z.abs (n - 1))
    end.

(** [String(x)] of a finite number; [JSON.stringify] writes the others as null. *)
Definition show_num (x : num) : units :=
  match x with
  | Fin m =>
      if m =? 0 then [48] else
      let '(s, e) := shortest 17 (Z.abs m) 1 in
      (if m <? 0 then [45] else []) ++ layout s e
  | _ => lit "null"
  end.

Fixpoint span (l : units) : units * units :=
  match l with
  | c :: l' => if digit c then let '(ds, r) := span l' in (c :: ds, r) else ([], l)
  | [] => ([], [])
  end.

(** A number of the JSON grammar: an optional minus sign, an integer without
    leading zeros, an optional fraction and an optional exponent. *)
Definition read_fraction (l : units) : option (units * units) :=
  match l with
  | c :: l' => if c =? 46 then let '(ds, r) := span l' in if (length ds =? 0)%nat then None else Some (ds, r) else Some ([], l)
  | [] => Some ([], [])
  end.

Definition read_exponent (l : units) : option (Z * units) :=
  match l with
  | c :: l' =>
      if (c =? 101) || (c =? 69) then
        let '(sign, l'') := match l' with d :: r => if d =? 45 then (-1, r) else if d =? 43 then (1, r) else (1, l') | [] => (1, []) end in
        let '(ds, r) := span l'' in
        if (length ds =? 0)%nat then None else Some (sign * undigits ds, r)
      else Some (0, l)
  | [] => Some (0, [])
  end.

Definition read_magnitude (l : units) : option (num * units) :=
  let '(ip, r) := span l in
  match ip with
  | [] => None
  | d :: ip' =>
      if (d =? 48) && negb (length ip' =? 0)%nat then None else
      match read_fraction r with
      | None => None
      | Some (fp, r) =>
          match read_exponent r with
          | None => None
          | Some (ex, r) => Some (decimal (undigits (ip ++ fp)) (ex - Z.of_nat (length fp)), r)
          end
      end
  end.

Definition read_num (l : units) : option (num * units) :=
  match l with
  | c :: l' => if c =? 45 then prod_map neg id <$> read_magnitude l' else read_magnitude l
  | [] => None
  end.

(** ** Strings *)

Definition hex_digit (n : Z) : Z := if n <? 10 then 48 + n else 87 + n.

Definition unicode_escape (c : Z) : units :=
  [92; 117; hex_digit (c / 4096); hex_digit (c / 256 mod 16); hex_digit (c / 16 mod 16); hex_digit (c mod 16)].

(** The two-character escapes: backspace, tab, newline, form feed, return,
    quote and backslash. *)
Definition short_escape (c : Z) : option Z :=
  if c =? 8 then Some 98 else if c =? 9 then Some 116 else if c =? 10 then Some 110
  else if c =? 12 then Some 102 else if c =? 13 then Some 114
  else if c =? 34 then Some 34 else if c =? 92 then Some 92 else None.

Definition leading (c : Z) : bool := (55296 <=? c) && (c <=? 56319).
Definition trailing (c : Z) : bool := (56320 <=? c) && (c <=? 57343).

(** QuoteJSONString without its quotes: lone surrogates are escaped. *)
Fixpoint escaped (l : units) : units :=
  match l with
  | [] => []
  | c :: l' =>
      match short_escape c with
      | Some e => 92 :: e :: escaped l'
      | None =>
          if c <? 32 then unicode_escape c ++ escaped l'
          else if leading c then
            match l' with
            | d :: l'' => if trailing d then c :: d :: escaped l'' else unicode_escape c ++ escaped l'
            | [] => unicode_escape c
            end
          else if trailing c then unicode_escape c ++ escaped l'
          else c :: escaped l'
      end
  end.

Definition quoted (s : units) : units := 34 :: escaped s ++ [34].

Definition hex_value (c : Z) : option Z :=
  if digit c then Some (c - 48)
  else if (97 <=? c) && (c <=? 102) then Some (c - 87)
  else if (65 <=? c) && (c <=? 70) then Some (c - 55) else None.

Definition unescape (e : Z) : option Z :=
  if e =? 98 then Some 8 else if e =? 116 then Some 9 else if e =? 110 then Some 10
  else if e =? 102 then Some 12 else if e =? 114 then Some 13
  else if e =? 34 then Some 34 else if e =? 92 then Some 92 else if e =? 47 then Some 47 else None.

(** The units up to the closing quote, and what follows it. *)
Fixpoint read_units (l : units) : option (units * units) :=
  match l with
  | [] => None
  | c :: l =>
      if c =? 34 then Some ([], l)
      else if c =? 92 then
        match l with
        | [] => None
        | e :: l =>
            if e =? 117 then
              match l with
              | h1 :: h2 :: h3 :: h4 :: l =>
                  match hex_value h1, hex_value h2, hex_value h3, hex_value h4 with
                  | Some a, Some b, Some c, Some d => prod_map (cons (a * 4096 + b * 256 + c * 16 + d)) id <$> read_units l
                  | _, _, _, _ => None
                  end
              | _ => None
              end
            else match unescape e with Some u => prod_map (cons u) id <$> read_units l | None => None end
        end
      else if c <? 32 then None
      else prod_map (cons c) id <$> read_units l
  end.

(** ** Values *)

Section Show.
(** The third argument of [JSON.stringify], as white space. *)
Context (gap : units).

Definition line (ind : units) : units := match gap with [] => [] | _ => 10 :: ind end.
Definition colon : units := match gap with [] => [58] | _ => [58; 32] end.

Fixpoint separated (sep : units) (parts : list units) : units :=
  match parts with
  | [] => []
  | [p] => p
  | p :: parts => p ++ sep ++ separated sep parts
  end.

(** SerializeJSONProperty at the indentation [ind]. *)
Fixpoint show_at (ind : units) (v : json) : units :=
  match v with
  | JNull => lit "null"
  | JBool b => if b then lit "true" else lit "false"
  | JNum x => show_num x
  | JStr s => quoted s
  | JArr [] => lit "[]"
  | JArr l => 91 :: line (ind ++ gap) ++ separated (44 :: line (ind ++ gap)) (show_at (ind ++ gap) <$> l) ++ line ind ++ [93]
  | JObj [] => lit "{}"
  | JObj fs =>
      123 :: line (ind ++ gap) ++
        separated (44 :: line (ind ++ gap)) ((fun kv => quoted kv.1 ++ colon ++ show_at (ind ++ gap) kv.2) <$> fs) ++
      line ind ++ [125]
  end.

Definition stringify (v : json) : units := show_at [] v.
End Show.

Definition blank (c : Z) : bool := (c =? 32) || (c =? 9) || (c =? 10) || (c =? 13).

Fixpoint skip (l : units) : units :=
  match l with c :: l' => if blank c then skip l' else l | [] => [] end.

(** The literal [w], and what follows it. *)
Fixpoint word (w l : units) : option units :=
  match w, l with
  | [], _ => Some l
  | c :: w, d :: l => if c =? d then word w l else None
  | _ :: _, [] => None
  end.

(** A repeated key keeps its place and takes the last value. *)
Fixpoint assign (k : units) (v : json) (fs : list (units * json)) : list (units * json) :=
  match fs with
  | [] => [(k, v)]
  | (k', v') :: fs => if bool_decide (k' = k) then (k, v) :: fs else (k', v') :: assign k v fs
  end.

(** A value, the elements of an array after its bracket and the members of an
    object after its brace; each returns what follows. *)
Fixpoint value (fuel : nat) (l : units) : option (json * units) :=
  match fuel with
  | O => None
  | S fuel =>
      match skip l with
      | [] => None
      | c :: r =>
          if c =? 123 then
            match skip r with
            | d :: r' => if d =? 125 then Some (JObj [], r') else prod_map JObj id <$> members fuel [] (d :: r')
            | [] => None
            end
          else if c =? 91 then
            match skip r with
            | d :: r' => if d =? 93 then Some (JArr [], r') else prod_map JArr id <$> elements fuel (d :: r')
            | [] => None
            end
          else if c =? 34 then prod_map JStr id <$> read_units r
          else if c =? 110 then (fun r => (JNull, r)) <$> word (lit "null") (c :: r)
          else if c =? 116 then (fun r => (JBool true, r)) <$> word (lit "true") (c :: r)
          else if c =? 102 then (fun r => (JBool false, r)) <$> word (lit "false") (c :: r)
          else prod_map JNum id <$> read_num (c :: r)
      end
  end
with elements (fuel : nat) (l : units) : option (list json * units) :=
  match fuel with
  | O => None
  | S fuel =>
      match value fuel l with
      | None => None
      | Some (v, r) =>
          match skip r with
          | c :: r => if c =? 44 then prod_map (cons v) id <$> elements fuel r else if c =? 93 then Some ([v], r) else None
          | [] => None
          end
      end
  end
with members (fuel : nat) (fs : list (units * json)) (l : units) : option (list (units * json) * units) :=
  match fuel with
  | O => None
  | S fuel =>
      match skip l with
      | c :: r =>
          if c =? 34 then
            match read_units r with
            | None => None
            | Some (k, r) =>
                match skip r with
                | c :: r =>
                    if c =? 58 then
                      match value fuel r with
                      | None => None
                      | Some (v, r) =>
                          match skip r with
                          | c :: r =>
                              if c =? 44 then members fuel (assign k v fs) r
                              else if c =? 125 then Some (assign k v fs, r) else None
                          | [] => None
                          end
                      end
                    else None
                | [] => None
                end
            end
          else None
      | [] => None
      end
  end.

(** [JSON.parse(text)]: [None] is the SyntaxError it throws. *)
Definition parse (l : units) : option json :=
  match value (S (length l)) l with
  | Some (v, r) => match skip r with [] => Some v | _ => None end
  | None => None
  end.

(** ** Laws of numbers *)

Lemma undigits_app ds ds' : undigits (ds ++ ds') = undigits ds * 10 ^ Z.of_nat (length ds') + undigits ds'.
Proof.
  unfold undigits. rewrite foldl_app. generalize (foldl (fun n d => n * 10 + (d - 48)) 0 ds). clear ds.
  induction ds' as [| d ds' IH] using rev_ind; intros n; [cbn; lia |].
  rewrite !foldl_app, IH. cbn. rewrite length_app, Nat2Z.inj_add, Z.pow_add_r by lia. cbn. lia.
Qed.

Lemma undigits_zeros n : undigits (repeat 48 n) = 0.
Proof. induction n as [| n IH]; [done |]. change (repeat 48 (S n)) with ([48] ++ repeat 48 n). rewrite undigits_app, IH. done. Qed.

Lemma undigits_app_zeros ds n : undigits (ds ++ repeat 48 n) = undigits ds * 10 ^ Z.of_nat n.
Proof. rewrite undigits_app, undigits_zeros, repeat_length. lia. Qed.

Lemma undigits_zeros_app ds n : undigits (repeat 48 n ++ ds) = undigits ds.
Proof. rewrite undigits_app, undigits_zeros. lia. Qed.

Lemma digit_mod z : digit (48 + z mod 10) = true.
Proof. unfold digit. pose proof (Z.mod_pos_bound z 10 ltac:(lia)). apply andb_true_iff. split; apply Z.leb_le; lia. Qed.

Lemma digits_go_spec fuel z acc : 0 <= z < 2 ^ Z.of_nat fuel -> (0 < fuel)%nat ->
  exists d ds, digits_go fuel z acc = (d :: ds) ++ acc /\ Forall (fun c => digit c = true) (d :: ds) /\
    undigits (d :: ds) = z /\ (0 < z -> d <> 48).
Proof.
  revert z acc. induction fuel as [| fuel IH]; intros z acc Hz Hf; [lia |]. cbn [digits_go].
  destruct (z <? 10) eqn:E; zbool.
  - rewrite Z.mod_small by lia. exists (48 + z), []. repeat split; [| cbn; lia | lia].
    apply Forall_singleton. rewrite <- (Z.mod_small z 10) by lia. apply digit_mod.
  - rewrite Nat2Z.inj_succ, Z.pow_succ_r in Hz by lia.
    destruct (IH (z / 10) (48 + z mod 10 :: acc)) as (d & ds & Hgo & Hds & Hval & Hhd).
    + split; [apply Z.div_pos; lia | apply Z.div_lt_upper_bound; lia].
    + destruct fuel; [cbn in Hz |]; lia.
    + exists d, (ds ++ [48 + z mod 10]). repeat split.
      * rewrite Hgo. cbn. by rewrite <- app_assoc.
      * change (d :: ds ++ ?l) with ((d :: ds) ++ l). apply Forall_app. split; [done |]. apply Forall_singleton, digit_mod.
      * change (d :: ds ++ ?l) with ((d :: ds) ++ l). rewrite undigits_app, Hval. cbn. pose proof (Z.div_mod z 10). lia.
      * intros _. apply Hhd. apply Z.div_str_pos. lia.
Qed.

Lemma digits_spec z : 0 <= z -> exists d ds, digits z = d :: ds /\ Forall (fun c => digit c = true) (d :: ds) /\
  undigits (d :: ds) = z /\ (0 < z -> d <> 48).
Proof.
  intros Hz. unfold digits. destruct (digits_go_spec (S (Z.to_nat (Z.log2 z))) z []) as (d & ds & H & Hr); [| lia |].
  - split; [done |]. rewrite Nat2Z.inj_succ, Z2Nat.id by apply Z.log2_nonneg.
    destruct (decide (z = 0)) as [-> |]; [done |]. apply Z.log2_spec. lia.
  - exists d, ds. by rewrite app_nil_r in H.
Qed.

(** What may follow a number. *)
Definition number_end (r : units) : Prop :=
  match r with [] => True | c :: _ => digit c = false /\ c <> 46 /\ c <> 101 /\ c <> 69 end.

Definition no_digit (r : units) : Prop := match r with [] => True | c :: _ => digit c = false end.

Lemma number_end_no_digit r : number_end r -> no_digit r.
Proof. destruct r as [| c r]; [done |]. by intros []. Qed.

Lemma span_app ds r : Forall (fun c => digit c = true) ds -> no_digit r -> span (ds ++ r) = (ds, r).
Proof.
  intros Hds Hr. induction Hds as [| d ds Hd Hds IH]; cbn.
  - destruct r as [| c r]; [done |]. cbn in *. by rewrite Hr.
  - by rewrite Hd, IH.
Qed.

Lemma read_fraction_none r : number_end r -> read_fraction r = Some ([], r).
Proof. destruct r as [| c r]; [done |]. intros (_ & H & _). cbn. by rewrite (proj2 (Z.eqb_neq c 46) H). Qed.

Lemma read_fraction_some ds r : Forall (fun c => digit c = true) ds -> ds <> [] -> no_digit r ->
  read_fraction (46 :: ds ++ r) = Some (ds, r).
Proof. intros H Hne Hr. cbn. rewrite span_app by done. by destruct ds. Qed.

Lemma read_exponent_none r : number_end r -> read_exponent r = Some (0, r).
Proof.
  destruct r as [| c r]; [done |]. intros (_ & _ & H & H'). cbn.
  by rewrite (proj2 (Z.eqb_neq c 101) H), (proj2 (Z.eqb_neq c 69) H').
Qed.

Lemma read_exponent_some x r : no_digit r ->
  read_exponent (101 :: (if x <? 0 then 45 else 43) :: digits (Z.abs x) ++ r) = Some (x, r).
Proof.
  intros Hr. destruct (digits_spec (Z.abs x)) as (d & ds & -> & Hds & Hv & _); [lia |]. cbn [read_exponent].
  replace ((101 =? 101) || (101 =? 69)) with true by done. cbv iota.
  destruct (x <? 0) eqn:E; zbool; rewrite ?Z.eqb_refl; cbn [Z.eqb Pos.eqb]; rewrite span_app by done; cbn [length Nat.eqb]; rewrite Hv.
  all: do 2 f_equal; lia.
Qed.

(** Trailing zeros of the digits move to the exponent. *)
Lemma decimal_zeros s j : 0 <= j -> decimal (s * 10 ^ j) 0 = decimal s j.
Proof.
  intros Hj. unfold decimal. rewrite (Z.max_r 0 j), (Z.max_l 0 0), (Z.max_l 0 (- j)) by lia. cbn [Z.opp].
  by rewrite Z.max_id, Z.pow_0_r, Z.mul_1_r.
Qed.

(** The four layouts of a positive number read as the number they lay out. *)
Section Layout.
Context (s e : Z) (d : Z) (ds r : units).
Hypothesis Hds : Forall (fun c => digit c = true) (d :: ds).
Hypothesis Hv : undigits (d :: ds) = s.
Hypothesis Hlead : d <> 48.
Hypothesis Hr : number_end r.

Let k := Z.of_nat (length (d :: ds)).

Lemma read_whole n : n = e + k -> k <= n ->
  read_magnitude (((d :: ds) ++ repeat 48 (Z.to_nat (n - k))) ++ r) = Some (decimal s e, r).
Proof.
  assert (Hk : k = Z.of_nat (length (d :: ds))) by done.
  intros -> Hkn. unfold read_magnitude. rewrite span_app; [| | by apply number_end_no_digit].
  2: { apply Forall_app. split; [done |]. by apply Forall_forall; intros c ->%list_elem_of_In%repeat_spec. }
  cbn [app]. rewrite (proj2 (Z.eqb_neq d 48) Hlead). cbn [andb].
  rewrite read_fraction_none, read_exponent_none, app_nil_r by done.
  change (d :: ds ++ ?l) with ((d :: ds) ++ l). rewrite undigits_app_zeros, Hv, Z2Nat.id by lia.
  rewrite decimal_zeros by lia. do 3 f_equal. lia.
Qed.

Lemma read_dotted n : n = e + k -> 0 < n < k ->
  read_magnitude ((take (Z.to_nat n) (d :: ds) ++ 46 :: drop (Z.to_nat n) (d :: ds)) ++ r) = Some (decimal s e, r).
Proof.
  assert (Hk : k = Z.of_nat (length (d :: ds))) by done.
  intros -> Hn. unfold read_magnitude. rewrite <- app_assoc, span_app; [| by apply Forall_take | done].
  destruct (Z.to_nat (e + k)) as [| j] eqn:Ej; [lia |]. cbn [take]. rewrite (proj2 (Z.eqb_neq d 48) Hlead). cbn [andb].
  rewrite <- app_comm_cons, read_fraction_some; [| by apply Forall_drop | | by apply number_end_no_digit].
  2: { intros H%(f_equal length). rewrite length_drop in H. cbn [length] in H, Hk. lia. }
  rewrite read_exponent_none by done. change (d :: take j ds) with (take (S j) (d :: ds)). rewrite take_drop, Hv, length_drop.
  do 3 f_equal. cbn [length] in Hk |- *. lia.
Qed.

Lemma read_small n : n = e + k -> -6 < n <= 0 ->
  read_magnitude ((48 :: 46 :: repeat 48 (Z.to_nat (- n)) ++ d :: ds) ++ r) = Some (decimal s e, r).
Proof.
  intros -> Hn. unfold read_magnitude. set (zs := repeat 48 (Z.to_nat (- (e + k)))).
  change ((48 :: 46 :: zs ++ d :: ds) ++ r) with ([48] ++ (46 :: (zs ++ d :: ds) ++ r)).
  rewrite span_app; [| by apply Forall_singleton | done]. cbn [length negb Nat.eqb andb Z.eqb].
  change (_ && negb (0 =? 0)%nat) with false. cbv iota. rewrite read_fraction_some; [| | by destruct zs | by apply number_end_no_digit].
  2: { apply Forall_app. split; [| done]. by apply Forall_forall; intros c ->%list_elem_of_In%repeat_spec. }
  rewrite read_exponent_none by done. rewrite undigits_app. subst zs. rewrite undigits_zeros_app, Hv.
  replace (undigits [48]) with 0 by done. do 2 f_equal. f_equal. rewrite length_app, repeat_length. lia.
Qed.

Lemma read_scientific n : n = e + k ->
  read_magnitude ((d :: (if k =? 1 then [] else 46 :: ds) ++ 101 :: (if n - 1 <? 0 then 45 else 43) :: digits (Z.abs (n - 1))) ++ r)
  = Some (decimal s e, r).
Proof.
  intros ->. assert (Hd1 := proj1 (proj1 (Forall_cons _ _ _) Hds)). assert (Hds1 := proj2 (proj1 (Forall_cons _ _ _) Hds)).
  unfold read_magnitude.
  set (tail := 101 :: _). change (?a ++ 101 :: _) with (a ++ tail).
  assert (Ht : read_exponent (tail ++ r) = Some (e + k - 1, r)).
  { apply read_exponent_some. by apply number_end_no_digit. }
  rewrite <- app_comm_cons, <- app_assoc. change (d :: ?l) with ([d] ++ l).
  destruct (k =? 1) eqn:E; zbool.
  - destruct ds as [| d' ds']; [| unfold k in E; cbn [length] in E; lia].
    rewrite span_app; [| by apply Forall_singleton | done]. rewrite (proj2 (Z.eqb_neq d 48) Hlead). cbn [andb app].
    change (read_fraction (tail ++ r)) with (Some ([] : units, tail ++ r)). cbv iota beta. rewrite Ht, Hv. do 3 f_equal. cbn. lia.
  - rewrite span_app; [| by apply Forall_singleton | done]. rewrite (proj2 (Z.eqb_neq d 48) Hlead). cbn [andb].
    rewrite <- app_comm_cons, read_fraction_some; [| done | | done].
    2: { intros ->. done. }
    rewrite Ht. cbn [app]. rewrite Hv. do 3 f_equal. unfold k. cbn [length]. lia.
Qed.
End Layout.

Lemma read_layout s e r : 0 < s -> number_end r -> read_magnitude (layout s e ++ r) = Some (decimal s e, r).
Proof.
  intros Hs Hr. destruct (digits_spec s) as (d & ds & Hd & Hds & Hv & Hl); [lia |]. specialize (Hl Hs).
  unfold layout. rewrite Hd. set (k := Z.of_nat (length (d :: ds))). set (n := e + k).
  destruct ((k <=? n) && (n <=? 21)) eqn:E1; [zbool; by apply read_whole |].
  destruct ((0 <? n) && (n <=? 21)) eqn:E2.
  { zbool. apply read_dotted; try done. apply andb_false_iff in E1 as [E1 | E1]; zbool; lia. }
  destruct ((-6 <? n) && (n <=? 0)) eqn:E3; [zbool; by apply read_small |].
  by apply read_scientific.
Qed.

Lemma decimal_exact m : representable m -> decimal (m * 5 ^ 1074) (- 1074) = Fin m.
Proof.
  intros [Hm Hov]. unfold decimal, of_ratio. replace (Z.max 0 (-1074)) with 0 by done. replace (Z.max 0 (- -1074)) with 1074 by done.
  rewrite Z.pow_0_r, Z.mul_1_r. replace 10 with (5 * 2) at 1 by done. rewrite Z.pow_mul_l, one_pow.
  rewrite <- Z.mul_assoc. rewrite <- (Z.mul_1_l (5 ^ 1074 * 2 ^ 1074)) at 2.
  rewrite rnd_scale, Hm by (try apply Z.mul_pos_pos; try apply Z.pow_pos_nonneg; lia). by apply mk_fin.
Qed.

Lemma shortest_spec fuel m k : 0 < m -> representable m ->
  let '(s, e) := shortest fuel m k in 0 < s /\ decimal s e = Fin m.
Proof.
  intros Hm Hr. revert k. induction fuel as [| fuel IH]; intros k; cbn [shortest].
  - split; [| by apply decimal_exact]. apply Z.mul_pos_pos; [done |]. by apply Z.pow_pos_nonneg.
  - cbv zeta. set (near := carried k (rne _ _) _). set (far := carried k (if (_ =? _) then _ else _) _).
    case_bool_decide as H1; [by destruct near |]. case_bool_decide as H2; [by destruct far |]. apply IH.
Qed.

(** A printed number reads back as itself. *)
Lemma layout_head s e : 0 < s -> exists c l, layout s e = c :: l /\ digit c = true.
Proof.
  intros Hs. destruct (digits_spec s) as (d & ds & Hd & Hds & _ & _); [lia |]. apply Forall_cons in Hds as [H1 _].
  unfold layout. rewrite Hd. set (k := Z.of_nat _). set (n := e + k).
  destruct ((k <=? n) && (n <=? 21)); [by eexists d, _ |].
  destruct ((0 <? n) && (n <=? 21)) eqn:E.
  { zbool. destruct (Z.to_nat n) eqn:En; [lia |]. by eexists d, _. }
  destruct ((-6 <? n) && (n <=? 0)); [by eexists 48, _ | by eexists d, _].
Qed.

Lemma digit_range c : digit c = true <-> 48 <= c <= 57.
Proof. unfold digit. rewrite andb_true_iff, !Z.leb_le. done. Qed.

Lemma double_abs m : is_double (Fin m) -> representable (Z.abs m).
Proof.
  intros [H1 H2]. split; [| by rewrite Z.abs_idemp]. destruct (Z.abs_eq_or_opp m) as [-> | ->]; [done |]. by rewrite rnd_opp, H1.
Qed.

Lemma show_num_head x : is_double x -> is_finite x = true -> exists c l, show_num x = c :: l /\ 45 <= c <= 57.
Proof.
  destruct x as [| | m]; try done. intros Hx _. cbn [show_num]. destruct (m =? 0) eqn:E0; [by eexists 48, _ |]. zbool.
  pose proof (shortest_spec 17 (Z.abs m) 1 ltac:(lia) (double_abs m Hx)) as Hs. destruct (shortest 17 (Z.abs m) 1) as [s e].
  destruct (layout_head s e (proj1 Hs)) as (c & l & -> & Hc). apply digit_range in Hc.
  destruct (m <? 0); [by eexists 45, _ | by exists c, l; split; [| lia]].
Qed.

Lemma read_show_num x r : is_double x -> is_finite x = true -> number_end r -> read_num (show_num x ++ r) = Some (x, r).
Proof.
  destruct x as [| | m]; try done. intros Hx _ Hr. cbn [show_num]. destruct (m =? 0) eqn:E0; zbool.
  - subst m. change (read_num ([48] ++ r)) with (read_magnitude ([48] ++ r)). unfold read_magnitude.
    rewrite span_app; [| by apply Forall_singleton | by apply number_end_no_digit].
    change (_ && negb (length [] =? 0)%nat) with false. cbv iota. by rewrite read_fraction_none, read_exponent_none.
  - pose proof (shortest_spec 17 (Z.abs m) 1 ltac:(lia) (double_abs m Hx)) as Hs.
    destruct (shortest 17 (Z.abs m) 1) as [s e]. destruct Hs as [Hs Hdec].
    pose proof (read_layout s e r Hs Hr) as Hl. destruct (layout_head s e Hs) as (c & l & Hlay & Hc).
    destruct (m <? 0) eqn:E; zbool.
    + cbn. rewrite Hl, Hdec. cbn. by rewrite Z.abs_neq, Z.opp_involutive by lia.
    + cbn [app]. rewrite Hlay in Hl |- *. cbn [app] in Hl |- *. cbn [read_num]. apply digit_range in Hc.
      rewrite (proj2 (Z.eqb_neq c 45)) by lia. by rewrite Hl, Hdec, Z.abs_eq by lia.
Qed.

(** ** Laws of strings *)

Lemma hex_value_digit n : 0 <= n < 16 -> hex_value (hex_digit n) = Some n.
Proof.
  intros Hn. unfold hex_digit, hex_value, digit. destruct (n <? 10) eqn:E; zbool.
  - rewrite (proj2 (Z.leb_le 48 (48 + n))), (proj2 (Z.leb_le (48 + n) 57)) by lia. cbn [andb]. f_equal. lia.
  - rewrite (proj2 (Z.leb_gt (87 + n) 57)), andb_false_r by lia.
    rewrite (proj2 (Z.leb_le 97 (87 + n))), (proj2 (Z.leb_le (87 + n) 102)) by lia. cbn [andb]. f_equal. lia.
Qed.

Definition unit_ok (c : Z) : Prop := 0 <= c < 65536.

Lemma read_escape c r : unit_ok c -> read_units (unicode_escape c ++ r) = prod_map (cons c) id <$> read_units r.
Proof.
  intros Hc. unfold unicode_escape. cbn [app read_units]. replace (92 =? 34) with false by done. replace (92 =? 92) with true by done.
  replace (117 =? 117) with true by done. cbv iota. unfold unit_ok in Hc.
  rewrite !hex_value_digit by (Z.to_euclidean_division_equations; lia).
  do 3 f_equal. Z.to_euclidean_division_equations. lia.
Qed.

Lemma short_escape_spec c e : short_escape c = Some e -> e <> 117 /\ unescape e = Some c.
Proof. unfold short_escape. repeat case_match; zbool; intros ?; simplify_eq; split; done. Qed.

Lemma read_plain c r : short_escape c = None -> (c <? 32) = false -> read_units (c :: r) = prod_map (cons c) id <$> read_units r.
Proof.
  intros Hs Hc. cbn [read_units]. rewrite Hc. unfold short_escape in Hs.
  destruct (c =? 34); [by repeat case_match|]. destruct (c =? 92); [by repeat case_match|]. done.
Qed.

Lemma read_escaped l r : Forall unit_ok l -> read_units (escaped l ++ 34 :: r) = Some (l, r).
Proof.
  induction l as [l IH] using (induction_ltof1 _ (@length Z)). unfold ltof in IH.
  destruct l as [| c l]; [done |]. intros [Hc Hl]%Forall_cons. cbn [escaped].
  assert (Hrec : read_units (escaped l ++ 34 :: r) = Some (l, r)) by (apply IH; [cbn; lia | done]).
  destruct (short_escape c) as [e |] eqn:Es.
  { apply short_escape_spec in Es as [He Hu]. cbn. by rewrite (proj2 (Z.eqb_neq e 117)), Hu, Hrec by done. }
  destruct (c <? 32) eqn:E32; [by rewrite <- app_assoc, read_escape, Hrec |].
  destruct (leading c); [destruct l as [| d l']; [cbn [escaped app] in Hrec; by rewrite read_escape, Hrec |]; destruct (trailing d) eqn:Et |].
  - apply Forall_cons in Hl as [Hd Hl]. cbn [app]. rewrite read_plain, read_plain, IH; try done; [cbn; lia | |].
    all: unfold trailing in Et; zbool; unfold short_escape.
    + repeat (rewrite (proj2 (Z.eqb_neq d _)) by lia). done.
    + apply Z.ltb_ge. lia.
  - by rewrite <- app_assoc, read_escape, Hrec.
  - destruct (trailing c); [by rewrite <- app_assoc, read_escape, Hrec |]. cbn [app]. by rewrite read_plain, Hrec.
Qed.

(** ** Laws of values *)

(** A value the language can hold: finite doubles, strings of code units and
    objects without a repeated key. *)
Unset Elimination Schemes.

Inductive json_ok : json -> Prop :=
| ok_null : json_ok JNull
| ok_bool b : json_ok (JBool b)
| ok_num x : is_double x -> is_finite x = true -> json_ok (JNum x)
| ok_str s : Forall unit_ok s -> json_ok (JStr s)
| ok_arr l : Forall json_ok l -> json_ok (JArr l)
| ok_obj fs : NoDup fs.*1 -> Forall (fun kv => Forall unit_ok kv.1) fs -> Forall (fun kv => json_ok kv.2) fs -> json_ok (JObj fs).

Set Elimination Schemes.

Definition spaces (l : units) : Prop := Forall (fun c => blank c = true) l.

Lemma skip_spaces ws c r : spaces ws -> blank c = false -> skip (ws ++ c :: r) = c :: r.
Proof. intros Hws Hc. induction Hws as [| d ws Hd _ IH]; [cbn; by rewrite Hc |]. cbn. by rewrite Hd. Qed.

Lemma skip_all ws : spaces ws -> skip ws = [].
Proof. intros Hws. induction Hws as [| c ws Hc _ IH]; [done |]. cbn. by rewrite Hc. Qed.

Lemma blank_range c : blank c = true -> c = 32 \/ 9 <= c <= 10 \/ c = 13.
Proof. unfold blank. rewrite !orb_true_iff, !Z.eqb_eq. lia. Qed.

Lemma number_end_spaces ws c r : spaces ws -> digit c = false -> c <> 46 -> c <> 101 -> c <> 69 -> number_end (ws ++ c :: r).
Proof.
  intros Hws H1 H2 H3 H4. destruct Hws as [| d ws Hd _]; [done |]. cbn. apply blank_range in Hd.
  repeat split; try lia. unfold digit. apply andb_false_iff. rewrite !Z.leb_gt. lia.
Qed.

Lemma word_app w r : word w (w ++ r) = Some r.
Proof. induction w as [| c w IH]; [done |]. cbn. by rewrite Z.eqb_refl. Qed.

Lemma assign_fresh k v fs : k ∉ fs.*1 -> assign k v fs = fs ++ [(k, v)].
Proof.
  induction fs as [| [k' v'] fs IH]; intros Hk; [done |]. cbn in Hk |- *. apply not_elem_of_cons in Hk as [Hne Hk].
  rewrite bool_decide_eq_false_2 by done. by rewrite IH.
Qed.

(** The fuel a value needs. *)
Fixpoint need (v : json) : nat :=
  match v with
  | JArr l => S (foldr (fun v n => S (Nat.max (need v) n)) 0%nat l)
  | JObj fs => S (foldr (fun kv n => S (Nat.max (need kv.2) n)) 0%nat fs)
  | _ => 1%nat
  end.

Lemma Forall_modus {A} (P Q : A -> Prop) l : Forall (fun v => P v -> Q v) l -> Forall P l -> Forall Q l.
Proof. intros H. induction H as [| v l Hv _ IH]; intros Hp; [constructor |]. apply Forall_cons in Hp as [Hp1 Hp2]. constructor; auto. Qed.

Lemma separated_cons sep p q ps : separated sep (p :: q :: ps) = p ++ sep ++ separated sep (q :: ps).
Proof. done. Qed.

Lemma separated_length {A} (f : A -> units) (g : A -> nat) sep l : (0 < length sep)%nat ->
  Forall (fun v => (g v <= length (f v))%nat) l ->
  (foldr (fun v n => S (Nat.max (g v) n)) 0 l <= S (length (separated sep (f <$> l))))%nat.
Proof.
  intros Hs Hl. induction Hl as [| v l Hv Hl IH]; [cbn; lia |].
  destruct l as [| v' l]; [cbn in *; lia |]. rewrite !fmap_cons, separated_cons, <- fmap_cons, !length_app.
  set (n := length (separated _ _)) in *. set (rest := v' :: l) in *. cbn [foldr]. lia.
Qed.

Section Laws.
Context (gap : units) (Hgap : spaces gap).

Lemma line_spaces ind : spaces ind -> spaces (line gap ind).
Proof using Hgap. intros H. unfold line. destruct gap; [constructor |]. by constructor. Qed.

Lemma indented ind : spaces ind -> spaces (ind ++ gap).
Proof using Hgap. intros H. by apply Forall_app. Qed.

(** What a printed value starts with. *)
Lemma shown_head v ind : json_ok v ->
  exists c l, show_at gap ind v = c :: l /\ blank c = false /\ c <> 93 /\ c <> 125.
Proof using.
  intros Hv. destruct v as [| b | x | s | l | fs]; cbn [show_at].
  - by eexists 110, _.
  - destruct b; [by eexists 116, _ | by eexists 102, _].
  - inversion Hv as [| | ? Hd Hfin | | |]; subst. destruct (show_num_head x Hd Hfin) as (c & l & -> & Hc).
    exists c, l. split; [done |]. split; [| lia]. destruct (blank c) eqn:E; [| done]. apply blank_range in E. lia.
  - by eexists 34, _.
  - destruct l; by eexists 91, _.
  - destruct fs; by eexists 123, _.
Qed.

Lemma need_shown v ind : json_ok v -> (need v <= length (show_at gap ind v))%nat.
Proof using.
  revert ind. induction v as [| b | x | s | l IH | fs IH] using json_ind; intros ind Hv;
    try (destruct (shown_head _ ind Hv) as (c & t & -> & _); cbn; lia).
  - inversion Hv as [| | | | ? Hl |]; subst. destruct l as [| v l]; [cbn; lia |].
    cbn [show_at need length]. rewrite !length_app. cbn [length].
    pose proof (separated_length (show_at gap (ind ++ gap)) need (44 :: line gap (ind ++ gap)) (v :: l)) as H.
    etrans; [apply le_n_S, H; [cbn; lia |] |]; [| lia].
    eapply Forall_modus; [| exact Hl]. eapply Forall_impl; [exact IH |]. cbn. intros w Hw Hok. by apply Hw.
  - inversion Hv as [| | | | | ? _ _ Hl]; subst. destruct fs as [| kv fs]; [cbn; lia |].
    cbn [show_at need length]. rewrite !length_app. cbn [length].
    pose proof (separated_length (fun kv => quoted kv.1 ++ colon gap ++ show_at gap (ind ++ gap) kv.2) (fun kv => need kv.2)
      (44 :: line gap (ind ++ gap)) (kv :: fs)) as H.
    etrans; [apply le_n_S, H; [cbn; lia |] |]; [| lia].
    eapply Forall_modus; [| exact Hl]. eapply Forall_impl; [exact IH |]. cbn. intros w Hw Hok. rewrite !length_app.
    specialize (Hw (ind ++ gap) Hok). lia.
Qed.

(** A value is read back, after any white space, whatever follows it. *)
Definition reads (v : json) : Prop := forall ind ws fuel r,
  spaces ind -> spaces ws -> (need v <= fuel)%nat -> number_end r -> value fuel (ws ++ show_at gap ind v ++ r) = Some (v, r).

Definition needs_list {A} (g : A -> nat) (l : list A) : nat := foldr (fun v n => S (Nat.max (g v) n)) 0%nat l.

(** What follows an element: a comma and the rest, or the closing bracket. *)
Lemma separated_next {A} (f : A -> units) sep v l tail : exists next,
  separated sep (f <$> v :: l) ++ tail = f v ++ next /\
  next = match l with [] => tail | _ => sep ++ separated sep (f <$> l) ++ tail end.
Proof using.
  destruct l as [| v' l]; [by exists tail |]. eexists. split; [| reflexivity].
  by rewrite !fmap_cons, separated_cons, <- !app_assoc.
Qed.

Lemma elements_shown ind l : spaces ind -> Forall reads l -> Forall json_ok l -> l <> [] ->
  forall ws ws' fuel r, spaces ws -> spaces ws' -> (needs_list need l <= fuel)%nat ->
  elements fuel (ws ++ separated (44 :: line gap ind) (show_at gap ind <$> l) ++ ws' ++ 93 :: r) = Some (l, r).
Proof using Hgap.
  intros Hind Hl. induction Hl as [| v l Hv Hl IH]; intros Hok Hne ws ws' fuel r Hws Hws' Hf; [done |].
  destruct fuel as [| fuel]; [cbn in Hf; lia |]. apply Forall_cons in Hok as [Hokv Hok].
  destruct (separated_next (show_at gap ind) (44 :: line gap ind) v l (ws' ++ 93 :: r)) as (next & -> & Hn).
  change (S (Nat.max (need v) (needs_list need l)) <= S fuel)%nat in Hf. cbn [elements].
  rewrite Hv; [| done | done | lia |].
  - destruct l as [| v' l]; subst next; [by rewrite skip_spaces |].
    change (skip ((44 :: ?w) ++ ?t)) with (44 :: w ++ t). cbv iota beta. change (44 =? 44) with true. cbv iota.
    rewrite IH; [done | done | done | by apply line_spaces | done | lia].
  - destruct l as [| v' l]; subst next; [by apply number_end_spaces |]. done.
Qed.

Definition member (ind : units) (kv : units * json) : units := quoted kv.1 ++ colon gap ++ show_at gap ind kv.2.

Lemma members_shown ind fs : spaces ind -> Forall (fun kv => reads kv.2) fs ->
  Forall (fun kv => Forall unit_ok kv.1) fs -> fs <> [] ->
  forall fs0 ws ws' fuel r, NoDup (fs0 ++ fs).*1 -> spaces ws -> spaces ws' -> (needs_list (fun kv => need kv.2) fs <= fuel)%nat ->
  members fuel fs0 (ws ++ separated (44 :: line gap ind) (member ind <$> fs) ++ ws' ++ 125 :: r) = Some (fs0 ++ fs, r).
Proof using Hgap.
  intros Hind Hl. induction Hl as [| [k v] fs Hv Hl IH]; intros Hk Hne fs0 ws ws' fuel r Hnd Hws Hws' Hf; [done |].
  destruct fuel as [| fuel]; [cbn in Hf; lia |]. apply Forall_cons in Hk as [Hkv Hk].
  destruct (separated_next (member ind) (44 :: line gap ind) (k, v) fs (ws' ++ 125 :: r)) as (next & -> & Hn).
  change (S (Nat.max (need v) (needs_list (fun kv => need kv.2) fs)) <= S fuel)%nat in Hf. cbn [members].
  unfold member, quoted. cbn [fst snd]. rewrite <- !app_assoc, <- app_comm_cons, skip_spaces by done.
  change (34 =? 34) with true. cbv iota. rewrite <- !app_assoc. change ([34] ++ ?x) with (34 :: x). rewrite (read_escaped k) by done.
  assert (Hc : exists sp, colon gap = 58 :: sp /\ spaces sp).
  { unfold colon. destruct gap; [by exists [] | exists [32]]. split; [done |]. by apply Forall_singleton. }
  destruct Hc as (sp & -> & Hsp). change (skip ((58 :: sp) ++ ?t)) with (58 :: sp ++ t). cbv iota. change (58 =? 58) with true. cbv iota.
  cbn [snd] in Hv. rewrite Hv; [| done | done | lia |].
  - assert (Hfresh : k ∉ fs0.*1).
    { rewrite fmap_app in Hnd. apply NoDup_app in Hnd as (_ & Hnd & _). intros Hin. apply (Hnd k Hin). left. }
    rewrite assign_fresh by done. destruct fs as [| kv' fs]; subst next; [by rewrite skip_spaces |].
    change (skip ((44 :: ?w) ++ ?t)) with (44 :: w ++ t). cbv iota beta. change (44 =? 44) with true. cbv iota.
    rewrite IH; [| done | done | | by apply line_spaces | done | lia]; by rewrite <- app_assoc.
  - destruct fs as [| kv' fs]; subst next; [by apply number_end_spaces |]. done.
Qed.

Lemma value_skip fuel ws c r : spaces ws -> blank c = false -> value (S fuel) (ws ++ c :: r) = value (S fuel) (c :: r).
Proof using. intros Hws Hc. cbn [value]. rewrite skip_spaces by done. cbn [skip]. by rewrite Hc. Qed.

Lemma value_num fuel c r : 45 <= c <= 57 -> value (S fuel) (c :: r) = prod_map JNum id <$> read_num (c :: r).
Proof using.
  intros Hc. cbn [value skip]. destruct (blank c) eqn:E; [apply blank_range in E; lia |].
  by repeat rewrite (proj2 (Z.eqb_neq c _)) by lia.
Qed.

Lemma shown_reads v : json_ok v -> reads v.
Proof using Hgap.
  induction v as [| b | x | s | l IH | fs IH] using json_ind; intros Hok ind ws fuel r Hind Hws Hf Hr;
    (destruct fuel as [| fuel]; [cbn in Hf; lia |]); cbn [show_at].
  - by apply (value_skip fuel ws 110 (117 :: 108 :: 108 :: r)).
  - destruct b; [by apply (value_skip fuel ws 116 (114 :: 117 :: 101 :: r)) |].
    by apply (value_skip fuel ws 102 (97 :: 108 :: 115 :: 101 :: r)).
  - inversion Hok as [| | ? Hd Hfin | | |]; subst. pose proof (read_show_num x r Hd Hfin Hr) as Hx.
    destruct (show_num_head x Hd Hfin) as (c & l & E & Hc). rewrite E in Hx |- *. rewrite <- app_comm_cons in Hx |- *.
    rewrite value_skip, value_num, Hx; try done. destruct (blank c) eqn:Eb; [| done]. apply blank_range in Eb. lia.
  - inversion Hok as [| | | ? Hs | |]; subst. unfold quoted. rewrite <- app_comm_cons, value_skip, <- app_assoc by done.
    change (value (S fuel) (34 :: ?t)) with (prod_map JStr id <$> read_units t).
    change ([34] ++ r) with (34 :: r). by rewrite (read_escaped s).
  - inversion Hok as [| | | | ? Hl |]; subst. destruct l as [| v l]; [by apply (value_skip fuel ws 91 (93 :: r)) |].
    rewrite <- app_comm_cons, value_skip, <- !app_assoc by done.
    destruct (shown_head v (ind ++ gap)) as (c & t & E & Hb & H93 & _); [by apply Forall_cons in Hl as [? _] |].
    pose proof (elements_shown (ind ++ gap) (v :: l) (indented ind Hind)) as He.
    specialize (He (Forall_modus _ _ _ IH Hl) Hl).
    specialize (He ltac:(done) [] (line gap ind) fuel r ltac:(constructor) (line_spaces ind Hind)).
    destruct (separated_next (show_at gap (ind ++ gap)) (44 :: line gap (ind ++ gap)) v l (line gap ind ++ 93 :: r)) as (next & En & _).
    change ([93] ++ r) with (93 :: r). rewrite En, E in He |- *. cbn [app] in He |- *.
    cbn [value]. change (skip (91 :: ?t)) with (91 :: t). cbv iota beta. change (91 =? 123) with false. change (91 =? 91) with true. cbv iota.
    rewrite skip_spaces by (try done; by apply line_spaces, indented). rewrite (proj2 (Z.eqb_neq c 93) H93), He; [done |].
    cbn [need] in Hf. unfold needs_list. lia.
  - inversion Hok as [| | | | | ? Hnd Hk Hl]; subst. destruct fs as [| [k v] fs]; [by apply (value_skip fuel ws 123 (125 :: r)) |].
    rewrite <- app_comm_cons, value_skip, <- !app_assoc by done.
    pose proof (members_shown (ind ++ gap) ((k, v) :: fs) (indented ind Hind)) as He.
    specialize (He (Forall_modus _ _ _ IH Hl) Hk).
    specialize (He ltac:(done) [] [] (line gap ind) fuel r Hnd ltac:(constructor) (line_spaces ind Hind)).
    change (fun kv : units * json => quoted kv.1 ++ colon gap ++ show_at gap (ind ++ gap) kv.2) with (member (ind ++ gap)).
    destruct (separated_next (member (ind ++ gap)) (44 :: line gap (ind ++ gap)) (k, v) fs (line gap ind ++ 125 :: r)) as (next & En & _).
    change ([125] ++ r) with (125 :: r). rewrite En in He |- *. unfold member, quoted in He |- *. cbn [app fst snd] in He |- *.
    cbn [value]. change (skip (123 :: ?t)) with (123 :: t). cbv iota beta. change (123 =? 123) with true. cbv iota.
    rewrite skip_spaces by (try done; by apply line_spaces, indented). change (34 =? 125) with false. cbv iota. rewrite He; [done |].
    cbn [need] in Hf. unfold needs_list. lia.
Qed.

(** What [JSON.stringify] prints, [JSON.parse] reads, with white space after it. *)
Lemma parse_stringify v ws : json_ok v -> spaces ws -> parse (stringify gap v ++ ws) = Some v.
Proof using Hgap.
  intros Hv Hws. unfold parse, stringify.
  pose proof (shown_reads v Hv [] [] (S (length (show_at gap [] v ++ ws))) ws) as H. change ([] ++ ?x) with x in H.
  rewrite H; [by rewrite skip_all | constructor | constructor | |].
  - pose proof (need_shown v [] Hv). rewrite length_app. lia.
  - destruct Hws as [| c ws Hc _]; [done |]. apply blank_range in Hc. cbn. repeat split; try lia. unfold digit.
    apply andb_false_iff. rewrite !Z.leb_gt. lia.
Qed.
End Laws.
