(* ===== verification/Codec.v ===== *)
(** * Text and bytes

    What the identity API uses of the platform between a token's text and its
    bytes: iteration of a string by code point, [TextEncoder], [TextDecoder] in
    its replacing mode, and [atob].  Text is a list of UTF-16 code units, as in
    [Json]; a byte is an integer below 256.

    Laws: the two halves of a surrogate pair stay together; decoding what was
    encoded gives the text back; base64url without padding is read back. *)
From S2P Require Import Prelude Text JsNum Json.

(** ** Code points *)

(** Iterating a string: surrogate pairs are one point, lone halves are kept. *)
Fixpoint points (u : units) : list Z :=
  match u with
  | [] => []
  | c :: u' =>
      match u' with
      | d :: u'' => if leading c && trailing d then (65536 + (c - 55296) * 1024 + (d - 56320)) :: points u'' else c :: points u'
      | [] => [c]
      end
  end.

Definition unpoint (p : Z) : units :=
  if p <? 65536 then [p] else [55296 + (p - 65536) / 1024; 56320 + (p - 65536) mod 1024].

(** A list of points joined to one string. *)
Definition unpoints (ps : list Z) : units := mjoin (unpoint <$> ps).

Definition scalar (p : Z) : Prop := 0 <= p < 55296 \/ 57344 <= p < 1114112.

Definition well_formed (u : units) : Prop := Forall scalar (points u).

(** ** UTF-8 *)

Definition REPLACEMENT : Z := 65533.

Definition utf8_point (p : Z) : list Z :=
  if leading p || trailing p then [239; 191; 189]
  else if p <? 128 then [p]
  else if p <? 2048 then [192 + p / 64; 128 + p mod 64]
  else if p <? 65536 then [224 + p / 4096; 128 + p / 64 mod 64; 128 + p mod 64]
  else [240 + p / 262144; 128 + p / 4096 mod 64; 128 + p / 64 mod 64; 128 + p mod 64].

(** [new TextEncoder().encode(u)] *)
Definition encode (u : units) : list Z := mjoin (utf8_point <$> points u).

(** The decoder's state inside a character: bytes still needed, the bounds the
    next one must lie in, and the point so far. *)
Record Partial : Type := mkPartial { needed : nat; lower_bound : Z; upper_bound : Z; so_far : Z }.

(** A byte with no character open: the points it completes, and the state. *)
Definition lead_byte (b : Z) : list Z * option Partial :=
  if b <? 128 then ([b], None)
  else if (194 <=? b) && (b <=? 223) then ([], Some (mkPartial 1 128 191 (b - 192)))
  else if (224 <=? b) && (b <=? 239) then
    ([], Some (mkPartial 2 (if b =? 224 then 160 else 128) (if b =? 237 then 159 else 191) (b - 224)))
  else if (240 <=? b) && (b <=? 244) then
    ([], Some (mkPartial 3 (if b =? 240 then 144 else 128) (if b =? 244 then 143 else 191) (b - 240)))
  else ([REPLACEMENT], None).

(** A byte out of its bounds closes the character with a replacement and is
    read again as a first byte. *)
Definition decode_byte (s : option Partial) (b : Z) : list Z * option Partial :=
  match s with
  | None => lead_byte b
  | Some p =>
      if negb ((lower_bound p <=? b) && (b <=? upper_bound p)) then let '(out, s) := lead_byte b in (REPLACEMENT :: out, s)
      else
        let cp := so_far p * 64 + (b - 128) in
        match needed p with
        | S (S n) => ([], Some (mkPartial (S n) 128 191 cp))
        | _ => ([cp], None)
        end
  end.

Fixpoint decode_points (s : option Partial) (bs : list Z) : list Z :=
  match bs with
  | [] => match s with Some _ => [REPLACEMENT] | None => [] end
  | b :: bs => let '(out, s) := decode_byte s b in out ++ decode_points s bs
  end.

(** [new TextDecoder().decode(bs)]: a byte order mark at the start is dropped. *)
Definition decode (bs : list Z) : units :=
  match decode_points None bs with
  | p :: ps => unpoints (if p =? 65279 then ps else p :: ps)
  | [] => []
  end.

(** ** Base 64 *)

Definition base64_sextet (c : Z) : option Z :=
  if (65 <=? c) && (c <=? 90) then Some (c - 65)
  else if (97 <=? c) && (c <=? 122) then Some (c - 71)
  else if (48 <=? c) && (c <=? 57) then Some (c + 4)
  else if c =? 43 then Some 62
  else if c =? 47 then Some 63
  else None.

(** Whole groups of four, then the bits left over of two or three. *)
Fixpoint sextets_bytes (l : list Z) : list Z :=
  match l with
  | a :: b :: c :: d :: l => (a * 4 + b / 16) :: (b mod 16 * 16 + c / 4) :: (c mod 4 * 64 + d) :: sextets_bytes l
  | [a; b; c] => [a * 4 + b / 16; b mod 16 * 16 + c / 4]
  | [a; b] => [a * 4 + b / 16]
  | _ => []
  end.

Definition base64_space (c : Z) : bool := (c =? 32) || (c =? 9) || (c =? 10) || (c =? 12) || (c =? 13).

(** At most two [=] at the end of a text of whole groups. *)
Definition strip_equals (l : units) : units :=
  if negb (length l mod 4 =? 0)%nat then l else
  match rev l with
  | 61 :: 61 :: r => rev r
  | 61 :: r => rev r
  | _ => l
  end.

(** [atob(l)], its result as the character codes; [None] is the throw. *)
Definition atob (l : units) : option (list Z) :=
  let l := strip_equals (List.filter (fun c => negb (base64_space c)) l) in
  if (length l mod 4 =? 1)%nat then None else sextets_bytes <$> mapM base64_sextet l.

(** ** Laws: code points *)

Lemma scalar_unpaired p : scalar p -> p < 65536 -> leading p = false /\ trailing p = false.
Proof. unfold scalar, leading, trailing. intros Hp Hb. rewrite !andb_false_iff, !Z.leb_gt. lia. Qed.

Lemma points_unpoint p u : scalar p -> points (unpoint p ++ u) = p :: points u.
Proof.
  intros Hp. unfold unpoint. destruct (Z.ltb_spec p 65536) as [Hb | Hb].
  - destruct (scalar_unpaired p Hp Hb) as [Hl _]. destruct u as [| d u]; [done |].
    change ([p] ++ d :: u) with (p :: d :: u). cbn [points]. by rewrite Hl.
  - unfold scalar in Hp. cbn [app points].
    assert (leading (55296 + (p - 65536) / 1024) = true) as ->.
    { unfold leading. apply andb_true_iff. rewrite !Z.leb_le. Z.to_euclidean_division_equations. lia. }
    assert (trailing (56320 + (p - 65536) mod 1024) = true) as ->.
    { unfold trailing. apply andb_true_iff. rewrite !Z.leb_le. Z.to_euclidean_division_equations. lia. }
    cbn [andb]. f_equal. Z.to_euclidean_division_equations. lia.
Qed.

Lemma unpoints_cons p ps : unpoints (p :: ps) = unpoint p ++ unpoints ps.
Proof. done. Qed.

Lemma points_unpoints ps : Forall scalar ps -> points (unpoints ps) = ps.
Proof.
  induction 1 as [| p ps Hp _ IH]; [done |]. by rewrite unpoints_cons, points_unpoint, IH.
Qed.

(** Two code units at a time. *)
Lemma units_ind2 (P : units -> Prop) : P [] -> (forall c u, P u -> (forall d u', u = d :: u' -> P u') -> P (c :: u)) -> forall u, P u.
Proof.
  intros H0 H1 u. enough (P u /\ forall d u', u = d :: u' -> P u') by tauto.
  induction u as [| c u [IH1 IH2]]; [by split |]. split; [by apply H1 |]. by intros d u' [= -> ->].
Qed.

Lemma unpoints_points u : Forall unit_ok u -> unpoints (points u) = u.
Proof.
  unfold unit_ok. induction u as [| c u IH1 IH2] using units_ind2; intros Hu; [done |].
  apply Forall_cons in Hu as [Hc Hu]. destruct u as [| d u].
  - cbn [points]. rewrite unpoints_cons. unfold unpoint. by destruct (Z.ltb_spec c 65536); [| lia].
  - cbn [points]. destruct (leading c && trailing d) eqn:E.
    + rewrite unpoints_cons. unfold unpoint. apply andb_true_iff in E as [El Et]. unfold leading, trailing in El, Et.
      apply andb_true_iff in El as [E1 E2], Et as [E3 E4]. apply Z.leb_le in E1, E2, E3, E4.
      destruct (Z.ltb_spec (65536 + (c - 55296) * 1024 + (d - 56320)) 65536); [lia |].
      rewrite (IH2 d u eq_refl) by (by apply Forall_cons in Hu as [_ Hu]).
      cbn [app]. f_equal; [Z.to_euclidean_division_equations; lia |]. f_equal. Z.to_euclidean_division_equations; lia.
    + rewrite unpoints_cons. unfold unpoint. destruct (Z.ltb_spec c 65536); [| lia].
      cbn [app]. f_equal. change (match u with [] => [d] | d0 :: u'' => _ end) with (points (d :: u)). by apply IH1.
Qed.

Lemma well_formed_unpoints ps : Forall scalar ps -> well_formed (unpoints ps).
Proof. intros H. unfold well_formed. by rewrite points_unpoints. Qed.

(** ** Laws: UTF-8 *)

Ltac bound_tests := repeat match goal with
  | |- context [?a <=? ?b] => destruct (Z.leb_spec a b); try lia
  | |- context [?a <? ?b] => destruct (Z.ltb_spec a b); try lia
  | |- context [?a =? ?b] => destruct (Z.eqb_spec a b); try lia
  end; cbn [andb negb].

Lemma lead_one p : 0 <= p < 128 -> lead_byte p = ([p], None).
Proof. intros Hp. unfold lead_byte. by bound_tests. Qed.

Lemma lead_two b : 194 <= b <= 223 -> lead_byte b = ([], Some (mkPartial 1 128 191 (b - 192))).
Proof. intros Hb. unfold lead_byte. by bound_tests. Qed.

Lemma lead_three b : 224 <= b <= 239 ->
  lead_byte b = ([], Some (mkPartial 2 (if b =? 224 then 160 else 128) (if b =? 237 then 159 else 191) (b - 224))).
Proof. intros Hb. unfold lead_byte. by bound_tests. Qed.

Lemma lead_four b : 240 <= b <= 244 ->
  lead_byte b = ([], Some (mkPartial 3 (if b =? 240 then 144 else 128) (if b =? 244 then 143 else 191) (b - 240))).
Proof. intros Hb. unfold lead_byte. by bound_tests. Qed.

Lemma decode_in n lo hi cp b : lo <= b <= hi ->
  decode_byte (Some (mkPartial (S n) lo hi cp)) b =
  match n with S m => ([], Some (mkPartial (S m) 128 191 (cp * 64 + (b - 128)))) | O => ([cp * 64 + (b - 128)], None) end.
Proof.
  intros Hb. unfold decode_byte. cbn [lower_bound upper_bound so_far needed].
  destruct (Z.leb_spec lo b); [| lia]. by destruct (Z.leb_spec b hi); [| lia].
Qed.

Lemma decode_cons s b bs : decode_points s (b :: bs) = let '(out, s) := decode_byte s b in out ++ decode_points s bs.
Proof. done. Qed.

(** The bytes of one point are read back, and the decoder is where it was. *)
Lemma decode_utf8_point p r : scalar p -> decode_points None (utf8_point p ++ r) = p :: decode_points None r.
Proof.
  intros Hp. unfold utf8_point.
  assert (leading p || trailing p = false) as ->.
  { unfold scalar, leading, trailing in *. apply orb_false_iff. rewrite !andb_false_iff, !Z.leb_gt. lia. }
  unfold scalar in Hp.
  destruct (Z.ltb_spec p 128); [cbn [app]; rewrite decode_cons; cbn [decode_byte]; by rewrite lead_one by lia |].
  destruct (Z.ltb_spec p 2048).
  { cbn [app]. rewrite decode_cons. cbn [decode_byte]. rewrite lead_two by (Z.to_euclidean_division_equations; lia).
    cbn [app]. rewrite decode_cons, decode_in by (Z.to_euclidean_division_equations; lia). cbn [app]. f_equal.
    Z.to_euclidean_division_equations; lia. }
  destruct (Z.ltb_spec p 65536).
  { cbn [app]. rewrite decode_cons. cbn [decode_byte]. rewrite lead_three by (Z.to_euclidean_division_equations; lia).
    cbn [app]. rewrite decode_cons, decode_in.
    - cbn [app]. rewrite decode_cons, decode_in by (Z.to_euclidean_division_equations; lia). cbn [app]. f_equal.
      Z.to_euclidean_division_equations; lia.
    - destruct (Z.eqb_spec (224 + p / 4096) 224), (Z.eqb_spec (224 + p / 4096) 237); Z.to_euclidean_division_equations; lia. }
  cbn [app]. rewrite decode_cons. cbn [decode_byte]. rewrite lead_four by (Z.to_euclidean_division_equations; lia).
  cbn [app]. rewrite decode_cons, decode_in.
  - cbn [app]. rewrite decode_cons, decode_in by (Z.to_euclidean_division_equations; lia). cbn [app].
    rewrite decode_cons, decode_in by (Z.to_euclidean_division_equations; lia). cbn [app]. f_equal.
    Z.to_euclidean_division_equations; lia.
  - destruct (Z.eqb_spec (240 + p / 262144) 240), (Z.eqb_spec (240 + p / 262144) 244); Z.to_euclidean_division_equations; lia.
Qed.

Lemma decode_utf8_points ps : Forall scalar ps -> decode_points None (mjoin (utf8_point <$> ps)) = ps.
Proof.
  induction 1 as [| p ps Hp _ IH]; [done |].
  change (mjoin (utf8_point <$> p :: ps)) with (utf8_point p ++ mjoin (utf8_point <$> ps)).
  by rewrite decode_utf8_point, IH.
Qed.

(** Text whose surrogates are paired: the points of some list of scalars. *)
Definition text_ok (u : units) : Prop := exists ps, Forall scalar ps /\ u = unpoints ps.

Lemma unpoints_app ps qs : unpoints (ps ++ qs) = unpoints ps ++ unpoints qs.
Proof. unfold unpoints. by rewrite fmap_app, join_app. Qed.

Lemma text_ok_app u v : text_ok u -> text_ok v -> text_ok (u ++ v).
Proof.
  intros (ps & Hp & ->) (qs & Hq & ->). exists (ps ++ qs). split; [by apply Forall_app | by rewrite unpoints_app].
Qed.

Lemma text_ok_unit c u : 0 <= c < 55296 -> text_ok u -> text_ok (c :: u).
Proof.
  intros Hc (ps & Hp & ->). exists (c :: ps). split; [constructor; [by left | done] |].
  rewrite unpoints_cons. unfold unpoint. by destruct (Z.ltb_spec c 65536); [| lia].
Qed.

Lemma text_ok_nil : text_ok [].
Proof. by exists []. Qed.

Lemma text_ok_well_formed u : text_ok u -> well_formed u.
Proof. intros (ps & Hp & ->). by apply well_formed_unpoints. Qed.

(** Such text, without a byte order mark in front, is read back. *)
Lemma decode_encode u : text_ok u -> head u <> Some 65279 -> decode (encode u) = u.
Proof.
  intros (ps & Hp & ->) Hm. unfold decode, encode. rewrite points_unpoints, decode_utf8_points by done.
  destruct ps as [| p ps]; [done |]. destruct (Z.eqb_spec p 65279) as [-> |]; [| done]. by destruct Hm.
Qed.

Definition ascii_units (u : units) : Prop := Forall (fun c => 0 <= c < 128) u.

Lemma ascii_points u : ascii_units u -> points u = u.
Proof.
  induction 1 as [| c u Hc Hu IH]; [done |]. destruct u as [| d u]; [done |]. cbn [points] in *.
  assert (leading c = false) as ->. { unfold leading. apply andb_false_iff. rewrite !Z.leb_gt. lia. }
  cbn [andb]. by f_equal.
Qed.

(** Plain text is its own bytes. *)
Lemma encode_ascii u : ascii_units u -> encode u = u.
Proof.
  intros Hu. unfold encode. rewrite ascii_points by done. induction Hu as [| c u Hc Hu IH]; [done |].
  change (mjoin (utf8_point <$> c :: u)) with (utf8_point c ++ mjoin (utf8_point <$> u)). rewrite IH.
  unfold utf8_point, leading, trailing. by bound_tests.
Qed.

Lemma utf8_point_bytes p : scalar p -> Forall (fun b => 0 <= b < 256) (utf8_point p).
Proof.
  intros Hp. unfold utf8_point.
  assert (leading p || trailing p = false) as ->.
  { unfold scalar, leading, trailing in *. apply orb_false_iff. rewrite !andb_false_iff, !Z.leb_gt. lia. }
  unfold scalar in Hp.
  destruct (Z.ltb_spec p 128); [repeat constructor; lia |].
  destruct (Z.ltb_spec p 2048); [repeat constructor; Z.to_euclidean_division_equations; lia |].
  destruct (Z.ltb_spec p 65536); repeat constructor; Z.to_euclidean_division_equations; lia.
Qed.

Lemma encode_bytes u : well_formed u -> Forall (fun b => 0 <= b < 256) (encode u).
Proof.
  unfold well_formed, encode. intros H. induction H as [| p ps Hp _ IH]; [done |].
  change (mjoin (utf8_point <$> p :: ps)) with (utf8_point p ++ mjoin (utf8_point <$> ps)).
  apply Forall_app. split; [by apply utf8_point_bytes | exact IH].
Qed.

(** ** Laws: base 64 *)

Lemma strip_equals_plain l : Forall (fun c => c <> 61) l -> strip_equals l = l.
Proof.
  intros Hl. unfold strip_equals. destruct (negb _); [done |]. apply Forall_rev in Hl.
  destruct (rev l) as [| c r]; [done |]. apply Forall_cons in Hl as [Hc _].
  destruct c as [| c | c]; try done. repeat (destruct c as [c | c |]; try done).
Qed.

Lemma strip_equals_padded l : Forall (fun c => c <> 61) l -> (length l mod 4 <> 1)%nat ->
  strip_equals (l ++ repeat 61 ((4 - length l mod 4) mod 4)) = l.
Proof.
  intros Hl Hn. pose proof (Nat.mod_upper_bound (length l) 4 ltac:(lia)) as Hb.
  destruct (length l mod 4)%nat as [| [| [| [| n]]]] eqn:E; [| done | | | lia].
  - cbn [Nat.sub Nat.modulo Nat.divmod fst snd repeat]. change (repeat 61 (4 mod 4)) with (@nil Z). rewrite app_nil_r. by apply strip_equals_plain.
  - change (repeat 61 ((4 - 2) mod 4)) with [61; 61]. unfold strip_equals. rewrite length_app. cbn [length].
    assert (((length l + 2) mod 4)%nat = 0%nat) as -> by (rewrite Nat.Div0.add_mod, E; done). cbn [Nat.eqb negb].
    rewrite rev_app_distr. cbn [rev app]. apply rev_involutive.
  - change (repeat 61 ((4 - 3) mod 4)) with [61]. unfold strip_equals. rewrite length_app. cbn [length].
    assert (((length l + 1) mod 4)%nat = 0%nat) as -> by (rewrite Nat.Div0.add_mod, E; done). cbn [Nat.eqb negb].
    rewrite rev_app_distr. cbn [rev app]. apply Forall_rev in Hl. rewrite <- (rev_involutive l) at 2.
    destruct (rev l) as [| c r]; [done |]. apply Forall_cons in Hl as [Hc _].
    destruct c as [| c | c]; try done. repeat (destruct c as [c | c |]; try done).
Qed.

(** The reference encoder: three bytes to four sextets, and what is left. *)
Fixpoint bytes_sextets (l : list Z) : list Z :=
  match l with
  | a :: b :: c :: l => (a / 4) :: (a mod 4 * 16 + b / 16) :: (b mod 16 * 4 + c / 64) :: (c mod 64) :: bytes_sextets l
  | [a; b] => [a / 4; a mod 4 * 16 + b / 16; b mod 16 * 4]
  | [a] => [a / 4; a mod 4 * 16]
  | [] => []
  end.

(** Three bytes at a time. *)
Lemma bytes_ind3 (P : list Z -> Prop) : P [] -> (forall a, P [a]) -> (forall a b, P [a; b]) ->
  (forall a b c l, P l -> P (a :: b :: c :: l)) -> forall l, P l.
Proof.
  intros H0 H1 H2 H3. fix go 1. intros [| a [| b [| c l]]]; [exact H0 | apply H1 | apply H2 | apply H3, go].
Qed.

Abbreviation byte_list l := (Forall (fun b => 0 <= b < 256) l).

Ltac euclid := Z.to_euclidean_division_equations; lia.

Lemma bytes_sextets_range l : byte_list l -> Forall (fun s => 0 <= s < 64) (bytes_sextets l).
Proof.
  induction l as [| a | a b | a b c l IH] using bytes_ind3; intros Hl; [constructor | ..]; cbn [bytes_sextets].
  - apply Forall_cons in Hl as [Ha _]. repeat constructor; euclid.
  - apply Forall_cons in Hl as [Ha Hl]. apply Forall_cons in Hl as [Hb _]. repeat constructor; euclid.
  - apply Forall_cons in Hl as [Ha Hl]. apply Forall_cons in Hl as [Hb Hl]. apply Forall_cons in Hl as [Hc Hl].
    repeat (apply List.Forall_cons; [euclid |]). by apply IH.
Qed.

Lemma sextets_bytes_sextets l : byte_list l -> sextets_bytes (bytes_sextets l) = l.
Proof.
  induction l as [| a | a b | a b c l IH] using bytes_ind3; intros Hl; [done | ..]; cbn [bytes_sextets sextets_bytes].
  - apply Forall_cons in Hl as [Ha _]. f_equal. euclid.
  - apply Forall_cons in Hl as [Ha Hl]. apply Forall_cons in Hl as [Hb _]. f_equal; [euclid |]. f_equal. euclid.
  - apply Forall_cons in Hl as [Ha Hl]. apply Forall_cons in Hl as [Hb Hl]. apply Forall_cons in Hl as [Hc Hl].
    f_equal; [euclid |]. f_equal; [euclid |]. f_equal; [euclid |]. by apply IH.
Qed.

Lemma bytes_sextets_length l : (length (bytes_sextets l) mod 4 <> 1)%nat.
Proof.
  induction l as [| a | a b | a b c l IH] using bytes_ind3; [done | done | done |].
  cbn [bytes_sextets length]. change (S (S (S (S ?n)))) with (4 + n)%nat.
  rewrite Nat.Div0.add_mod. change (4 mod 4)%nat with 0%nat. by rewrite Nat.add_0_l, Nat.Div0.mod_mod.
Qed.

(** ** What is printed is text *)

Lemma text_ok_ascii u : ascii_units u -> text_ok u.
Proof. induction 1 as [| c u Hc _ IH]; [apply text_ok_nil | apply text_ok_unit; [lia | done]]. Qed.

Lemma text_ok_pair c d u : leading c = true -> trailing d = true -> text_ok u -> text_ok (c :: d :: u).
Proof.
  intros Hc Hd (ps & Hp & ->). unfold leading, trailing in *. apply andb_true_iff in Hc as [Hc1 Hc2], Hd as [Hd1 Hd2].
  apply Z.leb_le in Hc1, Hc2, Hd1, Hd2. set (p := 65536 + (c - 55296) * 1024 + (d - 56320)).
  exists (p :: ps). split; [constructor; [unfold scalar, p; lia | done] |].
  rewrite unpoints_cons. unfold unpoint, p. destruct (Z.ltb_spec (65536 + (c - 55296) * 1024 + (d - 56320)) 65536); [lia |].
  cbn [app]. f_equal; [euclid |]. f_equal. euclid.
Qed.

Lemma hex_digit_ascii n : 0 <= n < 16 -> 0 <= hex_digit n < 128.
Proof. intros Hn. unfold hex_digit. destruct (Z.ltb_spec n 10); lia. Qed.

Lemma unicode_escape_ascii c : unit_ok c -> ascii_units (unicode_escape c).
Proof.
  unfold unit_ok. intros Hc. unfold unicode_escape, ascii_units.
  repeat (apply List.Forall_cons; [first [lia | apply hex_digit_ascii; euclid] |]). constructor.
Qed.

Lemma short_escape_ascii c e : short_escape c = Some e -> 0 <= e < 128.
Proof.
  unfold short_escape. repeat match goal with |- context [if ?b then _ else _] => destruct b; [intros [= <-]; lia |] end. done.
Qed.

Lemma escaped_text u : Forall unit_ok u -> text_ok (escaped u).
Proof.
  induction u as [| c u IH1 IH2] using units_ind2; intros Hu; [apply text_ok_nil |].
  apply Forall_cons in Hu as [Hc Hu]. specialize (IH1 Hu). pose proof (text_ok_ascii _ (unicode_escape_ascii c Hc)) as Hesc.
  cbn [escaped]. destruct (short_escape c) as [e |] eqn:E.
  { apply short_escape_ascii in E. apply text_ok_unit; [lia |]. apply text_ok_unit; [lia | done]. }
  destruct (c <? 32); [by apply text_ok_app |]. destruct (leading c) eqn:El.
  { destruct u as [| d u]; [done |]. destruct (trailing d) eqn:Et; [| by apply text_ok_app].
    apply text_ok_pair; [done.. |]. apply (IH2 d u eq_refl). by apply Forall_cons in Hu as [_ Hu]. }
  destruct (trailing c) eqn:Et; [by apply text_ok_app |].
  unfold unit_ok, leading, trailing in *. apply andb_false_iff in El, Et. rewrite !Z.leb_gt in El, Et.
  destruct IH1 as (ps & Hp & ->). exists (c :: ps). split; [constructor; [unfold scalar; lia | done] |].
  rewrite unpoints_cons. unfold unpoint. by destruct (Z.ltb_spec c 65536); [| lia].
Qed.

Lemma quoted_text s : Forall unit_ok s -> text_ok (quoted s).
Proof.
  intros Hs. unfold quoted. apply text_ok_unit; [lia |]. apply text_ok_app; [by apply escaped_text |]. apply text_ok_ascii.
  repeat constructor; lia.
Qed.

Lemma digits_ascii z : 0 <= z -> ascii_units (digits z).
Proof.
  intros Hz. destruct (digits_spec z Hz) as (d & ds & -> & Hd & _). eapply Forall_impl; [exact Hd |].
  intros c Hc. apply digit_range in Hc. lia.
Qed.

Lemma zeros_ascii n : ascii_units (repeat 48 n).
Proof. induction n; constructor; [lia | done]. Qed.

Lemma layout_ascii s e : 0 < s -> ascii_units (layout s e).
Proof.
  intros Hs. pose proof (digits_ascii s ltac:(lia)) as Hd. unfold layout, ascii_units in *. cbv zeta.
  destruct (_ && _); [apply Forall_app; split; [done | apply zeros_ascii] |].
  destruct (_ && _).
  { apply Forall_app. split; [by apply Forall_take |]. constructor; [lia | by apply Forall_drop]. }
  destruct (_ && _).
  { constructor; [lia |]. constructor; [lia |]. apply Forall_app. split; [apply zeros_ascii | done]. }
  destruct (digits s) as [| d ds]; [done |]. apply Forall_cons in Hd as [Hd Hds]. constructor; [done |].
  apply Forall_app. split; [destruct (_ =? 1); [apply List.Forall_nil | by apply List.Forall_cons; [lia |]] |].
  constructor; [lia |]. constructor; [destruct (_ <? 0); lia |]. apply digits_ascii. lia.
Qed.

Lemma show_num_ascii x : is_double x -> is_finite x = true -> ascii_units (show_num x).
Proof.
  destruct x as [| | m]; try done. intros Hx _. cbn [show_num]. destruct (m =? 0) eqn:E; [repeat constructor; lia |]. zbool.
  pose proof (shortest_spec 17 (Z.abs m) 1 ltac:(lia) (double_abs m Hx)) as Hs. destruct (shortest 17 (Z.abs m) 1) as [s e].
  apply Forall_app. split; [| apply layout_ascii; by destruct Hs]. destruct (m <? 0); [| apply List.Forall_nil]. apply List.Forall_cons; [lia |]. apply List.Forall_nil.
Qed.

Lemma separated_text sep parts : text_ok sep -> Forall text_ok parts -> text_ok (separated sep parts).
Proof.
  intros Hs Hp. induction Hp as [| p parts Hp Hps IH]; [apply text_ok_nil |]. destruct parts as [| q parts]; [done |].
  rewrite separated_cons. apply text_ok_app; [done |]. by apply text_ok_app.
Qed.

(** [JSON.stringify] without indentation prints text that encodes as UTF-8. *)
Lemma stringify_text v : json_ok v -> text_ok (stringify [] v).
Proof.
  unfold stringify. generalize (@nil Z) at 2 as ind. intros ind.
  revert ind. induction v as [| b | x | s | l IH | fs IH] using json_ind; intros ind Hv; cbn [show_at line colon].
  - apply text_ok_ascii. repeat constructor; lia.
  - destruct b; apply text_ok_ascii; repeat constructor; lia.
  - inversion Hv; subst. by apply text_ok_ascii, show_num_ascii.
  - inversion Hv; subst. by apply quoted_text.
  - inversion Hv as [| | | | ? Hl |]; subst. destruct l as [| v l]; [apply text_ok_ascii; repeat constructor; lia |].
    apply text_ok_unit; [lia |]. cbn [app]. apply text_ok_app; [| apply text_ok_ascii; repeat constructor; lia].
    apply separated_text; [apply text_ok_ascii; repeat constructor; lia |].
    apply Forall_fmap. eapply Forall_modus; [| exact Hl]. eapply Forall_impl; [exact IH |]. cbn. intros w Hw Hok. by apply Hw.
  - inversion Hv as [| | | | | ? _ Hk Hl]; subst. destruct fs as [| kv fs]; [apply text_ok_ascii; repeat constructor; lia |].
    apply text_ok_unit; [lia |]. cbn [app]. apply text_ok_app; [| apply text_ok_ascii; repeat constructor; lia].
    apply separated_text; [apply text_ok_ascii; repeat constructor; lia |].
    apply Forall_fmap. apply Forall_forall. intros w Hw. rewrite Forall_forall in IH, Hk, Hl.
    cbn [compose]. apply text_ok_app; [by apply quoted_text, Hk |]. apply text_ok_unit; [lia |]. cbn [app]. apply (IH w Hw), Hl, Hw.
Qed.
