(* ===== verification/Attestation.v ===== *)
(** * Signed identities

    [er-demo/src/v2/data/xLink.ts], what a browser believes about a wallet's X
    account, and [xLinkSign.ts], how the API says it.  The canonical bytes, the
    signer, the verifier and the batch are here whole.  A display name is text as
    JavaScript has it, UTF-16 units with halves of pairs allowed; the other fields,
    which the verifier holds to ASCII patterns, are strings.  ed25519 and the base58
    decoder are parameters; a row off the network is an attestation or something
    else ([asWireShape] tells them apart). *)
From stdpp Require Import pretty.
From S2P Require Import Prelude Text Json Codec LinkRegister Challenge.

Definition ATTESTATION_TTL_SECONDS : Z := 7 * 24 * 60 * 60.
Definition CLOCK_SKEW_GRACE_SECONDS : Z := 5 * 60.
Definition CANONICAL_TAG : string := "bvu.link.v1".

Record LinkAttestation : Type := mkAttestation {
  a_wallet : string;
  a_xId : string;
  a_handle : string;
  a_displayName : units;
  a_avatarPath : string;
  a_linkedAt : Z;
  a_issuedAt : Z;
  a_expiresAt : Z;
  a_sig : string;
  a_keyId : string;
}.

(** A verified identity: empty texts have become absences. *)
Record LinkRecord : Type := mkRecord {
  r_wallet : string;
  r_xId : string;
  r_handle : string;
  r_displayName : option units;
  r_avatarPath : option string;
  r_linkedAt : Z;
  r_issuedAt : Z;
  r_expiresAt : Z;
}.

(** ** Shapes *)

Definition isWalletString : string -> bool := matches is_base58 32 44.

Fixpoint after (p l : list ascii) : option (list ascii) :=
  match p, l with
  | [], _ => Some l
  | a :: p, b :: l => if Ascii.eqb a b then after p l else None
  | _, [] => None
  end.

Definition avatarPathFor (x hash : string) : string := "/api/avatar/" +:+ (x +:+ String "/" (hash +:+ ".webp")).

(** [/^\/api\/avatar\/([0-9]{1,20})\/([0-9a-f]{64})\.webp$/] and its groups. *)
Definition avatar_route (path : string) : option (string * string) :=
  match after (chars "/api/avatar/") (chars path) with
  | Some rest =>
      let '(x, tail) := cut "/" rest in
      match tail with
      | Some tail =>
          let '(hash, ext) := cut "." tail in
          if matches is_digit 1 20 (text x) && matches is_hex 64 64 (text hash) && bool_decide (ext = Some (chars "webp"))
          then Some (text x, text hash) else None
      | None => None
      end
  | None => None
  end.

Definition AVATAR_PATH_RE (path : string) : bool := match avatar_route path with Some _ => true | None => false end.

(** ** Canonical bytes *)

(** [<byte length>:<bytes>,] *)
Definition netstring (value : units) : list Z :=
  let body := encode value in utf8 (pretty (N.of_nat (length body))) ++ [58] ++ body ++ [44].

Definition concatBytes (parts : list (list Z)) : list Z := mjoin parts.

Definition canonicalBytes (a : LinkAttestation) : list Z :=
  concatBytes [netstring (lit CANONICAL_TAG); netstring (lit (a_wallet a)); netstring (lit (a_xId a)); netstring (lit (a_handle a));
    netstring (a_displayName a); netstring (lit (a_avatarPath a)); netstring (lit (pretty (a_linkedAt a)));
    netstring (lit (pretty (a_issuedAt a))); netstring (lit (pretty (a_expiresAt a)))].

(** ** Signing *)

(** [btoa] of bytes. *)
Definition sextet_char (n : Z) : ascii :=
  ascii_of_nat (Z.to_nat (if n <? 26 then n + 65 else if n <? 52 then n + 71 else if n <? 62 then n - 4 else if n =? 62 then 43 else 47)).

Fixpoint base64_chars (l : list Z) : list ascii :=
  match l with
  | a :: b :: c :: l =>
      [sextet_char (a / 4); sextet_char (a mod 4 * 16 + b / 16); sextet_char (b mod 16 * 4 + c / 64); sextet_char (c mod 64)]
      ++ base64_chars l
  | [a; b] => [sextet_char (a / 4); sextet_char (a mod 4 * 16 + b / 16); sextet_char (b mod 16 * 4); "="%char]
  | [a] => [sextet_char (a / 4); sextet_char (a mod 4 * 16); "="%char; "="%char]
  | [] => []
  end.

Definition base64 (bytes : list Z) : string := text (base64_chars bytes).

Record AttestationPayload : Type := mkPayload {
  p_wallet : string;
  p_xId : string;
  p_handle : string;
  p_displayName : units;
  p_avatarPath : string;
  p_linkedAt : Z;
}.

Record AttestationKey : Type := mkKey { secret : list Z; publicKey : string }.

Definition attested (p : AttestationPayload) (issuedAt : Z) (keyId sig : string) : LinkAttestation :=
  mkAttestation (p_wallet p) (p_xId p) (p_handle p) (p_displayName p) (p_avatarPath p) (p_linkedAt p) issuedAt
    (issuedAt + ATTESTATION_TTL_SECONDS) sig keyId.

Definition signAttestation (sign : list Z -> list Z -> list Z) (p : AttestationPayload) (key : AttestationKey) (nowSec : Z)
  : LinkAttestation :=
  let sig := sign (canonicalBytes (attested p nowSec (publicKey key) EmptyString)) (secret key) in
  attested p nowSec (publicKey key) (base64 sig).

(** ** Verification *)

Inductive LinkRejection : Type :=
| malformed | untrusted_key | bad_signature | expired | not_yet_valid | bad_wallet | bad_handle | bad_x_id | bad_avatar_path.

#[global] Instance LinkRejection_eq_dec : EqDecision LinkRejection.
Proof. solve_decision. Defined.

(** An entry of a response: the shape of an attestation, or not. *)
Inductive RawEntry : Type := wire (a : LinkAttestation) | not_wire.

Definition orNone (s : string) : option string := if String.eqb s EmptyString then None else Some s.

(** The same of the display name. *)
Definition nameOrNone (u : units) : option units := match u with [] => None | _ => Some u end.

Definition mint (a : LinkAttestation) : LinkRecord :=
  mkRecord (a_wallet a) (a_xId a) (a_handle a) (nameOrNone (a_displayName a)) (orNone (a_avatarPath a)) (a_linkedAt a)
    (a_issuedAt a) (a_expiresAt a).

Section Verify.
Context (pubkey : string -> option (list Z)).
(** [ed25519.verify] of a signature, a message and a key; it may throw. *)
Context (verify : list Z -> list Z -> list Z -> option bool).

Definition attestationKeyBytes (v : string) : option (list Z) :=
  match pubkey v with Some bytes => if Nat.eqb (length bytes) 32 then Some bytes else None | None => None end.

Definition verifyAttestation (raw : RawEntry) (trustedKeys : list string) (nowSec : Z) : LinkRejection + LinkRecord :=
  match raw with
  | not_wire => inl malformed
  | wire a =>
      if negb (isWalletString (a_wallet a)) then inl bad_wallet
      else if negb (HANDLE_RE (a_handle a)) then inl bad_handle
      else if negb (X_ID_RE (a_xId a)) then inl bad_x_id
      else if negb (String.eqb (a_avatarPath a) EmptyString) && negb (AVATAR_PATH_RE (a_avatarPath a)) then inl bad_avatar_path
      else if negb (String.eqb (a_avatarPath a) EmptyString) &&
              negb (String.prefix ("/api/avatar/" +:+ (a_xId a +:+ "/")) (a_avatarPath a)) then inl bad_avatar_path
      else if a_expiresAt a <=? nowSec then inl expired
      else if nowSec + CLOCK_SKEW_GRACE_SECONDS <? a_issuedAt a then inl not_yet_valid
      else if negb (bool_decide (a_keyId a ∈ trustedKeys)) then inl untrusted_key
      else
        match attestationKeyBytes (a_keyId a) with
        | None => inl untrusted_key
        | Some keyBytes =>
            match signatureBytes (Some (jstr (a_sig a))) with
            | None => inl bad_signature
            | Some sig =>
                match verify sig (canonicalBytes a) keyBytes with
                | Some true => inr (mint a)
                | _ => inl bad_signature
                end
            end
        end
  end.

(** One entry of a batch: the first attestation of a wallet wins. *)
Definition takeEntry (trustedKeys : list string) (nowSec : Z) (acc : list LinkRecord * list LinkRejection) (raw : RawEntry)
  : list LinkRecord * list LinkRejection :=
  let '(links, rejected) := acc in
  match verifyAttestation raw trustedKeys nowSec with
  | inr record =>
      if bool_decide (r_wallet record ∈ r_wallet <$> links) then (links, rejected ++ [malformed])
      else (links ++ [record], rejected)
  | inl reason => (links, rejected ++ [reason])
  end.

(** [None] is a body without a list of links.  The map is its records in
    insertion order, one per wallet. *)
Definition linkMapFrom (raw : option (list RawEntry)) (trustedKeys : list string) (nowSec : Z)
  : list LinkRecord * list LinkRejection :=
  match raw with
  | None => ([], [malformed])
  | Some entries => foldl (takeEntry trustedKeys nowSec) ([], []) (take (Z.to_nat MAX_WALLETS_PER_QUERY) entries)
  end.
End Verify.

(** ** Rendering *)

Definition identityText (r : LinkRecord) : string * option units := ("@" +:+ r_handle r, r_displayName r).

Definition profileUrl (r : LinkRecord) : string := "https://x.com/" +:+ r_handle r.
