(* ===== verification/LinksRead.v ===== *)
(** * The read path of the identity API

    [er-demo/api/src/linksHandler.ts] and [avatarHandler.ts], what a browser is
    served about the wallets it asks for, and [attest.ts], a row of the register
    as a signed attestation.  The register is [LinkRegister]'s; the house list is
    what the request's [get] answered. *)
From S2P Require Import Prelude Text Json LinkRegister Challenge Attestation.

(** ** [GET /api/links] *)

(** The parameter [wallets] as often as it was sent. *)
Record LinksRequest : Type := mkLinksRequest { l_method : string; l_wallets : list string; l_nowSec : Z; l_house : option (gset string) }.

Inductive LinksResponse : Type :=
| links_not_allowed
| links_refused (reason : WalletListRejection)
| links_ok (links : list LinkAttestation) (houseListKnown : bool).

Definition payloadOf (row : MemoryRow) : AttestationPayload :=
  mkPayload (row_wallet row) (row_xId row) (row_handle row) (lit (row_displayName row))
    (match row_avatar row with Some (hash, _, _) => avatarPathFor (row_xId row) hash | None => EmptyString end) (linkedAt row).

Section Links.
Context (pubkey : string -> option (list Z)) (sign : list Z -> list Z -> list Z).
Context (reservedXIds : gset string) (key : AttestationKey).

Definition attestRow (row : MemoryRow) (nowSec : Z) : LinkAttestation := signAttestation sign (payloadOf row) key nowSec.

(** The rows of the loop that are not skipped. *)
Definition servable (house : gset string) (row : MemoryRow) : bool :=
  negb (bool_decide (row_wallet row ∈ house)) && negb (isReservedXId (row_xId row) reservedXIds).

Definition handleLinks (q : LinksRequest) (s : Register) : LinksResponse :=
  if negb (String.eqb (l_method q) "GET") && negb (String.eqb (l_method q) "HEAD") then links_not_allowed else
  match parseWalletList pubkey (match l_wallets q with [w] => Some w | _ => None end) with
  | inl reason => links_refused reason
  | inr wallets =>
      match l_house q with
      | None => links_ok [] false
      | Some house =>
          links_ok ((fun row => attestRow row (l_nowSec q)) <$> List.filter (servable house) (findByWallets wallets s)) true
      end
  end.
End Links.

(** ** [GET /api/avatar/<x_id>/<hash>.webp] *)

Inductive AvatarResponse : Type := avatar_not_allowed | avatar_not_found | avatar_ok (bytes : list Z) (etag : string).

Definition handleAvatar (reservedXIds : gset string) (method path : string) (s : Register) : AvatarResponse :=
  if negb (String.eqb method "GET") && negb (String.eqb method "HEAD") then avatar_not_allowed else
  match avatar_route path with
  | None => avatar_not_found
  | Some (x, hash) =>
      if isReservedXId x reservedXIds then avatar_not_found else
      match findAvatar x hash s with
      | None => avatar_not_found
      | Some bytes => avatar_ok bytes hash
      end
  end.
