(* ===== verification/AttestationLaws.v ===== *)
(** * What a signature commits to

    The canonical bytes determine every signed field, a display name up to the
    lone halves of pairs in it; base64 and the picture's
    path come back as they went; and whatever the read path serves of the
    register, a browser that trusts the API's key believes, exactly. *)
From stdpp Require Import pretty.
From S2P Require Import Prelude Text Json Codec LinkRegister Challenge ChallengeLaws Attestation LinksRead.

(** ** UTF-8 and decimals *)

Definition utf8_char (c : ascii) : list Z :=
  let n := Z.of_nat (nat_of_ascii c) in if n <? 128 then [n] else [192 + n / 64; 128 + n mod 64].

Lemma nat_of_ascii_inj a b : Z.of_nat (nat_of_ascii a) = Z.of_nat (nat_of_ascii b) -> a = b.
Proof. intros H%Nat2Z.inj. by rewrite <- (ascii_nat_embedding a), H, ascii_nat_embedding. Qed.

Lemma utf8_char_inj a b x y : utf8_char a ++ x = utf8_char b ++ y -> a = b /\ x = y.
Proof.
  unfold utf8_char. pose proof (nat_ascii_bounded a) as Ha. pose proof (nat_ascii_bounded b) as Hb.
  set (m := Z.of_nat (nat_of_ascii a)). set (n := Z.of_nat (nat_of_ascii b)).
  assert (0 <= m < 256) by (subst m; lia). assert (0 <= n < 256) by (subst n; lia).
  pose proof (Z.div_pos m 64 ltac:(lia) ltac:(lia)). pose proof (Z.div_pos n 64 ltac:(lia) ltac:(lia)).
  destruct (Z.ltb_spec m 128), (Z.ltb_spec n 128); cbn [app]; intros E.
  - injection E as E ->. split; [by apply nat_of_ascii_inj | done].
  - injection E as E _. lia.
  - injection E as E _. lia.
  - injection E as E1 E2 ->. split; [| done]. apply nat_of_ascii_inj. fold m n.
    rewrite (Z.div_mod m 64), (Z.div_mod n 64) by lia. lia.
Qed.

Lemma utf8_cons c s : utf8 (String c s) = utf8_char c ++ utf8 s.
Proof. done. Qed.

Lemma utf8_inj s t : utf8 s = utf8 t -> s = t.
Proof.
  revert t. induction s as [| a s IH]; intros [| b t] E; rewrite ?utf8_cons in E; try done.
  - unfold utf8_char in E. by destruct (_ <? _).
  - unfold utf8_char in E. by destruct (_ <? _).
  - apply utf8_char_inj in E as [-> E]. f_equal. by apply IH.
Qed.

Lemma utf8_digits s : every is_digit s = true -> 58 ∉ utf8 s.
Proof.
  induction s as [| c s IH]; [by intros _ ?%not_elem_of_nil |]. unfold every. cbn [String.list_ascii_of_string forallb].
  intros [Hc Hs]%andb_prop. rewrite utf8_cons, not_elem_of_app. split; [| by apply IH].
  unfold is_digit, between in Hc. apply andb_prop in Hc as [H1%Nat.leb_le H2%Nat.leb_le].
  change (nat_of_ascii "0") with 48%nat in H1. change (nat_of_ascii "9") with 57%nat in H2.
  unfold utf8_char. rewrite (proj2 (Z.ltb_lt (Z.of_nat (nat_of_ascii c)) 128)) by lia.
  intros Hin%list_elem_of_singleton. lia.
Qed.

Lemma digit_char n : (n < 10)%N -> is_digit (pretty_N_char n) = true.
Proof.
  intros Hn. assert (Hin : In n [0; 1; 2; 3; 4; 5; 6; 7; 8; 9]%N) by (cbn; lia). clear Hn. revert n Hin.
  apply (proj1 (forallb_forall (fun n => is_digit (pretty_N_char n)) [0; 1; 2; 3; 4; 5; 6; 7; 8; 9]%N)). reflexivity.
Qed.

Lemma pretty_go_digits n s : every is_digit s = true -> every is_digit (pretty_N_go n s) = true.
Proof.
  revert s. induction (N.lt_wf_0 n) as [n _ IH]. intros s Hs.
  destruct (decide (n = 0%N)) as [-> | Hn]; [by rewrite pretty_N_go_0 |].
  rewrite pretty_N_go_step by lia. apply IH; [apply N.div_lt; lia |].
  unfold every in *. cbn. rewrite Hs, digit_char; [done |]. apply N.mod_lt. lia.
Qed.

Lemma pretty_digits (n : N) : every is_digit (pretty n) = true.
Proof. unfold pretty, pretty_N. case_decide; [done | by apply pretty_go_digits]. Qed.

(** ** The canonical bytes *)

(** The length is read before the content, so no content is structure. *)
Lemma netstring_inj a b x y : netstring a ++ x = netstring b ++ y -> encode a = encode b /\ x = y.
Proof.
  unfold netstring. rewrite <- !app_assoc. cbn [app]. intros E.
  apply chars_split in E as [Elen E]; [| apply utf8_digits, pretty_digits..].
  apply utf8_inj in Elen. apply (inj pretty) in Elen. apply Nat2N.inj in Elen.
  apply app_inj_1 in E as [E1 E2]; [| exact Elen]. split; [done | by injection E2].
Qed.

Lemma netstrings_inj ls ks : length ls = length ks -> concatBytes (netstring <$> ls) = concatBytes (netstring <$> ks) ->
  (encode <$> ls) = (encode <$> ks).
Proof.
  revert ks. induction ls as [| a ls IH]; intros [| b ks] Hl E; try done.
  apply (netstring_inj a b) in E as [Ea E]. rewrite !fmap_cons, Ea. f_equal. apply IH; [by injection Hl | exact E].
Qed.

(** *** Text and its bytes *)

Lemma encode_cons_a u : encode (97 :: u) = 97 :: encode u.
Proof. unfold encode. by destruct u. Qed.

(** Well-formed text is its bytes. *)
Lemma encode_inj u v : text_ok u -> text_ok v -> encode u = encode v -> u = v.
Proof.
  intros Hu Hv E. assert (E' : 97 :: u = 97 :: v); [| by injection E'].
  rewrite <- (decode_encode (97 :: u)), <- (decode_encode (97 :: v)) by (done || (apply text_ok_unit; [lia | done])).
  by rewrite !encode_cons_a, E.
Qed.

(** A half of a pair by itself is written as U+FFFD. *)
Definition scrub_point (p : Z) : Z := if leading p || trailing p then REPLACEMENT else p.
Definition scrub (u : units) : units := unpoints (scrub_point <$> points u).

Lemma points_range u : Forall unit_ok u -> Forall (fun p => 0 <= p < 1114112) (points u).
Proof.
  induction u as [| c u IH1 IH2] using units_ind2; intros Hu; [apply List.Forall_nil |].
  apply List.Forall_cons_iff in Hu as [Hc Hu]. specialize (IH1 Hu). unfold unit_ok in Hc. destruct u as [| d u].
  { apply List.Forall_cons; [lia | apply List.Forall_nil]. }
  cbn [points]. destruct (leading c && trailing d) eqn:E; [| apply List.Forall_cons; [lia | exact IH1]].
  unfold leading, trailing in E. zbool. apply List.Forall_cons; [lia |]. apply (IH2 d u eq_refl). by apply List.Forall_cons_iff in Hu as [_ Hu].
Qed.

Lemma scrub_scalar p : 0 <= p < 1114112 -> scalar (scrub_point p).
Proof.
  intros Hp. unfold scrub_point, scalar, REPLACEMENT. destruct (leading p || trailing p) eqn:E; [lia |].
  unfold leading, trailing in E. rewrite orb_false_iff, !andb_false_iff, !Z.leb_gt in E. lia.
Qed.

Lemma scrub_ok u : Forall unit_ok u -> text_ok (scrub u).
Proof.
  intros Hu. exists (scrub_point <$> points u). split; [| done]. apply Forall_fmap.
  eapply Forall_impl; [exact (points_range u Hu) |]. intros p Hp. by apply scrub_scalar.
Qed.

Lemma encode_scrub u : Forall unit_ok u -> encode (scrub u) = encode u.
Proof.
  intros Hu. unfold encode, scrub. rewrite points_unpoints.
  - rewrite <- list_fmap_compose. f_equal. apply map_ext. intros p. unfold compose, scrub_point.
    destruct (leading p || trailing p) eqn:E; [| done]. unfold utf8_point at 2. by rewrite E.
  - apply Forall_fmap. eapply Forall_impl; [exact (points_range u Hu) |]. intros p Hp. by apply scrub_scalar.
Qed.

(** Two texts have the same bytes where they differ in lone halves alone. *)
Lemma encode_same u v : Forall unit_ok u -> Forall unit_ok v -> encode u = encode v <-> scrub u = scrub v.
Proof.
  intros Hu Hv. rewrite <- (encode_scrub u Hu), <- (encode_scrub v Hv). split; [apply encode_inj; by apply scrub_ok | by intros ->].
Qed.

Lemma lit_ok s : text_ok (lit s).
Proof.
  unfold lit. induction (chars s) as [| c l IH]; [apply text_ok_nil |]. rewrite fmap_cons. apply text_ok_unit; [| done].
  pose proof (nat_ascii_bounded c). lia.
Qed.

Lemma lit_inj s t : lit s = lit t -> s = t.
Proof.
  intros E. apply chars_inj. revert E. unfold lit. generalize (chars t). induction (chars s) as [| a l IH]; intros [| b k] E; try done.
  rewrite !fmap_cons in E. injection E as Ea E. f_equal; [by apply nat_of_ascii_inj; lia | by apply IH].
Qed.

Lemma encode_lit_inj s t : encode (lit s) = encode (lit t) -> s = t.
Proof. intros E. apply lit_inj, encode_inj; [apply lit_ok.. | exact E]. Qed.

(** What is signed besides the display name: everything but the signature and the
    key's name. *)
Definition signed_fields (a : LinkAttestation) : string * string * string * string * (Z * Z * Z) :=
  (a_wallet a, a_xId a, a_handle a, a_avatarPath a, (a_linkedAt a, a_issuedAt a, a_expiresAt a)).

Lemma canonical_bytes_fields a b : canonicalBytes a = canonicalBytes b <->
  signed_fields a = signed_fields b /\ encode (a_displayName a) = encode (a_displayName b).
Proof.
  unfold canonicalBytes. split.
  - intros E. apply (netstrings_inj [lit CANONICAL_TAG; lit (a_wallet a); lit (a_xId a); lit (a_handle a); a_displayName a; lit (a_avatarPath a); _; _; _]
                        [lit CANONICAL_TAG; lit (a_wallet b); lit (a_xId b); lit (a_handle b); a_displayName b; lit (a_avatarPath b); _; _; _]) in E; [| done].
    rewrite !fmap_cons in E. injection E as Ew Ex Eh Ed Ea El Ei Ee.
    apply encode_lit_inj in Ew, Ex, Eh, Ea, El, Ei, Ee. apply (inj pretty) in El, Ei, Ee. unfold signed_fields. split; congruence.
  - unfold signed_fields. intros [[= -> -> -> -> -> -> ->] Ed]. unfold netstring at 5 14. by rewrite Ed.
Qed.

Definition named_attestation (name : units) (sig : string) : LinkAttestation :=
  mkAttestation sample_wallet "44196397" "player_one" name EmptyString 1700000060 1700000100 1700604900 sig "key".

(** C35. A signature on an attestation is a signature on each of its fields, up to
    the lone halves of surrogate pairs in the display name: two attestations have
    the same canonical bytes exactly when they agree on the wallet, the account, the
    handle, the picture and all three instants, and their display names become the
    same text once every lone half is U+FFFD; so names that are well-formed are the
    same, whatever structure they imitate.  The exception is real: a lone half and
    U+FFFD itself are two names under one signature. *)
Theorem canonical_bytes_injective :
  (forall a b, Forall unit_ok (a_displayName a) -> Forall unit_ok (a_displayName b) ->
     canonicalBytes a = canonicalBytes b <-> signed_fields a = signed_fields b /\ scrub (a_displayName a) = scrub (a_displayName b))
  /\ (forall a b, text_ok (a_displayName a) -> text_ok (a_displayName b) -> canonicalBytes a = canonicalBytes b ->
     signed_fields a = signed_fields b /\ a_displayName a = a_displayName b)
  /\ canonicalBytes (named_attestation [55296] EmptyString) = canonicalBytes (named_attestation [65533] EmptyString).
Proof.
  split_and!.
  - intros a b Ha Hb. rewrite canonical_bytes_fields. by rewrite encode_same.
  - intros a b Ha Hb [Hf He]%canonical_bytes_fields. split; [done | by apply encode_inj].
  - reflexivity.
Qed.

Lemma canonical_bytes_injective_witness :
  canonicalBytes (named_attestation (lit "1:,9:") "one") = canonicalBytes (named_attestation (lit "1:,9:") "two") /\
  signed_fields (named_attestation (lit "1:,9:") "one") = signed_fields (named_attestation (lit "1:,9:") "two").
Proof.
  assert (E : canonicalBytes (named_attestation (lit "1:,9:") "one") = canonicalBytes (named_attestation (lit "1:,9:") "two")) by reflexivity.
  split; [exact E |]. pose proof (proj1 (proj2 canonical_bytes_injective) (named_attestation (lit "1:,9:") "one") (named_attestation (lit "1:,9:") "two")) as H.
  exact (proj1 (H (lit_ok "1:,9:") (lit_ok "1:,9:") E)).
Defined.

(** ** Base64 *)

Lemma sextet_sextet_char n : 0 <= n < 64 -> sextet (sextet_char n) = Some n.
Proof.
  intros Hn. assert (Hin : In n (seqZ 0 64)) by (apply list_elem_of_In, elem_of_seqZ; lia). clear Hn.
  assert (Hall : forallb (fun n => bool_decide (sextet (sextet_char n) = Some n)) (seqZ 0 64) = true) by (vm_compute; reflexivity).
  rewrite forallb_forall in Hall. by apply Hall, bool_decide_eq_true in Hin.
Qed.

Lemma div_below a b c : 0 <= a < b * c -> 0 < b -> 0 <= a / b < c.
Proof. intros Ha Hb. split; [apply Z.div_pos; lia | apply Z.div_lt_upper_bound; lia]. Qed.

Ltac below := first [apply div_below; lia | apply Z.mod_pos_bound; lia].

Lemma digits_apart p q m : 0 <= q < m -> (p * m + q) / m = p /\ (p * m + q) mod m = q.
Proof.
  intros Hq. split; [rewrite Z.div_add_l, Z.div_small by lia; lia | rewrite Z.add_comm, Z.mod_add, Z.mod_small by lia; lia].
Qed.

Lemma triple_of_sextets a b c : byte a -> byte b -> byte c ->
  let x := a mod 4 * 16 + b / 16 in let y := b mod 16 * 4 + c / 64 in
  (a / 4 * 4 + x / 16 = a /\ x mod 16 * 16 + y / 4 = b /\ y mod 4 * 64 + c mod 64 = c) /\
  (0 <= a / 4 < 64 /\ 0 <= x < 64 /\ 0 <= y < 64 /\ 0 <= c mod 64 < 64).
Proof.
  intros Ha Hb Hc x y. unfold byte in Ha, Hb, Hc.
  assert (0 <= a / 4 < 64) by below. assert (0 <= b / 16 < 16) by below. assert (0 <= c / 64 < 4) by below.
  assert (0 <= a mod 4 < 4) by below. assert (0 <= b mod 16 < 16) by below. assert (0 <= c mod 64 < 64) by below.
  pose proof (Z.div_mod a 4 ltac:(lia)). pose proof (Z.div_mod b 16 ltac:(lia)). pose proof (Z.div_mod c 64 ltac:(lia)).
  assert (Hx : x / 16 = a mod 4 /\ x mod 16 = b / 16) by by apply digits_apart.
  assert (Hy : y / 4 = b mod 16 /\ y mod 4 = c / 64) by by apply digits_apart.
  destruct Hx as [-> ->], Hy as [-> ->]. split; [split; [| split]; lia | subst x y; lia].
Qed.

Lemma base64_sextets n bytes : length bytes = (3 * n + 1)%nat -> Forall byte bytes ->
  exists ss, base64_chars bytes = (sextet_char <$> ss) ++ ["="; "="]%char /\ length ss = (4 * n + 2)%nat /\
    Forall (fun s => 0 <= s < 64) ss /\ bytes_of_sextets ss = bytes.
Proof.
  revert bytes. induction n as [| n IH]; intros bytes Hl Hb.
  - destruct bytes as [| a [| b bytes]]; try discriminate Hl. apply (proj1 (Forall_singleton _ _)) in Hb. unfold byte in Hb.
    exists [a / 4; a mod 4 * 16]. cbn [base64_chars fmap list_fmap app]. split; [done |]. split; [done |].
    assert (0 <= a / 4 < 64) by below. assert (0 <= a mod 4 < 4) by below.
    split; [repeat constructor; lia |]. cbn [bytes_of_sextets]. rewrite Z.div_mul by lia. f_equal.
    pose proof (Z.div_mod a 4 ltac:(lia)). lia.
  - destruct bytes as [| a [| b [| c bytes]]]; try (cbn in Hl; lia).
    apply Forall_cons in Hb as [Ha Hb]. apply Forall_cons in Hb as [Hb Hc]. apply Forall_cons in Hc as [Hc Hbs].
    destruct (IH bytes ltac:(cbn in Hl; lia) Hbs) as (ss & Hchars & Hlen & Hss & Hback).
    destruct (triple_of_sextets a b c Ha Hb Hc) as [(Ea & Eb & Ec) (H1 & H2 & H3 & H4)].
    exists (a / 4 :: a mod 4 * 16 + b / 16 :: b mod 16 * 4 + c / 64 :: c mod 64 :: ss).
    cbn [base64_chars bytes_of_sextets]. rewrite Hchars, Hback, Ea, Eb, Ec. split; [done |]. split; [cbn; lia |].
    split; [| done]. apply Forall_cons; split; [exact H1 |]. apply Forall_cons; split; [exact H2 |].
    apply Forall_cons; split; [exact H3 |]. apply Forall_cons; split; [exact H4 | exact Hss].
Qed.

Lemma omap_sextet_chars ss : Forall (fun s => 0 <= s < 64) ss ->
  omap sextet (sextet_char <$> ss) = ss /\
  forallb (fun c => match sextet c with Some _ => true | None => false end) (sextet_char <$> ss) = true.
Proof.
  induction 1 as [| n ss Hn _ [IH1 IH2]]; [done |]. rewrite fmap_cons. cbn. rewrite sextet_sextet_char by done.
  rewrite IH2. split; [by f_equal | done].
Qed.

(** A signature survives the wire. *)
Lemma base64_roundtrip bytes : length bytes = 64%nat -> Forall byte bytes ->
  signatureBytes (Some (jstr (base64 bytes))) = Some bytes.
Proof.
  intros Hl Hb. destruct (base64_sextets 21 bytes Hl Hb) as (ss & Hchars & Hlen & Hss & Hback).
  destruct (omap_sextet_chars ss Hss) as [Homap Hall].
  assert (Hlf : length (sextet_char <$> ss) = 86%nat) by (rewrite length_fmap; exact Hlen).
  assert (Ht : take 86 (chars (base64 bytes)) = sextet_char <$> ss).
  { unfold base64. rewrite String.list_ascii_of_string_of_list_ascii, Hchars. by apply take_app_length'. }
  assert (Hd : drop 86 (chars (base64 bytes)) = ["="; "="]%char).
  { unfold base64. rewrite String.list_ascii_of_string_of_list_ascii, Hchars. by apply drop_app_length'. }
  assert (Hre : SIG_RE (base64 bytes) = true).
  { unfold SIG_RE. rewrite Ht, Hd, Hall, <- length_chars. unfold base64.
    rewrite String.list_ascii_of_string_of_list_ascii, Hchars, length_app, Hlf. reflexivity. }
  cbn [signatureBytes]. rewrite Hre, Ht, Homap, Hback, Hl. reflexivity.
Qed.

(** ** The picture's path *)

Lemma after_app p l : after p (p ++ l) = Some l.
Proof. induction p as [| a p IH]; [done |]. cbn. by rewrite Ascii.eqb_refl. Qed.

Lemma text_chars s : text (chars s) = s.
Proof. apply String.string_of_list_ascii_of_string. Qed.

(** The route reads back what the builder wrote. *)
Lemma avatar_route_roundtrip x h : X_ID_RE x = true -> NONCE_RE h = true -> avatar_route (avatarPathFor x h) = Some (x, h).
Proof.
  intros Hx Hh. unfold avatar_route, avatarPathFor. rewrite !app_chars, after_app.
  cbn [String.list_ascii_of_string]. rewrite cut_app by by apply (matches_lacks _ _ _ _ _ Hx).
  rewrite app_chars. change (chars ".webp") with ("."%char :: chars "webp").
  rewrite cut_app by by apply (matches_lacks _ _ _ _ _ Hh).
  rewrite !text_chars. unfold X_ID_RE in Hx. unfold NONCE_RE in Hh. rewrite Hx, Hh. by rewrite bool_decide_eq_true_2.
Qed.

Lemma prefix_app p s : String.prefix p (p +:+ s) = true.
Proof. induction p as [| a p IH]; [by destruct s |].
  change ((if ascii_dec a a then String.prefix p (p +:+ s) else false) = true). by destruct (ascii_dec a a). Qed.

Lemma append_assoc s t u : (s +:+ t) +:+ u = s +:+ (t +:+ u).
Proof. apply chars_inj. by rewrite !app_chars, app_assoc. Qed.

Lemma avatarPathFor_prefix x h : String.prefix ("/api/avatar/" +:+ (x +:+ "/")) (avatarPathFor x h) = true.
Proof.
  assert (E : avatarPathFor x h = ("/api/avatar/" +:+ (x +:+ "/")) +:+ (h +:+ ".webp")) by by rewrite !append_assoc.
  rewrite E. apply prefix_app.
Qed.

Lemma avatarPathFor_nonempty x h : String.eqb (avatarPathFor x h) EmptyString = false.
Proof. done. Qed.

(** ** Rows the tables' checks let in *)

Definition storable_row (r : MemoryRow) : Prop :=
  isWalletString (row_wallet r) = true /\ HANDLE_RE (row_handle r) = true /\ X_ID_RE (row_xId r) = true /\
  match row_avatar r with Some (h, _, _) => NONCE_RE h = true | None => True end.

(** The ingest names a picture by the SHA-256 of its bytes. *)
Definition hashes (o : register_op) : Prop :=
  match o with op_avatar _ h _ _ => NONCE_RE h = true | _ => True end.

Lemma assertRowIsStorable_done w i : assertRowIsStorable w i = Done tt ->
  X_ID_RE (xId i) = true /\ HANDLE_RE (handle i) = true /\ WALLET_RE w = true.
Proof.
  unfold assertRowIsStorable, refuse_if. destruct (X_ID_RE (xId i)); [| done]. destruct (HANDLE_RE (handle i)); [| done].
  by destruct (WALLET_RE w).
Qed.

Lemma replace_row_storable x f rs : Forall storable_row rs -> (forall r, r ∈ rs -> storable_row r -> storable_row (f r)) ->
  Forall storable_row (replace_row x f rs).
Proof.
  rewrite !Forall_forall. intros Hrs Hf r Hin. apply elem_of_replace_row in Hin as [[Hin _] | (r0 & Hin & _ & ->)]; [by apply Hrs |].
  by apply Hf, Hrs.
Qed.

Lemma op_storable o s : hashes o -> Forall storable_row (rows s) -> Forall storable_row (rows (apply_op o s)).
Proof.
  intros Ho Hs. destruct o as [w i t | w | x b | x h bs t]; cbn [apply_op].
  - unfold linkRegister. destruct (assertRowIsStorable w i) as [[] | e] eqn:Ea; [| exact Hs].
    apply assertRowIsStorable_done in Ea as (Hx & Hh & Hw).
    destruct (existsb _ (rows s)); [exact Hs |]. destruct (row_of (xId i) (rows s)) as [cur |] eqn:Er; cbn [snd rows].
    + apply row_of_Some in Er as [Hcur Hid]. rewrite Forall_forall in Hs. pose proof (Hs cur Hcur) as (_ & _ & Hcx & Hca).
      apply replace_row_storable; [by rewrite Forall_forall |]. intros r0 _ _. unfold storable_row. cbn.
      split; [exact Hw |]. split; [exact Hh |]. split; [exact Hcx |]. by destruct (avatarUrl i).
    + apply Forall_app. split; [exact Hs |]. by apply Forall_singleton.
  - destruct (unlink_rows w s) as [-> _]. rewrite Forall_forall in Hs |- *. intros r Hin.
    apply Hs. eapply elem_of_sublist; [exact Hin | apply remove_wallet_sublist].
  - unfold setSuppressed. destruct (row_of x (rows s)); [| exact Hs]. by apply replace_row_storable.
  - unfold putAvatar. destruct (row_of x (rows s)); [| exact Hs]. apply replace_row_storable; [exact Hs |].
    by intros r _ (H1 & H2 & H3 & _).
Qed.

Definition no_rows : Register := mkRegister [] ∅.

(** A register that started empty, whatever was done to it. *)
Lemma register_well_formed os : Forall hashes os ->
  unique_rows (apply_ops os no_rows) /\ Forall storable_row (rows (apply_ops os no_rows)).
Proof.
  intros Hos. split; [apply ops_unique; split; constructor |].
  assert (Hgen : forall s, Forall storable_row (rows s) -> Forall storable_row (rows (apply_ops os s))); [| by apply Hgen].
  induction Hos as [| o os Ho Hos IH]; intros s Hs; [exact Hs |]. by apply IH, op_storable.
Qed.

(** ** From the register to the page *)

Section EndToEnd.
Context (pubkey : string -> option (list Z)) (sign : list Z -> list Z -> list Z).
Context (verify : list Z -> list Z -> list Z -> option bool).
Context (reservedXIds : gset string) (key : AttestationKey) (public : list Z) (trusted : list string).
(** ed25519 under this key: signatures are 64 bytes and verify under the public
    half, whose base58 text the browser trusts. *)
Hypothesis sign_bytes : forall msg, length (sign msg (secret key)) = 64%nat /\ Forall byte (sign msg (secret key)).
Hypothesis sign_verifies : forall msg, verify (sign msg (secret key)) msg public = Some true.
Hypothesis key_decodes : pubkey (publicKey key) = Some public.
Hypothesis public_bytes : length public = 32%nat.
Hypothesis key_trusted : publicKey key ∈ trusted.

(** What the page shows for a row served at [now]. *)
Definition face_of (now : Z) (r : MemoryRow) : LinkRecord :=
  mkRecord (row_wallet r) (row_xId r) (row_handle r) (nameOrNone (lit (row_displayName r)))
    ((fun a => avatarPathFor (row_xId r) a.1.1) <$> row_avatar r) (linkedAt r) now (now + ATTESTATION_TTL_SECONDS).

Lemma attested_row_verifies r now t : storable_row r -> now <= t + CLOCK_SKEW_GRACE_SECONDS ->
  verifyAttestation pubkey verify (wire (attestRow sign key r now)) trusted t =
  if now + ATTESTATION_TTL_SECONDS <=? t then inl expired else inr (face_of now r).
Proof.
  intros (Hw & Hh & Hx & Ha) Ht. unfold verifyAttestation, attestRow, signAttestation.
  set (sig := sign _ _). cbn [attested payloadOf p_wallet p_handle p_xId p_avatarPath p_displayName p_linkedAt
    a_wallet a_handle a_xId a_avatarPath a_expiresAt a_issuedAt a_keyId a_sig]. rewrite Hw, Hh, Hx. cbn [negb].
  set (path := match row_avatar r with Some _ => _ | None => _ end).
  assert (Hpath : negb (String.eqb path EmptyString) && negb (AVATAR_PATH_RE path) = false /\
    negb (String.eqb path EmptyString) && negb (String.prefix ("/api/avatar/" +:+ (row_xId r +:+ "/")) path) = false).
  { subst path. destruct (row_avatar r) as [[[h bs] at_] |]; [| done].
    unfold AVATAR_PATH_RE. by rewrite avatar_route_roundtrip, avatarPathFor_prefix, avatarPathFor_nonempty. }
  destruct Hpath as [-> ->]. destruct (Z.leb_spec (now + ATTESTATION_TTL_SECONDS) t) as [|]; [done |].
  rewrite (proj2 (Z.ltb_ge _ _)) by lia. rewrite bool_decide_eq_true_2 by done. cbn [negb].
  unfold attestationKeyBytes. rewrite key_decodes, public_bytes. cbn [Nat.eqb].
  rewrite base64_roundtrip by apply sign_bytes.
  assert (Hv : verify sig (canonicalBytes (attested (payloadOf r) now (publicKey key) (base64 sig))) public = Some true)
    by apply sign_verifies.
  rewrite Hv. unfold mint, face_of. cbn [attested payloadOf p_wallet p_handle p_xId p_avatarPath p_displayName p_linkedAt
    a_wallet a_handle a_xId a_avatarPath a_expiresAt a_issuedAt a_displayName a_linkedAt].
  fold path. f_equal. f_equal. subst path. by destruct (row_avatar r) as [[[h bs] at_] |].
Qed.

Lemma take_all_believed now t rs acc : Forall storable_row rs -> now <= t + CLOCK_SKEW_GRACE_SECONDS ->
  t < now + ATTESTATION_TTL_SECONDS -> NoDup ((r_wallet <$> acc.1) ++ (row_wallet <$> rs)) ->
  foldl (takeEntry pubkey verify trusted t) acc ((fun r => wire (attestRow sign key r now)) <$> rs) =
  (acc.1 ++ (face_of now <$> rs), acc.2).
Proof.
  intros Hrs Ht Hlive. revert acc. induction Hrs as [| r rs Hr Hrs IH]; intros [links rejected] Hnd; cbn [fmap list_fmap foldl fst snd] in *.
  - by rewrite app_nil_r.
  - unfold takeEntry at 2. rewrite attested_row_verifies by done. rewrite (proj2 (Z.leb_gt _ _)) by lia.
    rewrite bool_decide_eq_false_2.
    + rewrite IH; cbn [fst snd].
      * by rewrite <- app_assoc.
      * rewrite fmap_app, <- app_assoc. exact Hnd.
    + apply NoDup_app in Hnd as (_ & Hnd & _). intros Hin. apply (Hnd _ Hin). left.
Qed.

Lemma take_all_expired now t rs acc : Forall storable_row rs -> now <= t + CLOCK_SKEW_GRACE_SECONDS ->
  now + ATTESTATION_TTL_SECONDS <= t ->
  foldl (takeEntry pubkey verify trusted t) acc ((fun r => wire (attestRow sign key r now)) <$> rs) =
  (acc.1, acc.2 ++ replicate (length rs) expired).
Proof.
  intros Hrs Ht Hold. revert acc. induction Hrs as [| r rs Hr Hrs IH]; intros [links rejected]; cbn [fmap list_fmap foldl fst snd] in *.
  - by rewrite app_nil_r.
  - unfold takeEntry at 2. rewrite attested_row_verifies by done. rewrite (proj2 (Z.leb_le _ _)) by lia.
    rewrite IH. cbn. by rewrite <- app_assoc.
Qed.

(** The rows a query may show. *)
Definition shown (house : gset string) (wallets : list string) (s : Register) : list MemoryRow :=
  base.filter (fun r => row_wallet r ∈ wallets /\ suppressed r = false /\ (row_wallet r ∉ house) /\ (row_xId r ∉ reservedXIds)) (rows s).

Lemma shown_served house wallets s : List.filter (servable reservedXIds house) (findByWallets wallets s) = shown house wallets s.
Proof.
  unfold shown, findByWallets. induction (rows s) as [| r rs IH]; [done |]. rewrite !filter_cons.
  destruct (decide (row_wallet r ∈ wallets /\ suppressed r = false)) as [Hr | Hr].
  - cbn [List.filter]. unfold servable at 1, isReservedXId. rewrite IH.
    repeat case_bool_decide; cbn [negb andb]; first [rewrite decide_False by tauto | rewrite decide_True by tauto]; done.
  - rewrite decide_False by tauto. exact IH.
Qed.

Lemma shown_sublist house wallets s : sublist (shown house wallets s) (rows s).
Proof. apply sublist_filter. Qed.

Lemma shown_bounded house raw wallets s : parseWalletList pubkey raw = inr wallets -> unique_rows s ->
  (length (shown house wallets s) <= Z.to_nat MAX_WALLETS_PER_QUERY)%nat.
Proof.
  intros (_ & Hmax & _ & _)%parseWalletList_bounded [_ Hw].
  assert (Hle : (length (row_wallet <$> shown house wallets s) <= length wallets)%nat).
  { apply submseteq_length, NoDup_submseteq.
    - eapply sublist_NoDup; [exact Hw | apply sublist_fmap, shown_sublist].
    - intros w (r & -> & Hin)%list_elem_of_fmap. by apply list_elem_of_filter in Hin as [[Hin _] _]. }
  rewrite length_fmap in Hle. lia.
Qed.

(** C12. The page shows exactly what the register may show.  After any history of
    the register, a query the API answers is believed by a browser that trusts
    its key entry by entry: it draws the face of each row that is on a wallet it
    asked about, not suppressed, not on a wallet of the house and not reserved,
    each with the handle, name, picture and instants of the row, and rejects
    nothing; seven days after the answer it draws none of them. *)
Theorem served_links_are_believed os q house wallets t : Forall hashes os ->
  l_method q = "GET" -> parseWalletList pubkey (match l_wallets q with [w] => Some w | _ => None end) = inr wallets ->
  l_house q = Some house -> l_nowSec q <= t + CLOCK_SKEW_GRACE_SECONDS ->
  let s := apply_ops os no_rows in
  exists links, handleLinks pubkey sign reservedXIds key q s = links_ok links true /\
    linkMapFrom pubkey verify (Some (wire <$> links)) trusted t =
    if l_nowSec q + ATTESTATION_TTL_SECONDS <=? t then ([], replicate (length links) expired)
    else (face_of (l_nowSec q) <$> shown house wallets s, []).
Proof.
  intros Hos Hm Hparse Hhouse Ht s. destruct (register_well_formed os Hos) as [Huniq Hstore]. fold s in Huniq, Hstore.
  unfold handleLinks. rewrite Hm, Hparse, Hhouse. cbn [String.eqb negb andb]. eexists. split; [reflexivity |].
  rewrite shown_served, <- list_fmap_compose, length_fmap.
  assert (Hrs : Forall storable_row (shown house wallets s)).
  { rewrite Forall_forall in Hstore |- *. intros r Hin. apply Hstore. eapply elem_of_sublist; [exact Hin | apply shown_sublist]. }
  unfold linkMapFrom. rewrite take_ge by (rewrite length_fmap; by eapply shown_bounded).
  destruct (Z.leb_spec (l_nowSec q + ATTESTATION_TTL_SECONDS) t) as [Hold | Hlive].
  - exact (take_all_expired _ _ _ ([], []) Hrs Ht Hold).
  - refine (take_all_believed _ _ _ ([], []) Hrs Ht Hlive _). destruct Huniq as [_ Hw].
    eapply sublist_NoDup; [exact Hw | apply sublist_fmap, shown_sublist].
Qed.
End EndToEnd.

(** A toy signature that reads its message: 64 bytes of its length. *)
Definition toy_sign (msg sec : list Z) : list Z := replicate 64 (Z.of_nat (length msg) mod 256).
Definition toy_verify (sig msg key : list Z) : option bool := Some (bool_decide (sig = toy_sign msg key)).
Definition toy_pubkey (w : string) : option (list Z) := if matches is_base58 32 44 w then Some (replicate 32 7) else None.
Definition toy_key : AttestationKey := mkKey (replicate 32 9) other_wallet.
Definition sample_query : LinksRequest := mkLinksRequest "GET" [sample_wallet] 1700000100 (Some {[ other_wallet ]}).

Lemma served_links_are_believed_witness :
  exists links, handleLinks toy_pubkey toy_sign RESERVED_MOCK_X_IDS toy_key sample_query
      (apply_ops [op_link sample_wallet sample_face 1700000060] no_rows) = links_ok links true /\
    linkMapFrom toy_pubkey toy_verify (Some (wire <$> links)) [other_wallet] 1700000200 =
      ([mkRecord sample_wallet "44196397" "player_one" (Some (lit "Player One")) None 1700000060 1700000100 1700604900], []).
Proof.
  refine (served_links_are_believed toy_pubkey toy_sign toy_verify RESERVED_MOCK_X_IDS toy_key (replicate 32 7) [other_wallet]
    _ _ _ _ _ [op_link sample_wallet sample_face 1700000060] sample_query {[ other_wallet ]} [sample_wallet] 1700000200 _ _ _ _ _).
  - intros msg. split; [apply length_replicate |]. apply Forall_replicate, Z.mod_pos_bound. lia.
  - intros msg. unfold toy_verify. f_equal. by apply bool_decide_eq_true_2.
  - vm_compute. reflexivity.
  - reflexivity.
  - left.
  - repeat constructor.
  - reflexivity.
  - vm_compute. reflexivity.
  - reflexivity.
  - by vm_compute.
Defined.
