(* ===== verification/KeeperStatus.v ===== *)
(** * The keeper's status file: its shape and its reader

    The contract of [er-demo/src/v2/data/keeperStatus.ts]: what the keeper
    publishes about itself and its round, the validator every page reads it
    through, and the countdown a page may show from it.  Strings are lists of
    code units, as [JSON.parse] returns them. *)
From S2P Require Import Prelude Text JsNum Chain Json.

Definition KEEPER_STATUS_SCHEMA : num := of_Z 6.

Record KeeperRoundStatus : Type := mkRoundStatus {
  ks_no : num;
  ks_pda : units;
  ks_phase : PhaseName;
  ks_phaseCode : num;
  ks_lobbyOpenedAt : num;
  ks_lobbyClosesAt : num;
  ks_fightStartedAt : num;
  ks_fighterCount : num;
  ks_heldOpen : bool;
  ks_winner : num;
  ks_pot : units;
}.

Record KeeperError : Type := mkKeeperError { ke_at : num; ke_context : units }.

Record KeeperLowBalance : Type := mkLowBalance { lb_since : num; lb_lamports : units; lb_floorLamports : units }.

Inductive NotOpeningReason : Type := low_balance | rent_not_reclaimed | rent_not_swept.

Definition NOT_OPENING_REASONS : list NotOpeningReason := [low_balance; rent_not_reclaimed; rent_not_swept].

Record KeeperSelf : Type := mkSelf {
  startedAt : num;
  heartbeatAt : num;
  heartbeatIntervalSeconds : num;
  staleAfterSeconds : num;
  stalledSince : option num;
  roundsCompleted : num;
  lastError : option KeeperError;
  wedgedRounds : list num;
  lowBalance : option KeeperLowBalance;
  notOpeningRounds : option NotOpeningReason;
  houseOnlyRounds : bool;
}.

Record ErValidator : Type := mkValidator { ev_identity : units; ev_fqdn : units }.

(** [cluster] is the one word the type allows, so it is no field here. *)
Record ChainStatus : Type := mkChainStatus { programId : units; arenaPda : units; erValidator : option ErValidator }.

Record KeeperStatus : Type := mkStatus {
  keeper : KeeperSelf;
  chain : ChainStatus;
  round : option KeeperRoundStatus;
  entriesCloseAt : option num;
  nextLobbyOpensAt : option num;
}.

Definition phase_text (p : PhaseName) : units :=
  lit match p with
      | Lobby => "Lobby" | Drawing => "Drawing" | Fight => "Fight" | Settled => "Settled" | Abandoned => "Abandoned"
      end.

Definition reason_text (r : NotOpeningReason) : units :=
  lit match r with
      | low_balance => "low-balance" | rent_not_reclaimed => "rent-not-reclaimed" | rent_not_swept => "rent-not-swept"
      end.

(** ** The guards *)

(** A type guard on a property that may be absent. *)
Definition isNumber (v : option json) : option num :=
  match v with Some (JNum x) => if is_finite x then Some x else None | _ => None end.

Definition isString (v : option json) : option units :=
  match v with Some (JStr s) => Some s | _ => None end.

Definition isBoolean (v : option json) : option bool :=
  match v with Some (JBool b) => Some b | _ => None end.

Definition isRecord (v : option json) : option json :=
  match v with Some (JObj fs) => Some (JObj fs) | _ => None end.

Definition U64_MAX : Z := 18446744073709551615.

Definition isU64String (v : option json) : option units :=
  match v with
  | Some (JStr s) =>
      if forallb digit s && (1 <=? length s)%nat && (length s <=? 20)%nat && (undigits s <=? U64_MAX) then Some s else None
  | _ => None
  end.

Definition isNumberArray (v : option json) : option (list num) :=
  match v with Some (JArr l) => mapM (fun x => isNumber (Some x)) l | _ => None end.

(** [x === null ? null : read(x)], refusing what reads as nothing. *)
Definition orNull {A} (read : option json -> option A) (v : option json) : option (option A) :=
  match v with Some JNull => Some None | v => Some <$> read v end.

Definition isNotOpeningReason (v : option json) : option NotOpeningReason :=
  s ← isString v; List.find (fun r => bool_decide (reason_text r = s)) NOT_OPENING_REASONS.

Definition parseError (raw : option json) : option KeeperError :=
  raw ← isRecord raw;
  at_ ← isNumber (field "at" raw);
  context ← isString (field "context" raw);
  Some (mkKeeperError at_ context).

Definition parseLowBalance (raw : option json) : option KeeperLowBalance :=
  raw ← isRecord raw;
  since ← isNumber (field "since" raw);
  lamports ← isU64String (field "lamports" raw);
  floorLamports ← isU64String (field "floorLamports" raw);
  Some (mkLowBalance since lamports floorLamports).

Definition parseValidator (raw : option json) : option ErValidator :=
  raw ← isRecord raw;
  identity ← isString (field "identity" raw);
  fqdn ← isString (field "fqdn" raw);
  Some (mkValidator identity fqdn).

(** [PHASE_NAME[phaseCode]] under the range check on it. *)
Definition phaseNamed (phaseCode : num) : option PhaseName :=
  match phaseCode with
  | Fin m => if (m mod one =? 0) && (0 <=? m) then PHASE_NAME !! Z.to_nat (m / one) else None
  | _ => None
  end.

Definition parseRound (raw : option json) : option KeeperRoundStatus :=
  raw ← isRecord raw;
  no ← isNumber (field "no" raw);
  phaseCode ← isNumber (field "phaseCode" raw);
  lobbyOpenedAt ← isNumber (field "lobbyOpenedAt" raw);
  lobbyClosesAt ← isNumber (field "lobbyClosesAt" raw);
  fightStartedAt ← isNumber (field "fightStartedAt" raw);
  fighterCount ← isNumber (field "fighterCount" raw);
  heldOpen ← isBoolean (field "heldOpen" raw);
  winner ← isNumber (field "winner" raw);
  pda ← isString (field "pda" raw);
  pot ← isU64String (field "pot" raw);
  phase ← phaseNamed phaseCode;
  text ← isString (field "phase" raw);
  if bool_decide (text = phase_text phase) then
    Some (mkRoundStatus no pda phase phaseCode lobbyOpenedAt lobbyClosesAt fightStartedAt fighterCount heldOpen winner pot)
  else None.

Definition parseKeeper (k : json) : option KeeperSelf :=
  startedAt ← isNumber (field "startedAt" k);
  heartbeatAt ← isNumber (field "heartbeatAt" k);
  heartbeatIntervalSeconds ← isNumber (field "heartbeatIntervalSeconds" k);
  staleAfterSeconds ← isNumber (field "staleAfterSeconds" k);
  roundsCompleted ← isNumber (field "roundsCompleted" k);
  wedgedRounds ← isNumberArray (field "wedgedRounds" k);
  lastError ← orNull parseError (field "lastError" k);
  stalledSince ← orNull isNumber (field "stalledSince" k);
  lowBalance ← orNull parseLowBalance (field "lowBalance" k);
  notOpeningRounds ← orNull isNotOpeningReason (field "notOpeningRounds" k);
  houseOnlyRounds ← isBoolean (field "houseOnlyRounds" k);
  Some (mkSelf startedAt heartbeatAt heartbeatIntervalSeconds staleAfterSeconds stalledSince roundsCompleted lastError
          wedgedRounds lowBalance notOpeningRounds houseOnlyRounds).

Definition parseChain (c : json) : option ChainStatus :=
  cluster ← isString (field "cluster" c);
  if bool_decide (cluster = lit "devnet") then
    programId ← isString (field "programId" c);
    arenaPda ← isString (field "arenaPda" c);
    erValidator ← orNull parseValidator (field "erValidator" c);
    Some (mkChainStatus programId arenaPda erValidator)
  else None.

(** [None] stands for null: the file says nothing a page may use. *)
Definition parseKeeperStatus (raw : json) : option KeeperStatus :=
  raw ← isRecord (Some raw);
  schema ← isNumber (field "schema" raw);
  if eqb schema KEEPER_STATUS_SCHEMA then
    k ← isRecord (field "keeper" raw);
    keeper ← parseKeeper k;
    c ← isRecord (field "chain" raw);
    chain ← parseChain c;
    round ← orNull parseRound (field "round" raw);
    nextLobbyOpensAt ← orNull isNumber (field "nextLobbyOpensAt" raw);
    entriesCloseAt ← orNull isNumber (field "entriesCloseAt" raw);
    Some (mkStatus keeper chain round entriesCloseAt nextLobbyOpensAt)
  else None.

(** ** What a page may conclude *)

Definition isKeeperStale (status : KeeperStatus) (nowSec : num) : bool :=
  ltb (staleAfterSeconds (keeper status)) (sub nowSec (heartbeatAt (keeper status))).


Definition isKeeperStalled (status : KeeperStatus) (nowSec : num) : bool :=
  present (stalledSince (keeper status)) && negb (isKeeperStale status nowSec).

Definition isKeeperOutOfFunds (status : KeeperStatus) (nowSec : num) : bool :=
  present (lowBalance (keeper status)) && negb (isKeeperStale status nowSec) && negb (isKeeperStalled status nowSec).

Inductive KeeperCountdown : Type :=
| entries_close (seconds : num)
| next_lobby (seconds : num)
| waiting_for_players
| no_countdown.

Definition secondsUntil (deadlineSec nowSec : num) : num := max (of_Z 0) (ceil (sub deadlineSec nowSec)).

Definition keeperCountdown (status : option KeeperStatus) (nowSec : num) : KeeperCountdown :=
  match status with
  | None => no_countdown
  | Some status =>
      if isKeeperStale status nowSec || isKeeperStalled status nowSec then no_countdown else
      match round status with
      | None => no_countdown
      | Some r =>
          match ks_phase r with
          | Lobby =>
              if ks_heldOpen r then waiting_for_players else
              match entriesCloseAt status with
              | Some closes => if leb closes nowSec then no_countdown else entries_close (secondsUntil closes nowSec)
              | None =>
                  if leb (ks_lobbyClosesAt r) nowSec then no_countdown
                  else entries_close (secondsUntil (ks_lobbyClosesAt r) nowSec)
              end
          | Settled | Abandoned =>
              if present (notOpeningRounds (keeper status)) then no_countdown else
              match nextLobbyOpensAt status with
              | None => no_countdown
              | Some opensAt => if leb opensAt nowSec then no_countdown else next_lobby (secondsUntil opensAt nowSec)
              end
          | _ => no_countdown
          end
      end
  end.
