(* ===== verification/StatusFile.v ===== *)
(** * The keeper's status file: its writer

    The publisher of [er-demo/scripts/keeper/statusFile.ts]: the value it
    keeps, the two countdowns it reconciles with the round when it renders, and
    the two channels a reader may take the rendered text from, the HTTP body
    and the file.  Each call on the publisher is an operation of a sequence; a
    publication says whether the disk accepted the write. *)
From S2P Require Import Prelude Text JsNum Chain Json KeeperStatus.

(** ** Serialization *)

Definition nullable {A} (f : A -> json) (x : option A) : json := match x with Some a => f a | None => JNull end.

Definition error_json (e : KeeperError) : json := JObj [(lit "at", JNum (ke_at e)); (lit "context", JStr (ke_context e))].

Definition low_json (l : KeeperLowBalance) : json :=
  JObj [(lit "since", JNum (lb_since l)); (lit "lamports", JStr (lb_lamports l)); (lit "floorLamports", JStr (lb_floorLamports l))].

Definition validator_json (v : ErValidator) : json :=
  JObj [(lit "identity", JStr (ev_identity v)); (lit "fqdn", JStr (ev_fqdn v))].

Definition round_json (r : KeeperRoundStatus) : json :=
  JObj [(lit "no", JNum (ks_no r)); (lit "pda", JStr (ks_pda r)); (lit "phase", JStr (phase_text (ks_phase r)));
        (lit "phaseCode", JNum (ks_phaseCode r)); (lit "lobbyOpenedAt", JNum (ks_lobbyOpenedAt r));
        (lit "lobbyClosesAt", JNum (ks_lobbyClosesAt r)); (lit "fightStartedAt", JNum (ks_fightStartedAt r));
        (lit "fighterCount", JNum (ks_fighterCount r)); (lit "heldOpen", JBool (ks_heldOpen r));
        (lit "winner", JNum (ks_winner r)); (lit "pot", JStr (ks_pot r))].

Definition keeper_json (k : KeeperSelf) : json :=
  JObj [(lit "startedAt", JNum (startedAt k)); (lit "heartbeatAt", JNum (heartbeatAt k));
        (lit "heartbeatIntervalSeconds", JNum (heartbeatIntervalSeconds k)); (lit "staleAfterSeconds", JNum (staleAfterSeconds k));
        (lit "roundsCompleted", JNum (roundsCompleted k)); (lit "lastError", nullable error_json (lastError k));
        (lit "stalledSince", nullable JNum (stalledSince k)); (lit "wedgedRounds", JArr (JNum <$> wedgedRounds k));
        (lit "lowBalance", nullable low_json (lowBalance k));
        (lit "notOpeningRounds", nullable (fun r => JStr (reason_text r)) (notOpeningRounds k));
        (lit "houseOnlyRounds", JBool (houseOnlyRounds k))].

Definition chain_json (c : ChainStatus) : json :=
  JObj [(lit "cluster", JStr (lit "devnet")); (lit "programId", JStr (programId c)); (lit "arenaPda", JStr (arenaPda c));
        (lit "erValidator", nullable validator_json (erValidator c))].

(** The object [status], in the order its literal creates the properties. *)
Definition status_json (s : KeeperStatus) : json :=
  JObj [(lit "schema", JNum KEEPER_STATUS_SCHEMA); (lit "keeper", keeper_json (keeper s)); (lit "chain", chain_json (chain s));
        (lit "round", nullable round_json (round s)); (lit "entriesCloseAt", nullable JNum (entriesCloseAt s));
        (lit "nextLobbyOpensAt", nullable JNum (nextLobbyOpensAt s))].

Definition serializeKeeperStatus (status : KeeperStatus) : units := stringify [32; 32] (status_json status) ++ [10].

(** ** A round, as it is published *)

(** What the publisher reads of a round account: the integers of the chain. *)
Record RawRoundAccount : Type := mkRawRoundAccount {
  raw_roundNo : Z;
  raw_phase : Z;
  raw_lobbyOpenedAt : Z;
  raw_lobbyClosesAt : Z;
  raw_fightStartedAt : Z;
  raw_fighterCount : Z;
  raw_winner : Z;
  raw_pot : Z;
}.

(** [Number(x.toString())] of an integer of the chain rounds as [of_Z] does;
    a phase outside the program's five throws. *)
Definition roundStatusFrom (round : RawRoundAccount) (roundPda : units) (heldOpen : bool) : outcome unit KeeperRoundStatus :=
  match (if 0 <=? raw_phase round then PHASE_NAME !! Z.to_nat (raw_phase round) else None) with
  | None => Throw tt
  | Some phaseName =>
      Done (mkRoundStatus (of_Z (raw_roundNo round)) roundPda phaseName (of_Z (raw_phase round))
              (of_Z (raw_lobbyOpenedAt round)) (of_Z (raw_lobbyClosesAt round)) (of_Z (raw_fightStartedAt round))
              (of_Z (raw_fighterCount round)) heldOpen (of_Z (raw_winner round)) (digits (raw_pot round)))
  end.

(** ** The countdowns *)

Record CountdownLatch : Type := mkLatch { latch_roundNo : num; latch_at : num }.

Definition HOLD_PHASES : list num := [of_Z Phase_Settled; of_Z Phase_Abandoned].

Definition held (r : KeeperRoundStatus) : bool := existsb (eqb (ks_phaseCode r)) HOLD_PHASES.

Definition honestNextLobbyOpensAt (round : option KeeperRoundStatus) (candidate : option num) (latch : option CountdownLatch) :
  option num * option CountdownLatch :=
  match round with
  | None => (None, latch)
  | Some r =>
      if negb (held r) then (None, latch) else
      match latch with
      | Some l => if eqb (latch_roundNo l) (ks_no r) then (Some (latch_at l), latch) else
          match candidate with None => (None, latch) | Some c => (Some c, Some (mkLatch (ks_no r) c)) end
      | None => match candidate with None => (None, latch) | Some c => (Some c, Some (mkLatch (ks_no r) c)) end
      end
  end.

Definition honestEntriesCloseAt (round : option KeeperRoundStatus) (candidate : option num) : option num :=
  match round with
  | Some r => if eqb (ks_phaseCode r) (of_Z Phase_Lobby) then candidate else None
  | None => None
  end.

(** ** The publisher *)

Record StatusPublisher : Type := mkPublisher {
  status : KeeperStatus;
  heartbeat : bool;                     (** the interval is armed *)
  latch : option CountdownLatch;
  proposedNextLobbyOpensAt : option num;
  proposedEntriesCloseAt : option num;
  writeFailures : Z;
  published : units;
  file : option units;                  (** what a reader of the path finds *)
}.

Record StatusPublisherOptions : Type := mkPublisherOptions {
  opt_programId : units;
  opt_arenaPda : units;
  opt_houseOnlyRounds : bool;
  HEARTBEAT_INTERVAL_SECONDS : num;
  STALE_AFTER_SECONDS : num;
}.

Definition over_keeper (f : KeeperSelf -> KeeperSelf) (s : KeeperStatus) : KeeperStatus :=
  mkStatus (f (keeper s)) (chain s) (round s) (entriesCloseAt s) (nextLobbyOpensAt s).

Definition over_status (f : KeeperStatus -> KeeperStatus) (p : StatusPublisher) : StatusPublisher :=
  mkPublisher (f (status p)) (heartbeat p) (latch p) (proposedNextLobbyOpensAt p) (proposedEntriesCloseAt p)
    (writeFailures p) (published p) (file p).

(** [render()], with the text it returns kept as [published], as both callers do. *)
Definition render (p : StatusPublisher) : StatusPublisher :=
  let '(at_, latch') := honestNextLobbyOpensAt (round (status p)) (proposedNextLobbyOpensAt p) (latch p) in
  let s := mkStatus (keeper (status p)) (chain (status p)) (round (status p))
             (honestEntriesCloseAt (round (status p)) (proposedEntriesCloseAt p)) at_ in
  mkPublisher s (heartbeat p) latch' (proposedNextLobbyOpensAt p) (proposedEntriesCloseAt p) (writeFailures p)
    (serializeKeeperStatus s) (file p).

(** The write goes to a temporary file first: when it fails the path keeps
    what it had. *)
Definition publishSafely (disk : bool) (p : StatusPublisher) : StatusPublisher :=
  let p := render p in
  mkPublisher (status p) (heartbeat p) (latch p) (proposedNextLobbyOpensAt p) (proposedEntriesCloseAt p)
    (if disk then 0 else writeFailures p + 1) (published p) (if disk then Some (published p) else file p).

Definition createStatusPublisher (options : StatusPublisherOptions) (nowSec : num) (found : option units) : StatusPublisher :=
  let status :=
    mkStatus
      (mkSelf nowSec nowSec (HEARTBEAT_INTERVAL_SECONDS options) (STALE_AFTER_SECONDS options) None (of_Z 0) None [] None None
         (opt_houseOnlyRounds options))
      (mkChainStatus (opt_programId options) (opt_arenaPda options) None) None None None in
  render (mkPublisher status false None None None 0 [] found).

Definition heartbeatAgeSeconds (nowSec : num) (p : StatusPublisher) : num := sub nowSec (heartbeatAt (keeper (status p))).

Definition setErValidator (v : option ErValidator) : StatusPublisher -> StatusPublisher :=
  over_status (fun s => mkStatus (keeper s) (mkChainStatus (programId (chain s)) (arenaPda (chain s)) v) (round s)
                          (entriesCloseAt s) (nextLobbyOpensAt s)).

Definition setRound (r : option KeeperRoundStatus) : StatusPublisher -> StatusPublisher :=
  over_status (fun s => mkStatus (keeper s) (chain s) r (entriesCloseAt s) (nextLobbyOpensAt s)).

Definition setNextLobbyOpensAt (at_ : option num) (p : StatusPublisher) : StatusPublisher :=
  mkPublisher (status p) (heartbeat p) (latch p) at_ (proposedEntriesCloseAt p) (writeFailures p) (published p) (file p).

Definition setEntriesCloseAt (at_ : option num) (p : StatusPublisher) : StatusPublisher :=
  mkPublisher (status p) (heartbeat p) (latch p) (proposedNextLobbyOpensAt p) at_ (writeFailures p) (published p) (file p).

Definition setLastError (err : option KeeperError) : StatusPublisher -> StatusPublisher :=
  over_status (over_keeper (fun k => mkSelf (startedAt k) (heartbeatAt k) (heartbeatIntervalSeconds k) (staleAfterSeconds k)
    (stalledSince k) (roundsCompleted k) err (wedgedRounds k) (lowBalance k) (notOpeningRounds k) (houseOnlyRounds k))).

Definition setStalledSince (at_ : option num) : StatusPublisher -> StatusPublisher :=
  over_status (over_keeper (fun k => mkSelf (startedAt k) (heartbeatAt k) (heartbeatIntervalSeconds k) (staleAfterSeconds k)
    at_ (roundsCompleted k) (lastError k) (wedgedRounds k) (lowBalance k) (notOpeningRounds k) (houseOnlyRounds k))).

(** [since] is when the shortage was first reported, not this report. *)
Definition setLowBalance (low : option (Z * Z * num)) : StatusPublisher -> StatusPublisher :=
  over_status (over_keeper (fun k => mkSelf (startedAt k) (heartbeatAt k) (heartbeatIntervalSeconds k) (staleAfterSeconds k)
    (stalledSince k) (roundsCompleted k) (lastError k) (wedgedRounds k)
    (match low with
     | None => None
     | Some (lamports, floorLamports, nowSec) =>
         Some (mkLowBalance (default nowSec (lb_since <$> lowBalance k)) (digits lamports) (digits floorLamports))
     end)
    (notOpeningRounds k) (houseOnlyRounds k))).

Definition setNotOpeningRounds (reason : option NotOpeningReason) : StatusPublisher -> StatusPublisher :=
  over_status (over_keeper (fun k => mkSelf (startedAt k) (heartbeatAt k) (heartbeatIntervalSeconds k) (staleAfterSeconds k)
    (stalledSince k) (roundsCompleted k) (lastError k) (wedgedRounds k) (lowBalance k) reason (houseOnlyRounds k))).

Definition addWedgedRound (roundNo : num) (p : StatusPublisher) : bool * StatusPublisher :=
  if existsb (eqb roundNo) (wedgedRounds (keeper (status p))) then (false, p) else
  (true, over_status (over_keeper (fun k => mkSelf (startedAt k) (heartbeatAt k) (heartbeatIntervalSeconds k) (staleAfterSeconds k)
    (stalledSince k) (roundsCompleted k) (lastError k) (wedgedRounds k ++ [roundNo]) (lowBalance k) (notOpeningRounds k)
    (houseOnlyRounds k))) p).

Definition setRoundsCompleted (count : num) : StatusPublisher -> StatusPublisher :=
  over_status (over_keeper (fun k => mkSelf (startedAt k) (heartbeatAt k) (heartbeatIntervalSeconds k) (staleAfterSeconds k)
    (stalledSince k) count (lastError k) (wedgedRounds k) (lowBalance k) (notOpeningRounds k) (houseOnlyRounds k))).

Definition setHeartbeatAt (at_ : num) : StatusPublisher -> StatusPublisher :=
  over_status (over_keeper (fun k => mkSelf (startedAt k) at_ (heartbeatIntervalSeconds k) (staleAfterSeconds k)
    (stalledSince k) (roundsCompleted k) (lastError k) (wedgedRounds k) (lowBalance k) (notOpeningRounds k) (houseOnlyRounds k))).

Definition set_heartbeat (on : bool) (p : StatusPublisher) : StatusPublisher :=
  mkPublisher (status p) on (latch p) (proposedNextLobbyOpensAt p) (proposedEntriesCloseAt p) (writeFailures p) (published p) (file p).

(** ** Operations *)

Inductive StatusOp : Type :=
| op_setErValidator (v : option ErValidator)
| op_setRound (r : option KeeperRoundStatus)
| op_setNextLobbyOpensAt (at_ : option num)
| op_setEntriesCloseAt (at_ : option num)
| op_setLastError (err : option KeeperError)
| op_setStalledSince (at_ : option num)
| op_setLowBalance (low : option (Z * Z * num))
| op_setNotOpeningRounds (reason : option NotOpeningReason)
| op_addWedgedRound (roundNo : num)
| op_setRoundsCompleted (count : num)
| op_publish (disk : bool)
| op_startHeartbeat
| op_stopHeartbeat
| op_beat (nowSec : num) (disk : bool).  (** the interval fires; its hook's calls come before it *)

Definition perform (op : StatusOp) (p : StatusPublisher) : StatusPublisher :=
  match op with
  | op_setErValidator v => setErValidator v p
  | op_setRound r => setRound r p
  | op_setNextLobbyOpensAt at_ => setNextLobbyOpensAt at_ p
  | op_setEntriesCloseAt at_ => setEntriesCloseAt at_ p
  | op_setLastError err => setLastError err p
  | op_setStalledSince at_ => setStalledSince at_ p
  | op_setLowBalance low => setLowBalance low p
  | op_setNotOpeningRounds reason => setNotOpeningRounds reason p
  | op_addWedgedRound roundNo => (addWedgedRound roundNo p).2
  | op_setRoundsCompleted count => setRoundsCompleted count p
  | op_publish disk => publishSafely disk p
  | op_startHeartbeat => set_heartbeat true p
  | op_stopHeartbeat => set_heartbeat false p
  | op_beat nowSec disk => if heartbeat p then publishSafely disk (setHeartbeatAt nowSec p) else p
  end.

Definition perform_all (ops : list StatusOp) (p : StatusPublisher) : StatusPublisher := foldl (fun p op => perform op p) p ops.

(** Whether an operation renders. *)
Definition renders (op : StatusOp) : bool := match op with op_publish _ | op_beat _ _ => true | _ => false end.

(** What a page gets from a text: [parseKeeperStatus(JSON.parse(text))]. *)
Definition read_status (text : units) : option KeeperStatus := v ← parse text; parseKeeperStatus v.
