(* ===== verification/StatusLaws.v ===== *)
(** * What a page reads is what the keeper published

    The two ends of the status file put together: whatever the keeper's
    publisher renders, the page's validator reads back, field by field; and the
    instant once promised for the next lobby is the one every later reading of
    the same round promises. *)
From S2P Require Import Prelude Text JsNum Chain Json KeeperStatus StatusFile.

(** ** Reading the fields of a literal object *)

Lemma field_hit k v fs : field k (JObj ((lit k, v) :: fs)) = Some v.
Proof. unfold field, assoc. cbn. by rewrite bool_decide_eq_true_2. Qed.

Lemma field_miss k k' v fs : lit k' <> lit k -> field k (JObj ((lit k', v) :: fs)) = field k (JObj fs).
Proof. intros H. unfold field, assoc. cbn. by rewrite bool_decide_eq_false_2. Qed.

(** Look a property up in an object written out. *)
Ltac fields := repeat first [rewrite field_hit | rewrite field_miss by (vm_compute; discriminate)].

Lemma unit_lit s : Forall unit_ok (lit s).
Proof.
  unfold lit. apply Forall_fmap, Forall_forall. intros c _. cbn. unfold unit_ok.
  pose proof (nat_ascii_bounded c). lia.
Qed.

#[export] Hint Resolve unit_lit : arena.

(** ** Values the publisher is given *)

Definition good_num (x : num) : Prop := is_double x /\ is_finite x = true.

Definition good_u64 (s : units) : Prop := isU64String (Some (JStr s)) = Some s.

Definition round_good (r : KeeperRoundStatus) : Prop :=
  good_num (ks_no r) /\ Forall unit_ok (ks_pda r) /\ phaseNamed (ks_phaseCode r) = Some (ks_phase r) /\
  good_num (ks_phaseCode r) /\ good_num (ks_lobbyOpenedAt r) /\ good_num (ks_lobbyClosesAt r) /\
  good_num (ks_fightStartedAt r) /\ good_num (ks_fighterCount r) /\ good_num (ks_winner r) /\ good_u64 (ks_pot r).

Definition error_good (e : KeeperError) : Prop := good_num (ke_at e) /\ Forall unit_ok (ke_context e).

Definition low_good (l : KeeperLowBalance) : Prop := good_num (lb_since l) /\ good_u64 (lb_lamports l) /\ good_u64 (lb_floorLamports l).

Definition validator_good (v : ErValidator) : Prop := Forall unit_ok (ev_identity v) /\ Forall unit_ok (ev_fqdn v).

Definition if_some {A} (P : A -> Prop) (x : option A) : Prop := match x with Some a => P a | None => True end.

Definition keeper_good (k : KeeperSelf) : Prop :=
  good_num (startedAt k) /\ good_num (heartbeatAt k) /\ good_num (heartbeatIntervalSeconds k) /\ good_num (staleAfterSeconds k) /\
  if_some good_num (stalledSince k) /\ good_num (roundsCompleted k) /\ if_some error_good (lastError k) /\
  Forall good_num (wedgedRounds k) /\ if_some low_good (lowBalance k).

Definition status_good (s : KeeperStatus) : Prop :=
  keeper_good (keeper s) /\
  (Forall unit_ok (programId (chain s)) /\ Forall unit_ok (arenaPda (chain s)) /\ if_some validator_good (erValidator (chain s))) /\
  if_some round_good (round s) /\ if_some good_num (entriesCloseAt s) /\ if_some good_num (nextLobbyOpensAt s).

(** ** The value is one the language can hold *)

Lemma u64_units s : good_u64 s -> Forall unit_ok s.
Proof.
  unfold good_u64, isU64String. case_match eqn:E; [| done]. intros _. zbool. apply Forall_forall. intros c Hc.
  apply list_elem_of_In in Hc. match goal with H : forallb _ _ = true |- _ => rewrite forallb_forall in H; apply H, digit_range in Hc end.
  unfold unit_ok. lia.
Qed.

#[export] Hint Resolve u64_units : arena.

Lemma good_json x : good_num x -> json_ok (JNum x).
Proof. intros []. by constructor. Qed.

Lemma str_json s : Forall unit_ok s -> json_ok (JStr s).
Proof. by constructor. Qed.

Lemma nullable_json {A} (f : A -> json) (P : A -> Prop) x : (forall a, P a -> json_ok (f a)) -> if_some P x -> json_ok (nullable f x).
Proof. intros H. destruct x; [apply H | constructor]. Qed.

Lemma schema_good : good_num KEEPER_STATUS_SCHEMA.
Proof. split; [apply of_Z_double | by apply of_Z_finite]. Qed.

Lemma num_eqb_eq x y : eqb x y = true -> x = y.
Proof. destruct x, y; cbn; try done; [by intros ->%eqb_prop | by intros ->%Z.eqb_eq]. Qed.

(** The keys of an object written out. *)
Ltac object :=
  apply ok_obj;
  [ apply (bool_decide_unpack _); vm_compute; exact I
  | repeat (apply Forall_cons; split; [apply unit_lit |]); apply Forall_nil_2
  | repeat (apply Forall_cons; split; [cbn [snd] |]); [.. | apply Forall_nil_2] ].

#[local] Hint Resolve good_json str_json ok_bool : arena.

Lemma error_json_ok e : error_good e -> json_ok (error_json e).
Proof. intros []. object; auto with arena. Qed.

Lemma low_json_ok l : low_good l -> json_ok (low_json l).
Proof. intros (? & ? & ?). object; auto with arena. Qed.

Lemma validator_json_ok v : validator_good v -> json_ok (validator_json v).
Proof. intros []. object; auto with arena. Qed.

Lemma round_json_ok r : round_good r -> json_ok (round_json r).
Proof. intros (? & ? & ? & ? & ? & ? & ? & ? & ? & ?). object; auto with arena. apply str_json, unit_lit. Qed.

Lemma keeper_json_ok k : keeper_good k -> json_ok (keeper_json k).
Proof.
  intros (? & ? & ? & ? & ? & ? & ? & Hw & ?). object; auto with arena.
  - apply (nullable_json _ error_good); [apply error_json_ok | done].
  - apply (nullable_json _ good_num); [apply good_json | done].
  - constructor. apply Forall_fmap. eapply Forall_impl; [exact Hw |]. intros x. apply good_json.
  - apply (nullable_json _ low_good); [apply low_json_ok | done].
  - apply (nullable_json _ (fun _ => True)); [intros r _; apply str_json, unit_lit |]. by destruct (notOpeningRounds k).
Qed.

Lemma status_json_ok s : status_good s -> json_ok (status_json s).
Proof.
  intros (Hk & (H1 & H2 & H3) & Hr & He & Hn). object.
  - apply good_json, schema_good.
  - by apply keeper_json_ok.
  - object; auto with arena. apply (nullable_json _ validator_good); [apply validator_json_ok | done].
  - apply (nullable_json _ round_good); [apply round_json_ok | done].
  - apply (nullable_json _ good_num); [apply good_json | done].
  - apply (nullable_json _ good_num); [apply good_json | done].
Qed.

(** ** The validator reads the value back *)

Lemma isNumber_good x : good_num x -> isNumber (Some (JNum x)) = Some x.
Proof. intros [_ H]. cbn. by rewrite H. Qed.

Lemma numbers_good l : Forall good_num l -> isNumberArray (Some (JArr (JNum <$> l))) = Some l.
Proof.
  intros Hl. apply mapM_Some_2, Forall2_fmap_l, Forall_Forall2_diag. eapply Forall_impl; [exact Hl |]. intros x. apply isNumber_good.
Qed.

Lemma orNull_nullable {A} (read : option json -> option A) (write : A -> json) (P : A -> Prop) x :
  (forall a, P a -> read (Some (write a)) = Some a /\ write a <> JNull) -> if_some P x ->
  orNull read (Some (nullable write x)) = Some x.
Proof.
  intros H Hx. destruct x as [a |]; [| done]. destruct (H a Hx) as [Hr Hn]. cbn in *. destruct (write a) eqn:E; try done; cbn; by rewrite Hr.
Qed.

Lemma orNull_number x : if_some good_num x -> orNull isNumber (Some (nullable JNum x)) = Some x.
Proof. apply (orNull_nullable _ _ good_num). intros a Ha. by rewrite isNumber_good. Qed.

(** Unfold one reader: each guard answers the field it is given. *)
Ltac reading :=
  repeat (fields; cbn [isRecord isString isBoolean mbind option_bind]; rewrite ?isNumber_good by done;
          cbn [isRecord isString isBoolean mbind option_bind]).

Lemma parse_error_json e : error_good e -> parseError (Some (error_json e)) = Some e /\ error_json e <> JNull.
Proof. intros []. split; [| done]. unfold parseError, error_json. reading. by destruct e. Qed.

Lemma parse_low_json l : low_good l -> parseLowBalance (Some (low_json l)) = Some l /\ low_json l <> JNull.
Proof.
  intros (Hs & Hl & Hf). split; [| done]. unfold parseLowBalance, low_json. reading. unfold good_u64 in Hl, Hf.
  rewrite Hl. cbn [mbind option_bind]. rewrite Hf. by destruct l.
Qed.

Lemma parse_validator_json v : parseValidator (Some (validator_json v)) = Some v /\ validator_json v <> JNull.
Proof. split; [| done]. unfold parseValidator, validator_json. reading. by destruct v. Qed.

Lemma parse_round_json r : round_good r -> parseRound (Some (round_json r)) = Some r /\ round_json r <> JNull.
Proof.
  intros (? & ? & Hp & ? & ? & ? & ? & ? & ? & Hpot). split; [| done]. unfold parseRound, round_json. reading.
  unfold good_u64 in Hpot. rewrite Hpot. cbn [mbind option_bind]. rewrite Hp. cbn [mbind option_bind]. rewrite bool_decide_eq_true_2 by done.
  by destruct r.
Qed.

Lemma parse_reason_json r : isNotOpeningReason (Some (JStr (reason_text r))) = Some r /\ JStr (reason_text r) <> JNull.
Proof. by destruct r. Qed.

Lemma parse_keeper_json k : keeper_good k -> parseKeeper (keeper_json k) = Some k.
Proof.
  intros (? & ? & ? & ? & Hst & ? & He & Hw & Hl). unfold parseKeeper, keeper_json. reading.
  rewrite numbers_good by done. cbn [mbind option_bind]. rewrite (orNull_nullable _ _ error_good) by (done || apply parse_error_json).
  cbn [mbind option_bind]. rewrite orNull_number by done. cbn [mbind option_bind].
  rewrite (orNull_nullable _ _ low_good) by (done || apply parse_low_json). cbn [mbind option_bind].
  rewrite (orNull_nullable _ _ (fun _ => True)); [by destruct k | intros r _; apply parse_reason_json | by destruct (notOpeningRounds k)].
Qed.

Lemma parse_chain_json c : parseChain (chain_json c) = Some c.
Proof.
  unfold parseChain, chain_json. reading. rewrite bool_decide_eq_true_2 by done.
  rewrite (orNull_nullable _ _ (fun _ => True)); [by destruct c | intros v _; apply parse_validator_json | by destruct (erValidator c)].
Qed.

Lemma num_eqb_refl x : is_nan x = false -> eqb x x = true.
Proof. destruct x as [| b | m]; [done | by destruct b | intros _; apply Z.eqb_refl]. Qed.

Lemma parse_status_json s : status_good s -> parseKeeperStatus (status_json s) = Some s.
Proof.
  intros (Hk & _ & Hr & He & Hn). unfold parseKeeperStatus, status_json.
  generalize schema_good (num_eqb_refl KEEPER_STATUS_SCHEMA eq_refl). generalize KEEPER_STATUS_SCHEMA. intros v6 Hv6 Heq. reading.
  rewrite Heq. fields.
  change (match keeper_json (keeper s) with JObj _ => _ | _ => _ end) with (Some (keeper_json (keeper s))).
  cbn [mbind option_bind]. rewrite parse_keeper_json by done. cbn [mbind option_bind].
  change (match chain_json (chain s) with JObj _ => _ | _ => _ end) with (Some (chain_json (chain s))).
  cbn [mbind option_bind]. rewrite parse_chain_json. cbn [mbind option_bind].
  rewrite (orNull_nullable _ _ round_good) by (done || apply parse_round_json). cbn [mbind option_bind].
  rewrite !orNull_number by done. by destruct s.
Qed.

Lemma read_serialized s : status_good s -> read_status (serializeKeeperStatus s) = Some s.
Proof.
  intros Hs. unfold read_status, serializeKeeperStatus. rewrite parse_stringify; [by apply parse_status_json | | by apply status_json_ok |].
  - by repeat constructor.
  - by repeat constructor.
Qed.

(** ** Rounds and balances of the chain are such values *)

Lemma undigits_nonneg ds : Forall (fun c => digit c = true) ds -> 0 <= undigits ds.
Proof.
  induction ds as [| d ds IH] using rev_ind; intros H; [done |]. apply Forall_app in H as [H Hd]. rewrite undigits_app.
  apply Forall_singleton, digit_range in Hd. cbn. specialize (IH H). lia.
Qed.

Lemma digits_u64 z : 0 <= z <= U64_MAX -> good_u64 (digits z).
Proof.
  intros Hz. destruct (digits_spec z) as (d & ds & E & Hds & Hv & Hlead); [lia |]. unfold good_u64, isU64String. rewrite E.
  assert (Hall : forallb digit (d :: ds) = true) by (apply forallb_forall; intros c Hc; rewrite Forall_forall in Hds; by apply Hds, list_elem_of_In).
  rewrite Hall, Hv, (proj2 (Z.leb_le z U64_MAX)) by lia. cbn [andb]. rewrite andb_true_r.
  rewrite (proj2 (Nat.leb_le 1 (length (d :: ds)))) by (cbn; lia). cbn [andb].
  rewrite (proj2 (Nat.leb_le (length (d :: ds)) 20)); [done |].
  destruct (decide (z = 0)) as [-> | Hne]; [vm_compute in E; injection E as <- <-; cbn; lia |]. specialize (Hlead ltac:(lia)).
  change (d :: ds) with ([d] ++ ds) in Hv. rewrite undigits_app in Hv. apply Forall_cons in Hds as [Hd Hds]. apply digit_range in Hd.
  pose proof (undigits_nonneg ds Hds). cbn in Hv. pose proof (Z.pow_pos_nonneg 10 (Z.of_nat (length ds)) ltac:(lia) ltac:(lia)).
  assert (Hpow : 10 ^ Z.of_nat (length ds) < 10 ^ 20) by (unfold U64_MAX in Hz; nia).
  apply Z.pow_lt_mono_r_iff in Hpow; cbn; lia.
Qed.

Lemma of_Z_good z : Z.abs z <= 2 ^ 64 -> good_num (of_Z z).
Proof.
  intros Hz. split; [apply of_Z_double |]. unfold of_Z, of_ratio, mk. rewrite (proj2 (Z.leb_gt _ _)); [done |].
  assert (Hb : forall x, 0 <= x <= 2 ^ 64 -> 0 <= rnd (x * one) 1 < overflow).
  { intros x Hx. pose proof one_pos. split; [apply rnd_nonneg; lia |]. apply Z.le_lt_trans with (2 ^ 64 * one); [| done].
    apply rnd_le; [lia | | nia]. rewrite one_pow, <- Z.pow_add_r by lia. by apply (rnd_id 1 (64 + 1074)). }
  destruct (Z.abs_eq_or_opp z) as [E | E]; specialize (Hb (Z.abs z) ltac:(lia)); rewrite E in Hb.
  - rewrite Z.abs_eq; lia.
  - rewrite Z.mul_opp_l, rnd_opp in Hb. rewrite Z.abs_neq; lia.
Qed.

(** The widths of the account's fields. *)
Definition raw_in_range (r : RawRoundAccount) : Prop :=
  0 <= raw_roundNo r <= U64_MAX /\ 0 <= raw_pot r <= U64_MAX /\ 0 <= raw_winner r < 256 /\ 0 <= raw_fighterCount r < 256 /\
  Z.abs (raw_lobbyOpenedAt r) < 2 ^ 63 /\ Z.abs (raw_lobbyClosesAt r) < 2 ^ 63 /\ Z.abs (raw_fightStartedAt r) < 2 ^ 63.

Lemma of_Z_fin z : Z.abs z <= 2 ^ 53 -> of_Z z = Fin (z * one).
Proof. apply of_Z_exact. Qed.

Lemma roundStatusFrom_good raw pda heldOpen r : raw_in_range raw -> Forall unit_ok pda ->
  roundStatusFrom raw pda heldOpen = Done r -> round_good r /\ ks_no r = of_Z (raw_roundNo raw).
Proof.
  intros (H1 & H2 & H3 & H4 & H5 & H6 & H7) Hpda. unfold roundStatusFrom. unfold U64_MAX in *.
  destruct (0 <=? raw_phase raw) eqn:E0; [zbool | done]. destruct (PHASE_NAME !! _) as [phase |] eqn:E; [| done]. intros Hr.
  injection Hr as <-. assert (Hlt : raw_phase raw < 5) by (apply lookup_lt_Some in E; cbn in E; lia).
  split; [| done]. unfold round_good. cbn. repeat split; try done; try apply of_Z_good; try lia.
  - rewrite of_Z_fin by lia. unfold phaseNamed. pose proof one_pos. rewrite Z.mod_mul, Z.div_mul by lia.
    rewrite (proj2 (Z.leb_le 0 _)) by nia. done.
  - apply digits_u64. unfold U64_MAX. lia.
Qed.

(** ** Runs of the publisher *)

Definition op_good (op : StatusOp) : Prop :=
  match op with
  | op_setErValidator v => if_some validator_good v
  | op_setRound r => if_some round_good r
  | op_setNextLobbyOpensAt x | op_setEntriesCloseAt x | op_setStalledSince x => if_some good_num x
  | op_setLastError e => if_some error_good e
  | op_setLowBalance low => if_some (fun '(l, f, now) => 0 <= l <= U64_MAX /\ 0 <= f <= U64_MAX /\ good_num now) low
  | op_addWedgedRound x | op_setRoundsCompleted x | op_beat x _ => good_num x
  | _ => True
  end.

Definition options_good (o : StatusPublisherOptions) : Prop :=
  Forall unit_ok (opt_programId o) /\ Forall unit_ok (opt_arenaPda o) /\
  good_num (HEARTBEAT_INTERVAL_SECONDS o) /\ good_num (STALE_AFTER_SECONDS o).

(** Whether an operation renders in a state. *)
Definition rendered (op : StatusOp) (p : StatusPublisher) : bool :=
  match op with op_publish _ => true | op_beat _ _ => heartbeat p | _ => false end.

Fixpoint quiet (ops : list StatusOp) (p : StatusPublisher) : Prop :=
  match ops with [] => True | op :: ops => rendered op p = false /\ quiet ops (perform op p) end.

(** What stays good in the publisher. *)
Definition publisher_good (p : StatusPublisher) : Prop :=
  status_good (status p) /\ if_some good_num (proposedNextLobbyOpensAt p) /\ if_some good_num (proposedEntriesCloseAt p) /\
  if_some (fun l => good_num (latch_at l)) (latch p).

Lemma render_good p : publisher_good p -> publisher_good (render p).
Proof.
  intros ((Hk & Hc & Hr & He & Hn) & Hpn & Hpe & Hl). unfold render, publisher_good.
  assert (Hat : if_some good_num (honestNextLobbyOpensAt (round (status p)) (proposedNextLobbyOpensAt p) (latch p)).1 /\
    if_some (fun l => good_num (latch_at l)) (honestNextLobbyOpensAt (round (status p)) (proposedNextLobbyOpensAt p) (latch p)).2).
  { unfold honestNextLobbyOpensAt. destruct (round (status p)) as [r |]; [| done]. destruct (negb (held r)); [done |].
    destruct (latch p) as [l |]; [destruct (eqb _ _); [done |] |]; by destruct (proposedNextLobbyOpensAt p). }
  destruct (honestNextLobbyOpensAt _ _ _) as [at_ latch']. destruct Hat as [Ha Hl']. split; [| done]. split; [done |]. split; [done |].
  split; [done |]. split; [| done]. cbn. unfold honestEntriesCloseAt. destruct (round (status p)); [| done]. by destruct (eqb _ _).
Qed.

Lemma perform_good op p : op_good op -> publisher_good p -> publisher_good (perform op p).
Proof.
  intros Ho Hp. pose proof Hp as ((Hk & (Hc1 & Hc2 & Hc3) & Hr & He & Hn) & Hpn & Hpe & Hl). pose proof Hk as (H1 & H2 & H3 & H4 & H5 & H6 & H7 & H8 & H9).
  destruct op as [v | r | x | x | e | x | low | reason | x | x | disk | | | x disk]; cbn [perform op_good] in *; try done;
    try (unfold publisher_good, status_good, keeper_good; split_and!; done).
  - unfold publisher_good, status_good, keeper_good. split_and!; try done. destruct low as [[[l f] now] |]; [| done].
    destruct Ho as (Hol & Hof & Hnow). cbn. unfold low_good. split_and!; [| by apply digits_u64..].
    destruct (lowBalance (keeper (status p))) as [lb |]; [apply H9 | apply Hnow].
  - unfold addWedgedRound. destruct (existsb _ _); [done |]. unfold publisher_good, status_good, keeper_good. split_and!; try done.
    cbn. apply Forall_app. split; [done |]. by apply Forall_singleton.
  - exact (render_good p Hp).
  - destruct (heartbeat p); [| done]. apply (render_good (setHeartbeatAt x p)).
    unfold publisher_good, status_good, keeper_good. split_and!; done.
Qed.

Lemma perform_all_snoc ops op p : perform_all (ops ++ [op]) p = perform op (perform_all ops p).
Proof. unfold perform_all. by rewrite foldl_app. Qed.

Lemma quiet_snoc ops op p : quiet ops p -> rendered op (perform_all ops p) = false -> quiet (ops ++ [op]) p.
Proof. revert p. induction ops as [| o ops IH]; intros p; cbn; [by intros _ -> |]. intros [H1 H2] H3. split; [done |]. by apply IH. Qed.

Lemma render_published p : published (render p) = serializeKeeperStatus (status (render p)).
Proof. unfold render. by destruct (honestNextLobbyOpensAt _ _ _). Qed.

Lemma perform_rendered op p : rendered op p = true ->
  exists q disk, perform op p = publishSafely disk q /\ latch q = latch p /\ round (status q) = round (status p) /\ file q = file p.
Proof.
  destruct op; try done; intros H; cbn in H |- *; [by exists p, disk |]. rewrite H. by eexists _, disk.
Qed.

Lemma publish_published disk q : published (publishSafely disk q) = serializeKeeperStatus (status (publishSafely disk q)).
Proof. apply render_published. Qed.

Lemma publish_file disk q : file (publishSafely disk q) = if disk then Some (published (publishSafely disk q)) else file q.
Proof. unfold publishSafely, render. destruct (honestNextLobbyOpensAt _ _ _). by destruct disk. Qed.

(** An operation that does not render leaves both channels, and what only a
    rendering decides, alone. *)
Lemma perform_quiet op p : rendered op p = false ->
  published (perform op p) = published p /\ file (perform op p) = file p /\ latch (perform op p) = latch p.
Proof. destruct op; try done; intros H; cbn in H |- *; [unfold addWedgedRound; by destruct (existsb _ _) | by rewrite H]. Qed.

Section Run.
Context (options : StatusPublisherOptions) (start : num) (found : option units).
Hypothesis Hoptions : options_good options.
Hypothesis Hstart : good_num start.

Definition run (ops : list StatusOp) : StatusPublisher := perform_all ops (createStatusPublisher options start found).

Lemma run_snoc ops op : run (ops ++ [op]) = perform op (run ops).
Proof using. apply perform_all_snoc. Qed.

Lemma created_good : publisher_good (run []).
Proof using Hoptions Hstart.
  destruct Hoptions as (? & ? & ? & ?). apply render_good. unfold publisher_good, status_good, keeper_good. split_and!; done.
Qed.

Lemma run_good ops : Forall op_good ops -> publisher_good (run ops).
Proof using Hoptions Hstart.
  induction ops as [| op ops IH] using rev_ind; intros H; [apply created_good |]. apply Forall_app in H as [H Ho].
  rewrite run_snoc. apply perform_good; [exact (proj1 (Forall_singleton _ _) Ho) | by apply IH].
Qed.

(** The last rendering before a point of the run. *)
Definition last_rendering (ops pre post : list StatusOp) : Prop :=
  ops = pre ++ post /\ (pre = [] \/ exists ops' op, pre = ops' ++ [op] /\ rendered op (run ops') = true) /\ quiet post (run pre).

Lemma published_last ops : exists pre post, last_rendering ops pre post /\
  published (run ops) = serializeKeeperStatus (status (run pre)) /\ latch (run ops) = latch (run pre).
Proof using.
  induction ops as [| op ops (pre & post & (-> & Hpre & Hq) & Hp & Hl)] using rev_ind.
  - exists [], []. split; [split; [done |]; split; [by left | done] |]. split; [apply render_published | done].
  - destruct (rendered op (run (pre ++ post))) eqn:E.
    + exists ((pre ++ post) ++ [op]), []. split; [split; [by rewrite app_nil_r | split; [right; by eexists _, _ | done]] |].
      split; [| done]. rewrite run_snoc. destruct (perform_rendered _ _ E) as (q & disk & -> & _). apply publish_published.
    + exists pre, (post ++ [op]). destruct (perform_quiet _ _ E) as (Hp' & _ & Hl'). rewrite run_snoc, Hp', Hl'.
      split; [| done]. split; [by rewrite app_assoc |]. split; [done |]. apply quiet_snoc; [done |].
      unfold run, perform_all in E |- *. by rewrite foldl_app in E.
Qed.

Lemma file_last ops : file (run ops) = found \/
  exists pre post, ops = pre ++ post /\ file (run ops) = Some (serializeKeeperStatus (status (run pre))).
Proof using.
  induction ops as [| op ops IH] using rev_ind.
  - by left.
  - assert (Hkeep : file (run (ops ++ [op])) = file (run ops) -> file (run (ops ++ [op])) = found \/
      exists pre post, ops ++ [op] = pre ++ post /\ file (run (ops ++ [op])) = Some (serializeKeeperStatus (status (run pre)))).
    { intros ->. destruct IH as [-> | (pre & post & -> & ->)]; [by left |]. right. exists pre, (post ++ [op]). by rewrite app_assoc. }
    destruct (rendered op (run ops)) eqn:E.
    + destruct (perform_rendered _ _ E) as (q & [] & Hq & _ & _ & Hf).
      * right. exists (ops ++ [op]), []. split; [by rewrite app_nil_r |]. rewrite run_snoc, Hq, publish_file. by rewrite publish_published.
      * apply Hkeep. by rewrite run_snoc, Hq, <- Hf, publish_file.
    + apply Hkeep. rewrite run_snoc. by apply perform_quiet.
Qed.

(** C9. Whatever the keeper does to its publisher, a page that reads the HTTP
    body parses it, accepts it, and gets field by field the status the
    publisher held when it last rendered; and a page that reads the file gets
    what the path held before the keeper started or, whole, the status of
    some earlier moment of the run, whichever writes the disk refused. *)
Theorem page_reads_what_keeper_published ops : Forall op_good ops ->
  (exists pre post, last_rendering ops pre post /\ read_status (published (run ops)) = Some (status (run pre))) /\
  (file (run ops) = found \/
    exists pre post text, ops = pre ++ post /\ file (run ops) = Some text /\ read_status text = Some (status (run pre))).
Proof using Hoptions Hstart.
  intros Hops. split.
  - destruct (published_last ops) as (pre & post & Hlast & -> & _). exists pre, post. split; [done |].
    apply read_serialized, run_good. destruct Hlast as [-> _]. by apply Forall_app in Hops as [? _].
  - destruct (file_last ops) as [-> | (pre & post & -> & ->)]; [by left |]. right. exists pre, post. eexists. split; [done |]. split; [done |].
    apply read_serialized, run_good. by apply Forall_app in Hops as [? _].
Qed.

(** *** The instant promised for the next lobby *)

(** The number of the last round set. *)
Definition last_no (ops : list StatusOp) : option num :=
  foldl (fun t op => match op with op_setRound (Some r) => Some (ks_no r) | _ => t end) None ops.

(** Rounds are set in the order of their numbers. *)
Definition in_order (ops : list StatusOp) : Prop :=
  forall pre r post, ops = pre ++ op_setRound (Some r) :: post -> if_some (fun t => leb t (ks_no r) = true) (last_no pre).

Lemma in_order_prefix pre post : in_order (pre ++ post) -> in_order pre.
Proof using. intros H pre' r post' ->. apply (H pre' r (post' ++ post)). by rewrite <- app_assoc. Qed.

Lemma last_no_snoc ops op : last_no (ops ++ [op]) = match op with op_setRound (Some r) => Some (ks_no r) | _ => last_no ops end.
Proof using. unfold last_no. by rewrite foldl_app. Qed.

(** What the round and the latch say together. *)
Definition promised (r : option KeeperRoundStatus) (l : option CountdownLatch) : option num :=
  match r, l with
  | Some r, Some l => if held r && eqb (latch_roundNo l) (ks_no r) then Some (latch_at l) else None
  | _, _ => None
  end.

Lemma honest_promised r c l : if_some (fun r => is_nan (ks_no r) = false) r ->
  (honestNextLobbyOpensAt r c l).1 = promised r (honestNextLobbyOpensAt r c l).2.
Proof using.
  unfold honestNextLobbyOpensAt, promised. destruct r as [r |]; [| done]. cbn [if_some]. intros Hr.
  destruct (held r) eqn:Eh; cbn [negb]; [| by destruct l]. destruct l as [l |]; [destruct (eqb (latch_roundNo l) (ks_no r)) eqn:E |].
  - by cbn [fst snd andb]; rewrite E.
  - destruct c; cbn [fst snd andb latch_roundNo]; by rewrite ?E, ?num_eqb_refl.
  - destruct c; cbn [fst snd andb latch_roundNo]; by rewrite ?num_eqb_refl.
Qed.

Lemma publish_decides disk q :
  round (status (publishSafely disk q)) = round (status q) /\
  nextLobbyOpensAt (status (publishSafely disk q)) = (honestNextLobbyOpensAt (round (status q)) (proposedNextLobbyOpensAt q) (latch q)).1 /\
  latch (publishSafely disk q) = (honestNextLobbyOpensAt (round (status q)) (proposedNextLobbyOpensAt q) (latch q)).2.
Proof using. unfold publishSafely, render. by destruct (honestNextLobbyOpensAt _ _ _). Qed.

Lemma perform_round op p : round (status (perform op p)) = match op with op_setRound r => r | _ => round (status p) end.
Proof using.
  destruct op as [v | r | x | x | e | x | low | reason | x | x | disk | | | x disk]; try done; cbn [perform].
  - unfold addWedgedRound. by destruct (existsb _ _).
  - apply publish_decides.
  - destruct (heartbeat p); [| done]. by rewrite (proj1 (publish_decides _ _)).
Qed.

Lemma round_is_last ops r : round (status (run ops)) = Some r -> last_no ops = Some (ks_no r).
Proof using.
  induction ops as [| op ops IH] using rev_ind; [done |]. rewrite run_snoc, perform_round, last_no_snoc.
  destruct op; try done. by intros ->.
Qed.

Lemma latch_no_later ops l : Forall op_good ops -> in_order ops -> latch (run ops) = Some l ->
  exists t, last_no ops = Some t /\ leb (latch_roundNo l) t = true.
Proof using Hoptions Hstart.
  revert l. induction ops as [| op ops IH] using rev_ind; intros l Hg Ho Hl; [done |].
  apply Forall_app in Hg as [Hg _]. pose proof (in_order_prefix _ _ Ho) as Ho'.
  rewrite run_snoc in Hl. destruct (rendered op (run ops)) eqn:E.
  - assert (Hlast : last_no (ops ++ [op]) = last_no ops) by (rewrite last_no_snoc; by destruct op). rewrite Hlast.
    destruct (perform_rendered _ _ E) as (q & disk & Hq & Hql & Hqr & _). rewrite Hq in Hl.
    rewrite (proj2 (proj2 (publish_decides disk q))), Hql, Hqr in Hl. unfold honestNextLobbyOpensAt in Hl.
    destruct (round (status (run ops))) as [r |] eqn:Er; [| by apply IH].
    destruct (negb (held r)); [by apply IH |]. apply round_is_last in Er as Hlr.
    assert (Hnew : forall c, Some (mkLatch (ks_no r) c) = Some l -> exists t, last_no ops = Some t /\ leb (latch_roundNo l) t = true).
    { intros c Hc. injection Hc as <-. exists (ks_no r). split; [done |]. apply leb_refl, finite_nan.
      pose proof (run_good ops Hg) as ((_ & _ & Hr & _) & _). rewrite Er in Hr. apply Hr. }
    destruct (latch (run ops)) as [l0 |]; [destruct (eqb _ _); [by apply IH |] |];
      (destruct (proposedNextLobbyOpensAt q); [by eapply Hnew | by apply IH]).
  - destruct (perform_quiet _ _ E) as (_ & _ & Hk). rewrite Hk in Hl. destruct (IH l Hg Ho' Hl) as (t & Ht & Hle).
    rewrite last_no_snoc. destruct op; try by exists t. destruct r as [r |]; [| by exists t]. eexists. split; [done |].
    specialize (Ho ops r [] eq_refl). rewrite Ht in Ho. by apply leb_trans with t.
Qed.

Lemma promised_at pre : Forall op_good pre -> last_rendering pre pre [] ->
  nextLobbyOpensAt (status (run pre)) = promised (round (status (run pre))) (latch (run pre)).
Proof using Hoptions Hstart.
  intros Hg (_ & [-> | (ops & op & -> & Hr)] & _); [done |]. apply Forall_app in Hg as [Hg _]. rewrite run_snoc.
  destruct (perform_rendered _ _ Hr) as (q & disk & -> & _ & Hqr & _). destruct (publish_decides disk q) as (-> & -> & ->).
  apply honest_promised. rewrite Hqr. pose proof (run_good ops Hg) as ((_ & _ & Hround & _) & _).
  destruct (round (status (run ops))) as [r |]; [| done]. apply finite_nan, Hround.
Qed.

(** A promise made: the latch holds the round or a later one. *)
Definition promise (n a : num) (ops : list StatusOp) : Prop :=
  exists l, latch (run ops) = Some l /\ leb n (latch_roundNo l) = true /\ (latch_roundNo l = n -> latch_at l = a).

Lemma promise_kept n a ops op : Forall op_good (ops ++ [op]) -> in_order (ops ++ [op]) -> promise n a ops -> promise n a (ops ++ [op]).
Proof using Hoptions Hstart.
  intros Hg Ho (l & Hl & Hle & Ha). pose proof Hg as [Hg' _]%Forall_app. pose proof (in_order_prefix _ _ Ho) as Ho'. unfold promise. rewrite run_snoc.
  destruct (rendered op (run ops)) eqn:E; [| destruct (perform_quiet _ _ E) as (_ & _ & ->); by exists l].
  destruct (perform_rendered _ _ E) as (q & disk & -> & Hql & Hqr & _). rewrite (proj2 (proj2 (publish_decides disk q))), Hql, Hqr, Hl.
  unfold honestNextLobbyOpensAt. destruct (round (status (run ops))) as [r |] eqn:Er; [| by exists l].
  destruct (negb (held r)); [by exists l |]. destruct (eqb (latch_roundNo l) (ks_no r)) eqn:Eno; [by exists l |].
  destruct (proposedNextLobbyOpensAt q) as [c |]; [| by exists l]. eexists. split; [done |]. cbn [latch_roundNo latch_at].
  destruct (latch_no_later ops l Hg' Ho' Hl) as (t & Ht & Hlt). rewrite (round_is_last _ _ Er) in Ht. injection Ht as <-.
  split; [by apply leb_trans with (latch_roundNo l) |]. intros Heq. rewrite Heq in Hlt, Eno.
  rewrite (leb_antisym _ _ Hlt Hle) in Eno. rewrite num_eqb_refl in Eno; [done |]. by destruct (leb_nan _ _ Hle).
Qed.

Lemma promise_kept_all n a ops post : Forall op_good (ops ++ post) -> in_order (ops ++ post) -> promise n a ops -> promise n a (ops ++ post).
Proof using Hoptions Hstart.
  induction post as [| op post IH] using rev_ind; [by rewrite app_nil_r |]. rewrite app_assoc. intros Hg Ho Hp.
  apply promise_kept; [done | done |]. apply IH; [by apply Forall_app in Hg as [? _] | by apply in_order_prefix in Ho | done].
Qed.

(** C13. The instant promised for the next lobby is promised once.  If a page
    read at some moment that the lobby after round [n] opens at [a], then
    whatever the keeper proposes, publishes or fails to write from then on,
    every later reading that still shows round [n] in its hold says [a]: the
    countdown is neither restarted nor withdrawn. *)
Theorem promise_never_moves ops post s1 s2 r1 r2 a : Forall op_good (ops ++ post) -> in_order (ops ++ post) ->
  read_status (published (run ops)) = Some s1 -> read_status (published (run (ops ++ post))) = Some s2 ->
  round s1 = Some r1 -> nextLobbyOpensAt s1 = Some a ->
  round s2 = Some r2 -> ks_no r2 = ks_no r1 -> held r2 = true ->
  nextLobbyOpensAt s2 = Some a.
Proof using Hoptions Hstart.
  intros Hg Ho H1 H2 Hr1 Ha Hr2 Hn Hh. pose proof Hg as [Hg1 _]%Forall_app. pose proof (in_order_prefix _ _ Ho) as Ho1.
  destruct (published_last ops) as (pre1 & post1 & Hlast1 & Hp1 & Hl1), (published_last (ops ++ post)) as (pre2 & post2 & Hlast2 & Hp2 & Hl2).
  assert (Hg1' : Forall op_good pre1) by (destruct Hlast1 as [-> _]; by apply Forall_app in Hg1 as [? _]).
  assert (Hg2 : Forall op_good pre2) by (destruct Hlast2 as [E _]; rewrite E in Hg; by apply Forall_app in Hg as [? _]).
  assert (Ho2 : in_order pre2) by (destruct Hlast2 as [E _]; rewrite E in Ho; by apply in_order_prefix in Ho).
  rewrite Hp1, read_serialized in H1 by apply (run_good pre1 Hg1'). rewrite Hp2, read_serialized in H2 by apply (run_good pre2 Hg2).
  injection H1 as <-. injection H2 as <-.
  assert (Hs1 : last_rendering pre1 pre1 []) by (split; [by rewrite app_nil_r | split; [apply Hlast1 | done]]).
  assert (Hs2 : last_rendering pre2 pre2 []) by (split; [by rewrite app_nil_r | split; [apply Hlast2 | done]]).
  rewrite (promised_at pre1 Hg1' Hs1), Hr1 in Ha. unfold promised in Ha. rewrite <- Hl1 in Ha.
  destruct (latch (run ops)) as [l1 |] eqn:El1; [| done]. destruct (held r1 && eqb (latch_roundNo l1) (ks_no r1)) eqn:E1; [| done].
  injection Ha as <-. apply andb_true_iff in E1 as [_ E1]. apply num_eqb_eq in E1.
  assert (Hp : promise (ks_no r1) (latch_at l1) (ops ++ post)).
  { apply promise_kept_all; [done | done |]. exists l1. rewrite E1. split; [done |]. split; [| done].
    apply leb_refl, finite_nan. pose proof (run_good pre1 Hg1') as ((_ & _ & Hround & _) & _). rewrite Hr1 in Hround. apply Hround. }
  destruct Hp as (l2 & El2 & Hle & Hat). rewrite (promised_at pre2 Hg2 Hs2), Hr2. unfold promised. rewrite <- Hl2, El2, Hh. cbn [andb].
  rewrite Hl2 in El2. destruct (latch_no_later pre2 l2 Hg2 Ho2 El2) as (t & Ht & Hlt). rewrite (round_is_last _ _ Hr2) in Ht. injection Ht as <-.
  rewrite Hn in Hlt |- *. pose proof (leb_antisym _ _ Hlt Hle) as Heq. rewrite Heq, num_eqb_refl by (by destruct (leb_nan _ _ Hle)).
  by rewrite Hat.
Qed.
End Run.

(** ** What the page may count down to *)

(** Neither stale nor stalled. *)
Definition alive (s : KeeperStatus) (nowSec : num) : Prop := isKeeperStale s nowSec = false /\ stalledSince (keeper s) = None.

Lemma seconds_positive deadline nowSec : good_num deadline -> good_num nowSec -> ltb nowSec deadline = true ->
  secondsUntil deadline nowSec = ceil (sub deadline nowSec) /\ leb (of_Z 1) (secondsUntil deadline nowSec) = true.
Proof.
  intros [Hd Hfd] [Hn Hfn] Hlt.
  destruct deadline as [| | a]; [discriminate Hfd | discriminate Hfd |]. destruct nowSec as [| | b]; [discriminate Hfn | discriminate Hfn |]. cbn in Hlt. apply Z.ltb_lt in Hlt.
  unfold secondsUntil, sub. cbn [add neg]. unfold of_ratio. pose proof one_pos as Hone.
  assert (H1 : 1 <= rnd (a + - b) 1) by (apply rnd_ge; [lia | exact (rnd_id 1 0 ltac:(done) ltac:(done)) | lia]).
  set (m := rnd (a + - b) 1) in *. unfold mk. destruct (overflow <=? Z.abs m).
  - rewrite (proj2 (Z.ltb_ge m 0)) by lia. done.
  - rewrite !of_Z_fin by done. cbn [ceil on_fin].
    assert (Hc : one <= - (- m / one) * one). { assert (- m / one <= -1); [| nia]. apply Z.lt_succ_r. apply Z.div_lt_upper_bound; lia. }
    assert (Hmax : max (Fin (0 * one)) (Fin (- (- m / one) * one)) = Fin (- (- m / one) * one)).
    { unfold max. cbn [is_nan orb ltb]. by rewrite (proj2 (Z.ltb_lt _ _)) by lia. }
    rewrite Hmax. split; [done |]. unfold leb. cbn [ltb eqb]. apply orb_true_iff. rewrite Z.ltb_lt, Z.eqb_eq. lia.
Qed.

Lemma ltb_not_leb x y : is_nan x = false -> is_nan y = false -> leb y x = negb (ltb x y).
Proof.
  intros Hx Hy. destruct (ltb x y) eqn:E; cbn.
  - apply not_true_is_false. intros H. apply leb_not_ltb in H. congruence.
  - by apply not_ltb.
Qed.

(** The deadline a lobby counts down to. *)
Definition lobby_deadline (s : KeeperStatus) (r : KeeperRoundStatus) : num := default (ks_lobbyClosesAt r) (entriesCloseAt s).

(** A countdown of kind [k] to an instant still ahead. *)
Definition counting (k : num -> KeeperCountdown) (d nowSec : num) : KeeperCountdown :=
  if ltb nowSec d then k (secondsUntil d nowSec) else no_countdown.

Lemma counting_leb k d nowSec : good_num d -> good_num nowSec ->
  (if leb d nowSec then no_countdown else k (secondsUntil d nowSec)) = counting k d nowSec.
Proof.
  intros [_ Hd] [_ Hn]. unfold counting. rewrite ltb_not_leb by (by apply finite_nan). by destruct (ltb nowSec d).
Qed.

(** What a round of a living keeper is shown as. *)
Definition shown_round (s : KeeperStatus) (r : KeeperRoundStatus) (nowSec : num) : KeeperCountdown :=
  match ks_phase r with
  | Lobby => if ks_heldOpen r then waiting_for_players else counting entries_close (lobby_deadline s r) nowSec
  | Settled | Abandoned =>
      match notOpeningRounds (keeper s), nextLobbyOpensAt s with
      | None, Some a => counting next_lobby a nowSec
      | _, _ => no_countdown
      end
  | Drawing | Fight => no_countdown
  end.

Lemma countdown_cases s nowSec : status_good s -> good_num nowSec ->
  (alive s nowSec /\ exists r, round s = Some r /\ keeperCountdown (Some s) nowSec = shown_round s r nowSec) \/
  (~ (alive s nowSec /\ exists r, round s = Some r) /\ keeperCountdown (Some s) nowSec = no_countdown).
Proof.
  intros (_ & _ & Hr & He & Hn) Hnow. unfold keeperCountdown, alive, isKeeperStalled.
  destruct (isKeeperStale s nowSec); [right; split; [by intros [[] _] | done] |]. cbn [orb negb]. rewrite andb_true_r.
  destruct (stalledSince (keeper s)); cbn [present]; [right; split; [by intros [[] _] | done] |].
  destruct (round s) as [r |]; [left | right; split; [by intros (_ & ? & ?) | done]].
  split; [done |]. exists r. split; [done |]. unfold shown_round, lobby_deadline. destruct (ks_phase r); try done.
  - destruct (ks_heldOpen r); [done |]. destruct (entriesCloseAt s); cbn [default]; apply counting_leb; try done. apply Hr.
  - destruct (notOpeningRounds (keeper s)); [done |]. destruct (nextLobbyOpensAt s); [| done]. by apply counting_leb.
  - destruct (notOpeningRounds (keeper s)); [done |]. destruct (nextLobbyOpensAt s); [| done]. by apply counting_leb.
Qed.

(** A running count, and which kind it is. *)
Lemma counting_spec k d nowSec c : good_num d -> good_num nowSec -> counting k d nowSec = c -> c <> no_countdown ->
  ltb nowSec d = true /\ c = k (ceil (sub d nowSec)) /\ leb (of_Z 1) (ceil (sub d nowSec)) = true.
Proof.
  intros Hd Hn. unfold counting. destruct (ltb nowSec d) eqn:E; [| by intros <-]. intros <- _.
  destruct (seconds_positive d nowSec Hd Hn E) as [Es E1]. rewrite Es in E1 |- *. exact (conj eq_refl (conj eq_refl E1)).
Qed.

Lemma counting_ahead k d nowSec : good_num d -> good_num nowSec -> ltb nowSec d = true -> counting k d nowSec = k (ceil (sub d nowSec)).
Proof. intros Hd Hn E. unfold counting. rewrite E. by rewrite (proj1 (seconds_positive d nowSec Hd Hn E)). Qed.

(** A page counts down exactly when the keeper can keep the promise: to the
    next lobby only beside a round in its hold, from a keeper that is neither
    stale nor stalled and has not said it is opening none, before the promised
    instant; to the close of entries only in a lobby that is not held open for
    people, before the early close when there is one and the chain's deadline
    otherwise.  The seconds shown are whole, rounded up, and never below one. *)
Theorem countdown_is_kept_or_silent s nowSec : status_good s -> good_num nowSec ->
  (forall n, keeperCountdown (Some s) nowSec = next_lobby n <->
     alive s nowSec /\ notOpeningRounds (keeper s) = None /\ (exists r, round s = Some r /\ (ks_phase r = Settled \/ ks_phase r = Abandoned)) /\
     exists a, nextLobbyOpensAt s = Some a /\ ltb nowSec a = true /\ n = ceil (sub a nowSec) /\ leb (of_Z 1) n = true) /\
  (forall n, keeperCountdown (Some s) nowSec = entries_close n <->
     alive s nowSec /\ exists r, round s = Some r /\ ks_phase r = Lobby /\ ks_heldOpen r = false /\
       ltb nowSec (lobby_deadline s r) = true /\ n = ceil (sub (lobby_deadline s r) nowSec) /\ leb (of_Z 1) n = true) /\
  (keeperCountdown (Some s) nowSec = waiting_for_players <->
     alive s nowSec /\ exists r, round s = Some r /\ ks_phase r = Lobby /\ ks_heldOpen r = true).
Proof.
  intros Hs Hnow. pose proof Hs as (_ & _ & Hr & He & Hn).
  destruct (countdown_cases s nowSec Hs Hnow) as [(Ha & r & Er & ->) | [Hno ->]].
  2: { split_and!; [intros n | intros n |]; (split; [discriminate |]).
       - intros (Ha & _ & (r & Er & _) & _). destruct Hno. by split; [| exists r].
       - intros (Ha & r & Er & _). destruct Hno. by split; [| exists r].
       - intros (Ha & r & Er & _). destruct Hno. by split; [| exists r]. }
  assert (Hdead : good_num (lobby_deadline s r)).
  { unfold lobby_deadline. rewrite Er in Hr. destruct (entriesCloseAt s); [exact He | apply Hr]. }
  rewrite Er. unfold shown_round. split_and!; [intros n; split | intros n; split | split].
  - intros Hc. destruct (ks_phase r) eqn:Ep; try discriminate Hc.
    { destruct (ks_heldOpen r); [discriminate Hc |]. by apply counting_spec in Hc as (_ & ? & _). }
    all: destruct (notOpeningRounds (keeper s)); [discriminate Hc |]; destruct (nextLobbyOpensAt s) as [a |]; [| discriminate Hc].
    all: apply counting_spec in Hc as (Hlt & Heq & H1); [| done | done | discriminate]; injection Heq as ->.
    all: split; [done |]; split; [done |]; split; [exists r; auto |]; exists a; exact (conj eq_refl (conj Hlt (conj eq_refl H1))).
  - intros (_ & -> & (r' & Hr' & Hp) & a & Hna & Hlt & -> & _). injection Hr' as <-. rewrite Hna in Hn |- *.
    destruct Hp as [-> | ->]; by apply counting_ahead.
  - intros Hc. destruct (ks_phase r) eqn:Ep; try discriminate Hc.
    2, 3: (destruct (notOpeningRounds (keeper s)); [discriminate Hc |]; destruct (nextLobbyOpensAt s) as [a |]; [| discriminate Hc];
           by apply counting_spec in Hc as (_ & ? & _)).
    destruct (ks_heldOpen r) eqn:Eh; [discriminate Hc |]. apply counting_spec in Hc as (Hlt & Heq & H1); [| done | done | discriminate].
    injection Heq as ->. split; [done |]. exists r. exact (conj eq_refl (conj Ep (conj Eh (conj Hlt (conj eq_refl H1))))).
  - intros (_ & r' & Hr' & Hp & Hh & Hlt & -> & _). injection Hr' as <-. rewrite Hp, Hh. by apply counting_ahead.
  - intros Hc. destruct (ks_phase r) eqn:Ep; try discriminate Hc.
    2, 3: (destruct (notOpeningRounds (keeper s)); [discriminate Hc |]; destruct (nextLobbyOpensAt s) as [a |]; [| discriminate Hc];
           by apply counting_spec in Hc as (_ & ? & _)).
    destruct (ks_heldOpen r) eqn:Eh; [| by apply counting_spec in Hc as (_ & ? & _)]. split; [done |]. by exists r.
  - intros (_ & r' & Hr' & Hp & Hh). injection Hr' as <-. by rewrite Hp, Hh.
Qed.

(** ** Witnesses *)

Definition sample_options : StatusPublisherOptions := mkPublisherOptions (lit "Program") (lit "Arena") false (of_Z 2) (of_Z 15).

(** Round 7, settled. *)
Definition sample_round : KeeperRoundStatus :=
  mkRoundStatus (of_Z 7) (lit "Round7") Settled (of_Z 3) (of_Z 1000) (of_Z 1060) (of_Z 1070) (of_Z 4) false (of_Z 1) (digits 4000000).

Definition sample_lobby : KeeperRoundStatus :=
  mkRoundStatus (of_Z 8) (lit "Round8") Lobby (of_Z 0) (of_Z 1200) (of_Z 4800) (of_Z 0) (of_Z 0) true (of_Z 0) (digits 0).

Lemma sample_options_good : options_good sample_options.
Proof. split_and!; [apply unit_lit | apply unit_lit | by apply of_Z_good | by apply of_Z_good]. Qed.

Lemma sample_round_good : round_good sample_round.
Proof.
  unfold round_good, sample_round; cbn [ks_no ks_pda ks_phase ks_phaseCode ks_lobbyOpenedAt ks_lobbyClosesAt ks_fightStartedAt ks_fighterCount ks_winner ks_pot].
  split_and!; try (by apply of_Z_good); [apply unit_lit | vm_compute; reflexivity | by apply digits_u64].
Qed.

Lemma sample_lobby_good : round_good sample_lobby.
Proof.
  unfold round_good, sample_lobby; cbn [ks_no ks_pda ks_phase ks_phaseCode ks_lobbyOpenedAt ks_lobbyClosesAt ks_fightStartedAt ks_fighterCount ks_winner ks_pot].
  split_and!; try (by apply of_Z_good); [apply unit_lit | vm_compute; reflexivity | by apply digits_u64].
Qed.

(** The first pass of a hold, and a second that proposes a later instant while
    the disk is full. *)
Definition sample_hold : list StatusOp := [op_setRound (Some sample_round); op_setNextLobbyOpensAt (Some (of_Z 1092)); op_publish true].
Definition sample_again : list StatusOp := [op_setRound (Some sample_round); op_setNextLobbyOpensAt (Some (of_Z 1101)); op_publish false].

Lemma sample_good : Forall op_good (sample_hold ++ sample_again).
Proof.
  repeat (apply Forall_cons; split; [cbn [op_good if_some]; first [exact sample_round_good | by apply of_Z_good | exact I] |]). constructor.
Qed.

Lemma page_reads_what_keeper_published_witness :
  Forall op_good (sample_hold ++ sample_again) /\
  exists pre post, last_rendering sample_options (of_Z 990) None (sample_hold ++ sample_again) pre post /\
    read_status (published (run sample_options (of_Z 990) None (sample_hold ++ sample_again))) = Some (status (run sample_options (of_Z 990) None pre)).
Proof.
  split; [exact sample_good |].
  exact (proj1 (page_reads_what_keeper_published sample_options (of_Z 990) None sample_options_good (of_Z_good 990 ltac:(done))
    (sample_hold ++ sample_again) sample_good)).
Defined.

(** Runs that set one round only are in order. *)
Definition sets_only (n : num) (op : StatusOp) : Prop := match op with op_setRound (Some r) => ks_no r = n | _ => True end.

Lemma in_order_same n ops : is_nan n = false -> Forall (sets_only n) ops -> in_order ops.
Proof.
  intros Hn Ho pre r post ->. apply Forall_app in Ho as [Hpre [Hr _]%Forall_cons]. cbn in Hr. rewrite Hr. clear Hr.
  assert (H : if_some (fun t => t = n) (last_no pre)).
  { induction pre as [| op pre IH] using rev_ind; [done |]. apply Forall_app in Hpre as [Hpre Hop]. rewrite last_no_snoc.
    apply (Forall_singleton (sets_only n)) in Hop. destruct op; try by apply IH. destruct r0; [done | by apply IH]. }
  destruct (last_no pre) as [t |]; [| done]. cbn in H |- *. subst t. by apply leb_refl.
Qed.

(** What a page reads right after a rendering. *)
Lemma read_rendered options start found ops op : options_good options -> good_num start -> Forall op_good (ops ++ [op]) ->
  rendered op (run options start found ops) = true ->
  read_status (published (run options start found (ops ++ [op]))) = Some (status (run options start found (ops ++ [op]))).
Proof.
  intros Ho Hs Hg Hr. pose proof (run_good options start found Ho Hs _ Hg) as [Hgood _]. rewrite run_snoc in Hgood |- *.
  destruct (perform_rendered _ _ Hr) as (q & disk & E & _). rewrite E in Hgood |- *. rewrite publish_published. by apply read_serialized.
Qed.

Lemma promise_never_moves_witness :
  let before := status (run sample_options (of_Z 990) None sample_hold) in
  let after := status (run sample_options (of_Z 990) None (sample_hold ++ sample_again)) in
  round after = Some sample_round /\ nextLobbyOpensAt before = Some (of_Z 1092) /\ nextLobbyOpensAt after = Some (of_Z 1092).
Proof.
  cbv zeta. assert (Hat : nextLobbyOpensAt (status (run sample_options (of_Z 990) None sample_hold)) = Some (of_Z 1092)) by (vm_compute; reflexivity).
  split; [reflexivity |]. split; [exact Hat |].
  refine (promise_never_moves sample_options (of_Z 990) None sample_options_good (of_Z_good 990 ltac:(done)) sample_hold sample_again
    _ _ sample_round sample_round (of_Z 1092) sample_good _ _ _ _ Hat _ _ _).
  - apply (in_order_same (of_Z 7)); [apply of_Z_not_nan |].
    repeat (apply Forall_cons; split; [first [reflexivity | exact I] |]). constructor.
  - apply (read_rendered sample_options (of_Z 990) None [_; _] (op_publish true)); [exact sample_options_good | by apply of_Z_good | | done].
    exact (proj1 (proj1 (Forall_app _ _ _) sample_good)).
  - apply (read_rendered sample_options (of_Z 990) None (sample_hold ++ [_; _]) (op_publish false)); [exact sample_options_good | by apply of_Z_good | exact sample_good | done].
  - reflexivity.
  - reflexivity.
  - reflexivity.
  - vm_compute; reflexivity.
Defined.

(** A lobby held open for people, read five seconds after the heartbeat. *)
Definition sample_status : KeeperStatus :=
  mkStatus (mkSelf (of_Z 990) (of_Z 1200) (of_Z 2) (of_Z 15) None (of_Z 7) None [] None None false)
    (mkChainStatus (lit "Program") (lit "Arena") None) (Some sample_lobby) None None.

Lemma countdown_is_kept_or_silent_witness :
  status_good sample_status /\ alive sample_status (of_Z 1205) /\ keeperCountdown (Some sample_status) (of_Z 1205) = waiting_for_players.
Proof.
  assert (Hs : status_good sample_status).
  { unfold status_good, keeper_good, sample_status. cbn [keeper chain round startedAt heartbeatAt heartbeatIntervalSeconds staleAfterSeconds
      stalledSince roundsCompleted lastError wedgedRounds lowBalance programId arenaPda erValidator entriesCloseAt nextLobbyOpensAt if_some].
    split_and!; try (by apply of_Z_good); try exact I; [constructor | apply unit_lit | apply unit_lit | exact sample_lobby_good]. }
  assert (Ha : alive sample_status (of_Z 1205)) by (split; vm_compute; reflexivity).
  split; [exact Hs |]. split; [exact Ha |].
  refine (proj2 (proj2 (proj2 (countdown_is_kept_or_silent sample_status (of_Z 1205) Hs (of_Z_good 1205 ltac:(done))))) (conj Ha _)).
  exists sample_lobby. exact (conj eq_refl (conj eq_refl eq_refl)).
Defined.
