(* ===== verification/KeeperFeed.v ===== *)
(** * The page's feed of the keeper's status

    The module state of [er-demo/src/v2/data/keeperFeed.ts]: one poll loop
    shared by every subscriber, requests that may answer in any order, and a
    run of the loop that ends with its last subscriber.  A fetch is sent by one
    event and answered, or fails, by a later one.  A parsed status is a fresh
    object, so it carries the number of the request that brought it. *)
From S2P Require Import Prelude Text JsNum Chain Json KeeperStatus StatusFile StatusLaws.

Record KeeperFeedState : Type := mkFeedState { fs_status : option (Z * KeeperStatus); fs_stale : bool }.

Record Feed : Type := mkFeed {
  state : KeeperFeedState;
  listeners : list Z;                  (** the [Set], by listener *)
  timers : bool;                       (** the poll and freshness intervals are armed *)
  issued : Z;
  applied : Z;
  generation : Z;
  inflight : list (Z * Z);             (** generation and number of each request not yet answered *)
  woken : Z;                           (** how often the listeners were called *)
}.

Definition new_feed : Feed := mkFeed (mkFeedState None true) [] false 0 (-1) 0 [] 0.

(** [state.status === status]: null is itself, objects are their identity. *)
Definition same_object (x y : option (Z * KeeperStatus)) : bool :=
  match x, y with
  | None, None => true
  | Some (i, _), Some (j, _) => i =? j
  | _, _ => false
  end.

Definition publish (status : option (Z * KeeperStatus)) (stale : bool) (f : Feed) : Feed :=
  if same_object (fs_status (state f)) status && Bool.eqb (fs_stale (state f)) stale then f else
  mkFeed (mkFeedState status stale) (listeners f) (timers f) (issued f) (applied f) (generation f) (inflight f) (woken f + 1).

(** [status === null || isKeeperStale(status, now)] *)
Definition stale_at (status : option (Z * KeeperStatus)) (nowSec : num) : bool :=
  match status with None => true | Some (_, s) => isKeeperStale s nowSec end.

Definition apply_ (gen seq : Z) (next : option KeeperStatus) (nowSec : num) (f : Feed) : Feed :=
  if negb (gen =? generation f) || (seq <? applied f) then f else
  let next := (fun s => (seq, s)) <$> next in
  publish next (stale_at next nowSec)
    (mkFeed (state f) (listeners f) (timers f) (issued f) seq (generation f) (inflight f) (woken f)).

(** [poll()] up to its fetch. *)
Definition poll (f : Feed) : Feed :=
  mkFeed (state f) (listeners f) (timers f) (issued f + 1) (applied f) (generation f)
    ((generation f, issued f) :: inflight f) (woken f).

Definition start (nowSec : num) (f : Feed) : Feed :=
  let f := publish (fs_status (state f)) (stale_at (fs_status (state f)) nowSec) f in
  let f := poll f in
  mkFeed (state f) (listeners f) true (issued f) (applied f) (generation f) (inflight f) (woken f).

Definition stop (f : Feed) : Feed :=
  mkFeed (state f) (listeners f) false (issued f) (applied f) (generation f + 1) (inflight f) (woken f).

Definition with_listeners (ls : list Z) (f : Feed) : Feed :=
  mkFeed (state f) ls (timers f) (issued f) (applied f) (generation f) (inflight f) (woken f).

Definition subscribeKeeperFeed (listener : Z) (nowSec : num) (f : Feed) : Feed :=
  let ls := if bool_decide (listener ∈ listeners f) then listeners f else listeners f ++ [listener] in
  let f := with_listeners ls f in
  if (length ls =? 1)%nat then start nowSec f else f.

(** The function [subscribeKeeperFeed] returns. *)
Definition unsubscribe (listener : Z) (f : Feed) : Feed :=
  let ls := filter (fun l => l <> listener) (listeners f) in
  let f := with_listeners ls f in
  if (length ls =? 0)%nat then stop f else f.

Inductive FeedEvent : Type :=
| ev_subscribe (listener : Z) (nowSec : num)
| ev_unsubscribe (listener : Z)
| ev_poll                                              (** the poll interval fires *)
| ev_freshness (nowSec : num)                          (** the freshness interval fires *)
| ev_answer (gen seq : Z) (answer : option units) (nowSec : num).  (** a fetch settles: the text of a 200, or nothing *)

(** What a settled fetch applies: an answer that is not a status, not JSON or
    not there is null. *)
Definition feed_step (e : FeedEvent) (f : Feed) : Feed :=
  match e with
  | ev_subscribe l now => subscribeKeeperFeed l now f
  | ev_unsubscribe l => unsubscribe l f
  | ev_poll => if timers f then poll f else f
  | ev_freshness now => if timers f then publish (fs_status (state f)) (stale_at (fs_status (state f)) now) f else f
  | ev_answer gen seq answer now =>
      if bool_decide ((gen, seq) ∈ inflight f) then
        let f := mkFeed (state f) (listeners f) (timers f) (issued f) (applied f) (generation f)
                   (filter (fun r => r <> (gen, seq)) (inflight f)) (woken f) in
        apply_ gen seq (text ← answer; read_status text) now f
      else f
  end.

Definition keeperFeedSnapshot (f : Feed) : KeeperFeedState := state f.

Definition feed_run (es : list FeedEvent) : Feed := foldl (fun f e => feed_step e f) new_feed es.

(** ** What the feed shows *)

(** An answer is taken when it settles during the run of the loop it was asked
    in. *)
Definition taken (e : FeedEvent) (f : Feed) : option (Z * option KeeperStatus) :=
  match e with
  | ev_answer gen seq answer now =>
      if bool_decide ((gen, seq) ∈ inflight f) && (gen =? generation f) then Some (seq, (text ← answer; read_status text)) else None
  | _ => None
  end.

Fixpoint answers (es : list FeedEvent) (f : Feed) : list (Z * option KeeperStatus) :=
  match es with [] => [] | e :: es => option_list (taken e f) ++ answers es (feed_step e f) end.

Lemma feed_run_snoc es e : feed_run (es ++ [e]) = feed_step e (feed_run es).
Proof. unfold feed_run. by rewrite foldl_app. Qed.

Lemma answers_snoc es e f : answers (es ++ [e]) f = answers es f ++ option_list (taken e (foldl (fun f e => feed_step e f) f es)).
Proof. revert f. induction es as [| o es IH]; intros f; cbn; [by rewrite app_nil_r |]. by rewrite IH, app_assoc. Qed.

Lemma publish_shows status stale f :
  fs_stale (state (publish status stale f)) = stale /\
  same_object (fs_status (state (publish status stale f))) status = true /\
  (applied (publish status stale f), issued (publish status stale f), generation (publish status stale f),
   inflight (publish status stale f), timers (publish status stale f), listeners (publish status stale f))
  = (applied f, issued f, generation f, inflight f, timers f, listeners f).
Proof.
  unfold publish. destruct (same_object _ _ && Bool.eqb _ _) eqn:E.
  - apply andb_true_iff in E as [E1 E2]. apply eqb_prop in E2. done.
  - split; [done |]. split; [| done]. cbn. destruct status as [[i s] |]; [| done]. cbn. apply Z.eqb_refl.
Qed.

(** What links the state to the answers taken so far. *)
Record feed_inv (f : Feed) (A : list (Z * option KeeperStatus)) : Prop := mkInv {
  inv_applied : -1 <= applied f < issued f;
  inv_inflight : Forall (fun r => 0 <= r.2 < issued f /\ r.1 <= generation f) (inflight f);
  inv_nodup : NoDup (inflight f).*2;
  inv_taken : Forall (fun a => 0 <= a.1 <= applied f /\ a.1 ∉ (inflight f).*2) A;
  inv_once : NoDup A.*1;
  inv_shown : match A with
              | [] => applied f = -1 /\ fs_status (state f) = None
              | _ => exists a, (applied f, a) ∈ A /\ fs_status (state f) = ((fun s => (applied f, s)) <$> a)
              end;
  inv_stale : fs_status (state f) = None -> fs_stale (state f) = true;
  inv_stopped : timers f = false -> Forall (fun r => r.1 < generation f) (inflight f);
}.

(** Publishing the status on show again. *)
Lemma publish_again stale f : fs_status (state (publish (fs_status (state f)) stale f)) = fs_status (state f).
Proof. unfold publish. by destruct (same_object _ _ && Bool.eqb _ _). Qed.

Lemma publish_again_inv nowSec f A : feed_inv f A -> feed_inv (publish (fs_status (state f)) (stale_at (fs_status (state f)) nowSec) f) A.
Proof.
  intros H. destruct (publish_shows (fs_status (state f)) (stale_at (fs_status (state f)) nowSec) f) as (Hst & _ & Heq).
  injection Heq as Ha Hi Hg Hf Ht Hl. destruct H. constructor; rewrite ?Ha, ?Hi, ?Hg, ?Hf, ?Ht, ?publish_again; try done.
  rewrite Hst. by intros ->.
Qed.

Lemma poll_inv f A on : feed_inv f A -> on = true ->
  feed_inv (mkFeed (state (poll f)) (listeners (poll f)) on (issued (poll f)) (applied (poll f)) (generation (poll f)) (inflight (poll f)) (woken (poll f))) A.
Proof.
  intros [] ->. constructor; cbn; try done.
  - lia.
  - constructor; [cbn; lia |]. eapply Forall_impl; [done |]. cbn. intros r []. lia.
  - apply NoDup_cons. split; [| done]. intros ([g q] & E & Hin)%list_elem_of_fmap. cbn in E. subst q.
    rewrite Forall_forall in inv_inflight0. apply inv_inflight0 in Hin. cbn in Hin. lia.
  - eapply Forall_impl; [done |]. cbn. intros a [H1 H2]. split; [done |]. apply not_elem_of_cons. split; [lia | done].
Qed.

Lemma nodup_snd {A B} (l : list (A * B)) a b k : NoDup l.*2 -> (a, k) ∈ l -> (b, k) ∈ l -> a = b.
Proof.
  intros Hnd [i Hi]%list_elem_of_lookup [j Hj]%list_elem_of_lookup.
  assert (i = j) as ->; [| rewrite Hj in Hi; by injection Hi].
  apply (NoDup_lookup l.*2 i j k Hnd); by rewrite list_lookup_fmap, ?Hi, ?Hj.
Qed.

(** A request leaves the requests in flight. *)
Definition settled (gen seq : Z) (f : Feed) : Feed :=
  mkFeed (state f) (listeners f) (timers f) (issued f) (applied f) (generation f) (filter (fun r => r <> (gen, seq)) (inflight f)) (woken f).

Lemma settled_inv gen seq f A : feed_inv f A -> (gen, seq) ∈ inflight f ->
  feed_inv (settled gen seq f) A /\ (seq ∉ (inflight (settled gen seq f)).*2) /\ (seq ∉ A.*1) /\ 0 <= seq < issued f.
Proof.
  intros [] Hin. assert (Hsub : sublist (inflight (settled gen seq f)) (inflight f)) by apply sublist_filter.
  assert (Hall : forall P, Forall P (inflight f) -> Forall P (inflight (settled gen seq f))).
  { intros P. rewrite !Forall_forall. intros HP r Hr. apply HP. by eapply elem_of_sublist. }
  split_and!.
  - constructor; cbn; try done; [by apply Hall | | | by auto].
    + by eapply sublist_NoDup, sublist_fmap.
    + eapply Forall_impl; [done |]. cbn. intros a [H1 H2]. split; [done |]. intros Hx. apply H2.
      eapply elem_of_sublist; [exact Hx |]. by apply sublist_fmap.
  - intros ([g q] & E & Hr)%list_elem_of_fmap. cbn in E. subst q. apply list_elem_of_filter in Hr as [Hne Hr].
    apply Hne. f_equal. by apply (nodup_snd (inflight f) g gen seq).
  - intros ([q a] & E & Ha)%list_elem_of_fmap. cbn in E. subst q. rewrite Forall_forall in inv_taken0. apply inv_taken0 in Ha as [_ Ha].
    apply Ha, list_elem_of_fmap. by exists (gen, seq).
  - rewrite Forall_forall in inv_inflight0. apply inv_inflight0 in Hin. cbn in Hin. lia.
  - rewrite Forall_forall in inv_inflight0. apply inv_inflight0 in Hin. cbn in Hin. lia.
Qed.

(** Publishing the answer of a request not yet among the answers. *)
Lemma publish_new seq (next : option KeeperStatus) stale f :
  (forall i s, fs_status (state f) = Some (i, s) -> i <> seq) ->
  fs_status (state (publish ((fun s => (seq, s)) <$> next) stale f)) = (fun s => (seq, s)) <$> next.
Proof.
  intros H. unfold publish. destruct (same_object _ _) eqn:E; [| done]. destruct (Bool.eqb _ _); [| done]. cbn [andb].
  destruct (fs_status (state f)) as [[i s] |] eqn:Es, next as [s' |]; try done. cbn in E. apply Z.eqb_eq in E. by specialize (H i s eq_refl).
Qed.

Lemma apply_inv gen seq answer nowSec f A : feed_inv f A -> (gen, seq) ∈ inflight f ->
  feed_inv (apply_ gen seq answer nowSec (settled gen seq f)) (A ++ option_list (if gen =? generation f then Some (seq, answer) else None)).
Proof.
  intros H Hin. destruct (settled_inv gen seq f A H Hin) as (H' & Hout & HA & Hseq). set (f' := settled gen seq f) in *.
  unfold apply_. change (generation f') with (generation f). destruct (gen =? generation f); cbn [negb orb option_list]; [| by rewrite app_nil_r].
  assert (Hnd : NoDup (A ++ [(seq, answer)]).*1).
  { rewrite fmap_app. apply NoDup_app. split; [apply H |]. split; [| exact (NoDup_singleton seq)]. intros x Hx ->%list_elem_of_singleton. done. }
  destruct (seq <? applied f') eqn:E; zbool.
  - destruct H'. constructor; try done.
    + apply Forall_app. split; [done |]. apply Forall_singleton. cbn in *. split; [lia | done].
    + destruct A as [| a A]; [lia |]. cbn [app]. destruct inv_shown0 as (x & Hx & Hs). exists x. split; [| done].
      apply (elem_of_app (a :: A)). by left.
  - set (g := mkFeed _ _ _ _ _ _ _ _). set (next := (fun s => (seq, s)) <$> answer).
    assert (Hnew : fs_status (state (publish next (stale_at next nowSec) g)) = next).
    { apply publish_new. intros i s Hs ->. destruct H'. change (state g) with (state f') in Hs. destruct A as [| a A].
      - destruct inv_shown0 as [_ Hno]. congruence.
      - destruct inv_shown0 as (x & Hx & Hsh). rewrite Hsh in Hs. destruct x as [x |]; [| done]. injection Hs as Hi _.
        apply HA, list_elem_of_fmap. exists (applied f', Some x). by split; [symmetry |]. }
    destruct (publish_shows next (stale_at next nowSec) g) as (Hst & _ & Heq). injection Heq as Ha Hi Hg Hf Ht Hl.
    destruct H'. constructor; rewrite ?Ha, ?Hi, ?Hg, ?Hf, ?Ht, ?Hnew, ?Hst; cbn [applied issued generation inflight timers g]; try done.
    + cbn in *. lia.
    + apply Forall_app. split; [| apply Forall_singleton; cbn; split; [lia | done]].
      eapply Forall_impl; [done |]. cbn. intros a [H1 H2]. split; [cbn in *; lia | done].
    + assert (Hx : exists a, (seq, a) ∈ A ++ [(seq, answer)] /\ next = (fun s => (seq, s)) <$> a).
      { exists answer. split; [| done]. apply elem_of_app. right. left. }
      by destruct A.
    + by intros ->.
Qed.

Lemma feed_step_inv e f A : feed_inv f A -> feed_inv (feed_step e f) (A ++ option_list (taken e f)).
Proof.
  intros H. destruct e as [l now | l | | now | gen seq answer now]; cbn [feed_step taken option_list]; rewrite ?app_nil_r.
  - unfold subscribeKeeperFeed. set (ls := if bool_decide _ then _ else _). assert (H' : feed_inv (with_listeners ls f) A) by (by destruct H).
    destruct (length ls =? 1)%nat; [| done]. unfold start. by apply poll_inv; [apply publish_again_inv |].
  - unfold unsubscribe. set (ls := filter _ _). assert (H' : feed_inv (with_listeners ls f) A) by (by destruct H).
    destruct (length ls =? 0)%nat; [| done]. destruct H'. constructor; try done; cbn in *.
    + eapply Forall_impl; [done |]. cbn. intros r []. lia.
    + intros _. eapply Forall_impl; [done |]. cbn. intros r []. lia.
  - destruct (timers f) eqn:E; [| done]. exact (poll_inv f A (timers f) H E).
  - destruct (timers f); [| done]. by apply publish_again_inv.
  - case_bool_decide as Hin; cbn [andb option_list]; [| by rewrite app_nil_r]. by apply apply_inv.
Qed.

Lemma new_feed_inv : feed_inv new_feed [].
Proof. constructor; cbn; try done; constructor. Qed.

Lemma feed_run_inv es : feed_inv (feed_run es) (answers es new_feed).
Proof.
  induction es as [| e es IH] using rev_ind; [apply new_feed_inv |]. rewrite feed_run_snoc, answers_snoc. by apply feed_step_inv.
Qed.

(** In whatever order requests are sent, answered, aborted and the loop
    stopped and restarted, the page shows the answer of the newest request
    among those answered in the run of the loop they belong to: a slow older
    answer, or one left over from a stopped loop, never replaces it, and a
    failed or unreadable newest answer shows as no status.  A page without a
    status always reads as stale, and once the last subscriber has left nothing
    that was still in flight changes what is shown. *)
Theorem feed_shows_newest_answer es : let f := feed_run es in
  match answers es new_feed with
  | [] => fs_status (state f) = None
  | A => exists n a, (n, a) ∈ A /\ (forall n' a', (n', a') ∈ A -> n' < n \/ (n' = n /\ a' = a)) /\
      fs_status (state f) = ((fun s => (n, s)) <$> a)
  end /\
  (fs_status (state f) = None -> fs_stale (state f) = true) /\
  (timers f = false -> forall gen seq answer now, state (feed_step (ev_answer gen seq answer now) f) = state f).
Proof.
  intros f. pose proof (feed_run_inv es) as [H1 H2 H3 H4 H5 H6 H7 H8]. fold f in H1, H2, H3, H4, H5, H6, H7, H8. split; [| split; [done |]].
  - destruct (answers es new_feed) as [| a0 A]; [apply H6 |]. destruct H6 as (a & Ha & Hs). exists (applied f), a. split; [done |]. split; [| done].
    intros n' a' Hin. rewrite Forall_forall in H4. pose proof (H4 _ Hin) as [Hle _]. cbn in Hle.
    destruct (decide (n' = applied f)) as [-> |]; [right | left; lia]. split; [done |].
    apply list_elem_of_lookup in Ha as [i Hi], Hin as [j Hj].
    assert (i = j) as ->; [| rewrite Hj in Hi; by injection Hi].
    apply (NoDup_lookup (a0 :: A).*1 i j (applied f) H5); by rewrite list_lookup_fmap, ?Hi, ?Hj.
  - intros Ht gen seq answer now. cbn [feed_step]. case_bool_decide as Hin; [| done].
    specialize (H8 Ht). rewrite Forall_forall in H8. apply H8 in Hin. cbn in Hin. unfold apply_. cbn [generation].
    by rewrite (proj2 (Z.eqb_neq gen (generation f))) by lia.
Qed.

(** A fresh object is published even when it says what the last one said. *)
Lemma every_status_wakes gen seq text s nowSec f A : feed_inv f A -> (gen, seq) ∈ inflight f -> gen = generation f -> applied f <= seq ->
  read_status text = Some s -> woken (feed_step (ev_answer gen seq (Some text) nowSec) f) = woken f + 1.
Proof.
  intros H Hin -> Hle Hs. destruct (settled_inv _ _ f A H Hin) as (_ & _ & HA & _). cbn [feed_step]. rewrite bool_decide_eq_true_2 by done.
  change (mbind _ (Some text)) with (read_status text). rewrite Hs. unfold apply_. cbn [generation applied negb orb].
  rewrite Z.eqb_refl, (proj2 (Z.ltb_ge seq (applied f))) by done. cbn [negb orb]. cbv zeta. unfold publish.
  destruct (same_object _ _) eqn:E; [| done]. exfalso. cbn in E. destruct (fs_status (state f)) as [[i s0] |] eqn:Es; [| done].
  apply Z.eqb_eq in E. subst i. destruct H as [_ _ _ _ _ H6 _ _]. destruct A as [| a0 A]; [destruct H6; congruence |].
  destruct H6 as (x & Hx & Hsh). rewrite Hsh in Es. destruct x; [| done]. injection Es as <- _.
  apply HA, list_elem_of_fmap. by exists (applied f, Some k).
Qed.
