(* ===== verification/PrivyIdentity.v ===== *)
(** * Who a Privy token speaks for

    [er-demo/api/src/privyIdentity.ts]: decoding of an identity token, the
    reading of its claims, the cache of Privy's public keys and the verifier.

    The verifier awaits twice: a key, then the platform's signature check.  A
    caller that must wait for keys is a [Waiter] of the machine at the end of
    the file; what the key endpoint answered is the argument of the event that
    ends the fetch.  The signature check [ecdsa] (import of the key and
    [subtle.verify]) is a parameter: [None] is its throw. *)
From S2P Require Import Prelude Text JsNum Json Codec.

Definition PRIVY_ISSUER : units := lit "privy.io".
Definition REQUIRED_ALG : units := lit "ES256".
Definition JWKS_TTL_SECONDS : Z := 3600.
Definition JWKS_COOLDOWN_SECONDS : Z := 600.
Definition CLOCK_SKEW_SECONDS : Z := 60.
Definition MAX_IDENTITY_TOKEN_AGE_SECONDS : Z := 3600.
Definition MAX_DISPLAY_NAME_CODEPOINTS : nat := 100.

(** ** What the code uses of strings and parsed values *)

Definition within (lo hi c : Z) : bool := (lo <=? c) && (c <=? hi).
Definition digit_unit (c : Z) : bool := within 48 57 c.
Definition letter_unit (c : Z) : bool := within 65 90 c || within 97 122 c.

Definition white (c : Z) : bool :=
  within 9 13 c || within 8192 8202 c ||
  bool_decide (c ∈ [32; 160; 5760; 8232; 8233; 8239; 8287; 12288; 65279]).

Fixpoint drop_white (u : units) : units :=
  match u with c :: u' => if white c then drop_white u' else u | [] => [] end.

(** [u.trim()] *)
Definition trim_units (u : units) : units := rev (drop_white (rev (drop_white u))).

(** [u.split(".")] *)
Fixpoint split_dot (u : units) : list units :=
  match u with
  | [] => [[]]
  | c :: u =>
      if c =? 46 then [] :: split_dot u
      else match split_dot u with p :: ps => (c :: p) :: ps | [] => [[c]] end
  end.

(** A test anchored at both ends: between [lo] and [hi] units of one class. *)
Definition shaped (p : Z -> bool) (lo hi : nat) (u : units) : bool :=
  forallb p u && (lo <=? length u)%nat && (length u <=? hi)%nat.

Definition str_is (v : option json) (s : units) : bool :=
  match v with Some (JStr u) => bool_decide (u = s) | _ => false end.

(** [typeof v === "object" && v !== null] *)
Definition is_object (v : json) : bool := match v with JArr _ | JObj _ => true | _ => false end.


(** A string that is not empty. *)
Definition some_text (v : option json) : option units :=
  match v with Some (JStr (c :: u)) => Some (c :: u) | _ => None end.

(** ** Decoding *)

Definition b64url_unit (c : Z) : bool := letter_unit c || digit_unit c || (c =? 45) || (c =? 95).

Definition url_to_base64 (c : Z) : Z := if c =? 45 then 43 else if c =? 95 then 47 else c.

Definition base64UrlToBytes (segment : units) : option (list Z) :=
  if bool_decide (segment = []) || negb (forallb b64url_unit segment) then None
  else atob ((url_to_base64 <$> segment) ++ repeat 61 ((4 - length segment mod 4) mod 4)).

Definition jsonFrom (bytes : list Z) : option json := parse (decode bytes).

Record DecodedJwt : Type := mkJwt { kid : units; payload : json; signingInput : list Z; signature : list Z }.

Definition decodeJwt (token : units) : option DecodedJwt :=
  if (Z.of_nat (length token) =? 0) || (8192 <? Z.of_nat (length token)) then None else
  match split_dot token with
  | [p0; p1; p2] =>
      match base64UrlToBytes p0, base64UrlToBytes p1, base64UrlToBytes p2 with
      | Some headerBytes, Some payloadBytes, Some signature =>
          if negb (length signature =? 64)%nat then None else
          match jsonFrom headerBytes, jsonFrom payloadBytes with
          | Some header, Some payload =>
              if negb (is_object header) then None else
              if negb (is_object payload) then None else
              if negb (str_is (field "alg" header) REQUIRED_ALG) then None else
              match field "crit" header with
              | Some _ => None
              | None =>
                  match some_text (field "kid" header) with
                  | Some kid => Some (mkJwt kid payload (encode (p0 ++ [46] ++ p1)) signature)
                  | None => None
                  end
              end
          | _, _ => None
          end
      | _, _, _ => None
      end
  | _ => None
  end.

(** ** The claims *)

Inductive PrivyRejection : Type :=
| malformed | unknown_key | bad_signature | wrong_issuer | wrong_audience | expired | stale
| no_x_account | unusable_x_account | keys_unavailable.

Record XIdentity : Type := mkXIdentity {
  xId : units;
  handle : units;
  displayName : units;
  avatarUrl : option units;
}.

Inductive PrivyVerification : Type := ok (identity : XIdentity) | rejected (reason : PrivyRejection).

Definition X_ID_RE (u : units) : bool := shaped digit_unit 1 20 u.
Definition HANDLE_RE (u : units) : bool := shaped (fun c => letter_unit c || digit_unit c || (c =? 95)) 1 15 u.

Definition url_unit (c : Z) : bool :=
  letter_unit c || digit_unit c || (c =? 46) || (c =? 95) || (c =? 45) || (c =? 47).

Definition TWIMG : units := lit "https://pbs.twimg.com/".

(** The pattern of the whole URL: X's image host, then plain path units. *)
Definition twimg_url (u : units) : bool :=
  match word TWIMG u with Some rest => forallb url_unit rest && negb (bool_decide (rest = [])) | None => false end.

Fixpoint double_slash (u : units) : bool :=
  match u with
  | c :: u' => match u' with d :: _ => ((c =? 47) && (d =? 47)) || double_slash u' | [] => false end
  | [] => false
  end.

Definition starts_with (w u : units) : bool := match word w u with Some _ => true | None => false end.

Definition expandTwitterAvatarUrl (pfp : option json) : option units :=
  match pfp with
  | Some (JStr pfp) =>
      let raw := trim_units pfp in
      if bool_decide (raw = []) || (300 <? Z.of_nat (length raw)) then None else
      if starts_with (lit "default") raw then None else
      let candidate := if starts_with (lit "https://") raw then raw else lit "https://pbs.twimg.com/profile_images/" ++ raw in
      if negb (twimg_url candidate) then None else
      if double_slash (drop 8 candidate) then None else
      Some candidate
  | _ => None
  end.

Definition clampDisplayName (name : option json) : units :=
  match name with
  | Some (JStr name) =>
      let ps := points (trim_units name) in
      if (length ps <=? MAX_DISPLAY_NAME_CODEPOINTS)%nat then unpoints ps else unpoints (take MAX_DISPLAY_NAME_CODEPOINTS ps)
  | _ => []
  end.

Definition trimmed (v : option json) : units := match v with Some (JStr u) => trim_units u | _ => [] end.

Definition is_x_account (a : json) : bool := is_object a && str_is (field "type" a) (lit "twitter_oauth").

(** The identity in the one account of X. *)
Definition entry_identity (entry : json) : PrivyVerification :=
  let xId := trimmed (field "subject" entry) in
  let handle := trimmed (field "username" entry) in
  if negb (X_ID_RE xId) then rejected unusable_x_account else
  if negb (HANDLE_RE handle) then rejected unusable_x_account else
  ok (mkXIdentity xId handle (clampDisplayName (field "name" entry)) (expandTwitterAvatarUrl (field "pfp" entry))).

Definition xIdentityFromClaims (payload : json) : PrivyVerification :=
  match field "linked_accounts" payload with
  | None | Some JNull => rejected no_x_account
  | Some (JStr raw) =>
      match parse raw with
      | Some (JArr accounts) =>
          match List.filter is_x_account accounts with
          | [] => rejected no_x_account
          | [entry] => entry_identity entry
          | _ => rejected unusable_x_account
          end
      | _ => rejected malformed
      end
  | Some _ => rejected malformed
  end.

(** ** Privy's public keys *)

Record EcPublicJwk : Type := mkJwk { jwk_x : units; jwk_y : units }.

Inductive KeyLookup : Type := found (jwk : EcPublicJwk) | lookup_unknown | lookup_unavailable.

Fixpoint keys_from (ks : list json) (out : gmap units EcPublicJwk) : option (gmap units EcPublicJwk) :=
  match ks with
  | [] => Some out
  | k :: ks =>
      if negb (is_object k) then None else
      if negb (str_is (field "kty" k) (lit "EC")) || negb (str_is (field "crv" k) (lit "P-256")) then keys_from ks out else
      if bool_decide (field "use" k <> None) && negb (str_is (field "use" k) (lit "sig")) then keys_from ks out else
      match some_text (field "kid" k) with
      | None => None
      | Some kid =>
          match field "x" k, field "y" k with
          | Some (JStr x), Some (JStr y) => keys_from ks (<[kid := mkJwk x y]> out)
          | _, _ => None
          end
      end
  end.

Definition jwksFrom (body : json) : option (gmap units EcPublicJwk) :=
  match field "keys" body with
  | Some (JArr ks) =>
      match keys_from ks ∅ with
      | Some out => if (size out =? 0)%nat then None else Some out
      | None => None
      end
  | _ => None
  end.

(** How the request for the keys ended: a response (its body, when it was
    JSON), or a throw: timeout, redirect, network. *)
Inductive Fetched : Type := answered (status : Z) (body : option json) | threw.

Definition fetchOnce (f : Fetched) : option (gmap units EcPublicJwk) :=
  match f with
  | answered status (Some body) => if (200 <=? status) && (status <=? 299) then jwksFrom body else None
  | _ => None
  end.

(** The class's fields; a fetch in flight is the instant it began with. *)
Record PrivyJwksCache : Type := mkJwksCache {
  keys : option (gmap units EcPublicJwk);
  fetchedAtSec : Z;
  lastAttemptSec : Z;
  inflight : option Z;
}.

Definition new_jwks : PrivyJwksCache := mkJwksCache None 0 0 None.

Definition isStale (c : PrivyJwksCache) (nowSec : Z) : bool :=
  bool_decide (keys c = None) || (JWKS_TTL_SECONDS <=? nowSec - fetchedAtSec c).

(** [refresh] up to its fetch, and what its fetch does. *)
Definition refresh_begin (nowSec : Z) (c : PrivyJwksCache) : PrivyJwksCache :=
  match inflight c with
  | Some _ => c
  | None => mkJwksCache (keys c) (fetchedAtSec c) nowSec (Some nowSec)
  end.

Definition refresh_end (f : Fetched) (c : PrivyJwksCache) : PrivyJwksCache :=
  match inflight c with
  | None => c
  | Some nowSec =>
      match fetchOnce f with
      | Some fetched => mkJwksCache (Some fetched) nowSec (lastAttemptSec c) None
      | None => mkJwksCache (keys c) (fetchedAtSec c) (lastAttemptSec c) None
      end
  end.

(** The end of [keyFor], on the field as it then is. *)
Definition read_key (kid : units) (c : PrivyJwksCache) : KeyLookup :=
  match keys c with
  | None => lookup_unavailable
  | Some m => match m !! kid with None => lookup_unknown | Some jwk => found jwk end
  end.

(** [this.keys.has(kid)] *)
Definition has_key (kid : units) (c : PrivyJwksCache) : bool :=
  match keys c with Some m => present (m !! kid) | None => false end.

(** [keyFor]: an answer, or the branch whose refresh it awaits. *)
Inductive Branch : Type := past_ttl | unknown_kid.

Definition keyFor (kid : units) (now : Z) (c : PrivyJwksCache) : (KeyLookup + Branch) * PrivyJwksCache :=
  let cooledDown := JWKS_COOLDOWN_SECONDS <=? now - lastAttemptSec c in
  if isStale c now then
    if cooledDown || bool_decide (keys c = None) then (inr past_ttl, refresh_begin now c)
    else (inl lookup_unavailable, c)
  else if negb (has_key kid c) && cooledDown then (inr unknown_kid, refresh_begin now c)
  else (inl (read_key kid c), c).

(** [keyFor] after its await. *)
Definition keyFor_after (b : Branch) (kid : units) (now : Z) (c : PrivyJwksCache) : KeyLookup :=
  match b with
  | past_ttl => if isStale c now then lookup_unavailable else read_key kid c
  | unknown_kid => read_key kid c
  end.

(** ** The verifier *)

Definition audienceMatches (aud : option json) (appId : units) : bool :=
  match aud with
  | Some (JStr a) => bool_decide (a = appId)
  | Some (JArr l) => existsb (fun a => str_is (Some a) appId) l
  | _ => false
  end.

Section Verifier.
Context (appId : units) (ecdsa : EcPublicJwk -> list Z -> list Z -> option bool).

(** [verify] up to its key lookup. *)
Definition check_claims (token : units) (nowSec : Z) : PrivyRejection + DecodedJwt :=
  match decodeJwt token with
  | None => inl malformed
  | Some decoded =>
      let p := payload decoded in
      if negb (str_is (field "iss" p) PRIVY_ISSUER) then inl wrong_issuer else
      if negb (audienceMatches (field "aud" p) appId) then inl wrong_audience else
      if negb (present (some_text (field "sub" p))) then inl malformed else
      match field "exp" p with
      | Some (JNum exp) =>
          if negb (is_finite exp) then inl expired else
          if leb (add exp (of_Z CLOCK_SKEW_SECONDS)) (of_Z nowSec) then inl expired else
          match field "iat" p with
          | Some (JNum iat) =>
              if negb (is_finite iat) then inl stale else
              if ltb (of_Z nowSec) (sub iat (of_Z CLOCK_SKEW_SECONDS)) then inl stale else
              if ltb (of_Z MAX_IDENTITY_TOKEN_AGE_SECONDS) (sub (of_Z nowSec) iat) then inl stale else
              inr decoded
          | _ => inl stale
          end
      | _ => inl expired
      end
  end.

(** [verify] from the lookup's answer on. *)
Definition finish (decoded : DecodedJwt) (lookup : KeyLookup) : PrivyVerification :=
  match lookup with
  | lookup_unavailable => rejected keys_unavailable
  | lookup_unknown => rejected unknown_key
  | found jwk =>
      match ecdsa jwk (signature decoded) (signingInput decoded) with
      | Some true => xIdentityFromClaims (payload decoded)
      | _ => rejected bad_signature
      end
  end.

(** A call of [verify] that awaits the keys. *)
Record Waiter : Type := mkWaiter { w_id : nat; w_jwt : DecodedJwt; w_now : Z; w_branch : Branch }.

Record Verifier : Type := mkVerifier { cache : PrivyJwksCache; waiters : list Waiter }.

Definition createPrivyVerifier : Verifier := mkVerifier new_jwks [].

(** A call: its name, the token, the caller's clock and the cache's; or the end
    of the fetch in flight. *)
Inductive VerifierEvent : Type :=
| presented (id : nat) (token : units) (nowSec clock : Z)
| fetch_ended (f : Fetched).

Definition verify (id : nat) (token : units) (nowSec clock : Z) (s : Verifier) : list (nat * PrivyVerification) * Verifier :=
  match check_claims token nowSec with
  | inl reason => ([(id, rejected reason)], s)
  | inr decoded =>
      match keyFor (kid decoded) clock (cache s) with
      | (inl lookup, c) => ([(id, finish decoded lookup)], mkVerifier c (waiters s))
      | (inr b, c) => ([], mkVerifier c (waiters s ++ [mkWaiter id decoded clock b]))
      end
  end.

Definition resume (c : PrivyJwksCache) (w : Waiter) : nat * PrivyVerification :=
  (w_id w, finish (w_jwt w) (keyFor_after (w_branch w) (kid (w_jwt w)) (w_now w) c)).

Definition verifier_step (e : VerifierEvent) (s : Verifier) : list (nat * PrivyVerification) * Verifier :=
  match e with
  | presented id token nowSec clock => verify id token nowSec clock s
  | fetch_ended f =>
      match inflight (cache s) with
      | None => ([], s)
      | Some _ => let c := refresh_end f (cache s) in (resume c <$> waiters s, mkVerifier c [])
      end
  end.

Fixpoint verifier_run (es : list VerifierEvent) (s : Verifier) : list (nat * PrivyVerification) * Verifier :=
  match es with
  | [] => ([], s)
  | e :: es =>
      let '(out, s) := verifier_step e s in
      let '(out', s) := verifier_run es s in (out ++ out', s)
  end.

End Verifier.
