(* ===== verification/PrivyLaws.v ===== *)
(** * Laws of the Privy verifier

    A token is read back to what was signed into it; an identity is only ever
    the reading of a token in its time, signed under a key Privy's endpoint
    served within the last hour; and the key endpoint is asked as seldom as the
    cooldown says. *)
From stdpp Require Import sorting.
From S2P Require Import Prelude Text JsNum Json Codec PrivyIdentity.

(** ** Segments *)

(** The reference encoder of a segment. *)
Definition url_char (s : Z) : Z :=
  if s <? 26 then 65 + s else if s <? 52 then 71 + s else if s <? 62 then s - 4 else if s =? 62 then 45 else 95.

Definition b64url (bytes : list Z) : units := url_char <$> bytes_sextets bytes.

Lemma url_char_spec s : 0 <= s < 64 -> b64url_unit (url_char s) = true /\ base64_sextet (url_to_base64 (url_char s)) = Some s.
Proof.
  intros Hs. assert (forallb (fun n => b64url_unit (url_char (Z.of_nat n)) &&
    bool_decide (base64_sextet (url_to_base64 (url_char (Z.of_nat n))) = Some (Z.of_nat n))) (seq 0 64) = true) as H by reflexivity.
  rewrite forallb_forall in H. specialize (H (Z.to_nat s)). rewrite Z2Nat.id in H by lia.
  destruct (andb_prop _ _ (H ltac:(apply in_seq; lia))) as [H1 H2]. split; [exact H1 | by apply bool_decide_eq_true in H2].
Qed.

Lemma url_to_base64_plain c : b64url_unit c = true ->
  base64_space (url_to_base64 c) = false /\ url_to_base64 c <> 61 /\ 0 <= c < 128 /\ c <> 46.
Proof.
  intros Hc. assert (0 <= c < 128) as Hr.
  { unfold b64url_unit, letter_unit, digit_unit, within in Hc.
    rewrite !orb_true_iff, !andb_true_iff, !Z.leb_le, !Z.eqb_eq in Hc. lia. }
  assert (forallb (fun n => negb (b64url_unit (Z.of_nat n)) || (negb (base64_space (url_to_base64 (Z.of_nat n))) &&
    negb (url_to_base64 (Z.of_nat n) =? 61) && negb (Z.of_nat n =? 46))) (seq 0 128) = true) as H by reflexivity.
  rewrite forallb_forall in H. specialize (H (Z.to_nat c)). rewrite Z2Nat.id in H by lia.
  specialize (H ltac:(apply in_seq; lia)). rewrite Hc in H. cbn [negb orb] in H.
  apply andb_prop in H as [H H3]. apply andb_prop in H as [H1 H2]. zbool. split_and!; done || lia.
Qed.

Lemma segment_chars seg bytes : base64UrlToBytes seg = Some bytes -> forallb b64url_unit seg = true /\ seg <> [].
Proof.
  unfold base64UrlToBytes. destruct (bool_decide (seg = []) || negb (forallb b64url_unit seg)) eqn:E; [done |].
  apply orb_false_iff in E as [E1 E2]. apply bool_decide_eq_false in E1. by apply negb_false_iff in E2.
Qed.

Lemma segment_plain seg : forallb b64url_unit seg = true -> ascii_units seg /\ Forall (fun c => c <> 46) seg.
Proof.
  rewrite forallb_forall. intros H. split; apply Forall_forall; intros c Hc;
    apply list_elem_of_In, H, url_to_base64_plain in Hc as (_ & _ & ? & ?); done.
Qed.

Lemma filter_all {A} (p : A -> bool) l : Forall (fun x => p x = true) l -> List.filter p l = l.
Proof. induction 1 as [| x l Hx _ IH]; [done |]. cbn. by rewrite Hx, IH. Qed.

(** What the encoder wrote is read back, byte for byte. *)
Lemma b64url_read bytes : byte_list bytes -> bytes <> [] -> base64UrlToBytes (b64url bytes) = Some bytes.
Proof.
  intros Hb Hne. pose proof (bytes_sextets_range bytes Hb) as Hs. pose proof (bytes_sextets_length bytes) as Hn.
  assert (bytes_sextets bytes <> []) as Hse by (destruct bytes as [| ? [| ? [| ? ?]]]; done).
  pose proof (sextets_bytes_sextets bytes Hb) as Hback.
  unfold base64UrlToBytes, b64url. set (ss := bytes_sextets bytes) in *. clearbody ss.
  assert (forallb b64url_unit (url_char <$> ss) = true) as ->.
  { apply forallb_forall. intros c Hc. apply list_elem_of_In, list_elem_of_fmap in Hc as (s & -> & Hin).
    rewrite Forall_forall in Hs. by apply url_char_spec, Hs. }
  rewrite bool_decide_eq_false_2 by (by destruct ss). cbn [negb orb]. rewrite length_fmap. unfold atob.
  set (l := url_to_base64 <$> (url_char <$> ss)).
  assert (length l = length ss) as Hl by (unfold l; by rewrite !length_fmap).
  assert (Forall (fun c => base64_space c = false /\ c <> 61) l) as Hp.
  { unfold l. rewrite <- list_fmap_compose. apply Forall_fmap. eapply Forall_impl; [exact Hs |]. intros s Hsr. cbn.
    destruct (url_char_spec s Hsr) as [Hu _]. apply url_to_base64_plain in Hu as (? & ? & _). done. }
  rewrite List.filter_app, !filter_all; cycle 1.
  { by induction ((4 - length ss mod 4) mod 4)%nat; constructor. }
  { eapply Forall_impl; [exact Hp |]. intros c [Hc _]. by rewrite Hc. }
  rewrite <- Hl, strip_equals_padded; cycle 1.
  { eapply Forall_impl; [exact Hp |]. by intros c [_ ?]. }
  { by rewrite Hl. }
  rewrite Hl. destruct (Nat.eqb_spec (length ss mod 4) 1); [done |]. fold l.
  enough (mapM base64_sextet l = Some ss) as -> by (cbn; by rewrite Hback).
  unfold l. apply mapM_Some_2. clear - Hs. induction Hs as [| s ss Hsr _ IH]; constructor; [| exact IH].
  by apply url_char_spec.
Qed.

(** ** Splitting *)

Lemma split_dot_plain u : Forall (fun c => c <> 46) u -> split_dot u = [u].
Proof.
  induction 1 as [| c u Hc _ IH]; [done |]. cbn. rewrite IH. by destruct (Z.eqb_spec c 46).
Qed.

Lemma split_dot_app u v : Forall (fun c => c <> 46) u -> split_dot (u ++ 46 :: v) = u :: split_dot v.
Proof.
  induction 1 as [| c u Hc _ IH]; [done |]. change ((c :: u) ++ 46 :: v) with (c :: (u ++ 46 :: v)). cbn [split_dot].
  rewrite IH. by destruct (Z.eqb_spec c 46).
Qed.

Fixpoint dotted (ps : list units) : units := match ps with [] => [] | [p] => p | p :: ps => p ++ 46 :: dotted ps end.

Lemma dotted_split u : dotted (split_dot u) = u /\ split_dot u <> [].
Proof.
  induction u as [| c u [IH Hne]]; [done |]. cbn [split_dot]. destruct (Z.eqb_spec c 46) as [-> |].
  - split; [| done]. destruct (split_dot u) as [| p ps]; [done |]. cbn [dotted app]. cbn [dotted] in IH. by rewrite IH.
  - destruct (split_dot u) as [| p ps]; [done |]. split; [| done]. destruct ps as [| q ps]; cbn [dotted app] in *; by rewrite IH.
Qed.

Lemma split_dot_three u p0 p1 p2 : split_dot u = [p0; p1; p2] -> u = p0 ++ 46 :: p1 ++ 46 :: p2.
Proof. intros H. destruct (dotted_split u) as [Hu _]. rewrite H in Hu. by cbn in Hu. Qed.

(** ** Decoding *)

Lemma str_is_eq v s : str_is v s = true <-> v = Some (JStr s).
Proof.
  unfold str_is. split; [| intros ->; by apply bool_decide_eq_true].
  destruct v as [[| | | u | |] |]; try done. intros H. apply bool_decide_eq_true in H. by subst.
Qed.

Lemma some_text_eq v u : some_text v = Some u <-> v = Some (JStr u) /\ u <> [].
Proof.
  unfold some_text. split.
  - destruct v as [[| | | [| c w] | |] |]; try done. by intros [= <-].
  - intros [-> Hu]. by destruct u.
Qed.

(** What a decoded token is the reading of. *)
Record reading (token : units) (d : DecodedJwt) : Prop := mkReading {
  read_short : Z.of_nat (length token) <= 8192;
  read_parts : exists p0 p1 p2 header,
    token = p0 ++ 46 :: p1 ++ 46 :: p2 /\ signingInput d = p0 ++ 46 :: p1 /\
    (b ← base64UrlToBytes p0; jsonFrom b) = Some header /\ is_object header = true /\
    field "alg" header = Some (JStr REQUIRED_ALG) /\ field "crit" header = None /\
    field "kid" header = Some (JStr (kid d)) /\ kid d <> [] /\
    (b ← base64UrlToBytes p1; jsonFrom b) = Some (payload d) /\
    base64UrlToBytes p2 = Some (signature d);
  read_signature : length (signature d) = 64%nat;
}.

Lemma decode_reading token d : decodeJwt token = Some d -> reading token d.
Proof.
  unfold decodeJwt. destruct (_ || _) eqn:El; [done |]. apply orb_false_iff in El as [_ El].
  destruct (split_dot token) as [| p0 [| p1 [| p2 [|]]]] eqn:Es; try done. apply split_dot_three in Es.
  destruct (base64UrlToBytes p0) as [hb |] eqn:E0; [| done]. destruct (base64UrlToBytes p1) as [pb |] eqn:E1; [| done].
  destruct (base64UrlToBytes p2) as [sig |] eqn:E2; [| done]. destruct (Nat.eqb_spec (length sig) 64) as [H64 |]; [| done]. cbn [negb].
  destruct (jsonFrom hb) as [header |] eqn:Eh; [| done]. destruct (jsonFrom pb) as [pl |] eqn:Ep; [| done].
  destruct (is_object header) eqn:Eo; [| done]. destruct (is_object pl); [| done]. cbn [negb].
  destruct (str_is _ _) eqn:Ea; [| done]. cbn [negb]. destruct (field "crit" header) eqn:Ec; [done |].
  destruct (some_text _) as [k |] eqn:Ek; [| done]. intros [= <-]. apply str_is_eq in Ea. apply some_text_eq in Ek as [Ek Hk].
  zbool. constructor; [done | | done]. exists p0, p1, p2, header. cbn [signingInput kid payload signature].
  split; [done |]. split; [| by rewrite E0, E1, E2; cbn; rewrite Eh, Ep].
  apply segment_chars in E0 as [E0 _], E1 as [E1 _]. apply segment_plain in E0 as [E0 _], E1 as [E1 _].
  apply encode_ascii. apply Forall_app. split; [done |]. by apply List.Forall_cons; [lia |].
Qed.

(** The token a signer makes of a header, a payload and a signature. *)
Definition token_of (header payload : json) (signature : list Z) : units :=
  b64url (encode (stringify [] header)) ++ 46 :: b64url (encode (stringify [] payload)) ++ 46 :: b64url signature.

Lemma object_text v : json_ok v -> is_object v = true ->
  text_ok (stringify [] v) /\ exists c u, stringify [] v = c :: u /\ 0 <= c < 128.
Proof.
  intros Hv Ho. split; [by apply stringify_text |].
  destruct v as [| | | | l | fs]; try done; unfold stringify; cbn [show_at].
  - destruct l; eexists 91, _; (split; [reflexivity | lia]).
  - destruct fs; eexists 123, _; (split; [reflexivity | lia]).
Qed.

Lemma segment_json v : json_ok v -> is_object v = true ->
  base64UrlToBytes (b64url (encode (stringify [] v))) = Some (encode (stringify [] v)) /\
  jsonFrom (encode (stringify [] v)) = Some v.
Proof.
  intros Hv Ho. destruct (object_text v Hv Ho) as (Ht & c & u & Hs & Hc). split.
  - apply b64url_read; [by apply encode_bytes, text_ok_well_formed |]. rewrite Hs. intros He.
    assert (decode (encode (c :: u)) = c :: u) as Hd.
    { apply decode_encode; [by rewrite <- Hs | cbn; intros [=]; lia]. }
    by rewrite He in Hd.
  - unfold jsonFrom. rewrite decode_encode; [| done | rewrite Hs; cbn; intros [=]; lia].
    pose proof (parse_stringify [] ltac:(constructor) v [] Hv ltac:(constructor)) as H. by rewrite app_nil_r in H.
Qed.

Lemma segment_made bytes seg : base64UrlToBytes seg = Some bytes -> Forall (fun c => c <> 46) seg.
Proof. intros H. apply segment_chars in H as [H _]. by apply segment_plain in H as [_ H]. Qed.

(** Round trip of tokens.  The token made of any ES256 header that names a
    key and no critical extension, any payload (text in any script, numbers,
    nested values) and any signature of 64 bytes is decoded, within the length
    bound, to exactly that key name, that payload and that signature, and the
    bytes to verify are the two segments as they were sent. *)
Theorem tokens_read_back header payload sig k
  (Hheader : json_ok header) (Hpayload : json_ok payload)
  (Hobjects : is_object header = true /\ is_object payload = true)
  (Halg : field "alg" header = Some (JStr REQUIRED_ALG)) (Hcrit : field "crit" header = None)
  (Hkid : field "kid" header = Some (JStr k) /\ k <> [])
  (Hsig : byte_list sig /\ length sig = 64%nat)
  (Hlen : Z.of_nat (length (token_of header payload sig)) <= 8192) :
  decodeJwt (token_of header payload sig) =
  Some (mkJwt k payload (b64url (encode (stringify [] header)) ++ 46 :: b64url (encode (stringify [] payload))) sig).
Proof.
  destruct Hobjects as [Hho Hpo], Hsig as [Hsb Hsl].
  destruct (segment_json header Hheader Hho) as [Hh Hhj], (segment_json payload Hpayload Hpo) as [Hp Hpj].
  assert (base64UrlToBytes (b64url sig) = Some sig) as Hs by (apply b64url_read; [done | by intros ->]).
  unfold decodeJwt. destruct (Z.ltb_spec 8192 (Z.of_nat (length (token_of header payload sig)))); [lia |].
  destruct (Z.eqb_spec (Z.of_nat (length (token_of header payload sig))) 0) as [H0 |].
  { unfold token_of in H0. rewrite length_app in H0. cbn [length] in H0. lia. }
  cbn [orb]. unfold token_of.
  rewrite split_dot_app, split_dot_app, split_dot_plain by (by eapply segment_made).
  rewrite Hh, Hp, Hs, Hsl, Hhj, Hpj, Hho, Hpo. cbn [Nat.eqb negb].
  rewrite (proj2 (str_is_eq _ _) Halg), Hcrit, (proj2 (some_text_eq _ _) Hkid). cbn [negb]. do 2 f_equal.
  apply segment_chars in Hh as [Hh _], Hp as [Hp _]. apply segment_plain in Hh as [Hh _], Hp as [Hp _].
  apply encode_ascii. apply Forall_app. split; [done |]. by apply List.Forall_cons; [lia |].
Qed.

(** ** Claims *)

(** What the claims of a token that was not refused say at [nowSec]. *)
Record claims_hold (appId : units) (nowSec : Z) (p : json) : Prop := mkClaims {
  claim_iss : field "iss" p = Some (JStr PRIVY_ISSUER);
  claim_aud : field "aud" p = Some (JStr appId) \/ exists l, field "aud" p = Some (JArr l) /\ JStr appId ∈ l;
  claim_sub : exists u, field "sub" p = Some (JStr u) /\ u <> [];
  claim_times : exists exp iat, field "exp" p = Some (JNum exp) /\ field "iat" p = Some (JNum iat) /\
    is_finite exp = true /\ is_finite iat = true /\
    leb (add exp (of_Z CLOCK_SKEW_SECONDS)) (of_Z nowSec) = false /\
    ltb (of_Z nowSec) (sub iat (of_Z CLOCK_SKEW_SECONDS)) = false /\
    ltb (of_Z MAX_IDENTITY_TOKEN_AGE_SECONDS) (sub (of_Z nowSec) iat) = false;
}.

Lemma audience_spec aud appId : audienceMatches aud appId = true <->
  aud = Some (JStr appId) \/ exists l, aud = Some (JArr l) /\ JStr appId ∈ l.
Proof.
  unfold audienceMatches. split.
  - destruct aud as [[| | | a | l |] |]; try done; intros H.
    + apply bool_decide_eq_true in H as ->. by left.
    + right. exists l. split; [done |]. apply existsb_exists in H as (a & Ha & H). apply str_is_eq in H as [= ->]. by apply list_elem_of_In.
  - intros [-> | (l & -> & Hl)]; [by apply bool_decide_eq_true |]. apply existsb_exists. exists (JStr appId).
    split; [by apply list_elem_of_In | by apply str_is_eq].
Qed.

Lemma checked_claims appId token nowSec d : check_claims appId token nowSec = inr d ->
  decodeJwt token = Some d /\ claims_hold appId nowSec (payload d).
Proof.
  unfold check_claims. destruct (decodeJwt token) as [d' |]; [| discriminate].
  destruct (str_is _ _) eqn:Ei; cbn [negb]; [| discriminate].
  destruct (audienceMatches _ _) eqn:Ea; cbn [negb]; [| discriminate].
  destruct (some_text _) as [u |] eqn:Es; cbn [negb present]; [| discriminate].
  destruct (field "exp" _) as [[| | exp | | |] |] eqn:Ee; try discriminate.
  destruct (is_finite exp) eqn:Fe; cbn [negb]; [| discriminate]. destruct (leb _ _) eqn:E1; [discriminate |].
  destruct (field "iat" _) as [[| | iat | | |] |] eqn:Et; try discriminate.
  destruct (is_finite iat) eqn:Ft; cbn [negb]; [| discriminate]. destruct (ltb _ (sub iat _)) eqn:E2; [discriminate |].
  destruct (ltb (of_Z MAX_IDENTITY_TOKEN_AGE_SECONDS) (sub (of_Z nowSec) iat)) eqn:E3; [discriminate |]. intros [= <-]. split; [reflexivity |]. apply str_is_eq in Ei.
  apply some_text_eq in Es. constructor; [exact Ei | by apply audience_spec | by exists u | exists exp, iat; split_and!; assumption].
Qed.

(** ** Identities *)

(** What any identity looks like, whatever the token said. *)
Record identity_shaped (i : XIdentity) : Prop := mkShaped {
  shaped_id : forallb digit_unit (xId i) = true /\ (1 <= length (xId i) <= 20)%nat;
  shaped_handle : forallb (fun c => letter_unit c || digit_unit c || (c =? 95)) (handle i) = true /\ (1 <= length (handle i) <= 15)%nat;
  shaped_name : exists ps, displayName i = unpoints ps /\ (length ps <= 100)%nat;
  shaped_avatar : forall u, avatarUrl i = Some u -> exists rest, u = TWIMG ++ rest /\ forallb url_unit rest = true /\ rest <> [];
}.

Lemma shaped_spec p lo hi u : shaped p lo hi u = true -> forallb p u = true /\ (lo <= length u <= hi)%nat.
Proof. unfold shaped. rewrite !andb_true_iff, !Nat.leb_le. tauto. Qed.

Lemma word_some w u r : word w u = Some r -> u = w ++ r.
Proof.
  revert u. induction w as [| c w IH]; intros u; cbn; [by intros [= ->] |]. destruct u as [| d u]; [done |].
  destruct (Z.eqb_spec c d) as [-> |]; [| done]. intros H. by rewrite (IH u H).
Qed.

Lemma avatar_host pfp u : expandTwitterAvatarUrl pfp = Some u -> exists rest, u = TWIMG ++ rest /\ forallb url_unit rest = true /\ rest <> [].
Proof.
  unfold expandTwitterAvatarUrl. destruct pfp as [[| | | p | |] |]; try discriminate. cbv zeta.
  destruct (_ || _); [discriminate |]. destruct (starts_with _ _); [discriminate |].
  set (cand := if starts_with _ _ then _ else _). clearbody cand. destruct (twimg_url cand) eqn:E; cbn [negb]; [| discriminate].
  destruct (double_slash _); [discriminate |]. intros [= <-]. unfold twimg_url in E.
  destruct (word TWIMG cand) as [rest |] eqn:Ew; [| discriminate]. apply word_some in Ew. apply andb_prop in E as [E1 E2].
  exists rest. split; [exact Ew |]. split; [exact E1 |]. apply negb_true_iff in E2. by apply bool_decide_eq_false in E2.
Qed.

Lemma clamped_name name : exists ps, clampDisplayName name = unpoints ps /\ (length ps <= 100)%nat.
Proof.
  unfold clampDisplayName. destruct name as [[| | | u | |] |]; try (exists []; split; [reflexivity | cbn; lia]). cbv zeta.
  destruct (Nat.leb_spec (length (points (trim_units u))) MAX_DISPLAY_NAME_CODEPOINTS); eexists; (split; [reflexivity |]); [done |].
  rewrite length_take. unfold MAX_DISPLAY_NAME_CODEPOINTS. lia.
Qed.

(** A name whose surrogates are paired keeps them paired, cut or not. *)
Lemma clamped_text u : text_ok (trim_units u) -> text_ok (clampDisplayName (Some (JStr u))) /\
  points (clampDisplayName (Some (JStr u))) = take MAX_DISPLAY_NAME_CODEPOINTS (points (trim_units u)).
Proof.
  intros (ps & Hp & Hu). unfold clampDisplayName. rewrite Hu, points_unpoints by done. cbv zeta.
  destruct (Nat.leb_spec (length ps) MAX_DISPLAY_NAME_CODEPOINTS) as [Hl | Hl].
  - rewrite points_unpoints, take_ge by done. split; [by exists ps | done].
  - assert (Forall scalar (take MAX_DISPLAY_NAME_CODEPOINTS ps)) by by apply Forall_take.
    rewrite points_unpoints by done. split; [by eexists | done].
Qed.

(** The one account of X in the claims, and what it is read to. *)
Lemma identity_read p i : xIdentityFromClaims p = ok i -> identity_shaped i /\
  exists raw accounts entry, field "linked_accounts" p = Some (JStr raw) /\ parse raw = Some (JArr accounts) /\
    List.filter is_x_account accounts = [entry] /\
    xId i = trimmed (field "subject" entry) /\ handle i = trimmed (field "username" entry).
Proof.
  unfold xIdentityFromClaims. destruct (field "linked_accounts" p) as [[| | | raw | |] |]; try discriminate.
  destruct (parse raw) as [[| | | | accounts |] |] eqn:Ep; try discriminate.
  destruct (List.filter is_x_account accounts) as [| entry [|]] eqn:Ef; try discriminate.
  unfold entry_identity. cbv zeta. destruct (X_ID_RE _) eqn:E1; cbn [negb]; [| discriminate].
  destruct (HANDLE_RE _) eqn:E2; cbn [negb]; [| discriminate]. intros [= <-]. split.
  - constructor; cbn [xId handle displayName avatarUrl]; [by apply shaped_spec in E1 | by apply shaped_spec in E2 | apply clamped_name |].
    apply avatar_host.
  - by exists raw, accounts, entry.
Qed.

(** ** Histories *)

Definition clocks (es : list VerifierEvent) : list Z :=
  omap (fun e => match e with presented _ _ _ clock => Some clock | fetch_ended _ => None end) es.

(** The clock does not run backwards. *)
Definition in_order (es : list VerifierEvent) : Prop := StronglySorted Z.le (clocks es).

Lemma in_order_snoc es e : in_order (es ++ [e]) ->
  in_order es /\ forall id token nowSec clock, e = presented id token nowSec clock -> Forall (fun t => t <= clock) (clocks es).
Proof.
  unfold in_order, clocks. rewrite omap_app. intros H. split; [by apply StronglySorted_app_1_l in H |].
  intros id token nowSec clock ->. apply Forall_forall. intros t Ht.
  apply StronglySorted_app in H as [H _]. apply H; [exact Ht |]. cbn. left.
Qed.

Lemma finish_ok ecdsa d lookup i : finish ecdsa d lookup = ok i ->
  exists jwk, lookup = found jwk /\ ecdsa jwk (signature d) (signingInput d) = Some true /\ xIdentityFromClaims (payload d) = ok i.
Proof.
  destruct lookup as [jwk | |]; cbn [finish]; try discriminate. destruct (ecdsa _ _ _) as [[|] |] eqn:E; try discriminate.
  intros H. by exists jwk.
Qed.

Lemma read_key_found k c jwk : read_key k c = found jwk -> exists m, keys c = Some m /\ m !! k = Some jwk.
Proof.
  unfold read_key. destruct (keys c) as [m |]; [| discriminate]. destruct (m !! k) as [j |] eqn:E; [| discriminate].
  intros [= <-]. by exists m.
Qed.

Lemma not_stale c now : isStale c now = false -> keys c <> None /\ now - fetchedAtSec c < JWKS_TTL_SECONDS.
Proof. unfold isStale. intros H. apply orb_false_iff in H as [H1 H2]. apply bool_decide_eq_false in H1. apply Z.leb_gt in H2. done. Qed.

Section Histories.
Context (appId : units) (ecdsa : EcPublicJwk -> list Z -> list Z -> option bool).

Definition after (es : list VerifierEvent) : Verifier := snd (verifier_run appId ecdsa es createPrivyVerifier).

Definition verdicts (es : list VerifierEvent) : list (nat * PrivyVerification) := fst (verifier_run appId ecdsa es createPrivyVerifier).

(** A fetch begun at [t] brought the key set [m]. *)
Definition published (es : list VerifierEvent) (t : Z) (m : gmap units EcPublicJwk) : Prop :=
  exists es1 f es2, es = es1 ++ fetch_ended f :: es2 /\ inflight (cache (after es1)) = Some t /\ fetchOnce f = Some m.

(** What stands behind an identity. *)
Definition trusted (es : list VerifierEvent) (id : nat) (i : XIdentity) : Prop :=
  exists token nowSec clock d t m jwk,
    presented id token nowSec clock ∈ es /\ decodeJwt token = Some d /\ claims_hold appId nowSec (payload d) /\
    published es t m /\ clock - t < JWKS_TTL_SECONDS /\ m !! kid d = Some jwk /\
    ecdsa jwk (signature d) (signingInput d) = Some true /\ xIdentityFromClaims (payload d) = ok i.

Record verifier_inv (es : list VerifierEvent) (s : Verifier) : Prop := mkInv {
  inv_keys : forall m, keys (cache s) = Some m -> published es (fetchedAtSec (cache s)) m /\ fetchedAtSec (cache s) ∈ clocks es;
  inv_flight : forall t, inflight (cache s) = Some t ->
    t ∈ clocks es /\ (keys (cache s) <> None -> fetchedAtSec (cache s) <= t);
  inv_waiters : Forall (fun w => exists token nowSec, presented (w_id w) token nowSec (w_now w) ∈ es /\
    check_claims appId token nowSec = inr (w_jwt w) /\
    (w_branch w = unknown_kid -> keys (cache s) <> None /\ w_now w - fetchedAtSec (cache s) < JWKS_TTL_SECONDS)) (waiters s);
}.

Lemma verifier_run_snoc es e s : verifier_run appId ecdsa (es ++ [e]) s =
  let '(out, s1) := verifier_run appId ecdsa es s in let '(out', s2) := verifier_step appId ecdsa e s1 in (out ++ out', s2).
Proof.
  revert s. induction es as [| e' es IH]; intros s; cbn [app verifier_run].
  - destruct (verifier_step appId ecdsa e s) as [out s']. by rewrite app_nil_r.
  - destruct (verifier_step appId ecdsa e' s) as [out s']. rewrite IH. destruct (verifier_run appId ecdsa es s') as [o1 s1].
    destruct (verifier_step appId ecdsa e s1) as [o2 s2]. by rewrite app_assoc.
Qed.

Lemma published_more es es' t m : published es t m -> published (es ++ es') t m.
Proof. intros (es1 & f & es2 & -> & H). exists es1, f, (es2 ++ es'). by rewrite <- app_assoc. Qed.

Lemma clocks_more es es' t : t ∈ clocks es -> t ∈ clocks (es ++ es').
Proof. unfold clocks. rewrite omap_app, elem_of_app. by left. Qed.

(** An answer from a held set within its hour is vouched for. *)
Lemma answer_trusted es id token nowSec clock d c i :
  presented id token nowSec clock ∈ es -> check_claims appId token nowSec = inr d ->
  (forall m, keys c = Some m -> published es (fetchedAtSec c) m) -> clock - fetchedAtSec c < JWKS_TTL_SECONDS ->
  finish ecdsa d (read_key (kid d) c) = ok i -> trusted es id i.
Proof using.
  intros Hin Hc Hk Ht Hf. apply finish_ok in Hf as (jwk & Hr & He & Hx). apply read_key_found in Hr as (m & Hm & Hj).
  apply checked_claims in Hc as [Hd Hcl]. exists token, nowSec, clock, d, (fetchedAtSec c), m, jwk.
  split_and!; [exact Hin | exact Hd | exact Hcl | by apply Hk | exact Ht | exact Hj | exact He | exact Hx].
Qed.

Lemma refresh_begin_inv es id token nowSec clock s b d :
  verifier_inv es s -> Forall (fun t => t <= clock) (clocks es) -> check_claims appId token nowSec = inr d ->
  (b = unknown_kid -> isStale (cache s) clock = false) ->
  verifier_inv (es ++ [presented id token nowSec clock])
    (mkVerifier (refresh_begin clock (cache s)) (waiters s ++ [mkWaiter id d clock b])).
Proof using.
  intros [Hk Hf Hw] Ho Hc Hb.
  assert (keys (refresh_begin clock (cache s)) = keys (cache s) /\
    fetchedAtSec (refresh_begin clock (cache s)) = fetchedAtSec (cache s)) as [Ek Ef]
    by (unfold refresh_begin; by destruct (inflight (cache s))).
  assert (clock ∈ clocks (es ++ [presented id token nowSec clock])) as Hin.
  { unfold clocks. rewrite omap_app. apply elem_of_app. right. left. }
  constructor; cbn [cache waiters]; rewrite ?Ek, ?Ef.
  - intros m Hm. destruct (Hk m Hm) as [H1 H2]. split; [by apply published_more | by apply clocks_more].
  - intros t. unfold refresh_begin. destruct (inflight (cache s)) as [t0 |] eqn:Ei.
    + intros Ht. rewrite Ei in Ht. destruct (Hf t Ht) as [H1 H2]. split; [by apply clocks_more | exact H2].
    + cbn [inflight]. intros [= <-]. split; [exact Hin |]. intros Hne. destruct (keys (cache s)) as [m |] eqn:Em; [| done].
      destruct (Hk m eq_refl) as [_ H]. rewrite Forall_forall in Ho. by apply Ho.
  - apply Forall_app. split.
    + eapply Forall_impl; [exact Hw |]. intros w (tk & n & Hp & Hrest). exists tk, n. split; [apply elem_of_app; by left | exact Hrest].
    + apply Forall_singleton. exists token, nowSec. cbn [w_id w_now w_jwt w_branch]. split; [apply elem_of_app; right; left |].
      split; [exact Hc |]. intros Hu. by apply not_stale, Hb.
Qed.

Lemma presented_inv es id token nowSec clock s :
  verifier_inv es s -> Forall (fun t => t <= clock) (clocks es) ->
  verifier_inv (es ++ [presented id token nowSec clock]) (verify appId ecdsa id token nowSec clock s).2 /\
  Forall (fun a => forall i, a.2 = ok i -> trusted (es ++ [presented id token nowSec clock]) a.1 i)
    (verify appId ecdsa id token nowSec clock s).1.
Proof using.
  intros Hinv Ho. assert (verifier_inv (es ++ [presented id token nowSec clock]) s) as Hsame.
  { destruct Hinv as [Hk Hf Hw]. constructor.
    - intros m Hm. destruct (Hk m Hm) as [H1 H2]. split; [by apply published_more | by apply clocks_more].
    - intros t Ht. destruct (Hf t Ht) as [H1 H2]. split; [by apply clocks_more | exact H2].
    - eapply Forall_impl; [exact Hw |]. intros w (tk & n & Hp & Hrest). exists tk, n. split; [apply elem_of_app; by left | exact Hrest]. }
  unfold verify. destruct (check_claims appId token nowSec) as [r | d] eqn:Ec.
  { split; [exact Hsame |]. apply Forall_singleton. intros i. cbn. discriminate. }
  assert (verifier_inv (es ++ [presented id token nowSec clock]) (mkVerifier (cache s) (waiters s))) as Hsame' by by destruct s.
  unfold keyFor. cbv zeta. destruct (isStale (cache s) clock) eqn:Es.
  - destruct (_ || _).
    + split; [| apply Forall_nil_2]. apply refresh_begin_inv; [exact Hinv | exact Ho | exact Ec |]. discriminate.
    + split; [exact Hsame' |]. apply Forall_singleton. intros i. cbn. discriminate.
  - destruct (negb _ && _).
    + split; [| apply Forall_nil_2]. by apply refresh_begin_inv.
    + split; [exact Hsame' |]. apply Forall_singleton. intros i. cbn [fst snd]. intros Hi.
      eapply (answer_trusted _ id token nowSec clock d (cache s)); [apply elem_of_app; right; left | exact Ec | | exact (proj2 (not_stale _ _ Es)) | exact Hi].
      intros m Hm. by apply Hsame.
Qed.

(** A fetch that ended leaves a set that was published, no older than before. *)
Lemma refresh_end_inv es f s t : verifier_inv es s -> s = after es -> inflight (cache s) = Some t ->
  let c := refresh_end f (cache s) in
  verifier_inv (es ++ [fetch_ended f]) (mkVerifier c []) /\
  (keys (cache s) <> None -> fetchedAtSec (cache s) <= fetchedAtSec c).
Proof using.
  intros [Hk Hf Hw] Hs Hi c. subst c. unfold refresh_end. rewrite Hi. destruct (Hf t Hi) as [Hin Hle].
  destruct (fetchOnce f) as [m |] eqn:Em.
  - split; [constructor; cbn [cache keys fetchedAtSec inflight waiters] | exact Hle]; [| discriminate | constructor].
    intros m' [= <-]. split; [| by apply clocks_more]. exists es, f, []. rewrite <- Hs. done.
  - split; [constructor; cbn [cache keys fetchedAtSec inflight waiters] | cbn; intros _; lia]; [| discriminate | constructor].
    intros m' Hm. destruct (Hk m' Hm) as [H1 H2]. split; [by apply published_more | by apply clocks_more].
Qed.

Lemma ended_inv es f s : verifier_inv es s -> s = after es ->
  verifier_inv (es ++ [fetch_ended f]) (verifier_step appId ecdsa (fetch_ended f) s).2 /\
  Forall (fun a => forall i, a.2 = ok i -> trusted (es ++ [fetch_ended f]) a.1 i) (verifier_step appId ecdsa (fetch_ended f) s).1.
Proof using.
  intros Hinv Hs. cbn [verifier_step]. destruct (inflight (cache s)) as [t |] eqn:Ei.
  - destruct (refresh_end_inv es f s t Hinv Hs Ei) as [Hnew Hle]. cbv zeta. cbn [fst snd]. split; [exact Hnew |].
    set (c := refresh_end f (cache s)) in *. apply Forall_fmap. eapply Forall_impl; [exact (inv_waiters _ _ Hinv) |].
    intros w (token & nowSec & Hp & Hc & Hb). cbn. intros i Hok.
    assert (forall lookup, keyFor_after (w_branch w) (kid (w_jwt w)) (w_now w) c = lookup -> finish ecdsa (w_jwt w) lookup = ok i ->
      lookup = read_key (kid (w_jwt w)) c /\ w_now w - fetchedAtSec c < JWKS_TTL_SECONDS) as Hgo.
    { intros lookup <- Hfin. unfold keyFor_after in *. destruct (w_branch w).
      - destruct (isStale c (w_now w)) eqn:Es; [discriminate |]. split; [done |]. exact (proj2 (not_stale _ _ Es)).
      - split; [done |]. destruct (Hb eq_refl) as [H1 H2]. specialize (Hle H1). lia. }
    destruct (Hgo _ eq_refl Hok) as [He Ht]. rewrite He in Hok.
    eapply answer_trusted; [apply elem_of_app; left; exact Hp | exact Hc | | exact Ht | exact Hok].
    intros m Hm. by apply (inv_keys _ _ Hnew).
  - cbn [fst snd]. split; [| constructor]. destruct Hinv as [Hk Hf Hw]. constructor.
    + intros m Hm. destruct (Hk m Hm) as [H1 H2]. split; [by apply published_more | by apply clocks_more].
    + intros t Ht. congruence.
    + eapply Forall_impl; [exact Hw |]. intros w (tk & n & Hp & Hrest). exists tk, n. split; [apply elem_of_app; by left | exact Hrest].
Qed.

Lemma trusted_more es es' id i : trusted es id i -> trusted (es ++ es') id i.
Proof using.
  intros (token & nowSec & clock & d & t & m & jwk & H1 & H2 & H3 & H4 & Hrest).
  exists token, nowSec, clock, d, t, m, jwk. split; [apply elem_of_app; by left |].
  split; [exact H2 |]. split; [exact H3 |]. split; [by apply published_more | exact Hrest].
Qed.

Lemma history_trusted es : in_order es ->
  verifier_inv es (after es) /\ Forall (fun a => forall i, a.2 = ok i -> trusted es a.1 i) (verdicts es).
Proof using.
  induction es as [| e es IH] using rev_ind; intros Ho.
  - split; [| constructor]. constructor; [discriminate | discriminate | constructor].
  - destruct (in_order_snoc es e Ho) as [Ho' Hlast]. destruct (IH Ho') as [Hinv Hall].
    pose proof (verifier_run_snoc es e createPrivyVerifier) as Hrun. unfold verdicts, after in *.
    destruct (verifier_run appId ecdsa es createPrivyVerifier) as [out s1] eqn:E1. cbn [fst snd] in *.
    assert (verifier_inv (es ++ [e]) (verifier_step appId ecdsa e s1).2 /\
      Forall (fun a => forall i, a.2 = ok i -> trusted (es ++ [e]) a.1 i) (verifier_step appId ecdsa e s1).1) as [H1 H2].
    { destruct e as [id token nowSec clock | f].
      - apply presented_inv; [exact Hinv | by eapply Hlast].
      - apply ended_inv; [exact Hinv |]. unfold after. by rewrite E1. }
    rewrite Hrun. destruct (verifier_step appId ecdsa e s1) as [out' s2]. cbn [fst snd] in *. split; [exact H1 |].
    apply Forall_app. split; [| exact H2]. eapply Forall_impl; [exact Hall |]. intros a Ha i Hi. by apply trusted_more, Ha.
Qed.

(** C10. Nothing but a signed token makes an identity.  Over any history of
    calls and ended key fetches on a clock that does not run backwards: when a
    call is answered with an identity, the token it presented splits into three
    segments, the last decodes to a signature of 64 bytes that verified over
    exactly the bytes of the first two with their dot, under the P-256 key the
    header names in a key set Privy's endpoint served to a fetch begun less than
    an hour before the call; the header says ES256 and names no extension; the
    second segment decodes to the claims that name Privy, this app and a subject,
    are not expired, not from the future and at most an hour old; and the
    identity is the reading of the one X account in those claims, with a numeric
    id, a handle of at most fifteen plain characters, a name of at most a hundred
    code points and an avatar on X's image host or none. *)
Theorem only_signed_tokens_identify es id i : in_order es -> (id, ok i) ∈ verdicts es ->
  exists token nowSec clock d t m jwk,
    presented id token nowSec clock ∈ es /\ reading token d /\ claims_hold appId nowSec (payload d) /\
    published es t m /\ clock - t < JWKS_TTL_SECONDS /\ m !! kid d = Some jwk /\
    ecdsa jwk (signature d) (signingInput d) = Some true /\
    identity_shaped i /\
    exists raw accounts entry, field "linked_accounts" (payload d) = Some (JStr raw) /\ parse raw = Some (JArr accounts) /\
      List.filter is_x_account accounts = [entry] /\
      xId i = trimmed (field "subject" entry) /\ handle i = trimmed (field "username" entry).
Proof using.
  intros Ho Hin. destruct (history_trusted es Ho) as [_ Hall]. rewrite Forall_forall in Hall.
  destruct (Hall _ Hin i eq_refl) as (token & nowSec & clock & d & t & m & jwk & H1 & H2 & H3 & H4 & H5 & H6 & H7 & H8).
  exists token, nowSec, clock, d, t, m, jwk. apply decode_reading in H2. destruct (identity_read _ _ H8) as [H9 H10]. split_and!; assumption.
Qed.

(** ** The key endpoint *)

(** The instant of the fetch one event begins. *)
Definition begins (s s' : Verifier) : list Z :=
  match inflight (cache s), inflight (cache s') with None, Some t => [t] | _, _ => [] end.

(** The instants of the fetches begun, in order. *)
Fixpoint begun (es : list VerifierEvent) (s : Verifier) : list Z :=
  match es with
  | [] => []
  | e :: es => let s' := (verifier_step appId ecdsa e s).2 in begins s s' ++ begun es s'
  end.

Definition calls (es : list VerifierEvent) : nat := length (clocks es).

Lemma begun_snoc es e s : begun (es ++ [e]) s =
  begun es s ++ (let s1 := (verifier_run appId ecdsa es s).2 in begins s1 (verifier_step appId ecdsa e s1).2).
Proof.
  revert s. induction es as [| e' es IH]; intros s; cbn [app begun verifier_run snd]; [by rewrite app_nil_r |].
  rewrite IH, app_assoc. destruct (verifier_step appId ecdsa e' s) as [o s']. cbn [snd].
  by destruct (verifier_run appId ecdsa es s').
Qed.

(** What one event does to the fetches, the callers and the answers. *)
Lemma step_effect e s : (inflight (cache s) = None -> waiters s = []) ->
  let '(out, s') := verifier_step appId ecdsa e s in
  (inflight (cache s') = None -> waiters s' = []) /\
  (length out + length (waiters s') = calls [e] + length (waiters s))%nat /\
  (begins s s' = [] /\ lastAttemptSec (cache s') = lastAttemptSec (cache s) \/
   exists id token nowSec clock d, e = presented id token nowSec clock /\ begins s s' = [clock] /\
     lastAttemptSec (cache s') = clock /\ check_claims appId token nowSec = inr d /\
     (isStale (cache s) clock || negb (has_key (kid d) (cache s))) = true /\
     (keys (cache s) = None \/ JWKS_COOLDOWN_SECONDS <= clock - lastAttemptSec (cache s))).
Proof using.
  intros Hs.
  assert (forall o x, (length o + length (waiters s) = x)%nat -> (inflight (cache s) = None -> waiters s = []) /\
    (length (o : list (nat * PrivyVerification)) + length (waiters s) = x)%nat /\
    (begins s s = [] /\ lastAttemptSec (cache s) = lastAttemptSec (cache s) \/ False)) as Hsame.
  { intros o x Hx. split; [exact Hs |]. split; [exact Hx |]. left. split; [| done]. unfold begins. by destruct (inflight (cache s)). }
  destruct e as [id token nowSec clock | f]; cbn [verifier_step].
  - unfold verify. destruct (check_claims appId token nowSec) as [r | d] eqn:Ec.
    { destruct (Hsame [(id, rejected r)] _ eq_refl) as (H1 & H2 & [H3 | []]). split_and!; [exact H1 | cbn; lia | by left]. }
    assert (forall b, (keys (cache s) = None \/ JWKS_COOLDOWN_SECONDS <= clock - lastAttemptSec (cache s)) ->
      (isStale (cache s) clock || negb (has_key (kid d) (cache s))) = true ->
      let s' := mkVerifier (refresh_begin clock (cache s)) (waiters s ++ [mkWaiter id d clock b]) in
      (inflight (cache s') = None -> waiters s' = []) /\
      (length (@nil (nat * PrivyVerification)) + length (waiters s') = 1 + length (waiters s))%nat /\
      (begins s s' = [] /\ lastAttemptSec (cache s') = lastAttemptSec (cache s) \/
       exists id0 token0 nowSec0 clock0 d0, presented id token nowSec clock = presented id0 token0 nowSec0 clock0 /\
         begins s s' = [clock0] /\ lastAttemptSec (cache s') = clock0 /\ check_claims appId token0 nowSec0 = inr d0 /\
         (isStale (cache s) clock0 || negb (has_key (kid d0) (cache s))) = true /\
         (keys (cache s) = None \/ JWKS_COOLDOWN_SECONDS <= clock0 - lastAttemptSec (cache s)))) as Hbegin.
    { intros b Hk Hu s'. unfold s', begins, refresh_begin. cbn [cache waiters]. rewrite length_app. cbn [length].
      destruct (inflight (cache s)) as [t |] eqn:Ei; cbn [inflight lastAttemptSec]; rewrite ?Ei.
      - split_and!; [discriminate | lia | by left].
      - split_and!; [discriminate | lia | right]. exists id, token, nowSec, clock, d. split_and!; done. }
    assert (forall l, let s' := mkVerifier (cache s) (waiters s) in
      (inflight (cache s') = None -> waiters s' = []) /\
      (length [(id, finish ecdsa d l)] + length (waiters s') = 1 + length (waiters s))%nat /\
      (begins s s' = [] /\ lastAttemptSec (cache s') = lastAttemptSec (cache s) \/ False)) as Hnow.
    { intros l. replace (mkVerifier (cache s) (waiters s)) with s by by destruct s. by apply Hsame. }
    unfold keyFor. cbv zeta. destruct (isStale (cache s) clock) eqn:Es.
    + destruct ((_ <=? _) || _) eqn:Eb.
      * apply Hbegin; [| done]. apply orb_prop in Eb as [Eb | Eb]; [right; by apply Z.leb_le in Eb | left; by apply bool_decide_eq_true in Eb].
      * destruct (Hnow lookup_unavailable) as (H1 & H2 & [H3 | []]). split_and!; [exact H1 | exact H2 | by left].
    + destruct (negb _ && (_ <=? _)) eqn:Eb.
      * apply andb_prop in Eb as [Eb1 Eb2]. apply Hbegin; [right; by apply Z.leb_le in Eb2 | exact Eb1].
      * destruct (Hnow (read_key (kid d) (cache s))) as (H1 & H2 & [H3 | []]). split_and!; [exact H1 | exact H2 | by left].
  - destruct (inflight (cache s)) as [t |] eqn:Ei.
    + cbv zeta. unfold begins, refresh_end. rewrite Ei. cbn [cache waiters].
      split; [done |]. split; [rewrite length_fmap; cbn; lia |]. left. by destruct (fetchOnce f).
    + destruct (Hsame [] _ eq_refl) as (H1 & H2 & [H3 | []]). split_and!; [by intros _; apply H1 | exact H2 | by left].
Qed.

Lemma history_counts es : in_order es ->
  (inflight (cache (after es)) = None -> waiters (after es) = []) /\
  (length (verdicts es) + length (waiters (after es)) = calls es)%nat /\
  Forall (fun t => t <= lastAttemptSec (cache (after es)) /\ t ∈ clocks es) (begun es createPrivyVerifier).
Proof using.
  induction es as [| e es IH] using rev_ind; intros Ho; [split_and!; [done | done | constructor] |].
  destruct (in_order_snoc es e Ho) as [Ho' Hlast]. destruct (IH Ho') as (Hw & Hn & Hb).
  pose proof (verifier_run_snoc es e createPrivyVerifier) as Hrun. rewrite begun_snoc. unfold verdicts, after in *.
  destruct (verifier_run appId ecdsa es createPrivyVerifier) as [out s1]. cbn [fst snd] in *.
  pose proof (step_effect e s1 Hw) as Hstep. rewrite Hrun. destruct (verifier_step appId ecdsa e s1) as [out' s2]. cbn [fst snd].
  destruct Hstep as (H1 & H2 & H3). split; [exact H1 |]. split.
  { unfold calls, clocks in *. rewrite omap_app, !length_app. lia. }
  destruct H3 as [[-> ->] | (id & token & nowSec & clock & d & -> & -> & -> & _)].
  - rewrite app_nil_r. eapply Forall_impl; [exact Hb |]. intros t [H3 H4]. split; [exact H3 | by apply clocks_more].
  - specialize (Hlast _ _ _ _ eq_refl). rewrite Forall_forall in Hlast. apply Forall_app. split.
    + eapply Forall_impl; [exact Hb |]. intros t [_ H4]. split; [by apply Hlast | by apply clocks_more].
    + apply Forall_singleton. split; [lia |]. unfold clocks. rewrite omap_app. apply elem_of_app. right. left.
Qed.

(** The key endpoint is asked as seldom as the cooldown says, and nobody is
    forgotten.  Over any history on a clock that does not run backwards: an event
    begins a fetch only when none is in flight and it is a call whose token
    passed every check of shape and claims, and only if the held keys are past
    their hour or lack the key it names; while any keys are held, that is at
    least ten minutes after every earlier fetch began, and a cache that holds
    none asks whatever the time since the last one; a call answered from keys
    in their hour changes nothing; every call was answered once or waits, and
    calls wait only for a fetch in flight, whose end answers all of them. *)
Theorem key_fetches_are_rare es e : in_order (es ++ [e]) ->
  let s := after es in let s' := after (es ++ [e]) in
  (forall t, t ∈ begins s s' -> inflight (cache s) = None /\
     exists id token nowSec d, e = presented id token nowSec t /\ check_claims appId token nowSec = inr d /\
       (isStale (cache s) t || negb (has_key (kid d) (cache s))) = true /\
       (keys (cache s) = None \/ Forall (fun u => u + JWKS_COOLDOWN_SECONDS <= t) (begun es createPrivyVerifier))) /\
  (forall id token nowSec clock d, e = presented id token nowSec clock -> check_claims appId token nowSec = inr d ->
     keys (cache s) = None -> inflight (cache s) = None -> begins s s' = [clock]) /\
  (forall id token nowSec clock d, e = presented id token nowSec clock -> check_claims appId token nowSec = inr d ->
     isStale (cache s) clock = false -> has_key (kid d) (cache s) = true -> s' = s) /\
  (length (verdicts (es ++ [e])) + length (waiters s') = calls (es ++ [e]))%nat /\
  (inflight (cache s') = None -> waiters s' = []) /\
  (forall f, e = fetch_ended f -> waiters s' = []).
Proof using.
  intros Ho s s'. destruct (in_order_snoc es e Ho) as [Ho' _]. destruct (history_counts es Ho') as (Hw & _ & Hb).
  destruct (history_counts _ Ho) as (Hw' & Hn & _). fold s in Hw, Hb.
  assert (s' = (verifier_step appId ecdsa e s).2) as Hs'.
  { unfold s', s, after. rewrite verifier_run_snoc. destruct (verifier_run appId ecdsa es createPrivyVerifier) as [o s1]. cbn [snd].
    by destruct (verifier_step appId ecdsa e s1). }
  split_and!; [| | | exact Hn | exact Hw' |].
  - intros t Ht. pose proof (step_effect e s Hw) as Hstep. rewrite Hs' in Ht. destruct (verifier_step appId ecdsa e s) as [out s2]. cbn [snd] in Ht.
    destruct Hstep as (_ & _ & [[He _] | (id & token & nowSec & clock & d & -> & He & _ & Hc & Hu & Hk)]); rewrite He in Ht;
      [by apply elem_of_nil in Ht |]. apply list_elem_of_singleton in Ht as ->.
    split; [unfold begins in He; by destruct (inflight (cache s)) |]. exists id, token, nowSec, d. split_and!; [done | done | done |].
    destruct Hk as [Hk | Hk]; [by left | right]. eapply Forall_impl; [exact Hb |]. intros u [Hu' _]. lia.
  - intros id token nowSec clock d -> Hc Hk Hi. rewrite Hs'. cbn [verifier_step]. unfold verify. rewrite Hc. unfold keyFor, isStale.
    rewrite Hk, bool_decide_eq_true_2 by done. cbv zeta. rewrite orb_true_l, orb_true_r. cbn [snd]. unfold begins, refresh_begin.
    rewrite Hi. reflexivity.
  - intros id token nowSec clock d -> Hc Hst Hkey. rewrite Hs'. cbn [verifier_step]. unfold verify. rewrite Hc. unfold keyFor.
    rewrite Hst, Hkey. cbn [negb andb snd]. by destruct s.
  - intros f ->. rewrite Hs'. cbn [verifier_step]. destruct (inflight (cache s)) eqn:Ei; [reflexivity |]. cbn [snd]. by apply Hw.
Qed.

End Histories.

(** ** Instances *)

Definition sample_header : json := JObj [(lit "alg", JStr (lit "ES256")); (lit "typ", JStr (lit "JWT")); (lit "kid", JStr (lit "key-1"))].

(** One X account, with a name outside the basic plane. *)
Definition sample_accounts : json :=
  JArr [JObj [(lit "type", JStr (lit "wallet")); (lit "address", JStr (lit "none"))];
        JObj [(lit "type", JStr (lit "twitter_oauth")); (lit "subject", JStr (lit "42")); (lit "username", JStr (lit "bull_1"));
              (lit "name", JStr (lit " Bull " ++ [55357; 56322])); (lit "pfp", JStr (lit "12/a_normal.jpg"))]].

Definition sample_payload : json :=
  JObj [(lit "iss", JStr (lit "privy.io")); (lit "aud", JStr (lit "app")); (lit "sub", JStr (lit "did:privy:1"));
        (lit "iat", JNum (of_Z 1000)); (lit "exp", JNum (of_Z 37000)); (lit "linked_accounts", JStr (stringify [] sample_accounts))].

Definition sample_signature : list Z := repeat 7 64.

Definition sample_token : units := token_of sample_header sample_payload sample_signature.

Definition sample_identity : XIdentity :=
  mkXIdentity (lit "42") (lit "bull_1") (lit "Bull " ++ [55357; 56322]) (Some (lit "https://pbs.twimg.com/profile_images/12/a_normal.jpg")).

Definition sample_keys : json :=
  JObj [(lit "keys", JArr [JObj [(lit "kty", JStr (lit "EC")); (lit "crv", JStr (lit "P-256")); (lit "kid", JStr (lit "key-1"));
                                 (lit "x", JStr (lit "X")); (lit "y", JStr (lit "Y"))]])].

Definition sample_ecdsa (jwk : EcPublicJwk) (sig input : list Z) : option bool :=
  Some (bool_decide (jwk_x jwk = lit "X") && bool_decide (sig = sample_signature)).

(** A caller waits for the first keys; a second is answered from them; a third
    comes when they have aged and the endpoint is down. *)
Definition sample_history : list VerifierEvent :=
  [presented 1 sample_token 1000 1000; fetch_ended (answered 200 (Some sample_keys));
   presented 2 sample_token 1500 1500; presented 3 sample_token 4590 4600; fetch_ended threw].

Lemma sample_verdicts : verdicts (lit "app") sample_ecdsa sample_history =
  [(1%nat, ok sample_identity); (2%nat, ok sample_identity); (3%nat, rejected keys_unavailable)].
Proof. vm_compute. reflexivity. Qed.

Lemma sample_in_order : in_order sample_history.
Proof. repeat constructor; lia. Qed.

Lemma units_ok_by u : forallb (fun c => (0 <=? c) && (c <? 65536)) u = true -> Forall unit_ok u.
Proof.
  intros H. rewrite forallb_forall in H. apply Forall_forall. intros c Hc. apply list_elem_of_In, H in Hc.
  apply andb_prop in Hc as [H1 H2]. zbool. done.
Qed.

Lemma whole_ok n : Z.abs n <= 2 ^ 53 -> json_ok (JNum (of_Z n)).
Proof. intros Hn. constructor; [apply of_Z_double | by apply of_Z_finite]. Qed.

(** Sound objects of sound fields. *)
Lemma object_ok fs : bool_decide (NoDup fs.*1) = true -> forallb (fun kv => forallb (fun c => (0 <=? c) && (c <? 65536)) kv.1) fs = true ->
  Forall (fun kv => json_ok kv.2) fs -> json_ok (JObj fs).
Proof.
  intros Hn Hk Hv. apply bool_decide_eq_true in Hn. constructor; [exact Hn | | exact Hv].
  rewrite forallb_forall in Hk. apply Forall_forall. intros kv Hkv. apply units_ok_by, Hk. by apply list_elem_of_In.
Qed.

Lemma text_json u : forallb (fun c => (0 <=? c) && (c <? 65536)) u = true -> json_ok (JStr u).
Proof. intros H. constructor. by apply units_ok_by. Qed.

Lemma sample_header_ok : json_ok sample_header.
Proof.
  apply object_ok; [vm_compute; reflexivity | vm_compute; reflexivity |].
  repeat (apply List.Forall_cons; [apply text_json; vm_compute; reflexivity |]). apply List.Forall_nil.
Qed.

Lemma sample_payload_ok : json_ok sample_payload.
Proof.
  apply object_ok; [vm_compute; reflexivity | vm_compute; reflexivity |].
  repeat (apply List.Forall_cons; [first [apply text_json; vm_compute; reflexivity | apply whole_ok; lia] |]). apply List.Forall_nil.
Qed.

Lemma tokens_read_back_witness :
  Z.of_nat (length sample_token) <= 8192 /\
  decodeJwt sample_token = Some (mkJwt (lit "key-1") sample_payload
    (b64url (encode (stringify [] sample_header)) ++ 46 :: b64url (encode (stringify [] sample_payload))) sample_signature).
Proof.
  assert (Z.of_nat (length sample_token) <= 8192) as Hlen by (vm_compute; discriminate). split; [exact Hlen |].
  refine (tokens_read_back sample_header sample_payload sample_signature (lit "key-1") sample_header_ok sample_payload_ok
    (conj eq_refl eq_refl) _ _ (conj _ _) (conj _ eq_refl) Hlen); [vm_compute; reflexivity | vm_compute; reflexivity | vm_compute; reflexivity | discriminate |].
  apply Forall_forall. intros b Hb. apply list_elem_of_In, repeat_spec in Hb as ->. lia.
Defined.

Lemma only_signed_tokens_identify_witness :
  in_order sample_history /\ (2%nat, ok sample_identity) ∈ verdicts (lit "app") sample_ecdsa sample_history /\
  exists t m, published (lit "app") sample_ecdsa sample_history t m /\ identity_shaped sample_identity.
Proof.
  assert ((2%nat, ok sample_identity) ∈ verdicts (lit "app") sample_ecdsa sample_history) as Hin
    by (rewrite sample_verdicts; right; left).
  split; [exact sample_in_order |]. split; [exact Hin |].
  destruct (only_signed_tokens_identify (lit "app") sample_ecdsa sample_history 2 sample_identity sample_in_order Hin)
    as (token & nowSec & clock & d & t & m & jwk & _ & _ & _ & Hp & _ & _ & _ & Hs & _).
  exists t, m. split; [exact Hp | exact Hs].
Defined.

Lemma key_fetches_are_rare_witness :
  in_order (take 3 sample_history ++ [presented 3 sample_token 4590 4600]) /\
  begins (after (lit "app") sample_ecdsa (take 3 sample_history))
    (after (lit "app") sample_ecdsa (take 3 sample_history ++ [presented 3 sample_token 4590 4600])) = [4600] /\
  Forall (fun u => u + JWKS_COOLDOWN_SECONDS <= 4600) (begun (lit "app") sample_ecdsa (take 3 sample_history) createPrivyVerifier).
Proof.
  assert (in_order (take 3 sample_history ++ [presented 3 sample_token 4590 4600])) as Ho by (repeat constructor; lia).
  assert (begins (after (lit "app") sample_ecdsa (take 3 sample_history))
    (after (lit "app") sample_ecdsa (take 3 sample_history ++ [presented 3 sample_token 4590 4600])) = [4600]) as Hb by (vm_compute; reflexivity).
  split; [exact Ho |]. split; [exact Hb |].
  destruct (key_fetches_are_rare (lit "app") sample_ecdsa _ _ Ho) as [H _]. destruct (H 4600) as (_ & id & token & nowSec & d & _ & _ & _ & [Hk | Hk]);
    [rewrite Hb; left | vm_compute in Hk; discriminate | exact Hk].
Defined.
