(* ===== verification/RoundLog.v ===== *)
(** * The round log

    [er-demo/src/v2/data/roundLog.ts]: the flattening of a round account into a
    [RoundSummary], and everything the page derives from the log of rounds:
    standings, the sides' record, coverage, the ticker of wins and the hall. *)
From Stdlib Require Import Ascii.
From stdpp Require Import sorting.
From S2P Require Import Prelude JsNum ErSim FightLaws Chain.

(** ** Reading a round account *)

(** A fighter of the account: the bytes the program wrote.  The wallet is its
    base58 text. *)
Record RawFighter : Type := mkRawFighter {
  raw_wallet : string;
  raw_side : Z;
  raw_dead : Z;
  raw_stake : Z;
  raw_hp : Z;
  raw_banked : Z;
}.

(** What the log reads of the account.  The two totals are missing from an
    account written by an older program. *)
Record RawRound : Type := mkRawRound {
  raw_roundNo : Z;
  raw_phase : Z;
  raw_fighters : list RawFighter;
  raw_fighterCount : Z;
  raw_winner : Z;
  raw_pot : Z;
  raw_tickCount : Z;
  raw_penalties : option Z;
  raw_fees : option Z;
}.

(** An ellipsis, as its UTF-8 bytes. *)
Definition ellipsis : string :=
  String (ascii_of_nat 226) (String (ascii_of_nat 128) (String (ascii_of_nat 166) EmptyString)).

Definition shortKey (w : string) : string :=
  if (String.length w <=? 10)%nat then w
  else String.substring 0 4 w +:+ ellipsis +:+ String.substring (String.length w - 4) 4 w.

Definition bnOr0 (v : option Z) : Z := default 0 v.

Definition toSide (s : Z) : Side := if s =? 1 then side1 else side0.

Definition read_player (you : string) (f : RawFighter) : RoundPlayer :=
  let final := raw_hp f + raw_banked f in
  mkPlayer (raw_wallet f) (shortKey (raw_wallet f)) (toSide (raw_side f)) (raw_stake f) final (final - raw_stake f)
    (negb (raw_dead f =? 0)) (bool_decide (raw_wallet f = you)).

(** A phase outside the program's five reads as a lobby. *)
Definition phase_read (p : Z) : PhaseName := default Lobby (if 0 <=? p then PHASE_NAME !! Z.to_nat p else None).

Definition summarizeRoundAccount (raw : RawRound) (you : string) : RoundSummary :=
  let phase := phase_read (raw_phase raw) in
  mkSummary (raw_roundNo raw) phase
    (if bool_decide (phase = Settled) then Some (toSide (raw_winner raw)) else None)
    (raw_pot raw) (raw_fighterCount raw) (raw_tickCount raw) (bnOr0 (raw_penalties raw)) (bnOr0 (raw_fees raw))
    (read_player you <$> take (Z.to_nat (raw_fighterCount raw)) (raw_fighters raw)).

(** ** Sorting *)

(** [Array.sort] by a descending key: stable, so the first of equals stays
    first. *)
Section Sorting.
Context {A : Type} (key : A -> Z).

Fixpoint place (x : A) (l : list A) : list A :=
  match l with
  | [] => [x]
  | y :: l' => if key y <=? key x then x :: l else y :: place x l'
  end.

Definition sort_descending (l : list A) : list A := foldr place [] l.

End Sorting.

(** ** Standings *)

Record StandingsRow : Type := mkRow {
  sr_wallet : string;
  sr_short : string;
  sr_rounds : Z;
  sr_wins : Z;
  sr_staked : Z;
  sr_returned : Z;
  sr_pnl : Z;
  sr_roi : option num;
  sr_best : Z;
}.

Definition new_row (p : RoundPlayer) : StandingsRow := mkRow (rp_wallet p) (rp_short p) 0 0 0 0 0 None 0.

Definition book (winner : option Side) (p : RoundPlayer) (r : StandingsRow) : StandingsRow :=
  mkRow (sr_wallet r) (sr_short r) (sr_rounds r + 1)
    (if bool_decide (winner = Some (rp_side p)) then sr_wins r + 1 else sr_wins r)
    (sr_staked r + rp_stake p) (sr_returned r + rp_final p) (sr_pnl r + rp_pnl p) (sr_roi r)
    (if sr_best r <? rp_pnl p then rp_pnl p else sr_best r).

(** [by.get], the booking and [by.set]: a [Map] keeps the order its keys came in. *)
Fixpoint book_in (winner : option Side) (p : RoundPlayer) (rows : list StandingsRow) : list StandingsRow :=
  match rows with
  | [] => [book winner p (new_row p)]
  | r :: rows => if bool_decide (sr_wallet r = rp_wallet p) then book winner p r :: rows else r :: book_in winner p rows
  end.

Definition book_round (rows : list StandingsRow) (round : RoundSummary) : list StandingsRow :=
  foldl (fun rows p => book_in (rs_winner round) p rows) rows (rs_players round).

Definition with_roi (r : StandingsRow) : StandingsRow :=
  mkRow (sr_wallet r) (sr_short r) (sr_rounds r) (sr_wins r) (sr_staked r) (sr_returned r) (sr_pnl r)
    (if 0 <? sr_staked r then Some (div (of_Z (sr_returned r)) (of_Z (sr_staked r))) else None) (sr_best r).

Definition deriveStandings (rounds : list RoundSummary) : list StandingsRow :=
  sort_descending sr_pnl (with_roi <$> foldl book_round [] rounds).

(** ** The rest of the log *)

Record SideRecord : Type := mkSideRecord { wins0 : Z; wins1 : Z; settled : Z }.

Definition record_round (rec : SideRecord) (r : RoundSummary) : SideRecord :=
  if negb (bool_decide (rs_phase r = Settled)) then rec else
  match rs_winner r with
  | None => mkSideRecord (wins0 rec) (wins1 rec) (settled rec + 1)
  | Some side0 => mkSideRecord (wins0 rec + 1) (wins1 rec) (settled rec + 1)
  | Some side1 => mkSideRecord (wins0 rec) (wins1 rec + 1) (settled rec + 1)
  end.

Definition deriveSideRecord (rounds : list RoundSummary) : SideRecord := foldl record_round (mkSideRecord 0 0 0) rounds.

Record LogCoverage : Type := mkCoverage { lc_rounds : Z; lc_roundsEverOpened : option Z; lc_complete : bool }.

Definition deriveLogCoverage (rounds : list RoundSummary) (roundsEverOpened : option Z) : LogCoverage :=
  let n := Z.of_nat (length rounds) in
  mkCoverage n roundsEverOpened (match roundsEverOpened with Some m => n =? m | None => false end).

Record BigWin : Type := mkWin { bw_roundNo : Z; bw_wallet : string; bw_short : string; bw_side : Side; bw_amount : Z }.

Definition wins_of (r : RoundSummary) : list BigWin :=
  omap (fun p => if rp_pnl p <=? 0 then None
                 else Some (mkWin (rs_roundNo r) (rp_wallet p) (rp_short p) (rp_side p) (rp_pnl p))) (rs_players r).

Definition deriveBigWins (rounds : list RoundSummary) : list BigWin := sort_descending bw_roundNo (rounds ≫= wins_of).

Definition HALL_SIZE : nat := 40.

Definition deriveHall (rounds : list RoundSummary) : list RoundPlayer :=
  take HALL_SIZE (sort_descending rp_pnl (List.filter (fun p => 0 <? rp_pnl p) (rounds ≫= rs_players))).

(** ** Laws: sorting *)

Section Sorted.
Context {A : Type} (key : A -> Z).

Lemma place_perm x l : place key x l ≡ₚ x :: l.
Proof. induction l as [| y l IH]; [done |]. cbn. destruct (key y <=? key x); [done |]. rewrite IH. apply Permutation_swap. Qed.

Lemma sort_perm l : sort_descending key l ≡ₚ l.
Proof. induction l as [| x l IH]; [done |]. unfold sort_descending in *. cbn. by rewrite place_perm, IH. Qed.

Definition descending (l : list A) : Prop := StronglySorted (fun x y => key y <= key x) l.

Lemma place_sorted x l : descending l -> descending (place key x l).
Proof.
  unfold descending. induction 1 as [| y l Hl IH Hy]; [repeat constructor |]. cbn. destruct (Z.leb_spec (key y) (key x)).
  - constructor; [by constructor |]. constructor; [done |]. eapply Forall_impl; [exact Hy |]. cbn. lia.
  - constructor; [done |]. rewrite place_perm. constructor; [lia | done].
Qed.

Lemma sort_sorted l : descending (sort_descending key l).
Proof. induction l as [| x l IH]; [constructor |]. by apply place_sorted. Qed.

(** Elements of one key keep their order. *)
Lemma sort_stable k l : List.filter (fun x => key x =? k) (sort_descending key l) = List.filter (fun x => key x =? k) l.
Proof.
  assert (forall x l, List.filter (fun x => key x =? k) (place key x l) =
    (if key x =? k then [x] else []) ++ List.filter (fun x => key x =? k) l) as Hplace.
  { intros x l'. induction l' as [| y l' IH]; [cbn; by destruct (key x =? k) |]. cbn [place].
    destruct (Z.leb_spec (key y) (key x)); [cbn [List.filter]; by destruct (key x =? k) |]. cbn [List.filter]. rewrite IH.
    destruct (Z.eqb_spec (key x) k), (Z.eqb_spec (key y) k); try done. lia. }
  induction l as [| x l IH]; [done |]. unfold sort_descending in *. cbn [foldr]. rewrite Hplace, IH. cbn. by destruct (key x =? k).
Qed.

End Sorted.

(** ** Laws: standings *)

(** Every seat of the log with its round's winner, in the order the log is read. *)
Definition plays (rounds : list RoundSummary) : list (option Side * RoundPlayer) :=
  rounds ≫= fun r => (fun p => (rs_winner r, p)) <$> rs_players r.

Definition of_wallet (w : string) (ps : list (option Side * RoundPlayer)) : list (option Side * RoundPlayer) :=
  List.filter (fun wp => bool_decide (rp_wallet wp.2 = w)) ps.

Definition won (wp : option Side * RoundPlayer) : bool := bool_decide (wp.1 = Some (rp_side wp.2)).

(** A row computed from a wallet's plays at once: the reference for the
    running totals. *)
Definition tally (w : string) (ps : list (option Side * RoundPlayer)) : StandingsRow :=
  mkRow w (match ps with wp :: _ => rp_short wp.2 | [] => EmptyString end)
    (Z.of_nat (length ps)) (Z.of_nat (length (List.filter won ps)))
    (zsum (fun wp => rp_stake wp.2) ps) (zsum (fun wp => rp_final wp.2) ps) (zsum (fun wp => rp_pnl wp.2) ps) None
    (foldl (fun b wp => Z.max b (rp_pnl wp.2)) 0 ps).

Definition book_play (rows : list StandingsRow) (wp : option Side * RoundPlayer) : list StandingsRow := book_in wp.1 wp.2 rows.

Lemma book_rounds_plays rounds rows : foldl book_round rows rounds = foldl book_play rows (plays rounds).
Proof.
  revert rows. induction rounds as [| r rounds IH]; intros rows; [done |]. cbn [foldl]. rewrite IH.
  change (plays (r :: rounds)) with (((fun p => (rs_winner r, p)) <$> rs_players r) ++ plays rounds). rewrite foldl_app. f_equal.
  unfold book_round. generalize (rs_players r) as l. intros l. revert rows. clear IH.
  induction l as [| p l IH]; intros rows; [done |]. cbn. by rewrite IH.
Qed.

Lemma tally_snoc w ps wp : rp_wallet wp.2 = w -> book wp.1 wp.2 (match ps with [] => new_row wp.2 | _ => tally w ps end) = tally w (ps ++ [wp]).
Proof.
  intros Hw. assert (forall b x, (if b <? x then x else b) = Z.max b x) as Hmax.
  { intros b x. destruct (Z.ltb_spec b x); lia. }
  unfold tally. rewrite List.filter_app, !length_app, !zsum_app, foldl_app. cbn [List.filter foldl zsum foldr length].
  destruct ps as [| q ps].
  - unfold book, new_row. cbn [sr_wallet sr_short sr_rounds sr_wins sr_staked sr_returned sr_pnl sr_roi sr_best]. rewrite Hmax, Hw.
    unfold won. destruct (bool_decide (wp.1 = Some (rp_side wp.2))); cbn; f_equal; lia.
  - unfold book. cbn [sr_wallet sr_short sr_rounds sr_wins sr_staked sr_returned sr_pnl sr_roi sr_best app]. rewrite Hmax. f_equal; try lia.
    change (bool_decide (wp.1 = Some (rp_side wp.2))) with (won wp). destruct (won wp); cbn [length]; lia.
Qed.

Lemma book_in_wallets winner p rows :
  sr_wallet <$> book_in winner p rows =
  if bool_decide (rp_wallet p ∈ sr_wallet <$> rows) then sr_wallet <$> rows else (sr_wallet <$> rows) ++ [rp_wallet p].
Proof.
  induction rows as [| r rows IH]; [done |]. cbn [book_in].
  destruct (decide (sr_wallet r = rp_wallet p)) as [He | Hne].
  - rewrite (bool_decide_eq_true_2 (sr_wallet r = rp_wallet p)) by done. rewrite !fmap_cons, bool_decide_eq_true_2; [done |].
    rewrite He. left.
  - rewrite (bool_decide_eq_false_2 (sr_wallet r = rp_wallet p)) by done. rewrite !fmap_cons, IH.
    destruct (decide (rp_wallet p ∈ sr_wallet <$> rows)) as [Hin | Hout].
    + rewrite !bool_decide_eq_true_2; [done | by right | done].
    + rewrite !bool_decide_eq_false_2; [done | | done]. intros [He | ?]%elem_of_cons; [by apply Hne | done].
Qed.

Lemma book_in_rows winner p rows r' : r' ∈ book_in winner p rows -> NoDup (sr_wallet <$> rows) ->
  (r' ∈ rows /\ sr_wallet r' <> rp_wallet p) \/
  (exists r, r ∈ rows /\ sr_wallet r = rp_wallet p /\ r' = book winner p r) \/
  ((rp_wallet p ∉ (sr_wallet <$> rows)) /\ r' = book winner p (new_row p)).
Proof.
  induction rows as [| r rows IH]; intros Hin Hnd; cbn [book_in] in Hin.
  - apply list_elem_of_singleton in Hin as ->. right. right. split; [apply not_elem_of_nil | done].
  - rewrite fmap_cons in Hnd. apply NoDup_cons in Hnd as [Hr Hnd].
    destruct (decide (sr_wallet r = rp_wallet p)) as [He | Hne].
    + rewrite bool_decide_eq_true_2 in Hin by done. apply elem_of_cons in Hin as [-> | Hin].
      * right. left. exists r. split; [left | done].
      * left. split; [by right |]. intros Hw. apply Hr. rewrite He, <- Hw. by apply list_elem_of_fmap_2.
    + rewrite bool_decide_eq_false_2 in Hin by done. apply elem_of_cons in Hin as [-> | Hin]; [left; by split; [left |] |].
      destruct (IH Hin Hnd) as [[H1 H2] | [(r0 & H1 & H2 & H3) | [H1 H2]]].
      * left. by split; [right |].
      * right. left. exists r0. by split; [right |].
      * right. right. split; [| done]. rewrite fmap_cons. intros [He | ?]%elem_of_cons; [by apply Hne | done].
Qed.

Lemma of_wallet_snoc w ps wp : of_wallet w (ps ++ [wp]) = of_wallet w ps ++ (if bool_decide (rp_wallet wp.2 = w) then [wp] else []).
Proof. unfold of_wallet. rewrite List.filter_app. cbn. by destruct (bool_decide _). Qed.

Lemma of_wallet_none w ps : w ∉ (fun wp => rp_wallet wp.2) <$> ps -> of_wallet w ps = [].
Proof.
  unfold of_wallet. induction ps as [| wp ps IH]; intros Hw; [done |]. cbn in Hw |- *. apply not_elem_of_cons in Hw as [H1 H2].
  rewrite bool_decide_eq_false_2 by done. by apply IH.
Qed.

(** The rows after any plays are the plays' tallies, one per wallet. *)
Lemma booked_rows ps : let rows := foldl book_play [] ps in
  NoDup (sr_wallet <$> rows) /\ (forall w, w ∈ (sr_wallet <$> rows) <-> w ∈ ((fun wp => rp_wallet wp.2) <$> ps)) /\
  Forall (fun r => r = tally (sr_wallet r) (of_wallet (sr_wallet r) ps)) rows.
Proof.
  induction ps as [| wp ps IH] using rev_ind; [split_and!; [constructor | done | constructor] |].
  cbv zeta in *. rewrite foldl_app. cbn [foldl]. set (rows := foldl book_play [] ps) in *. destruct IH as (Hnd & Hw & Hrows).
  unfold book_play at 1 2 3. rewrite book_in_wallets, fmap_app. rewrite Forall_forall in Hrows. split_and!.
  - destruct (decide (rp_wallet wp.2 ∈ sr_wallet <$> rows)) as [Hin | Hout].
    + by rewrite bool_decide_eq_true_2.
    + rewrite bool_decide_eq_false_2 by done. apply NoDup_app. split; [done |]. split; [| apply NoDup_singleton].
      intros x Hx ->%list_elem_of_singleton. done.
  - intros w. rewrite elem_of_app, <- Hw, fmap_cons, list_elem_of_singleton. destruct (decide (rp_wallet wp.2 ∈ sr_wallet <$> rows)) as [Hin | Hout].
    + rewrite bool_decide_eq_true_2 by done. split; [by left |]. by intros [? | ->].
    + rewrite bool_decide_eq_false_2 by done. rewrite elem_of_app, list_elem_of_singleton. done.
  - apply Forall_forall. intros r' Hin. apply book_in_rows in Hin; [| done].
    destruct Hin as [[H1 H2] | [(r & H1 & H2 & ->) | [H1 ->]]].
    + rewrite of_wallet_snoc, bool_decide_eq_false_2 by (by intros ?; apply H2). rewrite app_nil_r. by apply Hrows.
    + change (sr_wallet (book wp.1 wp.2 r)) with (sr_wallet r). rewrite H2, of_wallet_snoc, bool_decide_eq_true_2 by done.
      rewrite <- tally_snoc by done. pose proof (Hrows r H1) as Hr. rewrite H2 in Hr. rewrite <- Hr.
      destruct (of_wallet (rp_wallet wp.2) ps) as [| q qs] eqn:E; [| done]. exfalso.
      assert (rp_wallet wp.2 ∈ sr_wallet <$> rows) as Hm by (rewrite <- H2; by apply list_elem_of_fmap_2).
      apply Hw, list_elem_of_fmap in Hm as (q & Hq & Hqin). assert (q ∈ of_wallet (rp_wallet wp.2) ps) as Hf.
      { unfold of_wallet. apply list_elem_of_In, filter_In. split; [by apply list_elem_of_In | by apply bool_decide_eq_true]. }
      rewrite E in Hf. by apply elem_of_nil in Hf.
    + change (sr_wallet (book wp.1 wp.2 (new_row wp.2))) with (rp_wallet wp.2). rewrite of_wallet_snoc, bool_decide_eq_true_2 by done.
      rewrite <- tally_snoc by done. rewrite of_wallet_none; [done |]. by rewrite <- Hw.
Qed.

Lemma sort_map {A} (key : A -> Z) (P : A -> Prop) l : Forall P l -> Forall P (sort_descending key l).
Proof. intros H. by rewrite sort_perm. Qed.

(** The standings are the log, added up.  For any log: every wallet that
    took a seat in some round has exactly one row and nobody else has one; each
    row is that wallet's plays tallied at once: how many, how many on the
    winning side, the sums staked, returned and gained, the best single gain and
    the ratio of returned to staked when anything was staked; rows descend by
    gain, and rows of equal gain stay in the order their wallets first played. *)
Theorem standings_are_the_log rounds :
  NoDup (sr_wallet <$> deriveStandings rounds) /\
  (forall w, w ∈ (sr_wallet <$> deriveStandings rounds) <-> exists r p, r ∈ rounds /\ p ∈ rs_players r /\ rp_wallet p = w) /\
  Forall (fun row => row = with_roi (tally (sr_wallet row) (of_wallet (sr_wallet row) (plays rounds)))) (deriveStandings rounds) /\
  descending sr_pnl (deriveStandings rounds) /\
  (forall k, List.filter (fun row => sr_pnl row =? k) (deriveStandings rounds) =
     List.filter (fun row => sr_pnl row =? k) (with_roi <$> foldl book_round [] rounds)).
Proof.
  unfold deriveStandings. rewrite book_rounds_plays. pose proof (booked_rows (plays rounds)) as (Hnd & Hw & Hrows).
  set (rows := foldl book_play [] (plays rounds)) in *.
  assert (sr_wallet <$> (with_roi <$> rows) = sr_wallet <$> rows) as Hsame by (rewrite <- list_fmap_compose; by apply list_fmap_ext).
  split_and!.
  - by rewrite sort_perm, Hsame.
  - intros w. rewrite sort_perm, Hsame, Hw. unfold plays. rewrite list_elem_of_fmap. split.
    + intros (wp & -> & Hin). apply list_elem_of_bind in Hin as (r & Hin & Hr). apply list_elem_of_fmap in Hin as (p & -> & Hp). by exists r, p.
    + intros (r & p & Hr & Hp & <-). exists (rs_winner r, p). split; [done |]. apply list_elem_of_bind. exists r. split; [| done].
      by apply list_elem_of_fmap_2.
  - apply sort_map, Forall_fmap. eapply Forall_impl; [exact Hrows |]. intros row Hr. cbn. by rewrite <- Hr.
  - apply sort_sorted.
  - intros k. apply sort_stable.
Qed.

(** ** Laws: the hall *)

(** No gain left out is greater than one shown. *)
Lemma sorted_take {A} (key : A -> Z) n l : descending key l -> forall x y, x ∈ take n l -> y ∈ drop n l -> key y <= key x.
Proof. intros Hl x y Hx Hy. rewrite <- (take_drop n l) in Hl. apply StronglySorted_app in Hl as [Hl _]. by apply Hl. Qed.

Lemma hall_is_the_best rounds : Forall (fun p => 0 < rp_pnl p) (deriveHall rounds) /\ (length (deriveHall rounds) <= 40)%nat /\
  descending rp_pnl (deriveHall rounds) /\
  exists rest, deriveHall rounds ++ rest ≡ₚ List.filter (fun p => 0 <? rp_pnl p) (rounds ≫= rs_players) /\
    Forall (fun q => Forall (fun p => rp_pnl q <= rp_pnl p) (deriveHall rounds)) rest.
Proof.
  unfold deriveHall. set (l := List.filter _ _). pose proof (sort_sorted rp_pnl l) as Hs. pose proof (sort_perm rp_pnl l) as Hp.
  set (s := sort_descending rp_pnl l) in *. split_and!.
  - apply Forall_take. rewrite Hp. unfold l. apply Forall_forall. intros p Hin. apply list_elem_of_In, filter_In in Hin as [_ H]. by zbool.
  - rewrite length_take. unfold HALL_SIZE. lia.
  - rewrite <- (take_drop HALL_SIZE s) in Hs. by apply StronglySorted_app_1_l in Hs.
  - exists (drop HALL_SIZE s). rewrite take_drop. split; [exact Hp |]. apply Forall_forall. intros q Hq. apply Forall_forall. intros p Hin.
    by eapply sorted_take.
Qed.

(** ** The log of a fight *)

Definition raw_of (f : ERFighter) : RawFighter :=
  mkRawFighter (wallet f) (match side f with side0 => 0 | side1 => 1 end) (if dead f then 1 else 0) (stake f) (hp f) (banked f).

Definition empty_slot : RawFighter := mkRawFighter EmptyString 0 0 0 0 0.

(** The account of a round of the fight: its fighters, then zeroed slots. *)
Definition account_of (r : ERRound) (roundNo phase : Z) : RawRound :=
  mkRawRound roundNo phase ((raw_of <$> fighters r) ++ replicate (Z.to_nat MAX_FIGHTERS - length (fighters r)) empty_slot)
    (Z.of_nat (length (fighters r))) (match winner r with Some side1 => 1 | _ => 0 end) (pot r) (tickCount r)
    (Some (penaltiesCollected r)) (Some (feesCollected r)).

Definition playersHold (s : RoundSummary) : Z := zsum rp_final (rs_players s).

Lemma account_players r no ph you : rs_players (summarizeRoundAccount (account_of r no ph) you) = read_player you ∘ raw_of <$> fighters r.
Proof.
  cbn [summarizeRoundAccount rs_players account_of raw_fighterCount raw_fighters]. rewrite Nat2Z.id.
  rewrite take_app_length' by by rewrite length_fmap. by rewrite list_fmap_compose.
Qed.

Lemma account_books r no ph you : round_ok r -> let s := summarizeRoundAccount (account_of r no ph) you in
  playersHold s + rs_penaltiesCollected s = rs_pot s /\ zsum rp_pnl (rs_players s) = - rs_penaltiesCollected s /\
  zsum rp_stake (rs_players s) = rs_pot s.
Proof.
  intros [_ _ _ _ _ Hpot Hv] s. unfold playersHold. subst s. rewrite account_players, !zsum_fmap.
  cbn [summarizeRoundAccount account_of raw_of read_player rs_penaltiesCollected rs_pot raw_penalties raw_pot bnOr0 default compose
    rp_final rp_pnl rp_stake raw_hp raw_banked raw_stake option_map].
  assert (zsum (fun f => hp f + banked f) (fighters r) = value (fighters r)) as Hval by done.
  assert (zsum (fun f => hp f + banked f - stake f) (fighters r) = value (fighters r) - zsum stake (fighters r)) as Hpnl.
  { rewrite <- Hval. clear. induction (fighters r) as [| f l IH]; [done |]. cbn. unfold zsum in *. lia. }
  change (id ?x) with x. split_and!; cbn; [lia | lia | by rewrite Hpot].
Qed.

Lemma book_in_sum (g : StandingsRow -> Z) (h : RoundPlayer -> Z) winner p rows :
  (forall r, g (book winner p r) = g r + h p) -> g (new_row p) = 0 -> zsum g (book_in winner p rows) = zsum g rows + h p.
Proof.
  intros Hg H0. induction rows as [| r rows IH]; [cbn; rewrite Hg, H0; lia |]. cbn [book_in].
  destruct (bool_decide _); cbn; unfold zsum in *; [rewrite Hg; lia | lia].
Qed.

(** A column that adds up over plays adds up over the standings. *)
Lemma standings_sum (g : StandingsRow -> Z) (h : RoundPlayer -> Z) rounds :
  (forall winner p r, g (book winner p r) = g r + h p) -> (forall p, g (new_row p) = 0) -> (forall r, g (with_roi r) = g r) ->
  zsum g (deriveStandings rounds) = zsum (fun r => zsum h (rs_players r)) rounds.
Proof.
  intros Hb H0 Hr. unfold deriveStandings. rewrite (zsum_perm _ _ _ (sort_perm sr_pnl _)), zsum_fmap.
  rewrite (zsum_ext _ g) by (intros; apply Hr).
  enough (forall rows, zsum g (foldl book_round rows rounds) = zsum g rows + zsum (fun r => zsum h (rs_players r)) rounds) as H by apply H.
  induction rounds as [| r rounds IH]; intros rows; [change (zsum ?f []) with 0; cbn [foldl]; lia |]. cbn [foldl]. rewrite IH.
  assert (zsum g (book_round rows r) = zsum g rows + zsum h (rs_players r)) as ->.
  { unfold book_round. generalize (rs_players r) as l. intros l. clear IH. revert rows.
    induction l as [| p l IH]; intros rows; [change (zsum h []) with 0; cbn [foldl]; lia |]. cbn [foldl]. rewrite IH, (book_in_sum g h); [| apply Hb | apply H0].
    change (zsum h (p :: l)) with (h p + zsum h l). lia. }
  change (zsum ?f (r :: rounds)) with (f r + zsum f rounds). cbv beta. lia.
Qed.

Section Fights.
Context `{Digest}.

(** What the page shows is what the program paid.  Take any log of accounts
    of rounds the fight can reach (any entries, ticks, extractions and
    settlements; whoever reads them): in each round what the players hold and
    what the house took from the ring make the pot, and with the fees the whole
    of what was charged; and over the log the standings stake exactly the pots
    and lose, all together, exactly what leaving early cost. *)
Theorem log_balances (rounds : list (ERRound * Z * Z)) you
  (Hreached : Forall (fun x => exists s, rtc arena_step (newRound s) x.1.1) rounds) :
  let log := (fun x => summarizeRoundAccount (account_of x.1.1 x.1.2 x.2) you) <$> rounds in
  Forall (fun s => playersHold s + rs_penaltiesCollected s = rs_pot s /\
    playersHold s + (rs_penaltiesCollected s + rs_feesCollected s) = rs_pot s + rs_feesCollected s) log /\
  zsum sr_pnl (deriveStandings log) = - zsum rs_penaltiesCollected log /\
  zsum sr_staked (deriveStandings log) = zsum rs_pot log.
Proof.
  intros log.
  assert (Forall (fun s => playersHold s + rs_penaltiesCollected s = rs_pot s /\ zsum rp_pnl (rs_players s) = - rs_penaltiesCollected s /\
    zsum rp_stake (rs_players s) = rs_pot s) log) as Hlog.
  { unfold log. apply Forall_fmap. eapply Forall_impl; [exact Hreached |]. intros [[r no] ph] (s & Hr). apply (account_books r no ph you). by eapply history_ok. }
  clearbody log. split_and!.
  - eapply Forall_impl; [exact Hlog |]. intros s (Hs & _). lia.
  - rewrite (standings_sum sr_pnl rp_pnl) by done. induction Hlog as [| s log (_ & Hs & _) _ IH]; [done |]. cbn. unfold zsum in *. lia.
  - rewrite (standings_sum sr_staked rp_stake) by done. induction Hlog as [| s log (_ & _ & Hs) _ IH]; [done |]. cbn. unfold zsum in *. lia.
Qed.

End Fights.

(** A log of two rounds: one settled after an early exit, one still a lobby. *)
Lemma log_balances_witness : exists r1 r2,
  (exists s, rtc (@arena_step toy) (newRound s) r1) /\ (exists s, rtc (@arena_step toy) (newRound s) r2) /\
  let log := (fun x => summarizeRoundAccount (account_of x.1.1 x.1.2 x.2) "ann") <$> [(r1, 7, 4); (r2, 8, 0)] in
  zsum sr_pnl (deriveStandings log) = - zsum rs_penaltiesCollected log /\ 0 < zsum rs_penaltiesCollected log.
Proof.
  set (a := mkRound [1; 2; 3] [mkFighter "ann" side0 false 9900 9900 0] 0 9900 0 100 None).
  set (b := mkRound [1; 2; 3] [mkFighter "ann" side0 false 9900 9900 0; mkFighter "bob" side1 false 9900 9900 0]
              0 19800 0 200 None).
  assert (Ha : rtc (@arena_step toy) (newRound [1; 2; 3]) a).
  { apply rtc_once. by apply (do_enter (newRound [1; 2; 3]) "ann" side0 10000 100); [unfold BPS; lia |]. }
  assert (Hb : rtc (@arena_step toy) (newRound [1; 2; 3]) b).
  { apply rtc_r with a; [exact Ha |]. by apply (do_enter a "bob" side1 10000 100); [unfold BPS; lia |]. }
  destruct (extract b "bob") as [[c out] |] eqn:He; [| by vm_compute in He].
  assert (Hc : rtc (@arena_step toy) (newRound [1; 2; 3]) (settle c).1).
  { apply rtc_r with c; [| apply do_settle]. apply rtc_r with b; [exact Hb | by apply (do_extract b "bob" c out)]. }
  exists (settle c).1, a. split; [by eexists |]. split; [by eexists |]. cbv zeta.
  assert (Forall (fun x => exists s, rtc (@arena_step toy) (newRound s) x.1.1) [((settle c).1, 7, 4); (a, 8, 0)]) as Hall.
  { apply List.Forall_cons; [by exists [1; 2; 3] |]. apply List.Forall_cons; [by exists [1; 2; 3] | apply List.Forall_nil]. }
  split; [exact (proj1 (proj2 (@log_balances toy _ "ann" Hall))) |].
  vm_compute in He. injection He as <- _. vm_compute. reflexivity.
Defined.
