(* ===== verification/HistoryScan.v ===== *)
(** * The walk back through the round log

    [er-demo/src/v2/data/historyScan.ts]: which round accounts a page reads,
    newest first and eight at a time, and where it stops.  Each round number is
    read at most once, so the chain is the function of its answers. *)
From S2P Require Import Prelude JsNum Chain.

Definition MAX_ROUNDS : Z := 250.
Definition BATCH : nat := 8.
Definition STOP_AFTER_CONSECUTIVE_MISSES : Z := 3.

(** One read: an account, none at that address, or a rejection. *)
Inductive ReadResult (A : Type) : Type := there (s : A) | absent | failed (message : string).
Arguments there {A}. Arguments absent {A}. Arguments failed {A}.

Section Scan.
Context {Summary : Type} (read : Z -> ReadResult Summary) (cancelled : nat -> bool).

Record RoundLogScan : Type := mkScan { summaries : list Summary; succeeded : Z; firstError : option string }.

Definition oldest (newest : Z) : Z := if MAX_ROUNDS <? newest then newest - MAX_ROUNDS + 1 else 1.
Definition guaranteed (newest : Z) : Z := if MIN_RETAINED_ROUNDS <? newest then newest - MIN_RETAINED_ROUNDS + 1 else 1.

(** [newest], [newest - 1], down to [oldest]. *)
Definition numbers (newest : Z) : list Z :=
  (fun i => newest - Z.of_nat i) <$> seq 0 (Z.to_nat (newest - oldest newest + 1)).

(** One result folded into the scan and the run of misses. *)
Definition fold_result (g : Z) (acc : RoundLogScan * Z) (n : Z) : RoundLogScan * Z :=
  let '(scan, misses) := acc in
  match read n with
  | failed m => (mkScan (summaries scan) (succeeded scan) (match firstError scan with None => Some m | e => e end), 0)
  | there s => (mkScan (summaries scan ++ [s]) (succeeded scan + 1) (firstError scan), 0)
  | absent => (mkScan (summaries scan) (succeeded scan + 1) (firstError scan), if n <? g then misses + 1 else misses)
  end.

(** The loop, on the numbers left; [i] counts the batches.  The fuel is the
    number of batches that could be left. *)
Fixpoint scan_batches (fuel i : nat) (g : Z) (left : list Z) (acc : RoundLogScan * Z) : RoundLogScan :=
  match fuel, left with
  | O, _ | _, [] => acc.1
  | S fuel, _ =>
      if cancelled i then acc.1 else
      let acc := foldl (fold_result g) acc (take BATCH left) in
      if STOP_AFTER_CONSECUTIVE_MISSES <=? acc.2 then acc.1
      else scan_batches fuel (S i) g (drop BATCH left) acc
  end.

Definition scanRoundLog (newest : Z) : RoundLogScan :=
  scan_batches (length (numbers newest)) 0 (guaranteed newest) (numbers newest) (mkScan [] 0 None, 0).

(** ** What a scan saw *)

(** The scan of exactly these numbers. *)
Definition scan_of (ns : list Z) : RoundLogScan :=
  mkScan (omap (fun n => match read n with there s => Some s | _ => None end) ns)
    (Z.of_nat (length (List.filter (fun n => match read n with failed _ => false | _ => true end) ns)))
    (head (omap (fun n => match read n with failed m => Some m | _ => None end) ns)).

(** The run of misses at the end of the numbers read. *)
Definition run_of (g : Z) (ns : list Z) : Z :=
  foldl (fun misses n => match read n with absent => if n <? g then misses + 1 else misses | _ => 0 end) 0 ns.

Lemma omap_snoc {A B} (f : A -> option B) l x : omap f (l ++ [x]) = omap f l ++ option_list (f x).
Proof. rewrite omap_app. f_equal. Qed.

Lemma fold_seen g ns : foldl (fold_result g) (mkScan [] 0 None, 0) ns = (scan_of ns, run_of g ns).
Proof.
  induction ns as [| n ns IH] using rev_ind; [done |]. unfold run_of. rewrite !foldl_app. cbn [foldl]. rewrite IH.
  fold (run_of g ns). unfold fold_result, scan_of. rewrite !omap_snoc, List.filter_app, length_app. cbn [List.filter].
  assert (forall (l : list string) m, match head l with None => Some m | e => e end = head (l ++ [m])) as Hh by (by intros [| ? ?] ?).
  destruct (read n) as [s | | m]; cbn [option_list summaries succeeded firstError length]; rewrite ?app_nil_r, ?Hh; f_equal; f_equal; lia.
Qed.

(** A run of three is three confirmed absences below the window, at the end. *)
Lemma run_tail g ns k : Z.of_nat k <= run_of g ns -> (forall i, (i + 1 < length ns)%nat -> nth (i + 1) ns 0 = nth i ns 0 - 1) ->
  forall j, (j < k)%nat -> exists n, ns !! (length ns - 1 - j)%nat = Some n /\ read n = absent /\ n < g.
Proof.
  revert k. induction ns as [| n ns IH] using rev_ind; intros k Hk Hdown j Hj; [cbn in Hk; lia |].
  assert (forall i, (i + 1 < length ns)%nat -> nth (i + 1) ns 0 = nth i ns 0 - 1) as Hdown'.
  { intros i Hi. specialize (Hdown i). rewrite length_app in Hdown. cbn in Hdown. rewrite !app_nth1 in Hdown by lia. apply Hdown. lia. }
  unfold run_of in Hk. rewrite foldl_app in Hk. cbn [foldl] in Hk. fold (run_of g ns) in Hk. rewrite length_app. cbn [length].
  destruct (read n) as [s | | m] eqn:En; [lia | | lia]. destruct (Z.ltb_spec n g) as [Hn | Hn].
  - destruct j as [| j].
    + exists n. rewrite lookup_app_r by lia. replace (length ns + 1 - 1 - 0 - length ns)%nat with 0%nat by lia. done.
    + destruct k as [| k]; [lia |]. destruct (IH k ltac:(lia) Hdown' j ltac:(lia)) as (n' & H1 & H2 & H3). exists n'.
      assert (0 < length ns)%nat as Hpos by (apply lookup_lt_Some in H1; lia).
      rewrite lookup_app_l by lia. replace (length ns + 1 - 1 - S j)%nat with (length ns - 1 - j)%nat by lia. done.
  - exfalso. destruct k as [| k]; [lia |]. destruct (IH (S k) Hk Hdown' 0%nat ltac:(lia)) as (n' & H1 & _ & H3).
    assert (0 < length ns)%nat as Hpos by (apply lookup_lt_Some in H1; lia).
    specialize (Hdown (length ns - 1)%nat). rewrite length_app in Hdown. cbn [length] in Hdown. specialize (Hdown ltac:(lia)).
    replace (length ns - 1 + 1)%nat with (length ns) in Hdown by lia. rewrite app_nth2, Nat.sub_diag in Hdown by lia. cbn in Hdown.
    rewrite app_nth1 in Hdown by lia. rewrite Nat.sub_0_r in H1. rewrite (nth_lookup_Some _ _ 0 n' H1) in Hdown. lia.
Qed.

Lemma length_numbers newest : Z.of_nat (length (numbers newest)) = Z.max 0 (Z.min newest MAX_ROUNDS).
Proof. unfold numbers, oldest. rewrite length_fmap, length_seq. unfold MAX_ROUNDS. destruct (Z.ltb_spec 250 newest); lia. Qed.

Lemma numbers_lookup newest i : (i < length (numbers newest))%nat -> numbers newest !! i = Some (newest - Z.of_nat i).
Proof.
  intros Hi. unfold numbers in *. rewrite length_fmap, length_seq in Hi. rewrite list_lookup_fmap.
  rewrite lookup_seq_lt by lia. done.
Qed.

Lemma numbers_elem newest n k : n ∈ take k (numbers newest) <-> newest - Z.of_nat (Nat.min k (length (numbers newest))) < n <= newest.
Proof.
  split.
  - intros Hn. apply list_elem_of_lookup in Hn as (i & Hi). pose proof (lookup_lt_Some _ _ _ Hi) as Hl. rewrite length_take in Hl.
    rewrite lookup_take_lt in Hi by lia. rewrite numbers_lookup in Hi by lia. injection Hi as <-. lia.
  - intros Hn. apply list_elem_of_lookup. exists (Z.to_nat (newest - n)). rewrite lookup_take_lt by lia. rewrite numbers_lookup by lia.
    f_equal. lia.
Qed.

Lemma numbers_down newest k i : (i + 1 < length (take k (numbers newest)))%nat ->
  nth (i + 1) (take k (numbers newest)) 0 = nth i (take k (numbers newest)) 0 - 1.
Proof.
  intros Hi. rewrite length_take in Hi.
  assert (forall j, (j < Nat.min k (length (numbers newest)))%nat -> nth j (take k (numbers newest)) 0 = newest - Z.of_nat j) as Hn.
  { intros j Hj. apply nth_lookup_Some. rewrite lookup_take_lt by lia. apply numbers_lookup. lia. }
  rewrite !Hn by lia. lia.
Qed.

(** The loop reads a longer prefix, and stops for one of its three reasons; the
    last batch was begun on a short run. *)
Lemma batches_seen fuel i g seen left : (length left <= fuel)%nat -> run_of g seen < STOP_AFTER_CONSECUTIVE_MISSES ->
  exists k, scan_batches fuel i g left (scan_of seen, run_of g seen) = scan_of (seen ++ take k left) /\ (k <= length left)%nat /\
    (k = length left \/ (exists j, cancelled j = true) \/ STOP_AFTER_CONSECUTIVE_MISSES <= run_of g (seen ++ take k left)) /\
    (k = 0%nat \/ exists b, (b < k <= b + BATCH)%nat /\ run_of g (seen ++ take b left) < STOP_AFTER_CONSECUTIVE_MISSES).
Proof.
  revert i seen left. induction fuel as [| fuel IH]; intros i seen left Hf Hrun.
  { exists 0%nat. destruct left; [| cbn in Hf; lia]. cbn [take]. rewrite app_nil_r. split_and!; [done | lia | by left | by left]. }
  cbn [scan_batches]. destruct left as [| n left']; [exists 0%nat; cbn [take]; rewrite app_nil_r; split_and!; [done | lia | by left | by left] |].
  set (left := n :: left') in *. destruct (cancelled i) eqn:Ec.
  { exists 0%nat. rewrite take_0, app_nil_r. split_and!; [done | lia | right; left; by exists i | by left]. }
  assert (foldl (fold_result g) (scan_of seen, run_of g seen) (take BATCH left) =
    (scan_of (seen ++ take BATCH left), run_of g (seen ++ take BATCH left))) as Hfold.
  { rewrite <- !fold_seen, <- foldl_app. by rewrite fold_seen. }
  rewrite Hfold. cbn [fst snd]. assert (0 < length left)%nat as Hpos by (cbn; lia).
  destruct (Z.leb_spec STOP_AFTER_CONSECUTIVE_MISSES (run_of g (seen ++ take BATCH left))) as [Hs | Hs].
  - exists (Nat.min BATCH (length left)).
    assert (take (Nat.min BATCH (length left)) left = take BATCH left) as Ht by (rewrite <- take_take; by rewrite (take_ge left) by lia).
    rewrite Ht. split_and!; [done | lia | right; by right |]. right. exists 0%nat. rewrite take_0, app_nil_r. unfold BATCH in *. split; [lia | done].
  - destruct (IH (S i) (seen ++ take BATCH left) (drop BATCH left)) as (k & Hk & Hkl & Hwhy & Hb).
    { rewrite length_drop. unfold BATCH. lia. }
    { exact Hs. }
    rewrite length_drop in Hkl. exists (Nat.min BATCH (length left) + k)%nat.
    assert (forall m, (m <= length left - BATCH)%nat -> seen ++ take (Nat.min BATCH (length left) + m) left = (seen ++ take BATCH left) ++ take m (drop BATCH left)) as Htake.
    { intros m Hm. rewrite <- app_assoc. f_equal. destruct (Nat.le_gt_cases (length left) BATCH).
      - replace m with 0%nat by lia. rewrite take_0, app_nil_r, !take_ge by lia. done.
      - rewrite Nat.min_l by lia. by rewrite take_take_drop. }
    rewrite Htake by lia. split_and!; [exact Hk | lia | |].
    + destruct Hwhy as [-> | Hwhy]; [left; rewrite length_drop; lia | by right].
    + right. destruct Hb as [-> | (b & Hb & Hr)].
      * exists 0%nat. rewrite take_0, app_nil_r. unfold BATCH in *. split; [lia | done].
      * exists (Nat.min BATCH (length left) + b)%nat. rewrite Htake by lia. split; [lia | exact Hr].
Qed.

(** Below the window, confirmed absences only lengthen the run. *)
Lemma run_absent g ns k : Forall (fun n => read n = absent /\ n < g) (drop k ns) -> Z.of_nat (length ns - k) <= run_of g ns.
Proof.
  intros Hd. rewrite <- (take_drop k ns) at 2. unfold run_of. rewrite foldl_app. fold (run_of g (take k ns)).
  assert (0 <= run_of g (take k ns)) as Hpos.
  { generalize (take k ns) as l. clear. intros l. induction l as [| n l IH] using rev_ind; [done |]. unfold run_of in *. rewrite foldl_app. cbn.
    destruct (read n); [lia | | lia]. destruct (n <? g); lia. }
  rewrite <- length_drop. revert Hpos. generalize (run_of g (take k ns)) as z. intros z Hz.
  enough (z + Z.of_nat (length (drop k ns)) <= foldl (fun misses n => match read n with absent => if n <? g then misses + 1 else misses | _ => 0 end) z (drop k ns)) by lia.
  clear Hz. revert z. induction Hd as [| n l [Hn Hg] _ IH]; intros z; [cbn; lia |].
  cbn [foldl length]. rewrite Hn. destruct (Z.ltb_spec n g); [| lia]. specialize (IH (z + 1)). lia.
Qed.

(** The walk back loses no round that is kept and wastes few reads.  A scan
    reads a run of round numbers straight down from the newest, each once, at
    most 250 of them and none below the first, and reports exactly what those
    reads answered, newest first.  Unless it was cancelled, every round of the
    chain's retention window was read, whatever was absent or failed in it, and
    a round above the floor was passed over only below three consecutive rounds
    confirmed absent and outside the window; and where every round up to some
    number outside the window has been reclaimed, at most ten reads go to them. *)
Theorem scan_keeps_history newest : exists k,
  let ns := take k (numbers newest) in
  scanRoundLog newest = scan_of ns /\ Z.of_nat (length ns) <= MAX_ROUNDS /\
  (forall n, n ∈ ns -> 1 <= n <= newest) /\ NoDup ns /\
  ((exists i, cancelled i = true) \/
   (forall n, Z.max 1 (newest - MIN_RETAINED_ROUNDS + 1) <= n <= newest -> n ∈ ns) /\
   (forall n, Z.max 1 (newest - MAX_ROUNDS + 1) <= n <= newest -> n ∈ ns \/
      exists m, n < m /\ m + 2 <= newest - MIN_RETAINED_ROUNDS /\ read m = absent /\ read (m + 1) = absent /\ read (m + 2) = absent) /\
   (forall c, c <= newest - MIN_RETAINED_ROUNDS -> (forall n, n <= c -> read n = absent) -> Z.of_nat (length ns) <= newest - c + 10)).
Proof.
  destruct (batches_seen (length (numbers newest)) 0 (guaranteed newest) [] (numbers newest) ltac:(lia)) as (k & Hscan & Hk & Hwhy & Hb).
  { by cbn. }
  exists k. cbn [app] in Hscan, Hwhy, Hb. cbv zeta. pose proof (length_numbers newest) as Hlen.
  assert (length (take k (numbers newest)) = k) as Hlk by (rewrite length_take; lia).
  assert (forall n, n ∈ take k (numbers newest) <-> newest - Z.of_nat k < n <= newest) as Helem.
  { intros n. rewrite numbers_elem. rewrite Nat.min_l by lia. done. }
  unfold MAX_ROUNDS, MIN_RETAINED_ROUNDS, STOP_AFTER_CONSECUTIVE_MISSES in *.
  split_and!; [exact Hscan | lia | intros n Hn; apply Helem in Hn; lia | |].
  { eapply sublist_NoDup; [| apply sublist_take]. unfold numbers. apply NoDup_fmap_2; [intros a b; lia | apply NoDup_seq]. }
  assert (forall c, c <= newest - 20 -> (forall n, n <= c -> read n = absent) -> Z.of_nat (length (take k (numbers newest))) <= newest - c + 10) as Hwaste.
  { intros c Hc Habs. rewrite Hlk. destruct Hb as [-> | (b & Hbk & Hr)]; [lia |].
    destruct (Z.le_gt_cases (Z.of_nat b) (newest - c + 2)) as [Hle | Hgt]; [unfold BATCH in Hbk; lia |]. exfalso.
    pose proof (run_absent (guaranteed newest) (take b (numbers newest)) (Z.to_nat (newest - c))) as Hra.
    rewrite length_take in Hra. rewrite Nat.min_l in Hra by lia. enough (Z.of_nat (b - Z.to_nat (newest - c)) <= run_of (guaranteed newest) (take b (numbers newest))) by lia.
    apply Hra. apply Forall_forall. intros n Hn. apply list_elem_of_lookup in Hn as (j & Hj). rewrite lookup_drop in Hj.
    pose proof (lookup_lt_Some _ _ _ Hj) as Hjl. rewrite length_take in Hjl. rewrite lookup_take_lt in Hj by lia.
    rewrite numbers_lookup in Hj by lia. injection Hj as <-. split; [apply Habs; lia |]. unfold guaranteed, MIN_RETAINED_ROUNDS.
    destruct (Z.ltb_spec 20 newest); lia. }
  destruct Hwhy as [Hall | [Hc | Hrun]]; [right | by left | right].
  - split_and!; [intros n Hn; apply Helem; lia | intros n Hn; left; apply Helem; lia | exact Hwaste].
  - pose proof (run_tail (guaranteed newest) (take k (numbers newest)) 3 Hrun (numbers_down newest k)) as Htail. rewrite Hlk in Htail.
    assert (forall j, (j < 3)%nat -> (j < k)%nat /\ read (newest - Z.of_nat (k - 1 - j)) = absent /\ newest - Z.of_nat (k - 1 - j) < guaranteed newest) as Ht.
    { intros j Hj. destruct (Htail j Hj) as (n & Hn & Hr & Hg). pose proof (lookup_lt_Some _ _ _ Hn) as Hnl.
      rewrite lookup_take_lt in Hn by lia. rewrite numbers_lookup in Hn by lia. injection Hn as <-. split; [| done].
      destruct (Nat.lt_ge_cases j k); [done |]. exfalso.
      destruct (Htail 0%nat ltac:(lia)) as (n' & Hn' & _ & Hg'). rewrite lookup_take_lt in Hn' by lia. rewrite numbers_lookup in Hn' by lia.
      injection Hn' as <-. unfold guaranteed, MIN_RETAINED_ROUNDS in *. destruct (Z.ltb_spec 20 newest); lia. }
    split_and!.
    + intros n Hn. apply Helem. destruct (Ht 2%nat ltac:(lia)) as (H1 & _ & H3). unfold guaranteed, MIN_RETAINED_ROUNDS in H3.
      destruct (Z.ltb_spec 20 newest); lia.
    + intros n Hn. destruct (Z.lt_ge_cases (newest - Z.of_nat k) n); [left; apply Helem; lia | right].
      destruct (Ht 0%nat ltac:(lia)) as (_ & R0 & _), (Ht 1%nat ltac:(lia)) as (_ & R1 & _), (Ht 2%nat ltac:(lia)) as (Hk2 & R2 & G2).
      exists (newest - Z.of_nat (k - 1)). unfold guaranteed, MIN_RETAINED_ROUNDS in G2.
      replace (newest - Z.of_nat (k - 1) + 1) with (newest - Z.of_nat (k - 1 - 1)) by lia.
      replace (newest - Z.of_nat (k - 1) + 2) with (newest - Z.of_nat (k - 1 - 2)) by lia.
      replace (k - 1)%nat with (k - 1 - 0)%nat at 1 3 by lia.
      split_and!; [lia | destruct (Z.ltb_spec 20 newest); lia | exact R0 | exact R1 | exact R2].
    + exact Hwaste.
Qed.

End Scan.
