(* ===== verification/LiveRound.v ===== *)
(** * The round on screen

    [er-demo/src/v2/data/liveRound.ts], [fightPace.ts] and [extractTerms.ts],
    with [toPlainRound] of [er-demo/src/chain/useRound.ts]: how far the fight has
    got, whether it may be ended, and what leaving it now would pay. *)
From S2P Require Import Prelude Text Challenge JsNum ErSim FightLaws Chain HouseBank KeeperState KeeperChain KeeperDrive RoundLog.
Open Scope js_scope.

(** ** The account as the page reads it ([useRound.ts]) *)

Record FighterState : Type := mkFighterState {
  fs_wallet : string;
  fs_side : Z;
  fs_dead : bool;
  fs_stake : Z;
  fs_hp : Z;
  fs_banked : Z;
}.

(** The account, with what [toPlainRound] reads of it beyond the log.  The lobby's
    instants are missing from an account of an older program. *)
Record RawRoundAccount : Type := mkRawAccount {
  account : RawRound;
  acc_seedCommit : list Z;
  acc_seed : list Z;
  acc_lobbyClosesAt : option Z;
  acc_fightStartedAt : Z;
}.

Record RoundState : Type := mkRoundState {
  st_roundNo : Z;
  st_phaseName : PhaseName;
  st_winner : Z;
  st_fighterCount : Z;
  st_tickCount : Z;
  st_pot : Z;
  st_seedCommit : list Z;
  st_seed : list Z;
  st_lobbyClosesAt : Z;
  st_fightStartedAt : Z;
  st_fighters : list FighterState;
}.

Definition plain_fighter (f : RawFighter) : FighterState :=
  mkFighterState (raw_wallet f) (raw_side f) (negb (raw_dead f =? 0)) (raw_stake f) (raw_hp f) (raw_banked f).

Definition toPlainRound (raw : RawRoundAccount) : RoundState :=
  let r := account raw in
  mkRoundState (raw_roundNo r) (phase_read (raw_phase r)) (raw_winner r) (raw_fighterCount r) (raw_tickCount r)
    (raw_pot r) (acc_seedCommit raw) (acc_seed raw) (bnOr0 (acc_lobbyClosesAt raw)) (acc_fightStartedAt raw)
    (plain_fighter <$> take (Z.to_nat (raw_fighterCount r)) (raw_fighters r)).

(** ** Views ([liveRound.ts]) *)

(** The face of a fighter is put in elsewhere and starts as none. *)
Record FighterView : Type := mkView {
  fv_id : nat;
  fv_wallet : string;
  fv_short : string;
  fv_side : Side;
  fv_stake : Z;
  fv_hp : Z;
  fv_banked : Z;
  fv_dead : bool;
  fv_isYou : bool;
}.

Definition isSeedRevealed (seed : list Z) : bool := existsb (fun b => negb (b =? 0)) seed.

(** [Buffer.from] keeps a number's low byte. *)
Definition toHex (bytes : list Z) : string := text (bytes ≫= fun b => hex_byte (b mod 256)).

Definition view_of (you : string) (id : nat) (f : FighterState) : FighterView :=
  mkView id (fs_wallet f) (shortKey (fs_wallet f)) (toSide (fs_side f)) (fs_stake f) (fs_hp f) (fs_banked f) (fs_dead f)
    (bool_decide (fs_wallet f = you)).

Definition toFighterViews (fighters : list FighterState) (youPubkey : string) : list FighterView :=
  imap (view_of youPubkey) fighters.

Definition toHitEventEntries (fighters : list FighterState) : list HitEventEntry :=
  (fun f => mkEntry (fs_wallet f) (toSide (fs_side f)) (fs_stake f)) <$> fighters.

Definition fightStartedAtMsOf (round : RoundState) : option num :=
  if 0 <? st_fightStartedAt round then Some (mul (of_Z (st_fightStartedAt round)) (of_Z 1000)) else None.

Definition lobbyClosesAtMsOf (round : RoundState) : option num :=
  if st_lobbyClosesAt round <=? 0 then None else Some (mul (of_Z (st_lobbyClosesAt round)) (of_Z 1000)).

(** ** How far the fight has got ([fightPace.ts]) *)

Record FightPace : Type := mkPace { elapsedSec : num; stepsNow : num; resolvable : bool }.

Definition standing (fighters : list FighterView) : list FighterView := List.filter (fun f => negb (fv_dead f)) fighters.

Definition fightIsOver (fighters : list FighterView) : bool :=
  let a := zsum (fun f => if bool_decide (fv_side f = side0) then 1 else 0) (standing fighters) in
  let b := zsum (fun f => if bool_decide (fv_side f = side0) then 0 else 1) (standing fighters) in
  (a =? 0) || (b =? 0).

Definition isResolvable (phase : PhaseName) (fighters : list FighterView) (elapsed : num) : bool :=
  if negb (bool_decide (phase = Fight)) then false else
  if Z.of_nat (length fighters) <? 2 then false else
  fightIsOver fighters || leb (of_Z FIGHT_TIMEOUT_SECONDS) elapsed.

Definition fightPace (phase : PhaseName) (fightStartedAtMs : option num) (fighters : list FighterView)
    (ticks : Z) (nowMs : num) : FightPace :=
  let n := Z.of_nat (length fighters) in
  let rate := of_Z (stepsPerSecond n) in
  match phase, fightStartedAtMs with
  | Settled, _ =>
      let steps := min (of_Z ticks) (of_Z (finalCursor n)) in
      mkPace (if ltb (of_Z 0) rate then div steps rate else of_Z 0) steps false
  | Fight, Some started =>
      let elapsed := max (of_Z 0) (div (sub nowMs started) (of_Z 1000)) in
      mkPace elapsed (mul (min (floor elapsed) (of_Z FIGHT_TIMEOUT_SECONDS)) rate) (isResolvable phase fighters elapsed)
  | _, _ => mkPace (of_Z 0) (of_Z 0) false
  end.

(** Who drives the fight: [true] for a connected wallet, [false] for the local
    burner.  A balance not read yet is [None]. *)
Definition shouldDriveFight (fallback sessionActive : bool) (solBalance : option num) (mode_wallet : bool) : bool :=
  if fallback then false else
  if mode_wallet then sessionActive else
  if sessionActive then true else
  match solBalance with None => true | Some b => negb (eqb b (of_Z 0)) end.

(** ** The price of leaving ([extractTerms.ts]) *)

Definition DECAY_PREVIEW_SECONDS : list Z := [10; 20; 30].

Record ExtractTerms : Type := mkTerms {
  penaltyBps : Z;
  freeAtStep : Z;
  stepsToFree : num;
  secondsToFree : num;
  decay : list (Z * Z);
  youKeep : option Z;
  youForfeit : option Z;
}.

(** What the fighter keeps and forfeits; [BigInt] throws when the cursor is not
    a number. *)
Definition extractSplit (value fighterCount : Z) (cursor : num) : outcome js_error (Z * Z) :=
  let! c := to_bigint (max (of_Z 0) (floor cursor)) in
  Done (splitExtraction value fighterCount c).

Fixpoint decay_preview (n : Z) (cursor : num) (seconds : list Z) : outcome js_error (list (Z * Z)) :=
  match seconds with
  | [] => Done []
  | s :: seconds =>
      let! c := to_bigint (min (add cursor (mul (of_Z s) (of_Z (stepsPerSecond n)))) (of_Z (finalCursor n))) in
      let! rest := decay_preview n cursor seconds in
      Done ((s, extractPenaltyBps n c) :: rest)
  end.

Definition mine_in_ring (f : FighterView) : bool := fv_isYou f && negb (fv_dead f) && (0 <? fv_hp f).

Definition extractTerms (phase : PhaseName) (fighters : list FighterView) (steps : num) : outcome js_error ExtractTerms :=
  let n := Z.of_nat (length fighters) in
  let cursor := max (of_Z 0) (min (floor steps) (of_Z (finalCursor n))) in
  let rate := of_Z (stepsPerSecond n) in
  let free := penaltyHorizonSteps n in
  let toFree := max (of_Z 0) (sub (of_Z free) cursor) in
  let fighting := bool_decide (phase = Fight) in
  let! split :=
    match (if fighting then List.find mine_in_ring fighters else None) with
    | Some mine => let! s := extractSplit (fv_hp mine) n cursor in Done (Some s)
    | None => Done None
    end in
  let! c := to_bigint cursor in
  let! preview := if fighting then decay_preview n cursor DECAY_PREVIEW_SECONDS else Done [] in
  Done (mkTerms (extractPenaltyBps n c) free toFree (if ltb (of_Z 0) rate then div toFree rate else of_Z 0) preview
          (fst <$> split) (snd <$> split)).

Record LiveRound : Type := mkLive {
  live_roundNo : Z;
  live_phase : PhaseName;
  live_winner : option Side;
  live_pot : Z;
  live_fighters : list FighterView;
  live_seedHex : option string;
  live_seedCommitHex : string;
  live_fightStartedAtMs : option num;
  live_lobbyClosesAtMs : option num;
  live_tickCount : Z;
  live_elapsedSec : num;
  live_stepsNow : num;
  live_resolvable : bool;
  live_extractTerms : ExtractTerms;
}.

Definition toLiveRound (round : RoundState) (you : string) (nowMs : num) : outcome js_error LiveRound :=
  let fighters := toFighterViews (st_fighters round) you in
  let started := fightStartedAtMsOf round in
  let pace := fightPace (st_phaseName round) started fighters (st_tickCount round) nowMs in
  let! terms := extractTerms (st_phaseName round) fighters (stepsNow pace) in
  Done (mkLive (st_roundNo round) (st_phaseName round)
    (if bool_decide (st_phaseName round = Settled) then Some (toSide (st_winner round)) else None)
    (st_pot round) fighters
    (if isSeedRevealed (st_seed round) then Some (toHex (st_seed round)) else None) (toHex (st_seedCommit round))
    started (lobbyClosesAtMsOf round) (st_tickCount round) (elapsedSec pace) (stepsNow pace) (resolvable pace) terms).

(** Why the button is dark. *)
Inductive Refusal : Type :=
| NotReady (reason : string)
| LoadingRound
| NotInFight (phase : PhaseName)
| NoFighter
| AlreadyOut.

Record ExtractEligibility : Type := mkEligibility {
  el_ok : bool;
  el_reason : option Refusal;
  el_hp : option Z;
  el_keep : option Z;
  el_forfeit : option Z;
}.

Definition extractEligibility (live : option LiveRound) (notReady : option string) : outcome js_error ExtractEligibility :=
  let refuse why := mkEligibility false (Some why) None None None in
  match notReady, live with
  | Some (String _ _ as why), _ => Done (refuse (NotReady why))
  | _, None => Done (refuse LoadingRound)
  | _, Some live =>
      if negb (bool_decide (live_phase live = Fight)) then Done (refuse (NotInFight (live_phase live))) else
      match List.find fv_isYou (live_fighters live) with
      | None => Done (refuse NoFighter)
      | Some mine =>
          if fv_dead mine || (fv_hp mine <=? 0)
          then Done (mkEligibility false (Some AlreadyOut) (Some (fv_hp mine)) None None)
          else
            let! s := extractSplit (fv_hp mine) (Z.of_nat (length (live_fighters live))) (live_stepsNow live) in
            Done (mkEligibility true None (Some (fv_hp mine)) (Some s.1) (Some s.2))
      end
  end.

(** ** Laws: the clock *)

(** A whole number of parts, floored, is the whole quotient. *)
Lemma floor_div k d : 0 <= k <= 2 ^ 50 -> 0 < d <= 2 ^ 50 -> floor (div (of_Z k) (of_Z d)) = of_Z (k / d).
Proof.
  intros Hk Hd. pose proof one_pos as H1. pose proof overflow_big as Hov.
  assert (Hq : 0 <= k / d <= k) by (split; [apply Z.div_pos; lia | apply Z.div_le_upper_bound; nia]).
  rewrite (of_Z_exact k), (of_Z_exact d), (of_Z_exact (k / d)) by (unfold safe; lia). cbn [div].
  rewrite (proj2 (Z.eqb_neq (d * one) 0)) by nia. rewrite Z.sgn_pos, Z.abs_eq, Z.mul_1_l by nia.
  unfold of_ratio. rewrite rnd_scale by lia. set (x := rnd (k * one) d).
  assert (Hx0 : 0 <= x) by (apply rnd_nonneg; nia).
  assert (Hlo : k / d * one <= x).
  { apply rnd_ge; [lia | apply rnd_int; lia |]. pose proof (Z.mul_div_le k d ltac:(lia)). nia. }
  assert (Hhi : x < (k / d + 1) * one).
  { pose proof (rnd_err (k * one) d ltac:(nia) ltac:(lia)) as He. fold x in He.
    pose proof (Z.mul_succ_div_gt k d ltac:(lia)) as Hg.
    assert (Hbig : 2 ^ 50 <= one) by (rewrite one_pow; apply Z.pow_le_mono_r; lia).
    assert (HA : 0 <= k * one <= 2 ^ 50 * one) by (split; [| apply Z.mul_le_mono_nonneg_r]; nia).
    assert (x * d < (k + 1) * one) by lia.
    enough (x * d < (k / d + 1) * one * d) by nia. nia. }
  rewrite mk_fin by nia. cbn [floor on_fin]. f_equal.
  enough (x / one = k / d) by congruence. symmetry. apply Z.div_unique with (x - one * (k / d)); lia.
Qed.

Lemma floor_max x y : is_nan x = false -> is_nan y = false -> floor (max x y) = max (floor x) (floor y).
Proof.
  intros Hx Hy. assert (Hfx : is_nan (floor x) = false) by (by destruct x).
  assert (Hfy : is_nan (floor y) = false) by (by destruct y).
  unfold max. rewrite Hx, Hy, Hfx, Hfy. cbn [orb]. destruct (ltb x y) eqn:E.
  - destruct (ltb (floor x) (floor y)) eqn:F; [done |]. apply leb_antisym.
    + by apply not_ltb.
    + apply floor_mono. by apply ltb_leb.
  - apply not_ltb in E; [| done..]. apply floor_mono in E. apply leb_not_ltb in E. by rewrite E.
Qed.

Lemma div_not_nan k d : Z.abs k <= 2 ^ 50 -> 0 < d <= 2 ^ 50 -> is_nan (div (of_Z k) (of_Z d)) = false.
Proof.
  intros. pose proof one_pos. rewrite (of_Z_exact k), (of_Z_exact d) by (unfold safe; lia). cbn [div].
  rewrite (proj2 (Z.eqb_neq (d * one) 0)) by nia. apply mk_not_nan.
Qed.

(** Clamped at nothing, for a difference that may be negative too. *)
Lemma floor_clamped_div k d :
  Z.abs k <= 2 ^ 50 -> 0 < d <= 2 ^ 50 -> floor (max (of_Z 0) (div (of_Z k) (of_Z d))) = of_Z (Z.max 0 (k / d)).
Proof.
  intros Hk Hd. pose proof one_pos. rewrite floor_max by (apply of_Z_not_nan || by apply div_not_nan).
  rewrite floor_int by (unfold safe; lia). destruct (Z.le_gt_cases 0 k) as [Hp | Hn].
  - assert (0 <= k / d <= k) by (split; [apply Z.div_pos; lia | apply Z.div_le_upper_bound; nia]).
    rewrite floor_div by lia. apply max_int; unfold safe; lia.
  - assert (k / d < 0) by (apply Z.div_lt_upper_bound; lia). rewrite Z.max_l by lia.
    assert (L : leb (floor (div (of_Z k) (of_Z d))) (of_Z 0) = true).
    { rewrite <- (floor_int 0) by (unfold safe; lia). apply floor_mono.
      rewrite (of_Z_exact d) by (unfold safe; lia).
      apply (leb_trans _ (div (of_Z 0) (Fin (d * one)))).
      - apply div_mono_pos; [| nia]. rewrite leb_int by (unfold safe; lia). by apply Z.leb_le; lia.
      - rewrite <- (of_Z_exact d), (of_Z_exact 0), (of_Z_exact d) by (unfold safe; lia). cbn [div].
        rewrite (proj2 (Z.eqb_neq (d * one) 0)) by nia. rewrite Z.mul_0_l, Z.mul_0_r, Z.mul_0_l.
        change (of_ratio 0 (Z.abs (d * one))) with (mk 0). rewrite mk_fin by (pose proof overflow_big; nia).
        by apply leb_refl. }
    apply leb_not_ltb in L. unfold max. rewrite of_Z_not_nan. cbn [orb].
    destruct (is_nan (floor (div (of_Z k) (of_Z d)))) eqn:N; [| by rewrite L].
    pose proof (div_not_nan k d ltac:(lia) Hd) as M. by destruct (div (of_Z k) (of_Z d)).
Qed.

(** The program's cursor of a fight begun at second [s], at second [t]. *)
Definition chain_cursor (s n t : Z) : Z := Z.min (Z.max 0 (t - s)) FIGHT_TIMEOUT_SECONDS * stepsPerSecond n.

Lemma chain_cursor_bounds s n t : 0 <= n -> 0 <= chain_cursor s n t <= finalCursor n.
Proof.
  unfold chain_cursor, finalCursor, stepsPerSecond, STEPS_PER_FIGHTER_PER_SECOND, FIGHT_TIMEOUT_SECONDS. nia.
Qed.

Lemma final_cursor_small n : 0 <= n <= MAX_FIGHTERS -> 0 <= finalCursor n <= 17280 /\ 0 <= stepsPerSecond n <= 96.
Proof. unfold finalCursor, stepsPerSecond, STEPS_PER_FIGHTER_PER_SECOND, FIGHT_TIMEOUT_SECONDS, MAX_FIGHTERS. lia. Qed.

(** A fight in progress: begun at a second, in a round no larger than the program
    allows, read at a whole millisecond. *)
Record in_fight (round : RoundState) (ms : Z) : Prop := {
  fighting : st_phaseName round = Fight;
  begun : 0 < st_fightStartedAt round < 2 ^ 39;
  readable : 0 <= ms < 2 ^ 49;
  fits : Z.of_nat (length (st_fighters round)) <= MAX_FIGHTERS;
}.

Definition seats (round : RoundState) : Z := Z.of_nat (length (st_fighters round)).
Definition cursor_at (round : RoundState) (ms : Z) : Z := chain_cursor (st_fightStartedAt round) (seats round) (ms / 1000).

Section Reading.
Context (round : RoundState) (you : string) (ms : Z).
Context (H : in_fight round ms).

Lemma views_length : Z.of_nat (length (toFighterViews (st_fighters round) you)) = seats round.
Proof. unfold toFighterViews, seats. by rewrite length_imap. Qed.

Lemma elapsed_floor :
  floor (max (of_Z 0) (div (sub (of_Z ms) (mul (of_Z (st_fightStartedAt round)) (of_Z 1000))) (of_Z 1000)))
  = of_Z (Z.max 0 (ms / 1000 - st_fightStartedAt round)).
Proof.
  destruct H as [_ Hs Hm _]. rewrite mul_int, sub_int by (unfold safe; lia).
  rewrite floor_clamped_div by lia. do 2 f_equal.
  replace (ms - st_fightStartedAt round * 1000) with (ms + - st_fightStartedAt round * 1000) by ring.
  rewrite Z.div_add by lia. lia.
Qed.

Definition pace_now : FightPace :=
  fightPace (st_phaseName round) (fightStartedAtMsOf round) (toFighterViews (st_fighters round) you)
    (st_tickCount round) (of_Z ms).

Lemma steps_now : stepsNow pace_now = of_Z (cursor_at round ms).
Proof.
  unfold pace_now, fightPace, fightStartedAtMsOf. rewrite (fighting _ _ H), views_length.
  rewrite (proj2 (Z.ltb_lt 0 (st_fightStartedAt round))) by apply (begun _ _ H). cbn [stepsNow].
  rewrite elapsed_floor. destruct H as [_ Hs Hm Hn]. fold (seats round) in Hn.
  pose proof (final_cursor_small (seats round) ltac:(unfold seats in *; lia)).
  assert (0 <= ms / 1000 <= ms) by (split; [apply Z.div_pos; lia | apply Z.div_le_upper_bound; lia]).
  unfold cursor_at, chain_cursor, FIGHT_TIMEOUT_SECONDS in *.
  rewrite min_int, mul_int by (unfold safe; lia). done.
Qed.

Lemma bell : leb (of_Z FIGHT_TIMEOUT_SECONDS) (elapsedSec pace_now) = (st_fightStartedAt round + FIGHT_TIMEOUT_SECONDS <=? ms / 1000).
Proof.
  unfold pace_now, fightPace, fightStartedAtMsOf. rewrite (fighting _ _ H).
  rewrite (proj2 (Z.ltb_lt 0 (st_fightStartedAt round))) by apply (begun _ _ H). cbn [elapsedSec].
  pose proof elapsed_floor as E. set (x := max _ _) in *.
  destruct H as [_ Hs Hm _]. unfold FIGHT_TIMEOUT_SECONDS.
  assert (Hx : is_nan x = false) by (destruct x; [| done..]; cbn in E; symmetry in E; apply (f_equal is_nan) in E; by rewrite of_Z_not_nan in E).
  assert (L : ltb x (of_Z 180) = (Z.max 0 (ms / 1000 - st_fightStartedAt round) <? 180)).
  { rewrite <- floor_lt_int, E by (unfold safe; lia). pose proof (Z.div_lt_upper_bound ms 1000 (2 ^ 49) ltac:(lia) ltac:(lia)).
    assert (0 <= ms / 1000) by (apply Z.div_pos; lia). apply ltb_int; unfold safe; lia. }
  destruct (leb (of_Z 180) x) eqn:F.
  - apply leb_not_ltb in F. rewrite F in L. symmetry in L. apply Z.ltb_ge in L. symmetry. apply Z.leb_le. lia.
  - destruct (ltb x (of_Z 180)) eqn:F2.
    + symmetry in L. apply Z.ltb_lt in L. symmetry. apply Z.leb_gt. lia.
    + apply not_ltb in F2; [congruence | done | apply of_Z_not_nan].
Qed.
End Reading.

(** ** Laws: what leaving pays *)

(** The fighters of the round, as the reference fight holds them. *)
Definition ring_of (round : RoundState) : list ERFighter :=
  (fun f => mkFighter (fs_wallet f) (toSide (fs_side f)) (fs_dead f) (fs_stake f) (fs_hp f) (fs_banked f))
    <$> st_fighters round.

Lemma find_list_find {A} (P : A -> Prop) `{!forall x, Decision (P x)} l :
  snd <$> list_find P l = List.find (fun x => bool_decide (P x)) l.
Proof.
  induction l as [| x l IH]; [done |]. cbn. destruct (decide (P x)) as [Hx | Hx].
  - by rewrite (bool_decide_eq_true_2 _ Hx).
  - rewrite (bool_decide_eq_false_2 _ Hx), <- IH. by destruct (list_find P l) as [[]|].
Qed.

Lemma find_map {A B} (f : A -> B) (p : B -> bool) l : List.find p (f <$> l) = f <$> List.find (fun x => p (f x)) l.
Proof. induction l as [| x l IH]; [done |]. rewrite fmap_cons. cbn. by destruct (p (f x)). Qed.

Lemma find_ext {A} (p q : A -> bool) l : (forall x, p x = q x) -> List.find p l = List.find q l.
Proof. intros E. induction l as [| x l IH]; [done |]. cbn. by rewrite E, IH. Qed.

Lemma find_imap {A B} (g : nat -> A -> B) (p : B -> bool) (q : A -> bool) l :
  (forall i x, p (g i x) = q x) ->
  match List.find q l with Some x => exists i, List.find p (imap g l) = Some (g i x) | None => List.find p (imap g l) = None end.
Proof.
  revert g. induction l as [| x l IH]; intros g E; [done |]. cbn [List.find]. rewrite imap_cons. cbn [List.find].
  rewrite E. destruct (q x); [by exists 0%nat |].
  specialize (IH (g ∘ S) (fun i => E (S i))). destruct (List.find q l) as [y |]; [| done].
  destruct IH as [i Hi]. by exists (S i).
Qed.

(** A seat of [you] that can still leave. *)
Definition can_leave (you : string) (f : FighterState) : bool :=
  bool_decide (fs_wallet f = you) && negb (fs_dead f) && (0 <? fs_hp f).

Definition paid (r : outcome er_error (ERRound * (Z * Z * Z))) : option (Z * Z * Z) :=
  match r with Done (_, t) => Some t | Throw _ => None end.

Definition quote (n cursor : Z) (f : FighterState) : Z * Z * Z :=
  let s := splitExtraction (fs_hp f) n cursor in (fs_hp f, s.1, s.2).

Lemma leaving_pays round you r :
  fighters r = ring_of round ->
  paid (extract r you) = quote (seats round) (tickCount r) <$> List.find (can_leave you) (st_fighters round).
Proof.
  intros E. unfold extract, paid.
  assert (F : snd <$> list_find (fun f => wallet f = you /\ dead f = false /\ 0 < hp f) (fighters r) =
    (fun f => mkFighter (fs_wallet f) (toSide (fs_side f)) (fs_dead f) (fs_stake f) (fs_hp f) (fs_banked f))
      <$> List.find (can_leave you) (st_fighters round)).
  { rewrite find_list_find, E. unfold ring_of. rewrite find_map. f_equal. apply find_ext. intros f.
    unfold can_leave. apply eq_true_iff_eq. rewrite !andb_true_iff, !bool_decide_eq_true, negb_true_iff, Z.ltb_lt. cbn. tauto. }
  assert (L : Z.of_nat (length (fighters r)) = seats round) by (rewrite E; unfold ring_of, seats; by rewrite length_fmap).
  destruct (list_find _ _) as [[i f] |]; destruct (List.find _ _) as [g |]; cbn in F; [| discriminate F..| done].
  injection F as ->. cbn [hp]. rewrite L. unfold quote. cbn.
  by destruct (splitExtraction (fs_hp g) (seats round) (tickCount r)).
Qed.

Section Quoting.
Context (round : RoundState) (you : string) (ms : Z).
Context (H : in_fight round ms).

Lemma cursor_small : 0 <= cursor_at round ms <= finalCursor (seats round) /\ finalCursor (seats round) <= 17280
  /\ 0 <= stepsPerSecond (seats round) <= 96.
Proof.
  pose proof (fits _ _ H). fold (seats round) in *. pose proof (final_cursor_small (seats round) ltac:(unfold seats in *; lia)).
  pose proof (chain_cursor_bounds (st_fightStartedAt round) (seats round) (ms / 1000) ltac:(unfold seats; lia)).
  unfold cursor_at. lia.
Qed.

Lemma split_at_cursor v n c : 0 <= c <= 17280 -> extractSplit v n (of_Z c) = Done (splitExtraction v n c).
Proof.
  intros. unfold extractSplit. rewrite floor_int, max_int, to_bigint_int by (unfold safe; lia). cbn.
  by rewrite Z.max_r by lia.
Qed.

Lemma preview_at_cursor n c secs :
  0 <= c <= 17280 -> 0 <= stepsPerSecond n <= 96 -> 0 <= finalCursor n <= 17280 -> Forall (fun s => 0 <= s <= 60) secs ->
  decay_preview n (of_Z c) secs
  = Done ((fun s => (s, extractPenaltyBps n (Z.min (c + s * stepsPerSecond n) (finalCursor n)))) <$> secs).
Proof.
  intros Hc Hn Hf. induction 1 as [| s secs Hs _ IH]; [done |]. cbn [decay_preview].
  assert (0 <= s * stepsPerSecond n <= 60 * 96) by nia.
  rewrite mul_int, add_int, min_int, to_bigint_int by (unfold safe; lia). cbn [outcome_bind]. by rewrite IH.
Qed.

Lemma horizon_small n : 0 <= penaltyHorizonSteps n <= 8314.
Proof.
  unfold penaltyHorizonSteps. set (i := Z.to_nat _). 
  assert (F : forallb (fun h => (0 <=? h) && (h <=? 8314)) PENALTY_HORIZON_STEPS = true) by reflexivity.
  rewrite forallb_forall in F. destruct (nth_in_or_default i PENALTY_HORIZON_STEPS 0) as [Hin | ->]; [| lia].
  apply F in Hin. lia.
Qed.

Definition terms_now (mine : option FighterState) : ExtractTerms :=
  let n := seats round in
  let c := cursor_at round ms in
  let toFree := of_Z (Z.max 0 (penaltyHorizonSteps n - c)) in
  mkTerms (extractPenaltyBps n c) (penaltyHorizonSteps n) toFree
    (if ltb (of_Z 0) (of_Z (stepsPerSecond n)) then div toFree (of_Z (stepsPerSecond n)) else of_Z 0)
    ((fun s => (s, extractPenaltyBps n (Z.min (c + s * stepsPerSecond n) (finalCursor n)))) <$> DECAY_PREVIEW_SECONDS)
    ((fun f => (splitExtraction (fs_hp f) n c).1) <$> mine) ((fun f => (splitExtraction (fs_hp f) n c).2) <$> mine).

Lemma terms_at_cursor :
  extractTerms (st_phaseName round) (toFighterViews (st_fighters round) you) (stepsNow (pace_now round you ms))
  = Done (terms_now (List.find (can_leave you) (st_fighters round))).
Proof.
  pose proof cursor_small as (Hc & Hf & Hr). pose proof (horizon_small (seats round)) as Hh.
  unfold extractTerms. rewrite (steps_now _ _ _ H), (fighting _ _ H), views_length.
  rewrite bool_decide_eq_true_2 by done.
  rewrite floor_int, min_int, max_int, Z.max_r, Z.min_l, sub_int, max_int by (unfold safe; lia).
  pose proof (find_imap (view_of you) mine_in_ring (can_leave you) (st_fighters round) (fun _ _ => eq_refl)) as F.
  unfold toFighterViews. destruct (List.find (can_leave you) (st_fighters round)) as [f |]; [destruct F as [i F] |];
    rewrite F; cbn [fv_hp view_of]; rewrite ?split_at_cursor by lia; cbn [outcome_bind];
    rewrite to_bigint_int by (unfold safe; lia); cbn [outcome_bind];
    (rewrite preview_at_cursor; [reflexivity | lia | lia | lia | repeat constructor; lia]).
Qed.
End Quoting.

Lemma live_now round you ms : in_fight round ms ->
  exists live, toLiveRound round you (of_Z ms) = Done live /\
    live_phase live = Fight /\ live_fighters live = toFighterViews (st_fighters round) you /\
    live_stepsNow live = of_Z (cursor_at round ms) /\ live_resolvable live = resolvable (pace_now round you ms) /\
    live_extractTerms live = terms_now round ms (List.find (can_leave you) (st_fighters round)).
Proof.
  intros H. unfold toLiveRound. fold (pace_now round you ms). rewrite terms_at_cursor by done. cbn [outcome_bind].
  eexists. split; [reflexivity |]. cbn. rewrite (steps_now _ _ _ H), (fighting _ _ H). done.
Qed.

Lemma cursor_ahead s n t d :
  0 <= n -> s <= t -> 0 <= d -> Z.min (chain_cursor s n t + d * stepsPerSecond n) (finalCursor n) = chain_cursor s n (t + d).
Proof.
  unfold chain_cursor, finalCursor, stepsPerSecond, STEPS_PER_FIGHTER_PER_SECOND, FIGHT_TIMEOUT_SECONDS.
  intros. rewrite !Z.max_r by lia. rewrite <- Z.mul_add_distr_r. rewrite Z.mul_min_distr_nonneg_r by lia. f_equal. lia.
Qed.

Lemma penalty_gone n c : penaltyHorizonSteps n <= c -> extractPenaltyBps n c = 0.
Proof. intros Hc. unfold extractPenaltyBps. rewrite (proj2 (Z.leb_le _ _) Hc), Z.mul_0_r. reflexivity. Qed.

(** What a player has in the ring: the value of the first living seat. *)
Definition your_ring (you : string) (fs : list ERFighter) : option Z :=
  hp <$> List.find (fun f => bool_decide (wallet f = you /\ dead f = false /\ 0 < hp f)) fs.

Lemma ring_pays r you : paid (extract r you)
  = (fun v => let s := splitExtraction v (Z.of_nat (length (fighters r))) (tickCount r) in (v, s.1, s.2)) <$> your_ring you (fighters r).
Proof.
  unfold extract, your_ring. rewrite <- find_list_find. destruct (list_find _ _) as [[i f] |]; [| done]. cbn [fmap option_fmap option_map snd].
  by destruct (splitExtraction (hp f) _ _).
Qed.

Lemma ring_read you round : your_ring you (ring_of round) = fs_hp <$> List.find (can_leave you) (st_fighters round).
Proof.
  unfold your_ring, ring_of. rewrite find_map, <- option_fmap_compose. unfold compose. cbn [hp].
  rewrite (find_ext _ (can_leave you)); [by destruct (List.find _ _) |]. intros f. unfold can_leave. apply eq_true_iff_eq.
  rewrite !andb_true_iff, !bool_decide_eq_true, negb_true_iff, Z.ltb_lt. cbn. tauto.
Qed.

Lemma your_ring_pos you fs v : your_ring you fs = Some v -> 0 < v.
Proof.
  unfold your_ring. destruct (List.find _ fs) as [f |] eqn:F; [| done]. apply List.find_some in F as [_ F]. apply bool_decide_eq_true in F as (_ & _ & F).
  by intros [= <-].
Qed.

Lemma extract_throws r you e : extract r you = Throw e -> e = NothingToExtract.
Proof. unfold extract. destruct (list_find _ _) as [[i f] |]; [| by intros [= <-]]. by destruct (splitExtraction _ _ _). Qed.

Section Leaving.
Context `{Digest}.

(** What the program does to a fight before it lets anybody leave: the steps up to
    the clock's cursor are taken. *)
Definition caught_up (r : ERRound) (cursor : Z) : ERRound := (tick r (Z.to_nat (cursor - tickCount r))).1.1.

Lemma caught_up_spec r cursor : 2 <= Z.of_nat (length (fighters r)) -> 0 <= tickCount r <= cursor -> cursor <= 2 ^ 64 ->
  length (fighters (caught_up r cursor)) = length (fighters r) /\ tickCount (caught_up r cursor) = cursor.
Proof.
  intros Hn Hc Hm. destruct (tick_total r (Z.to_nat (cursor - tickCount r)) ltac:(lia) ltac:(lia)) as (r' & es & E & El & Et).
  unfold caught_up. rewrite E. cbn [fst]. rewrite (proj2 (Z.ltb_ge _ _)) in Et by lia. split; [done | lia].
Qed.

(** C26. The price on the page: in a fight of two or more, at any whole millisecond,
    the rate is the program's at the clock's cursor of that second, leaving is free
    from the step the panel names on, and the rates previewed for later are those of
    the later seconds.  The figures are that rate on the ring as it is stored, so
    they are exactly what leaving pays and forfeits, and blank exactly when it is
    refused, where the steps the program first takes up to that cursor leave the
    player's value alone: always when the stored fight is at the cursor. *)
Theorem quote_is_what_leaving_pays round you ms :
  in_fight round ms -> 2 <= seats round -> 0 <= st_tickCount round <= cursor_at round ms ->
  exists live, toLiveRound round you (of_Z ms) = Done live /\
    let terms := live_extractTerms live in
    (forall r, fighters r = ring_of round -> tickCount r = st_tickCount round ->
       let now := caught_up r (cursor_at round ms) in
       (st_tickCount round = cursor_at round ms -> now = r) /\
       (your_ring you (fighters now) = your_ring you (fighters r) ->
        match extract now you with
        | Done (_, (taken, kept, penalty)) =>
            youKeep terms = Some kept /\ youForfeit terms = Some penalty /\ 0 < taken /\ kept + penalty = taken
        | Throw e => e = NothingToExtract /\ youKeep terms = None /\ youForfeit terms = None
        end)) /\
    penaltyBps terms = extractPenaltyBps (seats round) (cursor_at round ms) /\
    (forall c, freeAtStep terms <= c -> extractPenaltyBps (seats round) c = 0) /\
    (1000 * st_fightStartedAt round <= ms ->
     decay terms = (fun s => (s, extractPenaltyBps (seats round)
       (chain_cursor (st_fightStartedAt round) (seats round) (ms / 1000 + s)))) <$> [10; 20; 30]).
Proof.
  intros Hf H2 Ht. destruct (live_now round you ms Hf) as (live & Hl & _ & _ & _ & _ & HT).
  exists live. split; [done |]. cbv zeta. rewrite HT. clear HT.
  assert (Hfree : forall c, freeAtStep (terms_now round ms (List.find (can_leave you) (st_fighters round))) <= c ->
    extractPenaltyBps (seats round) c = 0) by (intros c; apply penalty_gone).
  split_and!; [| done | exact Hfree |].
  - intros r E Et. split; [intros Ec; unfold caught_up; by rewrite <- Ec, Et, Z.sub_diag |]. intros Hsame.
    assert (En : Z.of_nat (length (fighters r)) = seats round) by (rewrite E; unfold ring_of, seats; by rewrite length_fmap).
    pose proof (cursor_small round ms Hf) as (Hc & Hfin & _).
    destruct (caught_up_spec r (cursor_at round ms) ltac:(lia) ltac:(lia) ltac:(lia)) as [El Ec].
    pose proof (ring_pays (caught_up r (cursor_at round ms)) you) as P. rewrite El, Ec, En, Hsame, E, ring_read in P.
    pose proof (ring_read you round) as Hring. pose proof (extract_throws (caught_up r (cursor_at round ms)) you) as Hthrow.
    destruct (extract _ you) as [[r' [[taken kept] penalty]] | e]; destruct (List.find _ _) as [f |]; cbn in P; try discriminate P.
    + injection P as -> -> ->. pose proof (your_ring_pos _ _ _ Hring). cbn. unfold splitExtraction. cbn. split_and!; done || lia.
    + by rewrite (Hthrow e).
  - intros Hs. cbn [terms_now decay]. apply list_fmap_ext. intros i s Hi. f_equal. f_equal.
    unfold cursor_at. apply cursor_ahead; [unfold seats; lia | apply Z.div_le_lower_bound; lia |].
    apply list_elem_of_lookup_2 in Hi. revert s Hi. rewrite <- Forall_forall. repeat constructor; lia.
Qed.
End Leaving.

(** ** Laws: the button *)

Definition yours (you : string) (f : FighterState) : bool := bool_decide (fs_wallet f = you).

(** The answer from the player's first seat. *)
Definition answer (n cursor : Z) (first : option FighterState) : ExtractEligibility :=
  match first with
  | None => mkEligibility false (Some NoFighter) None None None
  | Some f =>
      if fs_dead f || (fs_hp f <=? 0) then mkEligibility false (Some AlreadyOut) (Some (fs_hp f)) None None
      else mkEligibility true None (Some (fs_hp f)) (Some (splitExtraction (fs_hp f) n cursor).1)
             (Some (splitExtraction (fs_hp f) n cursor).2)
  end.

Lemma button_now round you ms : in_fight round ms ->
  exists live, toLiveRound round you (of_Z ms) = Done live /\ extractEligibility (Some live) None
    = Done (answer (seats round) (cursor_at round ms) (List.find (yours you) (st_fighters round))).
Proof.
  intros H. destruct (live_now round you ms H) as (live & Hl & Hp & Hf & Hs & _ & _).
  exists live. split; [done |]. unfold extractEligibility.
  rewrite Hp, Hf, Hs, views_length, bool_decide_eq_true_2 by done. cbn [negb].
  pose proof (cursor_small round ms H) as (Hc & Hfin & _).
  pose proof (find_imap (view_of you) fv_isYou (yours you) (st_fighters round) (fun _ _ => eq_refl)) as F.
  unfold toFighterViews, answer. destruct (List.find (yours you) (st_fighters round)) as [f |]; [destruct F as [i F] |];
    rewrite F; [| done]. cbn [fv_dead fv_hp view_of].
  destruct (fs_dead f || (fs_hp f <=? 0)); [done |]. rewrite split_at_cursor by lia. done.
Qed.

Lemma find_stronger {A} (p q : A -> bool) l x :
  (forall x, q x = true -> p x = true) -> List.find p l = Some x -> q x = true -> List.find q l = Some x.
Proof.
  intros E. induction l as [| y l IH]; [done |]. cbn. destruct (p y) eqn:Hy.
  - intros [= ->] Hq. by rewrite Hq.
  - intros Hl Hq. destruct (q y) eqn:Hqy; [| auto]. apply E in Hqy. congruence.
Qed.

Lemma can_leave_yours you f : can_leave you f = true -> yours you f = true.
Proof. unfold can_leave, yours. destruct (bool_decide (fs_wallet f = you)); done. Qed.

Lemma can_leave_eq you f : yours you f = true -> can_leave you f = negb (fs_dead f || (fs_hp f <=? 0)).
Proof.
  unfold can_leave, yours. intros ->. destruct (fs_dead f); [done |]. cbn.
  destruct (Z.ltb_spec 0 (fs_hp f)), (Z.leb_spec (fs_hp f) 0); done || lia.
Qed.

(** With one seat per wallet there is no second seat to look at. *)
Lemma only_seat you l f :
  NoDup (fs_wallet <$> l) -> List.find (yours you) l = Some f -> can_leave you f = false -> List.find (can_leave you) l = None.
Proof.
  intros ND Hf Hout. destruct (List.find (can_leave you) l) as [g |] eqn:Hg; [exfalso | done].
  apply List.find_some in Hf as [Hf Yf], Hg as [Hg Lg]. pose proof (can_leave_yours _ _ Lg) as Yg.
  unfold yours in *. zbool. apply list_elem_of_In, list_elem_of_lookup in Hf as [i Hi], Hg as [j Hj].
  assert (i = j) as <-.
  { apply (NoDup_lookup (fs_wallet <$> l) i j you ND); rewrite list_lookup_fmap; [rewrite Hi | rewrite Hj]; cbn; congruence. }
  congruence.
Qed.

Lemma first_seat_after you before f after :
  you ∉ (fs_wallet <$> before) -> fs_wallet f = you -> List.find (yours you) (before ++ f :: after) = Some f.
Proof.
  intros Hn Hf. induction before as [| g before IH]; cbn.
  - unfold yours. by rewrite bool_decide_eq_true_2.
  - rewrite fmap_cons in Hn. apply not_elem_of_cons in Hn as [Hg Hn]. unfold yours at 1.
    rewrite bool_decide_eq_false_2 by congruence. auto.
Qed.

(** The button's answer is decided by the player's first seat: it offers to
    leave exactly when that seat can, and then names what leaving the stored ring at
    the clock's cursor pays; with one
    seat per wallet it refuses exactly when the program would.  A player seated on
    both sides whose first fighter is out is refused while leaving would still pay. *)
Theorem button_reads_first_seat round you ms r :
  in_fight round ms -> fighters r = ring_of round -> tickCount r = cursor_at round ms ->
  exists live e, toLiveRound round you (of_Z ms) = Done live /\ extractEligibility (Some live) None = Done e /\
    (el_ok e = true -> exists r' taken kept penalty, extract r you = Done (r', (taken, kept, penalty)) /\
       el_hp e = Some taken /\ el_keep e = Some kept /\ el_forfeit e = Some penalty) /\
    (NoDup (fs_wallet <$> st_fighters round) ->
       (el_ok e = false <-> extract r you = Throw NothingToExtract)) /\
    (forall before f after, st_fighters round = before ++ f :: after -> you ∉ (fs_wallet <$> before) ->
       fs_wallet f = you -> fs_dead f = true -> Exists (fun g => can_leave you g = true) after ->
       el_reason e = Some AlreadyOut /\ exists r' figures, extract r you = Done (r', figures)).
Proof.
  intros H E Et. destruct (button_now round you ms H) as (live & Hl & He).
  exists live. eexists. split; [done |]. split; [exact He |]. clear Hl He live.
  pose proof (leaving_pays round you r E) as P. rewrite Et in P.
  assert (Hthrow : paid (extract r you) = None <-> extract r you = Throw NothingToExtract).
  { unfold paid, extract. destruct (list_find _ _) as [[i f] |]; [destruct (splitExtraction _ _ _) |]; done. }
  assert (Hdone : forall t, paid (extract r you) = Some t -> exists r', extract r you = Done (r', t)).
  { intros t. unfold paid. destruct (extract r you) as [[r' t'] |]; [| done]. intros [= ->]. by exists r'. }
  split_and!.
  - unfold answer. destruct (List.find (yours you) _) as [f |] eqn:Hf; [| done].
    pose proof (List.find_some _ _ Hf) as [_ Yf]. pose proof (can_leave_eq _ _ Yf) as L.
    destruct (fs_dead f || (fs_hp f <=? 0)); [done |]. intros _.
    rewrite (find_stronger _ _ _ _ (can_leave_yours you) Hf L) in P. apply Hdone in P as [r' P].
    by exists r', (fs_hp f), (splitExtraction (fs_hp f) (seats round) (cursor_at round ms)).1,
      (splitExtraction (fs_hp f) (seats round) (cursor_at round ms)).2.
  - intros ND. rewrite <- Hthrow, P. unfold answer. destruct (List.find (yours you) _) as [f |] eqn:Hf.
    + pose proof (List.find_some _ _ Hf) as [_ Yf]. pose proof (can_leave_eq _ _ Yf) as L.
      destruct (fs_dead f || (fs_hp f <=? 0)).
      * by rewrite (only_seat _ _ _ ND Hf L).
      * by rewrite (find_stronger _ _ _ _ (can_leave_yours you) Hf L).
    + split; [| done]. intros _. destruct (List.find (can_leave you) _) as [g |] eqn:Hg; [| done].
      apply List.find_some in Hg as [Hin Lg]. pose proof (List.find_none _ _ Hf g Hin) as Yg. apply can_leave_yours in Lg. congruence.
  - intros before f after Hsplit Hn Hw Hd Hex. rewrite Hsplit in *.
    rewrite (first_seat_after _ _ _ _ Hn Hw). cbn. rewrite Hd. split; [done |].
    apply Exists_exists in Hex as (g & Hg & Lg).
    destruct (List.find (can_leave you) (before ++ f :: after)) as [h |] eqn:Hh.
    + apply Hdone in P as [r' P]. eauto.
    + exfalso. assert (Hin : In g (before ++ f :: after)) by (apply in_or_app; right; right; by apply list_elem_of_In).
      pose proof (List.find_none _ _ Hh g Hin) as Ng. congruence.
Qed.

(** ** Laws: the keeper's clock *)

(** The account the keeper reads, and the page's reading of the same bytes. *)
Record same_account (a : RoundAccount) (round : RoundState) : Prop := {
  same_start : r_fightStartedAt a = of_Z (st_fightStartedAt round);
  same_count : r_fighterCount a = seats round;
  same_seats : (fun x => (HouseBank.raw_side x.1, negb (x.2 =? 0))) <$> take (Z.to_nat (r_fighterCount a)) (r_seats a)
               = (fun f => (fs_side f, fs_dead f)) <$> st_fighters round;
  sides_known : Forall (fun f => fs_side f = 0 \/ fs_side f = 1) (st_fighters round);
}.

(** The standing fighters of a side, counted over sides and falls alone. *)
Definition standing_seats (p : Z -> bool) (l : list (Z * bool)) : Z :=
  zsum (fun x => if negb x.2 && p x.1 then 1 else 0) l.

Lemma standing_views (p : Z -> bool) you (g : FighterView -> Z) fs :
  (forall i f, f ∈ fs -> g (view_of you i f) = if p (fs_side f) then 1 else 0) ->
  zsum g (standing (toFighterViews fs you)) = standing_seats p ((fun f => (fs_side f, fs_dead f)) <$> fs).
Proof.
  intros E. unfold standing, toFighterViews, standing_seats. rewrite zsum_filter, zsum_fmap.
  assert (G : forall (h : nat -> FighterState -> FighterView) l, (forall x, x ∈ l -> x ∈ fs) -> (forall i x, exists j, h i x = view_of you j x) ->
    zsum (fun v => if negb (fv_dead v) then g v else 0) (imap h l)
    = zsum (fun x => if negb (fs_dead x) && p (fs_side x) then 1 else 0) l); [| apply (G (view_of you) fs); [done | intros i x; by exists i]].
  intros h l. revert h. induction l as [| x l IH]; intros h Hin Hh; [done |]. rewrite imap_cons. unfold zsum in *. cbn [foldr].
  destruct (Hh 0%nat x) as [j ->]. rewrite E by (apply Hin; left). rewrite (IH (h ∘ S)).
  - cbn [fv_dead view_of]. by destruct (fs_dead x), (p (fs_side x)).
  - intros y Hy. apply Hin. by right.
  - intros i y. apply (Hh (S i) y).
Qed.

Lemma over_alike a round you :
  same_account a round -> fightIsOver (toFighterViews (st_fighters round) you) = KeeperDrive.fightIsOver a.
Proof.
  intros [_ _ S K]. rewrite Forall_forall in K. unfold fightIsOver, KeeperDrive.fightIsOver.
  assert (A : forall p, standing_on p a = standing_seats p ((fun f => (fs_side f, fs_dead f)) <$> st_fighters round)).
  { intros p. rewrite <- S. unfold standing_on, standing_seats. rewrite zsum_fmap. apply zsum_ext. intros x _. cbn.
    by rewrite negb_involutive. }
  rewrite !A, (standing_views (Z.eqb 0) you), (standing_views (fun s => negb (s =? 0)) you); [done | |];
    intros i f Hf; destruct (K f Hf) as [E | E]; cbn; rewrite E; done.
Qed.

(** C27. One clock and one ending: in a fight of two or more, at any whole
    millisecond, the page's playhead is the cursor the keeper computes for that
    instant, and the page calls the round resolvable exactly when the keeper finds
    a side empty or the bell has rung. *)
Theorem page_clock_is_the_keepers round you ms a :
  in_fight round ms -> same_account a round -> 2 <= seats round ->
  exists live, toLiveRound round you (of_Z ms) = Done live /\ live_stepsNow live = canonicalCursor (r_fightStartedAt a) (r_fighterCount a) (div (of_Z ms) (of_Z 1000)) /\ live_resolvable live
    = KeeperDrive.fightIsOver a || (st_fightStartedAt round + FIGHT_TIMEOUT_SECONDS <=? ms / 1000).
Proof.
  intros H S H2. destruct (live_now round you ms H) as (live & Hl & _ & _ & Hs & Hr & _).
  exists live. split; [done |]. rewrite Hs, Hr. split.
  - rewrite (same_start _ _ S), (same_count _ _ S). pose proof (fits _ _ H). destruct H as [_ Hb Hm _].
    assert (0 <= ms / 1000 <= ms / 1000) by (split; [apply Z.div_pos |]; lia).
    assert (ms / 1000 < 2 ^ 40) by (apply Z.div_lt_upper_bound; lia).
    rewrite (canonicalCursor_int _ _ _ (ms / 1000)); [done | lia | lia | unfold seats in *; lia | apply floor_div; lia].
  - rewrite <- (bell round you ms H), <- (over_alike a round you S).
    unfold pace_now, fightPace, fightStartedAtMsOf. rewrite (fighting _ _ H).
    rewrite (proj2 (Z.ltb_lt 0 (st_fightStartedAt round))) by apply (begun _ _ H). cbn [elapsedSec resolvable].
    unfold isResolvable. rewrite bool_decide_eq_true_2 by done. cbn [negb]. rewrite views_length.
    by rewrite (proj2 (Z.ltb_ge _ _)) by done.
Qed.

(** ** A round to read *)

(** Begun at second 1000; [ann] sits on both sides and her first fighter is out. *)
Definition sample_round : RoundState :=
  mkRoundState 7 Fight 0 3 0 15000000 [] [1] 990 1000
    [mkFighterState "ann" 0 true 5000000 0 200000; mkFighterState "bob" 0 false 5000000 4800000 0;
     mkFighterState "ann" 1 false 5000000 5000000 0].

Definition sample_ring : ERRound := mkRound [1] (ring_of sample_round) (cursor_at sample_round 1004500) 15000000 0 0 None.

Definition sample_account : RoundAccount :=
  mkAccount 7 2 (of_Z 990) (of_Z 1000) (of_Z 0) 3
    [(HouseBank.mkRaw "ann" 0, 1); (HouseBank.mkRaw "bob" 0, 0); (HouseBank.mkRaw "ann" 1, 0)] 0.

Lemma sample_in_fight : in_fight sample_round 1004500.
Proof. split; [reflexivity | cbn; lia | lia | cbn; unfold MAX_FIGHTERS; lia]. Qed.

#[local] Existing Instance toy.

(** Two fighters, caught up to the cursor of the instant; and the same fight as it
    is stored while nobody has ticked it. *)
Definition duel_at (ticks : Z) : RoundState :=
  mkRoundState 8 Fight 0 2 ticks 10000000 [] [1] 990 1000
    [mkFighterState "ann" 0 false 5000000 5000000 0; mkFighterState "bob" 1 false 5000000 4800000 0].

Lemma duel_in_fight ticks : in_fight (duel_at ticks) 1004500.
Proof. split; [reflexivity | cbn; lia | lia | cbn; unfold MAX_FIGHTERS; lia]. Qed.

Definition duel_ring (ticks : Z) : ERRound := mkRound [1] (ring_of (duel_at ticks)) ticks 10000000 0 0 None.

(** A fight that lags shows a price that leaving does not pay. *)
Lemma lagging_quote : exists live r' taken kept penalty,
  toLiveRound (duel_at 0) "bob" (of_Z 1004500) = Done live
  /\ extract (caught_up (duel_ring 0) (cursor_at (duel_at 0) 1004500)) "bob" = Done (r', (taken, kept, penalty))
  /\ youKeep (live_extractTerms live) <> Some kept.
Proof. do 5 eexists. split_and!; [vm_compute; reflexivity | vm_compute; reflexivity | vm_compute; discriminate]. Qed.

Lemma quote_is_what_leaving_pays_witness :
  exists live, toLiveRound (duel_at 16) "bob" (of_Z 1004500) = Done live /\
    match extract (duel_ring 16) "bob" with
    | Done (_, (taken, kept, penalty)) =>
        youKeep (live_extractTerms live) = Some kept /\ youForfeit (live_extractTerms live) = Some penalty /\ 0 < taken /\ kept + penalty = taken
    | Throw e => False
    end.
Proof.
  assert (Ec : cursor_at (duel_at 16) 1004500 = 16) by (vm_compute; reflexivity).
  destruct (quote_is_what_leaving_pays (duel_at 16) "bob" 1004500 (duel_in_fight 16) ltac:(vm_compute; discriminate)
    ltac:(rewrite Ec; cbn; lia))
    as (live & Hl & Hr & _). exists live. split; [exact Hl |].
  destruct (Hr (duel_ring 16) eq_refl eq_refl) as [Hnow Hpay]. rewrite Ec in *.
  rewrite (Hnow eq_refl) in Hpay. exact (Hpay eq_refl).
Defined.

Lemma button_reads_first_seat_witness :
  exists live e, toLiveRound sample_round "ann" (of_Z 1004500) = Done live /\ extractEligibility (Some live) None = Done e /\
    el_reason e = Some AlreadyOut /\ exists r' figures, extract sample_ring "ann" = Done (r', figures).
Proof.
  destruct (button_reads_first_seat sample_round "ann" 1004500 sample_ring sample_in_fight eq_refl eq_refl)
    as (live & e & Hl & He & _ & _ & H).
  exists live, e. split; [exact Hl |]. split; [exact He |].
  refine (H [] _ (tail (st_fighters sample_round)) eq_refl _ eq_refl eq_refl _); [apply not_elem_of_nil |].
  apply Exists_exists. exists (mkFighterState "ann" 1 false 5000000 5000000 0). split; [| reflexivity].
  apply elem_of_cons. right. apply elem_of_cons. by left.
Defined.

Lemma page_clock_is_the_keepers_witness :
  exists live, toLiveRound sample_round "bob" (of_Z 1004500) = Done live /\
    live_stepsNow live = canonicalCursor (r_fightStartedAt sample_account) (r_fighterCount sample_account) (div (of_Z 1004500) (of_Z 1000)) /\
    live_resolvable live
    = KeeperDrive.fightIsOver sample_account || (st_fightStartedAt sample_round + FIGHT_TIMEOUT_SECONDS <=? 1004500 / 1000).
Proof.
  apply (page_clock_is_the_keepers sample_round "bob" 1004500 sample_account sample_in_fight); [| vm_compute; discriminate].
  split; [reflexivity.. |]. repeat (apply List.Forall_cons; [(left; reflexivity) || (right; reflexivity) |]). apply List.Forall_nil.
Defined.
