(* ===== verification/FightTicker.v ===== *)
(** * The page's fight ticker

    [er-demo/src/chain/useFightTicker.ts]: the hook that sends [tick] while a
    round is being fought, so that the ring on chain keeps up with the clock.  The
    hook's references and the counts it shows are the state; a render, a turn of the
    interval, the end of a send and the unmounting are its events. *)
From S2P Require Import Prelude JsNum ErSim Chain LiveRound.

(** ** State *)

(** What the hook reads of its latest props.  [ready] is that there is a program
    and a round account to write to. *)
Record TickerProps : Type := mkProps {
  enabled : bool;
  ready : bool;
  roundKey : option string;
  round : option (Z * Z * Z * Z);   (* phase, tick count, fight start, fighters *)
}.

Record TickerState : Type := mkTicker {
  latest : TickerProps;
  knownCursor : num;
  inFlight : bool;
  cancelled : bool;
  ticksSent : Z;
  stepsAdvanced : num;
  failed : bool;
  sending : list num;   (* the steps of the sends not answered yet, oldest first *)
}.

Definition mounted (p : TickerProps) : TickerState := mkTicker p (of_Z 0) false false 0 (of_Z 0) false [].

(** A render: a new round key runs the first effect again. *)
Definition render (p : TickerProps) (s : TickerState) : TickerState :=
  if bool_decide (roundKey p = roundKey (latest s))
  then mkTicker p (knownCursor s) (inFlight s) (cancelled s) (ticksSent s) (stepsAdvanced s) (failed s) (sending s)
  else mkTicker p (of_Z 0) false (cancelled s) 0 (of_Z 0) false (sending s).

(** ** One turn of the interval *)

Definition TICK_SECONDS : Z := 4.

(** The cursor believed after this turn, and the steps to send if any. *)
Definition pump (nowSec : num) (s : TickerState) : num * option num :=
  let p := latest s in
  match round p with
  | Some (phase, ticks, started, n) =>
      if negb (enabled p && ready p) || negb (phase =? Phase_Fight) || inFlight s then (knownCursor s, None) else
      let chain := of_Z ticks in
      let known := if ltb (knownCursor s) chain then chain else knownCursor s in
      let backlog := sub (canonicalCursor (of_Z started) n nowSec) known in
      if leb backlog (of_Z 0) then (known, None)
      else (known, Some (min backlog (mul (of_Z (stepsPerSecond n)) (of_Z TICK_SECONDS))))
  | None => (knownCursor s, None)
  end.

Definition turn (nowSec : num) (s : TickerState) : TickerState :=
  if cancelled s then s else
  let '(known, send) := pump nowSec s in
  match send with
  | None => mkTicker (latest s) known (inFlight s) false (ticksSent s) (stepsAdvanced s) (failed s) (sending s)
  | Some steps =>
      mkTicker (latest s) known true false (ticksSent s) (stepsAdvanced s) (failed s) (sending s ++ [steps])
  end.

(** The [i]th unanswered send lands or fails; [finally] clears the flag. *)
Definition answered (landed : bool) (i : nat) (s : TickerState) : TickerState :=
  match sending s !! i with
  | None => s
  | Some steps =>
      let rest := delete i (sending s) in
      if cancelled s
      then mkTicker (latest s) (knownCursor s) false true (ticksSent s) (stepsAdvanced s) (failed s) rest
      else if landed
      then mkTicker (latest s) (add (knownCursor s) steps) false false (ticksSent s + 1) (add (stepsAdvanced s) steps) false rest
      else mkTicker (latest s) (knownCursor s) false false (ticksSent s) (stepsAdvanced s) true rest
  end.

Definition unmount (s : TickerState) : TickerState :=
  mkTicker (latest s) (knownCursor s) (inFlight s) true (ticksSent s) (stepsAdvanced s) (failed s) (sending s).

Inductive TickerEvent : Type :=
| Render (p : TickerProps)
| Turn (nowSec : num)
| Answered (landed : bool) (i : nat)
| Unmount.

Definition ticker_step (s : TickerState) (e : TickerEvent) : TickerState :=
  match e with
  | Render p => render p s
  | Turn now => turn now s
  | Answered landed i => answered landed i s
  | Unmount => unmount s
  end.

Definition ticker_run (s : TickerState) (es : list TickerEvent) : TickerState := foldl ticker_step s es.

(** ** Laws *)

(** Every render is of one round. *)
Definition of_round (key : option string) (e : TickerEvent) : Prop :=
  match e with Render p => roundKey p = key | _ => True end.

(** The flag says whether a send is unanswered, and there is never a second. *)
Record one_send (key : option string) (s : TickerState) : Prop := {
  same_key : roundKey (latest s) = key;
  flag_exact : inFlight s = bool_decide (sending s <> []);
  at_most_one : (length (sending s) <= 1)%nat;
}.

Lemma turn_one_send key now s : one_send key s -> one_send key (turn now s).
Proof.
  intros [Hk Hf Ho]. unfold turn. destruct (cancelled s); [by split |].
  destruct (pump now s) as [known [steps |]] eqn:E; [| by split].
  assert (inFlight s = false) as Hfree.
  { unfold pump in E. destruct (round (latest s)) as [[[[phase ticks] started] n] |]; [| discriminate E].
    destruct (inFlight s); [rewrite orb_true_r in E; discriminate E | reflexivity]. }
  rewrite Hfree in Hf. symmetry in Hf. apply bool_decide_eq_false in Hf.
  assert (sending s = []) as -> by (destruct (sending s); [done | by destruct Hf]).
  split; [done | reflexivity | done].
Qed.

Lemma answered_one_send key landed i s : one_send key s -> one_send key (answered landed i s).
Proof.
  intros [Hk Hf Ho]. unfold answered. destruct (sending s !! i) as [steps |] eqn:E; [| by split].
  assert (Hnil : delete i (sending s) = []).
  { destruct (sending s) as [| x [| y l]]; cbn in Ho; [done | | lia]. by destruct i. }
  rewrite Hnil. destruct (cancelled s), landed; (split; [exact Hk | reflexivity | cbn; lia]).
Qed.

Lemma run_one_send key s es : one_send key s -> Forall (of_round key) es -> one_send key (ticker_run s es).
Proof.
  intros Hs He. revert s Hs. induction He as [| e es H _ IH]; intros s Hs; [done |]. apply IH. clear IH.
  destruct e as [p | now | landed i |]; cbn.
  - unfold render. destruct Hs as [Hk Hf Ho]. cbn in H. rewrite bool_decide_eq_true_2 by congruence. by split.
  - by apply turn_one_send.
  - by apply answered_one_send.
  - by destruct Hs.
Qed.

(** The cursors of the hook, in whole numbers. *)
Lemma pump_int p s now phase ticks started n k t :
  latest s = p -> round p = Some (phase, ticks, started, n) -> knownCursor s = of_Z k -> floor now = of_Z t ->
  0 <= ticks <= 2 ^ 40 -> 0 <= k <= 2 ^ 40 -> 0 <= started < 2 ^ 40 -> 0 <= t < 2 ^ 40 -> 0 <= n <= MAX_FIGHTERS ->
  let free := enabled p && ready p && (phase =? Phase_Fight) && negb (inFlight s) in
  let known := Z.max k ticks in
  let gap := chain_cursor started n t - known in
  pump now s = (of_Z (if free then known else k),
                if free && (0 <? gap) then Some (of_Z (Z.min gap (stepsPerSecond n * TICK_SECONDS))) else None).
Proof.
  intros Hp Hr Hk Hfl Ht Hkb Hs Htb Hn free known gap. unfold pump. rewrite Hp, Hr.
  replace (negb (enabled p && ready p) || negb (phase =? Phase_Fight) || inFlight s) with (negb free)
    by (subst free; by destruct (enabled p), (ready p), (phase =? Phase_Fight), (inFlight s)).
  destruct free; cbn [negb andb]; [| by rewrite Hk].
  pose proof (final_cursor_small n Hn). pose proof (chain_cursor_bounds started n t ltac:(lia)).
  rewrite Hk. rewrite ltb_int by (unfold safe; lia).
  replace (if k <? ticks then of_Z ticks else of_Z k) with (of_Z known)
    by (subst known; destruct (Z.ltb_spec k ticks); f_equal; lia).
  rewrite (canonicalCursor_int _ _ _ t) by done. fold (chain_cursor started n t).
  unfold TICK_SECONDS. rewrite sub_int, leb_int, mul_int, min_int by (unfold safe; subst known; lia).
  fold gap. destruct (Z.leb_spec gap 0), (Z.ltb_spec 0 gap); done || lia.
Qed.

(** The page sends only the ticks that are needed: over any history of one
    round there is never a second send in flight, and a turn of the interval sends
    exactly when ticking is on, the round is being fought, nothing is in flight and
    the clock is ahead of every cursor it knows of; it never asks for a step beyond
    the clock, nor for more than four seconds of them.  A send that lands after the
    page has moved to another round is counted into the new round's cursor. *)
Theorem ticks_are_needed key p es :
  roundKey p = key -> Forall (of_round key) es ->
  let s := ticker_run (mounted p) es in
  (length (sending s) <= 1)%nat /\
  (forall now t phase ticks started n k,
     round (latest s) = Some (phase, ticks, started, n) -> knownCursor s = of_Z k -> floor now = of_Z t ->
     0 <= ticks <= 2 ^ 40 -> 0 <= k <= 2 ^ 40 -> 0 <= started < 2 ^ 40 -> 0 <= t < 2 ^ 40 -> 0 <= n <= MAX_FIGHTERS ->
     let known := Z.max k ticks in
     let due := chain_cursor started n t - known in
     if negb (cancelled s) && enabled (latest s) && ready (latest s) && (phase =? Phase_Fight)
        && bool_decide (sending s = []) && (0 <? due)
     then exists steps, sending (turn now s) = [of_Z steps] /\ 0 <= steps <= 4 * stepsPerSecond n /\
            known + steps <= chain_cursor started n t
     else sending (turn now s) = sending s) /\
  (forall q c, cancelled s = false -> sending s = [of_Z c] -> 0 <= c <= 2 ^ 40 -> roundKey q <> key ->
     let s' := ticker_run s [Render q; Answered true 0] in knownCursor s' = of_Z c /\ ticksSent s' = 1).
Proof.
  intros Hp He s. assert (I : one_send key s).
  { apply run_one_send; [| done]. split; [done | reflexivity | cbn; lia]. }
  destruct I as [Hk Hf Ho]. split; [done |]. split.
  - intros now t phase ticks started n k Hr Hkn Hfl Ht Hkb Hs Htb Hn known due.
    pose proof (final_cursor_small n Hn) as [_ Hrate]. unfold turn.
    destruct (cancelled s); [done |]. cbn [negb andb].
    rewrite (pump_int _ s now phase ticks started n k t eq_refl Hr Hkn Hfl Ht Hkb Hs Htb Hn). rewrite Hf.
    fold known due. unfold TICK_SECONDS.
    destruct (enabled (latest s)), (ready (latest s)), (phase =? Phase_Fight); cbn [negb andb]; try done.
    destruct (sending s) as [| x l]; [| done]. cbn [negb andb].
    destruct (Z.ltb_spec 0 due); [| done]. cbn.
    eexists. split; [reflexivity |]. subst due. clearbody known. lia.
  - intros q c Hc Hsend Hcb Hq. cbn. unfold render. rewrite bool_decide_eq_false_2 by congruence.
    unfold answered. cbn. rewrite Hsend. cbn. rewrite Hc. cbn. rewrite add_int by (unfold safe; lia). done.
Qed.

(** Ticking with nothing in the way: the hook is on, the round is being fought, and
    every send lands before the next turn. *)
Record ticking (ticks started n : Z) (s : TickerState) : Prop := {
  is_on : enabled (latest s) = true;
  is_ready : ready (latest s) = true;
  is_fought : round (latest s) = Some (Phase_Fight, ticks, started, n);
  is_idle : inFlight s = false /\ sending s = [] /\ cancelled s = false;
}.

Definition turn_and_land (s : TickerState) (t : Z) : TickerState := answered true 0 (turn (of_Z t) s).

Lemma turn_and_land_gap ticks started n s t k :
  ticking ticks started n s -> knownCursor s = of_Z k ->
  0 <= ticks <= 2 ^ 40 -> 0 <= k <= 2 ^ 40 -> 0 <= started < 2 ^ 40 -> 0 <= t < 2 ^ 40 -> 0 <= n <= MAX_FIGHTERS ->
  exists k', ticking ticks started n (turn_and_land s t) /\ knownCursor (turn_and_land s t) = of_Z k' /\ 0 <= k' <= 2 ^ 40 /\
    Z.max k ticks <= k' <= Z.max (Z.max k ticks) (chain_cursor started n t) /\
    Z.max 0 (chain_cursor started n t - k') <= Z.max 0 (chain_cursor started n t - k - 4 * stepsPerSecond n).
Proof.
  intros [H1 H2 H3 (H4 & H5 & H6)] Hk Ht Hkb Hs Htb Hn.
  pose proof (final_cursor_small n Hn) as [Hfin Hrate]. pose proof (chain_cursor_bounds started n t ltac:(lia)).
  unfold turn_and_land, turn. rewrite H6.
  rewrite (pump_int _ s (of_Z t) Phase_Fight ticks started n k t eq_refl H3 Hk) by (try apply floor_int; unfold safe; lia).
  rewrite H1, H2, H4. unfold TICK_SECONDS. cbn [andb negb Z.eqb Phase_Fight Pos.eqb].
  set (known := Z.max k ticks). destruct (Z.ltb_spec 0 (chain_cursor started n t - known)).
  - exists (known + Z.min (chain_cursor started n t - known) (stepsPerSecond n * 4)).
    unfold answered. rewrite H5. cbn. rewrite add_int by (unfold safe; subst known; lia).
    split; [by split |]. split; [done |]. subst known. lia.
  - exists known. unfold answered. cbn. rewrite H5. cbn. split; [by split |]. split; [done |]. subst known. lia.
Qed.

(** The seconds of the turns, from the first and the gaps between them. *)
Fixpoint turns_from (t : Z) (gaps : list Z) : list Z :=
  t :: match gaps with [] => [] | g :: gaps => turns_from (t + g) gaps end.

Definition last_turn (t : Z) (gaps : list Z) : Z := t + zsum id gaps.

Lemma cursor_moves s n t g : 0 <= n -> 0 <= g -> chain_cursor s n (t + g) <= chain_cursor s n t + g * stepsPerSecond n.
Proof. unfold chain_cursor, stepsPerSecond, STEPS_PER_FIGHTER_PER_SECOND, FIGHT_TIMEOUT_SECONDS. nia. Qed.

(** The ticks catch up: with at most three seconds from one turn to the next and
    every send landing in between, however far the chain has fallen behind the clock
    each turn wins back at least a second's worth of steps, until nothing is left. *)
Theorem ticker_catches_up ticks started n s k t gaps :
  ticking ticks started n s -> knownCursor s = of_Z k ->
  0 <= ticks <= 2 ^ 40 -> 0 <= k <= 2 ^ 40 -> 0 <= started < 2 ^ 40 -> 0 <= n <= MAX_FIGHTERS ->
  0 <= t -> Forall (fun g => 0 <= g <= 3) gaps -> t + 3 * Z.of_nat (length gaps) < 2 ^ 40 ->
  exists k', knownCursor (foldl turn_and_land s (turns_from t gaps)) = of_Z k' /\
    Z.max 0 (chain_cursor started n (last_turn t gaps) - k')
    <= Z.max 0 (chain_cursor started n t - k - (Z.of_nat (length gaps) + 4) * stepsPerSecond n).
Proof.
  intros Ht Hk Htb Hkb Hs Hn Ht0 Hg. revert s k t Ht Hk Hkb Ht0. induction Hg as [| g gaps Hg _ IH]; intros s k t Ht Hk Hkb Ht0 Hlast.
  all: cbn [length] in Hlast; rewrite ?Nat2Z.inj_succ in Hlast; pose proof (final_cursor_small n Hn) as [_ Hrate].
  all: destruct (turn_and_land_gap ticks started n s t k Ht Hk Htb Hkb Hs ltac:(lia) Hn) as (k1 & T1 & K1 & B1 & _ & G1).
  - exists k1. split; [exact K1 |]. unfold last_turn. cbn [zsum foldr length]. rewrite Z.add_0_r. cbn. lia.
  - destruct (IH _ k1 (t + g) T1 K1 B1 ltac:(lia) ltac:(lia)) as (k' & K' & G').
    exists k'. split; [exact K' |]. unfold last_turn in *. cbn [length]. rewrite Nat2Z.inj_succ.
    replace (t + zsum id (g :: gaps)) with (t + g + zsum id gaps) by (unfold zsum; cbn [foldr]; unfold id at 2; lia).
    etrans; [exact G' |]. pose proof (cursor_moves started n t g ltac:(lia) ltac:(lia)).
    assert (g * stepsPerSecond n <= 3 * stepsPerSecond n) by (apply Z.mul_le_mono_nonneg_r; lia).
    set (rate := stepsPerSecond n) in *. set (c := chain_cursor started n t) in *.
    set (m := Z.of_nat (length gaps)) in *. assert (0 <= m * rate) by (unfold m; nia).
    replace ((Z.succ m + 4) * rate) with (m * rate + 5 * rate) by lia. replace ((m + 4) * rate) with (m * rate + 4 * rate) by lia. lia.
Qed.

(** Twelve fighters, five seconds in, nothing ticked yet. *)
Definition sample_props : TickerProps := mkProps true true (Some "round 7") (Some (Phase_Fight, 0, 1000, 12)).

Lemma ticks_are_needed_witness :
  let s := ticker_run (mounted sample_props) [Turn (of_Z 1005)] in
  (length (sending s) <= 1)%nat /\
  (exists steps, sending (turn (of_Z 1005) (mounted sample_props)) = [of_Z steps] /\ 0 <= steps <= 4 * stepsPerSecond 12 /\
     0 + steps <= chain_cursor 1000 12 1005) /\
  (let s' := ticker_run s [Render (mkProps true true (Some "round 8") None); Answered true 0] in
   knownCursor s' = of_Z 96 /\ ticksSent s' = 1).
Proof.
  destruct (ticks_are_needed (Some "round 7") sample_props [Turn (of_Z 1005)] eq_refl
    ltac:(apply List.Forall_cons; [exact I | apply List.Forall_nil])) as (A & _ & C).
  destruct (ticks_are_needed (Some "round 7") sample_props [] eq_refl (List.Forall_nil _)) as (_ & B & _).
  assert (E : turn (of_Z 1005) (mounted sample_props) = mkTicker sample_props (of_Z 0) true false 0 (of_Z 0) false [of_Z 96]).
  { unfold turn. cbn [mounted cancelled].
    rewrite (pump_int sample_props _ (of_Z 1005) Phase_Fight 0 1000 12 0 1005);
      first [apply floor_int; unfold safe; lia | unfold MAX_FIGHTERS; lia | reflexivity]. }
  split; [exact A |]. split.
  - refine (B (of_Z 1005) 1005 Phase_Fight 0 1000 12 0 eq_refl eq_refl _ _ _ _ _ _); try (unfold MAX_FIGHTERS; lia).
    apply floor_int. unfold safe. lia.
  - apply (C (mkProps true true (Some "round 8") None) 96).
    + change (cancelled (turn (of_Z 1005) (mounted sample_props)) = false). rewrite E. exact eq_refl.
    + change (sending (turn (of_Z 1005) (mounted sample_props)) = [of_Z 96]). rewrite E. exact eq_refl.
    + lia.
    + discriminate.
Defined.

Lemma ticker_catches_up_witness :
  exists k', knownCursor (foldl turn_and_land (mounted sample_props) (turns_from 1010 [2; 3; 2; 3])) = of_Z k' /\
    Z.max 0 (chain_cursor 1000 12 (last_turn 1010 [2; 3; 2; 3]) - k') <= 48.
Proof.
  destruct (ticker_catches_up 0 1000 12 (mounted sample_props) 0 1010 [2; 3; 2; 3]) as (k' & Hk & Hg).
  - by split.
  - reflexivity.
  - lia.
  - lia.
  - lia.
  - unfold MAX_FIGHTERS. lia.
  - lia.
  - repeat (apply List.Forall_cons; [lia |]). apply List.Forall_nil.
  - cbn. lia.
  - exists k'. split; [exact Hk |]. etrans; [exact Hg |]. vm_compute. discriminate.
Defined.
