(* ===== verification/Reconcile.v ===== *)
(** * The solvency guard of the engine

    [engine/src/reconcile.ts], with the balance reads of [engine/src/chain-ops.ts]
    it is wired to and [ledgerLiabilities] of [engine/src/server.ts].  A check reads
    the ledger and the price, waits for the chain, and sets the freeze flag; checks
    begun by the interval may overlap. *)
From S2P Require Import Prelude JsNum.

(** ** Data *)

Inductive Asset : Type := sol | bull | uwu.

#[global] Instance Asset_eq_dec : EqDecision Asset.
Proof. solve_decision. Defined.

Record Row : Type := mkRow { row_asset : Asset; row_liability : num; row_holdings : num; row_unpriced : bool }.

Record AssetRecon : Type := mkRecon {
  asset : Asset;
  liability : num;
  holdings : num;
  asset_ok : bool;
  shortfall : num;
  unpriced : bool;
}.

Record ReconReport : Type := mkReport { at_ : num; ok : bool; assets : list AssetRecon; skipped : option string }.

(** [1e-4] *)
Definition EPS : num := of_ratio (1 * one) 10000.

(** ** The comparison *)

Definition finite_or_0 (x : num) : num := if is_finite x then x else of_Z 0.

Definition evaluate_row (r : Row) : AssetRecon :=
  if row_unpriced r then mkRecon (row_asset r) (of_Z 0) (finite_or_0 (row_holdings r)) true (of_Z 0) true else
  let liability := finite_or_0 (row_liability r) in
  let holdings := finite_or_0 (row_holdings r) in
  let shortfall := max (of_Z 0) (sub liability holdings) in
  mkRecon (row_asset r) liability holdings (leb shortfall EPS) shortfall false.

Definition evaluate (rows : list Row) (now : num) : ReconReport :=
  let assets := evaluate_row <$> rows in
  mkReport now (forallb asset_ok assets) assets None.

(** ** The readings *)

Record Liabilities : Type := mkLiabilities { l_bull : num; l_uwu : num; l_solUsd : num }.

(** An account of the ledger, as [ledgerLiabilities] reads it; a missing amount
    is read as nothing. *)
Record Owed : Type := mkOwed { isBot : bool; o_bull : num; o_uwu : num; o_sol : num }.

Definition or_0 (x : num) : num := if is_nan x then of_Z 0 else x.

Definition owe (l : Liabilities) (a : Owed) : Liabilities :=
  if isBot a then l else
  mkLiabilities (add (l_bull l) (max (of_Z 0) (or_0 (o_bull a)))) (add (l_uwu l) (max (of_Z 0) (or_0 (o_uwu a))))
    (add (l_solUsd l) (max (of_Z 0) (or_0 (o_sol a)))).

Definition ledgerLiabilities (ledger : list Owed) : Liabilities :=
  foldl owe (mkLiabilities (of_Z 0) (of_Z 0) (of_Z 0)) ledger.

Definition DECIMALS_UNIT : Z := 1000000.
Definition LAMPORTS : Z := 1000000000.

(** What the endpoint answered: an amount in base units, or a rejected call.  Both
    readers catch the rejection. *)
Definition solBalance (answer : option Z) : num :=
  match answer with Some lamports => div (of_Z lamports) (of_Z LAMPORTS) | None => of_Z 0 end.

Definition vaultTokenBalance (answer : option Z) : num :=
  match answer with Some base => div (of_Z base) (of_Z DECIMALS_UNIT) | None => of_Z 0 end.

(** A check: the ledger and the price it read when it began.  A price not known is
    [Fin 0], which [null] converts to. *)
Record Check : Type := mkCheck { c_owed : Liabilities; c_price : num }.

(** What the chain answered to it; no token rows while the chain is not configured. *)
Record Readings : Type := mkReadings { r_sol : option Z; r_tokens : option (option Z * option Z) }.

Definition sol_row (c : Check) (r : Readings) : Row :=
  let px := c_price c in
  let owed := l_solUsd (c_owed c) in
  if ltb (of_Z 0) owed && negb (ltb (of_Z 0) px) then mkRow sol owed (solBalance (r_sol r)) true
  else mkRow sol (if ltb (of_Z 0) px then div owed px else of_Z 0) (solBalance (r_sol r)) false.

Definition rows_of (c : Check) (r : Readings) : list Row :=
  sol_row c r ::
  match r_tokens r with
  | Some (b, u) =>
      [mkRow bull (l_bull (c_owed c)) (vaultTokenBalance b) false; mkRow uwu (l_uwu (c_owed c)) (vaultTokenBalance u) false]
  | None => []
  end.

(** ** The daemon *)

Record Recon : Type := mkState {
  frozen : bool;
  last : option ReconReport;
  warnedTestChain : bool;
  running : list Check;   (* checks whose readings are not in yet *)
}.

Definition boot : Recon := mkState false None false [].

Section Daemon.
Context (ENFORCE : bool).

Definition judged (report : ReconReport) (s : Recon) (rest : list Check) : Recon :=
  if negb (ok report) && negb ENFORCE then mkState (frozen s) (Some report) true rest
  else if negb (ok report) && negb (frozen s) then mkState true (Some report) (warnedTestChain s) rest
  else if ok report && frozen s then mkState false (Some report) (warnedTestChain s) rest
  else mkState (frozen s) (Some report) (warnedTestChain s) rest.

(** [runOnce] up to its first await, its end, and its [catch]. *)
Inductive ReconEvent : Type :=
| Begin (c : Check)
| Readings_in (i : nat) (r : Readings) (now : num)
| Thrown (i : nat) (message : string) (now : num).

Definition recon_step (s : Recon) (e : ReconEvent) : Recon :=
  match e with
  | Begin c => mkState (frozen s) (last s) (warnedTestChain s) (running s ++ [c])
  | Readings_in i r now =>
      match running s !! i with
      | None => s
      | Some c => judged (evaluate (rows_of c r) now) s (delete i (running s))
      end
  | Thrown i message now =>
      match running s !! i with
      | None => s
      | Some _ =>
          mkState (frozen s)
            (Some (mkReport now (default true (ok <$> last s)) (default [] (assets <$> last s)) (Some message)))
            (warnedTestChain s) (delete i (running s))
      end
  end.

Definition recon_run (es : list ReconEvent) : Recon := foldl recon_step boot es.

(** ** Laws *)

(** The verdict of the last check whose readings came in. *)
Fixpoint last_verdict (s : Recon) (es : list ReconEvent) (v : bool) : bool :=
  match es with
  | [] => v
  | e :: es =>
      last_verdict (recon_step s e) es
        (match e with
         | Readings_in i r now =>
             match running s !! i with Some c => ok (evaluate (rows_of c r) now) | None => v end
         | _ => v
         end)
  end.

Lemma frozen_run s es v :
  frozen s = ENFORCE && negb v -> frozen (foldl recon_step s es) = ENFORCE && negb (last_verdict s es v).
Proof.
  revert s v. induction es as [| e es IH]; intros s v Hs; [done |]. cbn [foldl last_verdict]. apply IH. clear IH.
  destruct e as [c | i r now | i message now]; cbn [recon_step].
  - exact Hs.
  - destruct (running s !! i) as [c |]; [| exact Hs]. unfold judged.
    revert Hs. destruct (ok (evaluate (rows_of c r) now)), ENFORCE, (frozen s) eqn:F; cbn; rewrite ?F; done.
  - destruct (running s !! i) as [c |]; exact Hs.
Qed.

Definition covered (owed held : num) : bool := leb (max (of_Z 0) (sub (finite_or_0 owed) (finite_or_0 held))) EPS.

Lemma verdict_rows c r now :
  ok (evaluate (rows_of c r) now) =
  (if ltb (of_Z 0) (l_solUsd (c_owed c)) && negb (ltb (of_Z 0) (c_price c)) then true
   else covered (if ltb (of_Z 0) (c_price c) then div (l_solUsd (c_owed c)) (c_price c) else of_Z 0) (solBalance (r_sol r)))
  && match r_tokens r with
     | Some (b, u) => covered (l_bull (c_owed c)) (vaultTokenBalance b) && covered (l_uwu (c_owed c)) (vaultTokenBalance u)
     | None => true
     end.
Proof.
  unfold evaluate, rows_of, sol_row. cbn [ok].
  destruct (ltb (of_Z 0) (l_solUsd (c_owed c)) && negb (ltb (of_Z 0) (c_price c))), (r_tokens r) as [[b u] |];
    rewrite !fmap_cons; cbn [forallb fmap list_fmap]; unfold evaluate_row, covered; cbn [row_unpriced row_liability row_holdings asset_ok];
    rewrite ?andb_true_r; reflexivity.
Qed.

(** C32. Withdrawals are frozen exactly while the books do not cover.  Over any
    interleaving of checks, overlapping ones included: on a live chain the flag is
    up exactly when the last check whose readings came in found an asset owed by more
    than the tolerance over what was held; a check that threw changes nothing; on a
    test chain it is never up.  But a balance read the endpoint rejected counts as
    holding nothing, so it freezes whatever is owed; and a check without a SOL price
    finds SOL covered, so it lifts a freeze that a SOL shortfall set. *)
Theorem freeze_follows_last_check es :
  frozen (recon_run es) = ENFORCE && negb (last_verdict boot es true) /\
  (forall i m now, frozen (recon_run (es ++ [Thrown i m now])) = frozen (recon_run es)) /\
  (forall i r now c, ENFORCE = true -> running (recon_run es) !! i = Some c ->
     let after := frozen (recon_run (es ++ [Readings_in i r now])) in
     let owed := c_owed c in
     let tokens_covered :=
       match r_tokens r with
       | Some (b, u) => covered (l_bull owed) (vaultTokenBalance b) && covered (l_uwu owed) (vaultTokenBalance u)
       | None => true
       end in
     (ltb (of_Z 0) (c_price c) = true ->
        after = negb (covered (div (l_solUsd owed) (c_price c)) (solBalance (r_sol r)) && tokens_covered)) /\
     (r_sol r = None -> ltb (of_Z 0) (c_price c) = true -> covered (div (l_solUsd owed) (c_price c)) (of_Z 0) = false -> after = true) /\
     (ltb (of_Z 0) (l_solUsd owed) = true -> c_price c = of_Z 0 -> tokens_covered = true -> after = false)).
Proof.
  split_and!.
  - unfold recon_run. apply (frozen_run boot). by destruct ENFORCE.
  - intros i m now. unfold recon_run. rewrite foldl_app. cbn. by destruct (running _ !! i).
  - intros i r now c HE Hi. unfold recon_run in *. rewrite foldl_app. cbn [foldl recon_step]. rewrite Hi. cbv zeta.
    assert (Hj : frozen (judged (evaluate (rows_of c r) now) (foldl recon_step boot es) (delete i (running (foldl recon_step boot es))))
                 = negb (ok (evaluate (rows_of c r) now))).
    { unfold judged. rewrite HE. destruct (ok _), (frozen (foldl recon_step boot es)) eqn:F; cbn; by rewrite ?F. }
    rewrite Hj, verdict_rows. split_and!.
    + intros ->. by rewrite andb_false_r.
    + intros -> -> Hc. rewrite andb_false_r. cbn [solBalance]. by rewrite Hc.
    + intros -> -> ->. assert (ltb (of_Z 0) (of_Z 0) = false) as -> by apply ltb_irrefl. done.
Qed.
End Daemon.

(** Eighty dollars of SOL owed at a price of 160, and nothing else. *)
Definition sample_check (px : num) : Check := mkCheck (mkLiabilities (of_Z 0) (of_Z 0) (of_Z 80)) px.

(** Held half a SOL: covered.  A rejected read: frozen.  The price goes: lifted. *)
Example sample_covered : frozen (recon_run true [Begin (sample_check (of_Z 160)); Readings_in 0 (mkReadings (Some 500000000) None) (of_Z 1)]) = false.
Proof. vm_compute. reflexivity. Qed.

Example sample_rejected_read : frozen (recon_run true [Begin (sample_check (of_Z 160)); Readings_in 0 (mkReadings None None) (of_Z 1)]) = true.
Proof. vm_compute. reflexivity. Qed.

Example sample_price_gone : frozen (recon_run true
  [Begin (sample_check (of_Z 160)); Begin (sample_check (of_Z 0)); Readings_in 0 (mkReadings (Some 1) None) (of_Z 1);
   Readings_in 0 (mkReadings (Some 1) None) (of_Z 2)]) = false.
Proof. vm_compute. reflexivity. Qed.
