(* ===== verification/VaultDesk.v ===== *)
(** * The engine's desk: deposits in, withdrawals out

    The money messages of [engine/src/server.ts] ([depositSol], [deposit],
    [withdrawSol], [withdraw] and the crediting half of [relayTx]) with the deposit
    verification and the payouts of [engine/src/chain-ops.ts] and the accounts of
    [engine/src/ledger.ts].  The process is a state of accounts, the two sets of
    signatures and the calls to the chain that have not come back; its events are
    messages and answers, in any order. *)
From stdpp Require Import gmap.
From S2P Require Import Prelude JsNum Reconcile.

(** ** Accounts ([ledger.ts]) *)

Record Account : Type := mkAccount {
  a_bull : num;
  a_uwu : num;
  a_sol : num;
  depIn : num;
  wOut : num;
  depInSol : num;
  wOutSol : num;
}.

Definition fresh_account : Account := mkAccount (of_Z 0) (of_Z 0) (of_Z 0) (of_Z 0) (of_Z 0) (of_Z 0) (of_Z 0).

(** [acct]: the wallet's account, made if there is none. *)
Definition acct (l : gmap string Account) (w : string) : Account := default fresh_account (l !! w).

Definition field (f : Asset) (a : Account) : num := match f with bull => a_bull a | uwu => a_uwu a | sol => a_sol a end.

Definition with_field (f : Asset) (x : num) (a : Account) : Account :=
  match f with
  | bull => mkAccount x (a_uwu a) (a_sol a) (depIn a) (wOut a) (depInSol a) (wOutSol a)
  | uwu => mkAccount (a_bull a) x (a_sol a) (depIn a) (wOut a) (depInSol a) (wOutSol a)
  | sol => mkAccount (a_bull a) (a_uwu a) x (depIn a) (wOut a) (depInSol a) (wOutSol a)
  end.

(** The lifetime totals: every asset counts into [depIn] and [wOut]. *)
Definition note_in (f : Asset) (x : num) (a : Account) : Account :=
  mkAccount (a_bull a) (a_uwu a) (a_sol a) (add (depIn a) x) (wOut a)
    (match f with sol => add (depInSol a) x | _ => depInSol a end) (wOutSol a).

Definition note_out (f : Asset) (x : num) (a : Account) : Account :=
  mkAccount (a_bull a) (a_uwu a) (a_sol a) (depIn a) (add (wOut a) x) (depInSol a)
    (match f with sol => add (wOutSol a) x | _ => wOutSol a end).

(** [money], of a value already converted by [Number]. *)
Definition money (v : num) : num := if is_finite v && leb (of_Z 0) v then v else of_Z 0.

(** [MIN_ENTRY], and the [0.01] of a token withdrawal. *)
Definition MIN_ENTRY : num := of_ratio (1 * one) 100.

(** ** Transactions ([chain-ops.ts]) *)

(** What the endpoint says of a confirmed transaction: whether it failed, and the
    vault's balances before and after.  [tx_sol] is [None] when the vault is not
    among its accounts. *)
Record ParsedTx : Type := mkTx {
  tx_err : bool;
  tx_sol : option (Z * Z);
  tx_bull : num * num;
  tx_uwu : num * num;
}.

(** The answer to [getParsedTransaction]: a rejection, no such transaction, or it. *)
Inductive TxAnswer : Type := Rejected | Unknown | Parsed (tx : ParsedTx).

(** What [verifySolDeposit] and [verifyDeposit] return for an answer; [None] is
    their throwing. *)
Definition gained (f : Asset) (tx : ParsedTx) : num :=
  match f with
  | sol => match tx_sol tx with Some (before, after) => div (sub (of_Z after) (of_Z before)) (of_Z LAMPORTS) | None => of_Z 0 end
  | bull => sub (tx_bull tx).2 (tx_bull tx).1
  | uwu => sub (tx_uwu tx).2 (tx_uwu tx).1
  end.

Definition verified (f : Asset) (answer : TxAnswer) : option num :=
  match answer with
  | Rejected => None
  | Unknown => Some (of_Z 0)
  | Parsed tx =>
      if tx_err tx then Some (of_Z 0) else
      let delta := gained f tx in
      if leb delta (of_Z 0) then Some (of_Z 0) else Some delta
  end.

(** ** The process *)

(** A verification in flight, with the units one of the asset is worth; a payout in
    flight. *)
Record Verifying : Type := mkVerifying { v_wallet : string; v_asset : Asset; v_sig : string; v_rate : num }.
Record Paying : Type := mkPaying { p_wallet : string; p_asset : Asset; p_units : num }.

Record Desk : Type := mkDesk {
  ledger : gmap string Account;
  seenSigs : gset string;
  inFlightSigs : gset string;
  verifying : list Verifying;
  paying : list Paying;
}.

Definition desk_boot (l : gmap string Account) : Desk := mkDesk l ∅ ∅ [] [].

(** A token is credited as it is and never priced. *)
Definition rate (f : Asset) (px : num) : option num :=
  match f with sol => if is_nan px || eqb px (of_Z 0) then None else Some px | _ => Some (of_Z 1) end.

Definition claimSig (sig : string) (d : Desk) : option Desk :=
  if bool_decide (sig ∈ seenSigs d) || bool_decide (sig ∈ inFlightSigs d) then None
  else Some (mkDesk (ledger d) (seenSigs d) ({[sig]} ∪ inFlightSigs d) (verifying d) (paying d)).

(** [depositSol] and [deposit] up to their await.  A signature that cannot be
    claimed is verified as nothing, and nothing is credited. *)
Definition deposit (w : string) (f : Asset) (sig : string) (px : num) (d : Desk) : Desk :=
  match rate f px with
  | None => d
  | Some r =>
      match claimSig sig d with
      | None => d
      | Some d => mkDesk (ledger d) (seenSigs d) (inFlightSigs d) (verifying d ++ [mkVerifying w f sig r]) (paying d)
      end
  end.

Definition units_of (v : Verifying) (delta : num) : num := match v_asset v with sol => mul delta (v_rate v) | _ => delta end.

Definition credit (v : Verifying) (delta : num) (l : gmap string Account) : gmap string Account :=
  let a := acct l (v_wallet v) in
  let units := units_of v delta in
  <[v_wallet v := note_in (v_asset v) units (with_field (v_asset v) (add (field (v_asset v) a) units) a)]> l.

(** The verification comes back: [finally] releases the signature, and what was
    gained is credited. *)
Definition deposit_verified (i : nat) (answer : TxAnswer) (d : Desk) : Desk :=
  match verifying d !! i with
  | None => d
  | Some v =>
      let rest := delete i (verifying d) in
      let flight := inFlightSigs d ∖ {[v_sig v]} in
      match verified (v_asset v) answer with
      | None => mkDesk (ledger d) (seenSigs d) flight rest (paying d)
      | Some delta =>
          if leb delta (of_Z 0) then mkDesk (ledger d) (seenSigs d) flight rest (paying d)
          else mkDesk (if ltb (of_Z 0) delta then credit v delta (ledger d) else ledger d) ({[v_sig v]} ∪ seenSigs d)
                 flight rest (paying d)
      end
  end.

(** [withdrawSol] and [withdraw] up to their await: the debit comes first. *)
Definition withdraw (frozen : bool) (w : string) (f : Asset) (wanted px : num) (d : Desk) : Desk :=
  if frozen then d else
  match rate f px with
  | None => d
  | Some _ =>
      let a := acct (ledger d) w in
      let units := min (money wanted) (field f a) in
      if ltb units MIN_ENTRY then d else
      mkDesk (<[w := with_field f (sub (field f a) units) a]> (ledger d)) (seenSigs d) (inFlightSigs d) (verifying d)
        (paying d ++ [mkPaying w f units])
  end.

(** How a payout ends: confirmed; refused before it was sent; or sent and the
    confirmation rejected, in which case it may have landed all the same. *)
Inductive PayoutEnd : Type := Confirmed | NotSent | Unconfirmed (landed : bool).

Definition paid_out (i : nat) (e : PayoutEnd) (d : Desk) : Desk :=
  match paying d !! i with
  | None => d
  | Some p =>
      let rest := delete i (paying d) in
      let a := acct (ledger d) (p_wallet p) in
      let a' := match e with
                | Confirmed => note_out (p_asset p) (p_units p) a
                | _ => with_field (p_asset p) (add (field (p_asset p) a) (p_units p)) a
                end in
      mkDesk (<[p_wallet p := a']> (ledger d)) (seenSigs d) (inFlightSigs d) (verifying d) rest
  end.

(** [restore]: SOL above the wallet's own net deposits is written off. *)
Definition UNBACKED_SLACK : num := of_ratio (1 * one) 10000.

Definition restore_account (a : Account) : Account :=
  let backed := max (of_Z 0) (sub (depInSol a) (wOutSol a)) in
  if ltb (add backed UNBACKED_SLACK) (a_sol a) then with_field sol backed a else a.

(** A new process: the accounts are read back from a snapshot of the last moment,
    and nothing else was kept. *)
Definition restart (d : Desk) : Desk := desk_boot (restore_account <$> ledger d).

Inductive DeskEvent : Type :=
| Deposit (w : string) (f : Asset) (sig : string) (px : num)
| Verified (i : nat) (answer : TxAnswer)
| Withdraw (frozen : bool) (w : string) (f : Asset) (wanted px : num)
| PaidOut (i : nat) (e : PayoutEnd)
| Restart.

Definition desk_step (d : Desk) (e : DeskEvent) : Desk :=
  match e with
  | Deposit w f sig px => deposit w f sig px d
  | Verified i answer => deposit_verified i answer d
  | Withdraw fz w f wanted px => withdraw fz w f wanted px d
  | PaidOut i e => paid_out i e d
  | Restart => restart d
  end.

Definition desk_run (d : Desk) (es : list DeskEvent) : Desk := foldl desk_step d es.

(** ** Laws: what moves in the ledger *)

(** What an answer is worth to the account of the message that asked for it: the
    transaction is there, it did not fail, and the vault gained in it. *)
Definition credits_of (d : Desk) (e : DeskEvent) : list (Verifying * num) :=
  match e with
  | Verified i (Parsed tx) =>
      match verifying d !! i with
      | Some v =>
          if negb (tx_err tx) && ltb (of_Z 0) (gained (v_asset v) tx) then [(v, units_of v (gained (v_asset v) tx))] else []
      | None => []
      end
  | _ => []
  end.

Fixpoint credits (d : Desk) (es : list DeskEvent) : list (Verifying * num) :=
  match es with [] => [] | e :: es => credits_of d e ++ credits (desk_step d e) es end.

Definition same_process (e : DeskEvent) : Prop := e <> Restart.

Definition credit_sig (c : Verifying * num) : string := v_sig c.1.

(** The ledger after an answer that is worth this. *)
Definition raised (c : Verifying * num) (l l' : gmap string Account) : Prop := forall w,
  let mine := bool_decide (w = v_wallet c.1) in
  (forall f, field f (acct l' w) = if mine && bool_decide (f = v_asset c.1) then add (field f (acct l w)) c.2 else field f (acct l w))
  /\ depIn (acct l' w) = (if mine then add (depIn (acct l w)) c.2 else depIn (acct l w))
  /\ depInSol (acct l' w) = (if mine && bool_decide (v_asset c.1 = sol) then add (depInSol (acct l w)) c.2 else depInSol (acct l w))
  /\ wOut (acct l' w) = wOut (acct l w) /\ wOutSol (acct l' w) = wOutSol (acct l w).

(** What an event does to the deposits of the ledger: a message by itself changes
    no account, an answer raises what it is worth and no more, and nothing else
    counts as a deposit. *)
Definition moves_deposits (d : Desk) (e : DeskEvent) : Prop :=
  let l' := ledger (desk_step d e) in
  match e with
  | Deposit _ _ _ _ => l' = ledger d
  | Verified _ _ => match credits_of d e with [c] => raised c (ledger d) l' | _ => l' = ledger d end
  | _ => forall w, depIn (acct l' w) = depIn (acct (ledger d) w) /\ depInSol (acct l' w) = depInSol (acct (ledger d) w)
  end.

(** The deposits credited to a wallet, in order. *)
Definition credited_to (w : string) (cs : list (Verifying * num)) : list num :=
  omap (fun c => if bool_decide (w = v_wallet c.1) then Some c.2 else None) cs.

Lemma field_with f g x a : field f (with_field g x a) = if decide (f = g) then x else field f a.
Proof. by destruct f, g. Qed.

Lemma field_note_in f g x a : field f (note_in g x a) = field f a.
Proof. by destruct f. Qed.

Lemma field_note_out f g x a : field f (note_out g x a) = field f a.
Proof. by destruct f. Qed.

Lemma acct_insert l w a w' : acct (<[w := a]> l) w' = if decide (w = w') then a else acct l w'.
Proof. unfold acct. destruct (decide (w = w')) as [-> | Hne]; [by rewrite lookup_insert_eq | by rewrite lookup_insert_ne]. Qed.

Lemma leb_pos_false x : ltb (of_Z 0) x = true -> leb x (of_Z 0) = false.
Proof.
  intros H. pose proof (leb_not_ltb x (of_Z 0)) as Hl. destruct (leb x (of_Z 0)); [| done]. rewrite Hl in H by done. discriminate H.
Qed.

(** An answer credits what it is worth, or leaves the ledger alone. *)
Lemma verified_ledger i answer d : ledger (deposit_verified i answer d) =
  match credits_of d (Verified i answer) with
  | (v, _) :: _ => match answer with Parsed tx => credit v (gained (v_asset v) tx) (ledger d) | _ => ledger d end
  | [] => ledger d
  end.
Proof.
  unfold deposit_verified. cbn [credits_of]. destruct (verifying d !! i) as [v |]; [| by destruct answer].
  destruct answer as [| | tx]; cbn [verified]; [done | by rewrite leb_refl by apply of_Z_not_nan |].
  destruct (tx_err tx); cbn [negb andb].
  { rewrite leb_refl by apply of_Z_not_nan. done. }
  destruct (ltb (of_Z 0) (gained (v_asset v) tx)) eqn:L.
  - rewrite (leb_pos_false _ L). rewrite (leb_pos_false _ L), L. done.
  - destruct (leb (gained (v_asset v) tx) (of_Z 0)) eqn:L2; [by rewrite leb_refl by apply of_Z_not_nan |]. by rewrite L2, L.
Qed.

Lemma credit_raised v delta l : raised (v, units_of v delta) l (credit v delta l).
Proof.
  intros w mine. subst mine. cbn [fst snd]. unfold credit. rewrite acct_insert. destruct (decide (v_wallet v = w)) as [<- | Hne].
  - rewrite bool_decide_eq_true_2 by done. cbn [andb]. split; [| by destruct (v_asset v)].
    intros f. rewrite field_note_in, field_with. destruct (decide (f = v_asset v)) as [-> | Hf];
      [by rewrite bool_decide_eq_true_2 | by rewrite bool_decide_eq_false_2].
  - rewrite bool_decide_eq_false_2 by congruence. done.
Qed.

Lemma step_deposits d e : same_process e -> moves_deposits d e.
Proof.
  intros He. destruct e as [w f sig px | i answer | fz w f wanted px | i e |]; [| | | | done]; unfold moves_deposits; cbn [desk_step].
  - unfold deposit, claimSig. destruct (rate f px); [| done]. by destruct (_ || _).
  - rewrite verified_ledger. cbn [credits_of]. destruct answer as [| | tx]; [done.. |].
    destruct (verifying d !! i) as [v |]; [| done]. destruct (_ && _); [apply credit_raised | done].
  - intros w'. unfold withdraw. destruct fz; [done |]. destruct (rate f px); [| done]. destruct (ltb _ MIN_ENTRY); [done |].
    cbn [ledger]. rewrite acct_insert. destruct (decide (w = w')) as [<- |]; [by destruct f | done].
  - intros w'. unfold paid_out. destruct (paying d !! i) as [p |]; [| done]. cbn [ledger]. rewrite acct_insert.
    destruct (decide (p_wallet p = w')) as [<- |]; [| done]. by destruct e, (p_asset p).
Qed.

Lemma step_depIn d e w : same_process e ->
  depIn (acct (ledger (desk_step d e)) w) = foldl add (depIn (acct (ledger d) w)) (credited_to w (credits_of d e)).
Proof.
  intros He. pose proof (step_deposits d e He) as Hm. destruct e as [w' f sig px | i answer | fz w' f wanted px | i e |]; [| | | | done];
    unfold moves_deposits in Hm; cbv zeta in Hm.
  - by rewrite Hm.
  - destruct (credits_of d (Verified i answer)) as [| c [|]] eqn:E; [by rewrite Hm | | by destruct answer; cbn in E; repeat case_match].
    destruct (Hm w) as (_ & -> & _). unfold credited_to. cbn. by destruct (bool_decide _).
  - destruct (Hm w) as [-> _]. done.
  - destruct (Hm w) as [-> _]. done.
Qed.

Lemma run_depIn d es w : Forall same_process es ->
  depIn (acct (ledger (desk_run d es)) w) = foldl add (depIn (acct (ledger d) w)) (credited_to w (credits d es)).
Proof.
  intros He. revert d. induction He as [| e es He _ IH]; intros d; [done |]. cbn [credits desk_run foldl].
  unfold credited_to. rewrite omap_app, foldl_app. fold (credited_to w (credits_of d e)) (credited_to w (credits (desk_step d e) es)).
  rewrite <- step_depIn by done. apply IH.
Qed.

(** ** Laws: signatures *)

(** The signatures in flight are those being verified, each once, and none of them
    was credited before. *)
Record sigs_ok (d : Desk) : Prop := {
  flight_exact : inFlightSigs d = list_to_set (v_sig <$> verifying d);
  flight_once : NoDup (v_sig <$> verifying d);
  flight_unseen : inFlightSigs d ## seenSigs d;
}.

Lemma boot_sigs l : sigs_ok (desk_boot l).
Proof. split; [done | constructor | set_solver]. Qed.

Lemma list_to_set_delete {A} (g : A -> string) l i x :
  l !! i = Some x -> NoDup (g <$> l) ->
  (list_to_set (g <$> delete i l) : gset string) = list_to_set (g <$> l) ∖ {[g x]}.
Proof.
  intros Hi Hnd. rewrite (delete_Permutation l i x Hi) in Hnd |- *. rewrite fmap_cons in Hnd |- *.
  apply NoDup_cons in Hnd as [Hx _]. cbn. apply set_eq. intros y. rewrite elem_of_difference, elem_of_union, elem_of_singleton, !elem_of_list_to_set.
  split; [intros Hy; split; [by right | by intros ->] | tauto].
Qed.

Lemma credit_cases d i answer v : verifying d !! i = Some v ->
  credits_of d (Verified i answer) = []
  \/ exists u delta, credits_of d (Verified i answer) = [(v, u)] /\ verified (v_asset v) answer = Some delta /\ leb delta (of_Z 0) = false.
Proof.
  intros Hi. cbn [credits_of]. rewrite Hi. destruct answer as [| | tx]; [by left.. |]. cbn [verified].
  destruct (tx_err tx); cbn [negb andb]; [by left |]. destruct (ltb (of_Z 0) (gained (v_asset v) tx)) eqn:L; [| by left].
  right. pose proof (leb_pos_false _ L) as E. rewrite E. by eexists _, _.
Qed.

Lemma sigs_step d e : sigs_ok d -> same_process e ->
  sigs_ok (desk_step d e) /\ list_to_set (credit_sig <$> credits_of d e) ∪ seenSigs d ⊆ seenSigs (desk_step d e) /\
  Forall (fun c => credit_sig c ∉ seenSigs d) (credits_of d e) /\ NoDup (credit_sig <$> credits_of d e).
Proof.
  intros [F N U] He. destruct e as [w f sig px | i answer | fz w f wanted px | i e |]; [| | | | done]; cbn [desk_step].
  - cbn [credits_of]. unfold deposit. destruct (rate f px) as [r |]; [| split_and!; [by split | set_solver | done | constructor]].
    unfold claimSig. destruct (decide (sig ∈ seenSigs d)) as [H1 | H1].
    { rewrite bool_decide_eq_true_2 by done. cbn. split_and!; [by split | set_solver | done | constructor]. }
    rewrite bool_decide_eq_false_2 by done. destruct (decide (sig ∈ inFlightSigs d)) as [H2 | H2].
    { rewrite bool_decide_eq_true_2 by done. cbn. split_and!; [by split | set_solver | done | constructor]. }
    rewrite bool_decide_eq_false_2 by done. cbn. split_and!; [split; cbn | set_solver | done | constructor].
    + rewrite fmap_app, list_to_set_app_L, <- F. cbn. set_solver.
    + rewrite fmap_app. apply NoDup_app. split; [done |]. split; [| apply NoDup_singleton].
      intros x Hx ->%list_elem_of_singleton. apply H2. rewrite F. by apply elem_of_list_to_set.
    + set_solver.
  - unfold deposit_verified. destruct (verifying d !! i) as [v |] eqn:Hi.
    2: { assert (E : credits_of d (Verified i answer) = []) by (cbn [credits_of]; rewrite Hi; by destruct answer).
         rewrite E. split_and!; [by split | set_solver | apply List.Forall_nil | constructor]. }
    assert (Hin : v_sig v ∈ inFlightSigs d).
    { rewrite F. apply elem_of_list_to_set, list_elem_of_fmap_2. by apply list_elem_of_lookup_2 in Hi. }
    assert (Hrest : inFlightSigs d ∖ {[v_sig v]} = list_to_set (v_sig <$> delete i (verifying d))).
    { rewrite (list_to_set_delete v_sig _ i v Hi N). by rewrite F. }
    assert (Hnd : NoDup (v_sig <$> delete i (verifying d))).
    { rewrite (delete_Permutation _ _ _ Hi), fmap_cons in N. by apply NoDup_cons in N as [_ N]. }
    destruct (credit_cases d i answer v Hi) as [-> | (u & delta & -> & -> & L)].
    + assert (P : forall l s, s = seenSigs d \/ s = {[v_sig v]} ∪ seenSigs d ->
        sigs_ok (mkDesk l s (inFlightSigs d ∖ {[v_sig v]}) (delete i (verifying d)) (paying d)) /\ list_to_set [] ∪ seenSigs d ⊆ s
        /\ Forall (fun c : Verifying * num => credit_sig c ∉ seenSigs d) [] /\ NoDup ([] : list string)).
      { intros l s Hs. split_and!; [split; cbn; [done | done |] | | apply List.Forall_nil | constructor]; destruct Hs as [-> | ->]; set_solver. }
      destruct (verified (v_asset v) answer) as [delta |]; [| apply P; by left].
      destruct (leb delta (of_Z 0)); apply P; [by left | by right].
    + rewrite L. cbn. split_and!; [split; cbn; [done | done | set_solver] | set_solver | | apply NoDup_singleton].
      apply List.Forall_cons; [| apply List.Forall_nil]. unfold credit_sig. cbn. set_solver.
  - cbn [credits_of]. unfold withdraw. assert (sigs_ok d) as I by by split.
    assert (P : forall d', seenSigs d' = seenSigs d -> inFlightSigs d' = inFlightSigs d -> verifying d' = verifying d ->
      sigs_ok d' /\ list_to_set [] ∪ seenSigs d ⊆ seenSigs d' /\ Forall (fun c : Verifying * num => credit_sig c ∉ seenSigs d) [] /\ NoDup ([] : list string)).
    { intros d' E1 E2 E3. split_and!; [split; rewrite ?E1, ?E2, ?E3; by destruct I | rewrite E1; cbn; set_solver | done | constructor]. }
    destruct fz; [by apply P |]. destruct (rate f px); [| by apply P].
    destruct (ltb _ MIN_ENTRY); by apply P.
  - cbn [credits_of]. unfold paid_out. destruct (paying d !! i) as [p |]; (split_and!; [split; cbn; done | cbn; set_solver | done | constructor]).
Qed.

Lemma sigs_run d es : sigs_ok d -> Forall same_process es ->
  sigs_ok (desk_run d es) /\ list_to_set (credit_sig <$> credits d es) ∪ seenSigs d ⊆ seenSigs (desk_run d es) /\
  Forall (fun c => credit_sig c ∉ seenSigs d) (credits d es) /\ NoDup (credit_sig <$> credits d es).
Proof.
  intros Hd He. revert d Hd. induction He as [| e es He _ IH]; intros d Hd; cbn [credits desk_run foldl].
  - split_and!; [done | set_solver | constructor | constructor].
  - destruct (sigs_step d e Hd He) as (S1 & S2 & S3 & S4). destruct (IH _ S1) as (R1 & R2 & R3 & R4).
    fold (desk_run (desk_step d e) es). split_and!.
    + exact R1.
    + rewrite fmap_app, list_to_set_app_L. set_solver.
    + apply Forall_app. split; [exact S3 |]. eapply Forall_impl; [exact R3 |]. intros c Hc. cbv beta in Hc |- *. set_solver.
    + rewrite fmap_app. apply NoDup_app. split; [exact S4 |]. split; [| exact R4].
      intros x Hx Hy. apply list_elem_of_fmap in Hy as (c & -> & Hc). rewrite Forall_forall in R3. apply R3 in Hc.
      apply Hc, S2, elem_of_union. left. by apply elem_of_list_to_set.
Qed.

Lemma run_deposits d es : Forall same_process es ->
  forall ea e eb, es = ea ++ e :: eb -> moves_deposits (desk_run d ea) e.
Proof. intros He ea e eb ->. apply Forall_app in He as [_ He]. apply List.Forall_cons_iff in He as [He _]. by apply step_deposits. Qed.

(** A process that has just started credits a signature it is shown. *)
Lemma credited_anew l sig w tx : tx_err tx = false -> ltb (of_Z 0) (gained bull tx) = true ->
  field bull (acct (ledger (desk_run (desk_boot l) [Deposit w bull sig (of_Z 0); Verified 0 (Parsed tx)])) w)
  = add (field bull (acct l w)) (gained bull tx).
Proof.
  intros He Hl. cbn [desk_run foldl]. set (d1 := desk_step (desk_boot l) (Deposit w bull sig (of_Z 0))).
  assert (E1 : verifying d1 !! 0%nat = Some (mkVerifying w bull sig (of_Z 1)) /\ ledger d1 = l).
  { subst d1. cbn [desk_step]. unfold deposit, claimSig. cbn [rate desk_boot seenSigs inFlightSigs].
    rewrite !bool_decide_eq_false_2 by set_solver. done. }
  destruct E1 as [Ev El]. pose proof (step_deposits d1 (Verified 0 (Parsed tx)) ltac:(discriminate)) as Hm.
  unfold moves_deposits in Hm. cbv zeta in Hm. cbn [credits_of] in Hm. rewrite Ev in Hm. cbn [v_asset] in Hm. rewrite He, Hl in Hm.
  cbn [negb andb] in Hm. destruct (Hm w) as [Hf _]. specialize (Hf bull). cbn [fst snd v_wallet v_asset] in Hf.
  rewrite !bool_decide_eq_true_2 in Hf by done. rewrite El in Hf. exact Hf.
Qed.

(** C30. A deposit is credited once.  In the life of a process, over any
    interleaving of messages and answers of the chain: a message by itself changes
    no account; an answer that shows a transaction that did not fail and in which
    the vault gained raises the balance and the totals of the account that asked,
    by exactly what was gained (in dollars at the price of the asking, for SOL), and
    no other account, and an answer that shows none changes nothing; a wallet's
    lifetime deposits are the sum of its credits in order; no signature is credited
    twice, and a credited one is turned away from then on; no signature stays
    reserved but those being verified, so one whose reading failed can be presented
    again.  But the set is the process's own: after a restart a signature credited
    before is credited anew, to whoever presents it. *)
Theorem deposits_credit_once l es :
  Forall same_process es ->
  let d := desk_run (desk_boot l) es in
  (forall ea e eb, es = ea ++ e :: eb -> moves_deposits (desk_run (desk_boot l) ea) e) /\
  (forall w, depIn (acct (ledger d) w) = foldl add (depIn (acct l w)) (credited_to w (credits (desk_boot l) es))) /\
  NoDup (credit_sig <$> credits (desk_boot l) es) /\
  Forall (fun c => credit_sig c ∈ seenSigs d) (credits (desk_boot l) es) /\
  (forall sig, sig ∈ inFlightSigs d <-> sig ∈ v_sig <$> verifying d) /\
  (forall i v answer, verifying d !! i = Some v -> (answer = Rejected \/ answer = Unknown) ->
     forall w f px r, rate f px = Some r ->
     verifying (desk_run d [Verified i answer; Deposit w f (v_sig v) px])
     = delete i (verifying d) ++ [mkVerifying w f (v_sig v) r]) /\
  (forall sig w tx, sig ∈ seenSigs d -> tx_err tx = false -> ltb (of_Z 0) (gained bull tx) = true ->
     (forall f px, deposit w f sig px d = d) /\
     let d' := desk_run (restart d) [Deposit w bull sig (of_Z 0); Verified 0 (Parsed tx)] in
     field bull (acct (ledger d') w) = add (field bull (acct (ledger (restart d)) w)) (gained bull tx)).
Proof.
  intros He d. destruct (sigs_run (desk_boot l) es (boot_sigs l) He) as (I & S & P & N). fold d in I, S.
  split_and!.
  - by apply run_deposits.
  - intros w. exact (run_depIn (desk_boot l) es w He).
  - exact N.
  - apply Forall_forall. intros c Hc.
    apply S, elem_of_union. left. apply elem_of_list_to_set. by apply list_elem_of_fmap_2.
  - intros sig. by rewrite (flight_exact _ I), elem_of_list_to_set.
  - intros i v answer Hi Ha w f px r Hr. cbn [desk_run foldl desk_step]. unfold deposit_verified. rewrite Hi.
    pose proof (flight_unseen _ I) as Hun.
    assert (Hv : v_sig v ∈ inFlightSigs d).
    { rewrite (flight_exact _ I). apply elem_of_list_to_set, list_elem_of_fmap_2. by apply list_elem_of_lookup_2 in Hi. }
    assert (Hafter : forall l' p', verifying (deposit w f (v_sig v) px (mkDesk l' (seenSigs d) (inFlightSigs d ∖ {[v_sig v]}) (delete i (verifying d)) p'))
      = delete i (verifying d) ++ [mkVerifying w f (v_sig v) r]).
    { intros l' p'. unfold deposit. rewrite Hr. unfold claimSig. cbn.
      rewrite bool_decide_eq_false_2 by set_solver. by rewrite bool_decide_eq_false_2 by set_solver. }
    destruct Ha as [-> | ->]; cbn [verified]; [apply Hafter |].
    rewrite leb_refl by apply of_Z_not_nan. apply Hafter.
  - intros sig w tx Hs He' Hl0. split.
    + intros f px. unfold deposit, claimSig. destruct (rate f px); [| done]. by rewrite bool_decide_eq_true_2.
    + by apply credited_anew.
Qed.

(** ** Laws: the books *)

(** *** The log of an account, in any amounts *)

Inductive Move : Type :=
| Credited (w : string) (f : Asset) (units : num)
| Debited (p : Paying)
| Returned (p : Paying) (landed : bool)
| Executed (p : Paying).

(** What an event moves: an answer what it is worth; a withdrawal as much as is
    asked for and there; the end of a payout the amount that was debited for it. *)
Definition moves_of (d : Desk) (e : DeskEvent) : list Move :=
  match e with
  | Verified _ _ => (fun c : Verifying * num => Credited (v_wallet c.1) (v_asset c.1) c.2) <$> credits_of d e
  | Withdraw fz w f wanted px =>
      let units := min (money wanted) (field f (acct (ledger d) w)) in
      if fz || bool_decide (rate f px = None) || ltb units MIN_ENTRY then [] else [Debited (mkPaying w f units)]
  | PaidOut i e =>
      match paying d !! i with
      | Some p => [match e with Confirmed => Executed p | NotSent => Returned p false | Unconfirmed landed => Returned p landed end]
      | None => []
      end
  | _ => []
  end.

Fixpoint moves (d : Desk) (es : list DeskEvent) : list Move :=
  match es with [] => [] | e :: es => moves_of d e ++ moves (desk_step d e) es end.

(** A balance after a move. *)
Definition posted (w : string) (f : Asset) (x : num) (m : Move) : num :=
  match m with
  | Credited w' f' units => if bool_decide (w = w' /\ f = f') then add x units else x
  | Debited p => if bool_decide (w = p_wallet p /\ f = p_asset p) then sub x (p_units p) else x
  | Returned p _ => if bool_decide (w = p_wallet p /\ f = p_asset p) then add x (p_units p) else x
  | Executed _ => x
  end.

Definition debits : list Move -> list Paying := omap (fun m => match m with Debited p => Some p | _ => None end).
Definition endings : list Move -> list Paying := omap (fun m => match m with Returned p _ | Executed p => Some p | _ => None end).

Lemma field_update (l : gmap string Account) w g x a w' f : (forall f, field f a = if decide (f = g) then x else field f (acct l w)) ->
  field f (acct (<[w := a]> l) w') = if bool_decide (w' = w /\ f = g) then x else field f (acct l w').
Proof.
  intros Ha. rewrite acct_insert. destruct (decide (w = w')) as [<- | Hne].
  - rewrite Ha. destruct (decide (f = g)) as [-> | Hf]; [by rewrite bool_decide_eq_true_2 | by rewrite bool_decide_eq_false_2 by (intros []; done)].
  - by rewrite bool_decide_eq_false_2 by (intros [? _]; congruence).
Qed.

Lemma step_posted d e w f : same_process e ->
  field f (acct (ledger (desk_step d e)) w) = foldl (posted w f) (field f (acct (ledger d) w)) (moves_of d e).
Proof.
  intros He. destruct e as [w' g sig px | i answer | fz w' g wanted px | i e |]; [| | | | done].
  - pose proof (step_deposits d _ He) as Hm. cbn [moves_deposits] in Hm. cbv zeta in Hm. by rewrite Hm.
  - pose proof (step_deposits d _ He) as Hm. unfold moves_deposits in Hm. cbv zeta in Hm. cbn [moves_of].
    destruct (credits_of d (Verified i answer)) as [| c [|]] eqn:E; [by rewrite Hm | | by destruct answer; cbn in E; repeat case_match].
    destruct (Hm w) as [-> _]. cbn [fmap list_fmap foldl posted]. destruct (decide (w = v_wallet c.1)) as [-> | Hne].
    + rewrite bool_decide_eq_true_2 by done. cbn [andb]. by rewrite (bool_decide_ext (v_wallet c.1 = v_wallet c.1 /\ f = v_asset c.1) (f = v_asset c.1)) by tauto.
    + by rewrite bool_decide_eq_false_2, (bool_decide_eq_false_2 (w = v_wallet c.1 /\ _)) by (done || intros []; done).
  - cbn [desk_step moves_of]. unfold withdraw. cbv zeta. destruct fz; [done |]. cbn [orb].
    destruct (rate g px); [rewrite bool_decide_eq_false_2 by discriminate | done]. cbn [orb]. destruct (ltb _ MIN_ENTRY); [done |].
    cbn [ledger foldl posted p_wallet p_asset p_units].
    rewrite (field_update _ w' g (sub (field g (acct (ledger d) w')) (min (money wanted) (field g (acct (ledger d) w'))))) by (intros; apply field_with).
    by destruct (decide (w = w' /\ f = g)) as [[-> ->] | Hne]; [rewrite !bool_decide_eq_true_2 | rewrite !bool_decide_eq_false_2].
  - cbn [desk_step moves_of]. unfold paid_out. destruct (paying d !! i) as [p |]; [| done]. cbn [ledger foldl posted].
    assert (Hr : field f (acct (<[p_wallet p := with_field (p_asset p) (add (field (p_asset p) (acct (ledger d) (p_wallet p))) (p_units p)) (acct (ledger d) (p_wallet p))]> (ledger d)) w)
      = if bool_decide (w = p_wallet p /\ f = p_asset p) then add (field f (acct (ledger d) w)) (p_units p) else field f (acct (ledger d) w)).
    { rewrite (field_update _ _ (p_asset p) (add (field (p_asset p) (acct (ledger d) (p_wallet p))) (p_units p))) by (intros; apply field_with).
      by destruct (decide (w = p_wallet p /\ f = p_asset p)) as [[-> ->] | Hne]; [rewrite !bool_decide_eq_true_2 | rewrite !bool_decide_eq_false_2]. }
    destruct e; cbn [posted]; [| exact Hr | exact Hr].
    rewrite acct_insert. destruct (decide (p_wallet p = w)) as [<- |]; [apply field_note_out | done].
Qed.

Lemma run_posted d es w f : Forall same_process es ->
  field f (acct (ledger (desk_run d es)) w) = foldl (posted w f) (field f (acct (ledger d) w)) (moves d es).
Proof.
  intros He. revert d. induction He as [| e es He _ IH]; intros d; [done |]. cbn [moves desk_run foldl].
  rewrite foldl_app, <- step_posted by done. apply IH.
Qed.

Lemma step_payouts d e : same_process e ->
  paying d ++ debits (moves_of d e) ≡ₚ endings (moves_of d e) ++ paying (desk_step d e).
Proof.
  intros He. destruct e as [w g sig px | i answer | fz w g wanted px | i e |]; [| | | | done]; cbn [desk_step moves_of].
  - assert (E : paying (deposit w g sig px d) = paying d) by (unfold deposit, claimSig; destruct (rate g px); [| done]; by destruct (_ || _)).
    rewrite E. cbn. by rewrite app_nil_r.
  - assert (E : paying (deposit_verified i answer d) = paying d).
    { unfold deposit_verified. destruct (verifying d !! i) as [v |]; [| done]. destruct (verified _ _); [| done]. by destruct (leb _ _). }
    rewrite E. generalize (credits_of d (Verified i answer)). intros cs.
    assert (Hd : debits ((fun c : Verifying * num => Credited (v_wallet c.1) (v_asset c.1) c.2) <$> cs) = []) by (by induction cs).
    assert (Hx : endings ((fun c : Verifying * num => Credited (v_wallet c.1) (v_asset c.1) c.2) <$> cs) = []) by (clear Hd; by induction cs).
    by rewrite Hd, Hx, app_nil_r.
  - unfold withdraw. cbv zeta. destruct fz; cbn [orb]; [cbn; by rewrite app_nil_r |].
    destruct (rate g px); [rewrite bool_decide_eq_false_2 by discriminate | cbn; by rewrite app_nil_r]. cbn [orb].
    by destruct (ltb _ MIN_ENTRY); [cbn; rewrite app_nil_r |].
  - unfold paid_out. destruct (paying d !! i) as [p |] eqn:Hi; [| cbn; by rewrite app_nil_r]. cbn [paying].
    rewrite (delete_Permutation _ _ _ Hi) at 1. destruct e; cbn; by rewrite app_nil_r.
Qed.

Lemma run_payouts d es : Forall same_process es ->
  paying d ++ debits (moves d es) ≡ₚ endings (moves d es) ++ paying (desk_run d es).
Proof.
  intros He. revert d. induction He as [| e es He _ IH]; intros d; cbn [moves desk_run foldl]; [by rewrite app_nil_r |].
  unfold debits, endings. rewrite !omap_app. fold debits endings. rewrite app_assoc, step_payouts by done.
  rewrite <- !app_assoc. by rewrite IH.
Qed.

(** *** No debts, in any amounts *)

Lemma add_nonneg x y : leb (of_Z 0) x = true -> leb (of_Z 0) y = true -> leb (of_Z 0) (add x y) = true.
Proof.
  rewrite of_Z_exact by lia. change (0 * one) with 0. intros Hx Hy. destruct x as [| [] | a]; [done.. | |]; (destruct y as [| [] | b]; [done.. | |]); try done.
  rewrite leb_fin in Hx, Hy. zbool. apply of_ratio_ge; [lia | apply rep_0 | lia].
Qed.

Lemma mul_nonneg x y : ltb (of_Z 0) x = true -> ltb (of_Z 0) y = true -> leb (of_Z 0) (mul x y) = true.
Proof.
  rewrite of_Z_exact by lia. change (0 * one) with 0. intros Hx Hy. destruct x as [| [] | a]; [done.. | |]; (destruct y as [| [] | b]; [done.. | |]); try done; cbn in Hx, Hy |- *.
  - zbool. rewrite (proj2 (Z.eqb_neq b 0)) by lia. by rewrite (proj2 (Z.ltb_ge b 0)) by lia.
  - zbool. rewrite (proj2 (Z.eqb_neq a 0)) by lia. by rewrite (proj2 (Z.ltb_ge a 0)) by lia.
  - zbool. apply of_ratio_ge; [apply one_pos | apply rep_0 | nia].
Qed.

Lemma money_nonneg v : leb (of_Z 0) (money v) = true /\ is_finite (money v) = true.
Proof.
  unfold money. destruct (is_finite v && leb (of_Z 0) v) eqn:E; [apply andb_true_iff in E as [? ?]; done |].
  split; [by rewrite leb_refl by apply of_Z_not_nan | apply of_Z_finite; unfold safe; lia].
Qed.

(** Taking at most what is there leaves no debt. *)
Lemma debit_nonneg v x : leb (of_Z 0) x = true ->
  leb (of_Z 0) (min (money v) x) = true /\ leb (of_Z 0) (sub x (min (money v) x)) = true.
Proof.
  intros Hx. destruct (money_nonneg v) as [Hm Hf]. split; [by apply min_glb |].
  rewrite of_Z_exact in * by lia. change (0 * one) with 0 in *.
  destruct (money v) as [| [] | m]; try done. destruct x as [| [] | b]; try done.
  rewrite leb_fin in Hm, Hx. zbool. unfold min. cbn [is_nan orb ltb]. unfold sub.
  destruct (b <? m) eqn:E; cbn [neg add]; apply of_ratio_ge; first [apply rep_0 | zbool; lia].
Qed.

(** Nobody owes the house. *)
Record solvent (d : Desk) : Prop := {
  no_debt : forall w f, leb (of_Z 0) (field f (acct (ledger d) w)) = true;
  no_loan : Forall (fun p => leb (of_Z 0) (p_units p) = true) (paying d);
  fair_rates : Forall (fun v => v_asset v = sol -> ltb (of_Z 0) (v_rate v) = true) (verifying d);
}.

(** A price is missing or above zero. *)
Definition priced (e : DeskEvent) : Prop :=
  match e with Deposit _ sol _ px => rate sol px = None \/ ltb (of_Z 0) px = true | _ => True end.

Lemma credits_nonneg d e : solvent d -> Forall (fun c : Verifying * num => leb (of_Z 0) c.2 = true) (credits_of d e).
Proof.
  intros [_ _ Hr]. destruct e as [| i [| | tx] | | |]; try apply List.Forall_nil. cbn [credits_of].
  destruct (verifying d !! i) as [v |] eqn:Hi; [| apply List.Forall_nil]. destruct (_ && _) eqn:E; [| apply List.Forall_nil].
  apply andb_true_iff in E as [_ E]. apply List.Forall_cons; [| apply List.Forall_nil]. cbn [snd]. unfold units_of.
  rewrite Forall_forall in Hr. specialize (Hr v ltac:(by eapply list_elem_of_lookup_2)).
  destruct (v_asset v); [apply mul_nonneg; auto | by apply ltb_leb..].
Qed.

Lemma posted_credits w f (cs : list (Verifying * num)) x : Forall (fun c => leb (of_Z 0) c.2 = true) cs -> leb (of_Z 0) x = true ->
  leb (of_Z 0) (foldl (posted w f) x ((fun c => Credited (v_wallet c.1) (v_asset c.1) c.2) <$> cs)) = true.
Proof.
  intros Hc. revert x. induction Hc as [| c cs Hc _ IH]; intros x Hx; [done |]. cbn [fmap list_fmap foldl posted]. apply IH.
  destruct (bool_decide _); [by apply add_nonneg | done].
Qed.

Lemma restore_nonneg a f : (forall f, leb (of_Z 0) (field f a) = true) -> leb (of_Z 0) (field f (restore_account a)) = true.
Proof.
  intros Ha. unfold restore_account. cbv zeta. destruct (ltb _ (a_sol a)) eqn:E; [| apply Ha]. rewrite field_with.
  destruct (decide (f = sol)); [| apply Ha]. apply ltb_nan in E as [E _]. apply max_l.
  destruct (max _ _); [discriminate E | done..].
Qed.

Lemma solvent_step d e : solvent d -> priced e -> solvent (desk_step d e).
Proof.
  intros Hs Hp. pose proof Hs as [Hd Hl Hr]. destruct e as [w f sig px | i answer | fz w f wanted px | i e |]; cbn [desk_step].
  - unfold deposit. destruct (rate f px) as [r |] eqn:Er; [| done]. unfold claimSig. destruct (_ || _); [done |]. split; cbn; [done | done |].
    apply Forall_app. split; [done |]. apply List.Forall_cons; [| apply List.Forall_nil]. cbn. intros ->. cbn in Hp.
    destruct Hp as [Hn | Hpx]; [cbn in Er; rewrite Hn in Er; discriminate Er |]. cbn in Er. destruct (_ || _); [discriminate Er |]. by apply (inj Some) in Er as <-.
  - assert (Hb : forall w f, leb (of_Z 0) (field f (acct (ledger (deposit_verified i answer d)) w)) = true).
    { intros w f. pose proof (step_posted d (Verified i answer) w f ltac:(discriminate)) as E. cbn [desk_step moves_of] in E. rewrite E.
      apply posted_credits; [by apply credits_nonneg | apply Hd]. }
    split; [exact Hb |..].
    + assert (E : paying (deposit_verified i answer d) = paying d).
      { unfold deposit_verified. destruct (verifying d !! i) as [v |]; [| done]. destruct (verified _ _); [| done]. by destruct (leb _ _). }
      by rewrite E.
    + unfold deposit_verified. destruct (verifying d !! i) as [v |]; [| done].
      destruct (verified _ _); [destruct (leb _ _) |]; cbn [verifying]; by apply Forall_delete.
  - unfold withdraw. cbv zeta.
    destruct fz; [done |]. destruct (rate f px) eqn:Er; [| done]. destruct (ltb _ MIN_ENTRY) eqn:El; [done |].
    destruct (debit_nonneg wanted _ (Hd w f)) as [Hu Hx]. split; cbn [ledger paying verifying] in *; [| | done].
    + intros w' f'. rewrite (field_update _ w f (sub (field f (acct (ledger d) w)) (min (money wanted) (field f (acct (ledger d) w))))) by (intros; apply field_with).
      destruct (bool_decide _); [done | apply Hd].
    + apply Forall_app. split; [done |]. by apply List.Forall_cons; [| apply List.Forall_nil].
  - unfold paid_out. destruct (paying d !! i) as [p |] eqn:Hi; [| done]. split; cbn [ledger paying verifying]; [| by apply Forall_delete | done].
    assert (Hu : leb (of_Z 0) (p_units p) = true) by (rewrite Forall_forall in Hl; apply Hl; by eapply list_elem_of_lookup_2).
    intros w f. rewrite acct_insert. destruct (decide (p_wallet p = w)) as [_ |]; [| apply Hd].
    destruct e; [rewrite field_note_out; apply Hd | rewrite field_with; destruct (decide _); [apply add_nonneg; [apply Hd | done] | apply Hd]..].
  - split; cbn [restart desk_boot ledger paying verifying]; [| apply List.Forall_nil..]. intros w f. unfold acct. rewrite lookup_fmap.
    pose proof (Hd w) as Hw. unfold acct in Hw. destruct (ledger d !! w); [by apply restore_nonneg | exact (Hw f)].
Qed.

Lemma solvent_run d es : solvent d -> Forall priced es -> solvent (desk_run d es).
Proof. intros Hd He. revert d Hd. induction He as [| e es He _ IH]; intros d Hd; [done |]. apply IH. by apply solvent_step. Qed.

(** Amounts on a grid fine enough for the ledger and coarse enough that sums are
    exact: multiples of [2^-20]. *)
Definition grain : Z := 2 ^ 1054.
Definition dy (k : Z) : num := Fin (k * grain).

Lemma grain_pos : 0 < grain.
Proof. apply Z.pow_pos_nonneg; lia. Qed.

Lemma grain_small : 2 ^ 53 * grain < overflow.
Proof. pose proof overflow_big. pose proof one_pow as E. assert (grain <= one); [| nia]. rewrite E. apply Z.pow_le_mono_r; lia. Qed.

Lemma dy_0 : of_Z 0 = dy 0.
Proof. rewrite of_Z_exact by lia. done. Qed.

Lemma dy_add a b : Z.abs (a + b) <= 2 ^ 53 -> add (dy a) (dy b) = dy (a + b).
Proof.
  intros Hs. unfold dy. cbn [add]. rewrite <- Z.mul_add_distr_r. unfold of_ratio, grain.
  rewrite rnd_id by lia. apply mk_fin. fold grain. pose proof grain_pos. pose proof grain_small. nia.
Qed.

Lemma dy_sub a b : Z.abs (a - b) <= 2 ^ 53 -> sub (dy a) (dy b) = dy (a - b).
Proof.
  intros Hs. unfold sub. replace (neg (dy b)) with (dy (- b)) by (unfold dy; cbn [neg]; f_equal; ring).
  by rewrite dy_add.
Qed.

Lemma dy_min a b : min (dy a) (dy b) = dy (Z.min a b).
Proof.
  unfold min, dy. cbn. pose proof grain_pos. destruct (Z.ltb_spec (b * grain) (a * grain)); do 2 f_equal; nia.
Qed.

Lemma dy_pos a : leb (dy a) (of_Z 0) = false -> 0 < a.
Proof. rewrite dy_0. unfold dy. rewrite leb_fin. pose proof grain_pos. intros. zbool. nia. Qed.

Lemma of_Z_dy z : Z.abs z <= 2 ^ 53 -> of_Z z = dy (z * 2 ^ 20).
Proof.
  intros Hz. rewrite of_Z_exact by done. unfold dy. f_equal. rewrite one_pow. unfold grain.
  rewrite <- Z.mul_assoc, <- Z.pow_add_r by lia. done.
Qed.

#[global] Opaque grain.

(** How many grains an amount is. *)
Definition grains (x : num) : Z := match x with Fin m => m / grain | _ => 0 end.

Lemma grains_dy k : grains (dy k) = k.
Proof. apply Z.div_mul. pose proof grain_pos. lia. Qed.

(** *** The tally *)

(** Grains credited, executed by the chain, and returned to an account although the
    chain had executed them, per wallet and asset. *)
Record Tally : Type := mkTally { t_in : string -> Asset -> Z; t_landed : string -> Asset -> Z; t_twice : string -> Asset -> Z }.

Definition bump (g : string -> Asset -> Z) (w : string) (f : Asset) (k : Z) : string -> Asset -> Z :=
  fun w' f' => if bool_decide (w' = w /\ f' = f) then g w' f' + k else g w' f'.

Definition tally_step (d : Desk) (e : DeskEvent) (t : Tally) : Tally :=
  match e with
  | Verified i answer =>
      match verifying d !! i with
      | None => t
      | Some v =>
          match verified (v_asset v) answer with
          | Some delta =>
              if leb delta (of_Z 0) || negb (ltb (of_Z 0) delta) then t
              else mkTally (bump (t_in t) (v_wallet v) (v_asset v) (grains (units_of v delta))) (t_landed t) (t_twice t)
          | None => t
          end
      end
  | PaidOut i e =>
      match paying d !! i with
      | None => t
      | Some p =>
          let k := grains (p_units p) in
          match e with
          | Confirmed => mkTally (t_in t) (bump (t_landed t) (p_wallet p) (p_asset p) k) (t_twice t)
          | NotSent | Unconfirmed false => t
          | Unconfirmed true =>
              mkTally (t_in t) (bump (t_landed t) (p_wallet p) (p_asset p) k) (bump (t_twice t) (p_wallet p) (p_asset p) k)
          end
      end
  | _ => t
  end.

Fixpoint tally (d : Desk) (es : list DeskEvent) (t : Tally) : Tally :=
  match es with [] => t | e :: es => tally (desk_step d e) es (tally_step d e t) end.

Definition no_tally : Tally := mkTally (fun _ _ => 0) (fun _ _ => 0) (fun _ _ => 0).

(** What is on its way out to a wallet. *)
Definition leaving (w : string) (f : Asset) (ps : list Paying) : Z :=
  zsum (fun p => if bool_decide (w = p_wallet p /\ f = p_asset p) then grains (p_units p) else 0) ps.

(** The event's amounts are on the grid. *)
Definition on_grid (d : Desk) (e : DeskEvent) : Prop :=
  match e with
  | Verified i answer =>
      forall v delta, verifying d !! i = Some v -> verified (v_asset v) answer = Some delta -> ltb (of_Z 0) delta = true ->
        exists k, units_of v delta = dy k /\ 0 <= k <= 2 ^ 30
  | Withdraw _ _ _ wanted _ => exists k, money wanted = dy k /\ 0 <= k
  | Restart => False
  | _ => True
  end.

Fixpoint all_on_grid (d : Desk) (es : list DeskEvent) : Prop :=
  match es with [] => True | e :: es => on_grid d e /\ all_on_grid (desk_step d e) es end.

Record books (n : Z) (d : Desk) (t : Tally) : Prop := {
  held : forall w f, exists k, field f (acct (ledger d) w) = dy k /\ 0 <= k;
  on_way : Forall (fun p => exists k, p_units p = dy k /\ 0 <= k) (paying d);
  balanced : forall w f, grains (field f (acct (ledger d) w)) + leaving w f (paying d) + t_landed t w f
                         = t_in t w f + t_twice t w f;
  twice_landed : forall w f, 0 <= t_twice t w f <= t_landed t w f;
  in_bound : forall w f, t_in t w f <= n * 2 ^ 30;
}.

Lemma boot_books : books 0 (desk_boot ∅) no_tally.
Proof.
  split; try done.
  - intros w f. exists 0. rewrite <- dy_0. unfold acct. cbn [ledger desk_boot]. rewrite lookup_empty. by destruct f.
  - intros w f. unfold acct. cbn [ledger desk_boot]. rewrite lookup_empty. cbn [default].
    replace (field f fresh_account) with (dy 0) by (rewrite <- dy_0; by destruct f). by rewrite grains_dy.
Qed.

Lemma leaving_nonneg w f ps : Forall (fun p => exists k, p_units p = dy k /\ 0 <= k) ps -> 0 <= leaving w f ps.
Proof.
  intros H. apply zsum_nonneg. eapply Forall_impl; [exact H |]. intros p (k & Hp & Hk). cbv beta. rewrite Hp, grains_dy.
  by destruct (bool_decide _).
Qed.

Lemma leaving_delete w f ps i p : ps !! i = Some p ->
  leaving w f (delete i ps) = leaving w f ps - (if bool_decide (w = p_wallet p /\ f = p_asset p) then grains (p_units p) else 0).
Proof.
  intros Hi. unfold leaving. rewrite (zsum_perm _ _ _ (delete_Permutation ps i p Hi)). unfold zsum. cbn. lia.
Qed.

Lemma leaving_snoc w f ps p :
  leaving w f (ps ++ [p]) = leaving w f ps + (if bool_decide (w = p_wallet p /\ f = p_asset p) then grains (p_units p) else 0).
Proof. unfold leaving. rewrite zsum_app. unfold zsum at 2. cbn. lia. Qed.

(** Replacing one field of one account by a whole number of grains. *)
Lemma held_update (l : gmap string Account) w f x (h : Account -> Account) k :
  (forall w f, exists k, field f (acct l w) = dy k /\ 0 <= k) -> x = dy k -> 0 <= k ->
  (forall g a, field g (h a) = field g a) ->
  let l' := <[w := h (with_field f x (acct l w))]> l in
  (forall w f, exists k, field f (acct l' w) = dy k /\ 0 <= k) /\
  (forall w' f', grains (field f' (acct l' w'))
     = if bool_decide (w' = w /\ f' = f) then k else grains (field f' (acct l w'))).
Proof.
  intros Hl -> Hk Hh l'.
  assert (E : forall w' f', field f' (acct l' w') = if bool_decide (w' = w /\ f' = f) then dy k else field f' (acct l w')).
  { intros w' f'. unfold l'. rewrite acct_insert. destruct (decide (w = w')) as [<- | Hne].
    - rewrite Hh, field_with. destruct (decide (f' = f)) as [-> | Hf]; [by rewrite bool_decide_eq_true_2 |].
      rewrite bool_decide_eq_false_2 by (by intros [_ ?]). done.
    - rewrite bool_decide_eq_false_2 by (intros [? _]; congruence). done. }
  split; intros w' f'; rewrite E; destruct (bool_decide _); [by exists k | apply Hl | apply grains_dy | done].
Qed.

Lemma bump_at g w f k w' f' : bump g w f k w' f' = g w' f' + (if bool_decide (w' = w /\ f' = f) then k else 0).
Proof. unfold bump. destruct (bool_decide _); lia. Qed.

Lemma books_mono n d t : books n d t -> books (n + 1) d t.
Proof. intros [A B C D E]. split; try done. intros w f. specialize (E w f). lia. Qed.

Lemma desk_total n d t w f : books n d t ->
  0 <= grains (field f (acct (ledger d) w)) /\ 0 <= leaving w f (paying d) /\
  grains (field f (acct (ledger d) w)) + leaving w f (paying d) <= n * 2 ^ 30.
Proof.
  intros B. destruct (held _ _ _ B w f) as (k & Hk & Hk0). pose proof (balanced _ _ _ B w f) as E.
  pose proof (twice_landed _ _ _ B w f). pose proof (in_bound _ _ _ B w f). pose proof (leaving_nonneg w f _ (on_way _ _ _ B)).
  rewrite Hk, grains_dy in *. lia.
Qed.

Lemma books_credit n d t v delta k rest flight :
  books n d t -> n <= 2 ^ 20 -> units_of v delta = dy k -> 0 <= k <= 2 ^ 30 ->
  books (n + 1) (mkDesk (credit v delta (ledger d)) ({[v_sig v]} ∪ seenSigs d) flight rest (paying d))
    (mkTally (bump (t_in t) (v_wallet v) (v_asset v) k) (t_landed t) (t_twice t)).
Proof.
  intros B Hn Hu Hk. pose proof (desk_total n d t (v_wallet v) (v_asset v) B) as (T0 & T1 & T2).
  destruct (held _ _ _ B (v_wallet v) (v_asset v)) as (b & Hb & Hb0). rewrite Hb, grains_dy in *.
  destruct (held_update (ledger d) (v_wallet v) (v_asset v) (add (dy b) (dy k)) (note_in (v_asset v) (dy k)) (b + k)
    (held _ _ _ B) (dy_add b k ltac:(lia)) ltac:(lia) (fun g a => field_note_in g (v_asset v) (dy k) a)) as [P Q].
  assert (E : credit v delta (ledger d) = <[v_wallet v := note_in (v_asset v) (dy k) (with_field (v_asset v) (add (dy b) (dy k)) (acct (ledger d) (v_wallet v)))]> (ledger d)).
  { unfold credit. by rewrite Hu, Hb. }
  split; cbn [ledger paying t_in t_landed t_twice].
  - rewrite E. exact P.
  - apply (on_way _ _ _ B).
  - intros w f. rewrite E, Q, bump_at. pose proof (balanced _ _ _ B w f) as Hbal.
    destruct (decide (w = v_wallet v /\ f = v_asset v)) as [[-> ->] | Hne].
    + rewrite !bool_decide_eq_true_2 by done. rewrite Hb, grains_dy in Hbal. lia.
    + rewrite !bool_decide_eq_false_2 by done. lia.
  - apply (twice_landed _ _ _ B).
  - intros w f. rewrite bump_at. pose proof (in_bound _ _ _ B w f). destruct (bool_decide _); lia.
Qed.

Lemma books_debit n d t w f units u b :
  books n d t -> n <= 2 ^ 20 -> field f (acct (ledger d) w) = dy b -> units = dy u -> 0 <= u <= b ->
  books n (mkDesk (<[w := with_field f (sub (field f (acct (ledger d) w)) units) (acct (ledger d) w)]> (ledger d))
             (seenSigs d) (inFlightSigs d) (verifying d) (paying d ++ [mkPaying w f units])) t.
Proof.
  intros B Hn Hb -> Hu. pose proof (desk_total n d t w f B) as (T0 & T1 & T2). rewrite Hb in *. rewrite grains_dy in *.
  destruct (held_update (ledger d) w f (sub (dy b) (dy u)) id (b - u) (held _ _ _ B) (dy_sub b u ltac:(lia)) ltac:(lia)
    (fun g a => eq_refl)) as [P Q]. unfold id in P, Q.
  split; cbn [ledger paying].
  - exact P.
  - apply Forall_app. split; [apply (on_way _ _ _ B) |]. apply List.Forall_cons; [| apply List.Forall_nil]. exists u. split; [done | lia].
  - intros w' f'. rewrite Q, leaving_snoc. cbn [p_wallet p_asset p_units]. pose proof (balanced _ _ _ B w' f') as Hbal.
    destruct (decide (w' = w /\ f' = f)) as [[-> ->] | Hne].
    + rewrite !bool_decide_eq_true_2 by done. rewrite Hb, grains_dy in Hbal. rewrite grains_dy. lia.
    + rewrite !bool_decide_eq_false_2 by done. lia.
  - apply (twice_landed _ _ _ B).
  - apply (in_bound _ _ _ B).
Qed.

(** A payout that ends: [back] grains return to the account, [out] were executed. *)
Lemma books_paid n d t i p u h x back t' :
  books n d t -> n <= 2 ^ 20 -> paying d !! i = Some p -> p_units p = dy u -> 0 <= u ->
  x = (if back : bool then add (field (p_asset p) (acct (ledger d) (p_wallet p))) (p_units p) else field (p_asset p) (acct (ledger d) (p_wallet p))) ->
  (forall g a, field g (h a) = field g a) ->
  (forall w f, t_in t' w f = t_in t w f) ->
  (forall w f, t_landed t' w f - t_twice t' w f = t_landed t w f - t_twice t w f
     + (if bool_decide (w = p_wallet p /\ f = p_asset p) then (if back then 0 else u) else 0)) ->
  (forall w f, 0 <= t_twice t' w f <= t_landed t' w f) ->
  books n (mkDesk (<[p_wallet p := h (with_field (p_asset p) x (acct (ledger d) (p_wallet p)))]> (ledger d))
             (seenSigs d) (inFlightSigs d) (verifying d) (delete i (paying d))) t'.
Proof.
  intros B Hn Hi Hp Hu Hx Hh Hin Hland Htw. set (w0 := p_wallet p) in *. set (f0 := p_asset p) in *.
  pose proof (desk_total n d t w0 f0 B) as (T0 & T1 & T2).
  destruct (held _ _ _ B w0 f0) as (b & Hb & Hb0). rewrite Hb in *. rewrite grains_dy in *.
  assert (Hd : 0 <= leaving w0 f0 (delete i (paying d))).
  { apply leaving_nonneg. pose proof (on_way _ _ _ B) as F. rewrite (delete_Permutation _ _ _ Hi), Forall_cons in F. apply F. }
  rewrite (leaving_delete _ _ _ _ _ Hi), bool_decide_eq_true_2, Hp, grains_dy in Hd by done.
  assert (Hx' : x = dy (if back then b + u else b)) by (rewrite Hx; destruct back; [rewrite Hp; apply dy_add; lia | done]).
  destruct (held_update (ledger d) w0 f0 x h (if back then b + u else b) (held _ _ _ B) Hx' ltac:(destruct back; lia) Hh) as [P Q].
  split; cbn [ledger paying].
  - exact P.
  - pose proof (on_way _ _ _ B) as F. rewrite (delete_Permutation _ _ _ Hi), Forall_cons in F. apply F.
  - intros w f. rewrite Q, (leaving_delete _ _ _ _ _ Hi), Hin. pose proof (balanced _ _ _ B w f) as Hbal. specialize (Hland w f).
    fold w0 f0. destruct (decide (w = w0 /\ f = f0)) as [[-> ->] | Hne].
    + rewrite !bool_decide_eq_true_2 in * by done. rewrite Hb, grains_dy in Hbal. rewrite Hp, grains_dy. destruct back; lia.
    + rewrite !bool_decide_eq_false_2 in * by done. lia.
  - exact Htw.
  - intros w f. rewrite Hin. apply (in_bound _ _ _ B).
Qed.

Lemma field_same f a : with_field f (field f a) a = a.
Proof. by destruct f, a. Qed.

Lemma books_step n d t e : books n d t -> 0 <= n <= 2 ^ 20 -> on_grid d e -> books (n + 1) (desk_step d e) (tally_step d e t).
Proof.
  intros B Hn G. assert (Same : forall s fl vs, books (n + 1) (mkDesk (ledger d) s fl vs (paying d)) t).
  { intros s fl vs. apply books_mono. by destruct B. }
  destruct e as [w f sig px | i answer | fz w f wanted px | i e |]; [| | | | done]; cbn [desk_step tally_step].
  - unfold deposit, claimSig. destruct (rate f px); [| by apply books_mono].
    destruct (_ || _); [by apply books_mono | apply Same].
  - cbn [on_grid] in G. unfold deposit_verified. destruct (verifying d !! i) as [v |] eqn:Hi; [| by apply books_mono].
    destruct (verified (v_asset v) answer) as [delta |] eqn:Hv; [| apply Same].
    destruct (leb delta (of_Z 0)) eqn:L; [apply Same |]. destruct (ltb (of_Z 0) delta) eqn:L2; [| apply Same]. cbn [orb negb].
    destruct (G v delta eq_refl Hv L2) as (k & Hu & Hk). rewrite Hu, grains_dy.
    apply books_credit; [done | lia | done | done].
  - cbn [on_grid] in G. unfold withdraw. destruct fz; [by apply books_mono |]. destruct (rate f px); [| by apply books_mono].
    destruct (ltb _ MIN_ENTRY); [by apply books_mono |]. apply books_mono.
    destruct G as (k & Hm & Hk). destruct (held _ _ _ B w f) as (b & Hb & Hb0).
    apply (books_debit n d t w f _ (Z.min k b) b B); [lia | done | by rewrite Hm, Hb, dy_min | lia].
  - unfold paid_out. destruct (paying d !! i) as [p |] eqn:Hi; [| by apply books_mono].
    assert (exists u, p_units p = dy u /\ 0 <= u) as (u & Hp & Hu).
    { pose proof (on_way _ _ _ B) as F. rewrite Forall_forall in F. apply F. by apply list_elem_of_lookup_2 in Hi. }
    pose proof (twice_landed _ _ _ B) as Tw. apply books_mono. rewrite Hp, grains_dy.
    destruct e as [| | landed].
    + rewrite <- (field_same (p_asset p) (acct (ledger d) (p_wallet p))) at 1.
      eapply (books_paid n d t i p u (note_out (p_asset p) (dy u)) _ false); try done; [lia | |].
      * intros w f. cbn [t_landed t_twice]. rewrite bump_at. lia.
      * intros w f. cbn [t_landed t_twice]. rewrite bump_at. specialize (Tw w f). destruct (bool_decide _); lia.
    + rewrite <- Hp. eapply (books_paid n d t i p u (fun a => a) _ true); try done; [lia |]. intros w f. destruct (bool_decide _); lia.
    + rewrite <- Hp. destruct landed; eapply (books_paid n d t i p u (fun a => a) _ true); try done; try lia.
      * intros w f. cbn [t_landed t_twice]. rewrite !bump_at. destruct (bool_decide _); lia.
      * intros w f. cbn [t_landed t_twice]. rewrite !bump_at. specialize (Tw w f). destruct (bool_decide _); lia.
      * intros w f. destruct (bool_decide _); lia.
Qed.

Lemma books_run n d t es : books n d t -> 0 <= n -> n + Z.of_nat (length es) <= 2 ^ 20 -> all_on_grid d es ->
  books (n + Z.of_nat (length es)) (desk_run d es) (tally d es t).
Proof.
  revert n d t. induction es as [| e es IH]; intros n d t B Hn Hl G; cbn [length] in *.
  - by rewrite Z.add_0_r.
  - destruct G as [G Gs]. rewrite Nat2Z.inj_succ in *. replace (n + Z.succ (Z.of_nat (length es))) with (n + 1 + Z.of_nat (length es)) by lia.
    apply (IH (n + 1) (desk_step d e) (tally_step d e t)); [| lia | lia | done]. apply books_step; [done | lia | done].
Qed.

(** C31. The desk keeps its books.  (1) From balances that are not negative, over
    any history, restarts included, with any amounts and with prices that are missing
    or above zero, no balance is ever negative or [NaN].  (2) In the life of a
    process, from any ledger and with any amounts, a balance is bit for bit the
    float sum, in order, of the wallet's credits, less its debits, plus what was
    returned to it; and the payouts that were debited are those returned, those
    executed and those still on their way, each once and with the amount it was
    debited for.  (3) Where the sums are exact, in one process from an empty ledger
    with amounts in multiples of 2^-20 and credits of at most 1024, what a wallet
    holds, what is on its way out and what the chain paid it are together what was
    credited to it, plus each payout the chain executed but whose confirmation was
    rejected, which is paid and given back. *)
Theorem desk_books l es :
  ((forall w f, leb (of_Z 0) (field f (acct l w)) = true) -> Forall priced es ->
     forall w f, leb (of_Z 0) (field f (acct (ledger (desk_run (desk_boot l) es)) w)) = true) /\
  (Forall same_process es ->
     let d := desk_run (desk_boot l) es in
     let ms := moves (desk_boot l) es in
     (forall w f, field f (acct (ledger d) w) = foldl (posted w f) (field f (acct l w)) ms) /\
     debits ms ≡ₚ endings ms ++ paying d) /\
  (all_on_grid (desk_boot ∅) es -> Z.of_nat (length es) <= 2 ^ 20 ->
     let d := desk_run (desk_boot ∅) es in
     let t := tally (desk_boot ∅) es no_tally in
     forall w f,
       (exists k, field f (acct (ledger d) w) = dy k /\ 0 <= k) /\
       grains (field f (acct (ledger d) w)) + leaving w f (paying d) + t_landed t w f = t_in t w f + t_twice t w f /\
       0 <= t_twice t w f <= t_landed t w f).
Proof.
  split_and!.
  - intros Hl Hp. apply no_debt, solvent_run; [| done]. split; [exact Hl | apply List.Forall_nil..].
  - intros He d ms. split; [intros w f; exact (run_posted (desk_boot l) es w f He) | exact (run_payouts (desk_boot l) es He)].
  - intros G Hl d t w f. pose proof (books_run 0 _ _ es boot_books ltac:(lia) ltac:(lia) G) as B. fold d t in B.
    split; [apply (held _ _ _ B) |]. split; [apply (balanced _ _ _ B) | apply (twice_landed _ _ _ B)].
Qed.

(** ** A day at the desk *)

(** Five tokens come in, two are asked for, and the confirmation of the payout is
    lost although the transfer landed. *)
Definition sample_tx : ParsedTx := mkTx false None (of_Z 0, of_Z 5) (of_Z 0, of_Z 0).

Definition sample_day : list DeskEvent :=
  [Deposit "ann" bull "sig1" (of_Z 0); Verified 0 (Parsed sample_tx); Withdraw false "ann" bull (of_Z 2) (of_Z 0);
   PaidOut 0 (Unconfirmed true)].

Lemma sample_gain : verified bull (Parsed sample_tx) = Some (of_Z 5).
Proof.
  unfold verified, sample_tx. cbn [tx_err gained tx_bull fst snd]. rewrite sub_int by (unfold safe; lia).
  change (5 - 0) with 5. rewrite leb_int by (unfold safe; lia). reflexivity.
Qed.

Lemma deposits_credit_once_witness :
  let es := [Deposit "ann" bull "sig1" (of_Z 0); Verified 0 (Parsed sample_tx)] in
  let d := desk_run (desk_boot ∅) es in
  depIn (acct (ledger d) "ann") = add (of_Z 0) (gained bull sample_tx) /\
  deposit "bob" bull "sig1" (of_Z 0) d = d /\
  field bull (acct (ledger (desk_run (restart d) [Deposit "bob" bull "sig1" (of_Z 0); Verified 0 (Parsed sample_tx)])) "bob")
  = add (field bull (acct (ledger (restart d)) "bob")) (gained bull sample_tx).
Proof.
  destruct (deposits_credit_once ∅ [Deposit "ann" bull "sig1" (of_Z 0); Verified 0 (Parsed sample_tx)]
    ltac:(repeat (apply List.Forall_cons; [discriminate |]); apply List.Forall_nil)) as (_ & T & _ & A & _ & _ & B).
  assert (S : "sig1" ∈ seenSigs (desk_run (desk_boot ∅) [Deposit "ann" bull "sig1" (of_Z 0); Verified 0 (Parsed sample_tx)])).
  { rewrite Forall_forall in A. apply (A (mkVerifying "ann" bull "sig1" (of_Z 1), gained bull sample_tx)). vm_compute. left. }
  assert (Hp : ltb (of_Z 0) (gained bull sample_tx) = true) by (vm_compute; reflexivity).
  destruct (B "sig1" "bob" sample_tx S eq_refl Hp) as [B1 B2].
  split; [rewrite T; vm_compute; reflexivity |]. split; [apply B1 | exact B2].
Defined.

Lemma sample_on_grid : all_on_grid (desk_boot ∅) sample_day.
Proof.
  split; [exact I |]. split.
  - intros v delta Hv Hd _. injection Hv as <-. change (v_asset _) with bull in Hd. rewrite sample_gain in Hd. apply (inj Some) in Hd as <-.
    exists (5 * 2 ^ 20). split; [apply of_Z_dy; lia | lia].
  - split; [| by split]. exists (2 * 2 ^ 20). split; [| lia]. rewrite <- of_Z_dy by lia.
    unfold money. rewrite of_Z_finite by (unfold safe; lia). rewrite leb_int by (unfold safe; lia). reflexivity.
Qed.

(** A tenth of a SOL at a price that is no sum of powers of two, and most of it out
    again. *)
Definition odd_day : list DeskEvent :=
  [Deposit "ann" sol "sig2" (of_ratio (15337 * one) 100); Verified 0 (Parsed (mkTx false (Some (0, 100000007)) (of_Z 0, of_Z 0) (of_Z 0, of_Z 0)));
   Withdraw false "ann" sol (of_ratio (41 * one) 3) (of_ratio (15337 * one) 100); PaidOut 0 Confirmed].

Lemma odd_same : Forall same_process odd_day.
Proof. repeat (apply List.Forall_cons; [discriminate |]). apply List.Forall_nil. Qed.

Lemma desk_books_witness :
  let d := desk_run (desk_boot ∅) sample_day in
  let t := tally (desk_boot ∅) sample_day no_tally in
  grains (field bull (acct (ledger d) "ann")) + leaving "ann" bull (paying d) + t_landed t "ann" bull
  = t_in t "ann" bull + t_twice t "ann" bull /\ t_twice t "ann" bull = 2 * 2 ^ 20 /\
  leb (of_Z 0) (field sol (acct (ledger (desk_run (desk_boot ∅) (odd_day ++ [Restart]))) "ann")) = true /\
  field sol (acct (ledger (desk_run (desk_boot ∅) odd_day)) "ann") = foldl (posted "ann" sol) (field sol (acct ∅ "ann")) (moves (desk_boot ∅) odd_day).
Proof.
  split; [apply (proj2 (proj2 (desk_books ∅ sample_day)) sample_on_grid ltac:(cbn; lia) "ann" bull) |].
  split; [vm_compute; reflexivity |]. split; [| apply (proj1 (proj2 (desk_books ∅ odd_day)) odd_same)].
  apply (proj1 (desk_books ∅ (odd_day ++ [Restart]))); [intros w f; unfold acct; rewrite lookup_empty; by destruct f |].
  repeat (apply List.Forall_cons; [exact I || (cbn; right; vm_compute; reflexivity) |]). apply List.Forall_nil.
Defined.
