(* ===== verification/EngineLimits.v ===== *)
(** * What one client may take of the engine

    [engine/src/limits.ts]: the message budget of a socket and the cap on the
    sockets of one address, with the connection handler of [engine/src/server.ts]
    that opens and releases them.

    Laws: an address has as many sockets counted as open while each ends once; a
    message named like an inherited member lifts its socket's budget for good. *)
From stdpp Require Import gmap.
From S2P Require Import Prelude JsNum.

(** ** The limits *)

Record Limits : Type := mkLimits { ratePerSec : num; burst : num; maxPerIp : Z }.

(** The members every object literal inherits, by name. *)
Definition INHERITED : list string :=
  ["constructor"; "toString"; "toLocaleString"; "valueOf"; "hasOwnProperty"; "isPrototypeOf"; "propertyIsEnumerable";
   "__proto__"; "__defineGetter__"; "__defineSetter__"; "__lookupGetter__"; "__lookupSetter__"]%string.

(** [COST[type]], as the number it is reckoned with: an inherited member is an
    object, truthy and no number. *)
Definition COST (type : string) : option num :=
  match type with
  | "authChallenge" | "chainBalance" | "solBalance" => Some (of_Z 4)
  | "authVerify" => Some (of_Z 8)
  | "buildDeposit" | "buildSolDeposit" | "deposit" | "depositSol" | "withdraw" | "withdrawSol" => Some (of_Z 6)
  | "fundMe" | "faucet" => Some (of_Z 10)
  | _ => if bool_decide (type ∈ INHERITED) then Some NaN else None
  end%string.

Definition DEFAULT_COST : num := of_Z 1.

Definition cost_of (type : option string) : num := default DEFAULT_COST (type ≫= COST).

Record Bucket : Type := mkBucket { tokens : num; last : num; dropped : Z }.

(** Sockets are numbered; [open] is the server's own: who is connected from where. *)
Record Gate : Type := mkGate {
  buckets : gmap nat Bucket;
  perIp : gmap string Z;
  open : gmap nat string;
}.

Definition gate_boot : Gate := mkGate ∅ ∅ ∅.

Section Limits.
Context (LIMITS : Limits) (OFF : bool).

(** The bucket of a socket once it has been refilled for the time that passed. *)
Definition refilled (now : num) (b : option Bucket) : Bucket :=
  let b := default (mkBucket (burst LIMITS) now 0) b in
  mkBucket (min (burst LIMITS) (add (tokens b) (mul (div (sub now (last b)) (of_Z 1000)) (ratePerSec LIMITS)))) now (dropped b).

Definition allowMessage (ws : nat) (type : option string) (now : num) (g : Gate) : bool * Gate :=
  if OFF then (true, g) else
  let b := refilled now (buckets g !! ws) in
  let cost := cost_of type in
  let '(allowed, b) :=
    if ltb (tokens b) cost then (false, mkBucket (tokens b) (last b) (dropped b + 1))
    else (true, mkBucket (sub (tokens b) cost) (last b) (dropped b)) in
  (allowed, mkGate (<[ws := b]> (buckets g)) (perIp g) (open g)).

Definition droppedFor (ws : nat) (g : Gate) : Z := match buckets g !! ws with Some b => dropped b | None => 0 end.

Definition connectionsFor (ip : string) (g : Gate) : Z := default 0 (perIp g !! ip).

Definition connectionAllowed (ip : string) (g : Gate) : bool * Gate :=
  if OFF then (true, g) else
  let n := connectionsFor ip g in
  if maxPerIp LIMITS <=? n then (false, g) else (true, mkGate (buckets g) (<[ip := n + 1]> (perIp g)) (open g)).

(** A count of nothing is read as one, and a count that comes to nothing is
    dropped. *)
Definition releaseConnection (ws : nat) (ip : string) (g : Gate) : Gate :=
  let g := mkGate (delete ws (buckets g)) (perIp g) (open g) in
  if OFF then g else
  let n0 := connectionsFor ip g in
  let n := (if n0 =? 0 then 1 else n0) - 1 in
  mkGate (buckets g) (if n <=? 0 then delete ip (perIp g) else <[ip := n]> (perIp g)) (open g).

(** ** The connection handler ([server.ts]) *)

(** A socket arrives; it fails; it closes.  [cleanup] runs on failing and on
    closing. *)
Inductive GateEvent : Type :=
| Connect (ws : nat) (ip : string)
| Errored (ws : nat) (ip : string)
| Closed (ws : nat) (ip : string)
| Message (ws : nat) (type : option string) (now : num).

Definition cleanup (ws : nat) (ip : string) (g : Gate) : Gate :=
  releaseConnection ws ip (mkGate (buckets g) (perIp g) (delete ws (open g))).

Definition gate_step (g : Gate) (e : GateEvent) : Gate :=
  match e with
  | Connect ws ip =>
      let '(allowed, g) := connectionAllowed ip g in
      if allowed then mkGate (buckets g) (perIp g) (<[ws := ip]> (open g)) else g
  | Errored ws ip | Closed ws ip => cleanup ws ip g
  | Message ws type now => (allowMessage ws type now g).2
  end.

Definition gate_run (g : Gate) (es : list GateEvent) : Gate := foldl gate_step g es.

(** ** Laws: the budget *)

(** A bucket that holds no number stays so and lets everything through. *)
Lemma spent_nan ws type now g b : buckets g !! ws = Some b -> tokens b = NaN ->
  (allowMessage ws type now g).1 = true
  /\ (OFF = false -> exists b', buckets (allowMessage ws type now g).2 !! ws = Some b' /\ tokens b' = NaN).
Proof.
  intros Hb Ht. unfold allowMessage. destruct OFF; [by split |]. unfold refilled. rewrite Hb. cbn [from_option]. unfold id. rewrite Ht.
  assert (E : min (burst LIMITS) (add NaN (mul (div (sub now (last b)) (of_Z 1000)) (ratePerSec LIMITS))) = NaN)
    by (unfold min; cbn [add is_nan]; by rewrite orb_true_r).
  cbn [tokens]. rewrite E. cbn [ltb fst snd buckets]. split; [done |]. intros _. eexists. by rewrite lookup_insert_eq.
Qed.

(** A message whose type is the name of an inherited member spends what is no
    number: it passes, and so does every later message of its socket. *)
Lemma inherited_name_lifts_the_budget ws name now g ms : name ∈ INHERITED ->
  let step (g : Gate) (m : option string * num) := (allowMessage ws m.1 m.2 g).2 in
  (allowMessage ws (Some name) now g).1 = true
  /\ forall type now', (allowMessage ws type now' (foldl step (allowMessage ws (Some name) now g).2 ms)).1 = true.
Proof.
  intros Hn step. assert (Hc : cost_of (Some name) = NaN).
  { unfold INHERITED in Hn. repeat (apply elem_of_cons in Hn as [-> | Hn]; [vm_compute; reflexivity |]). by apply not_elem_of_nil in Hn. }
  destruct (decide (OFF = true)) as [Eo | Eo%not_true_is_false]; [unfold allowMessage at 1 2; rewrite Eo; split; [done | by intros] |].
  assert (H0 : (allowMessage ws (Some name) now g).1 = true
    /\ exists b, buckets (allowMessage ws (Some name) now g).2 !! ws = Some b /\ tokens b = NaN).
  { unfold allowMessage. rewrite Eo, Hc.
    assert (E : ltb (tokens (refilled now (buckets g !! ws))) NaN = false) by (by destruct (tokens _)).
    rewrite E. cbn [fst snd buckets]. split; [done |]. eexists. rewrite lookup_insert_eq. split; [done |]. cbn [tokens].
    unfold sub. cbn [neg]. by destruct (tokens _). }
  destruct H0 as [H0 H1]. split; [exact H0 |]. clear H0. revert H1. generalize (allowMessage ws (Some name) now g).2 as g1.
  induction ms as [| m ms IH]; intros g1 (b & Hb & Ht); cbn [foldl]; [intros type now'; by eapply spent_nan |].
  apply IH. by apply (spent_nan ws m.1 m.2 g1 b Hb Ht).
Qed.

(** ** Laws: the cap *)

Definition open_from (ip : string) (g : Gate) : Z := Z.of_nat (size (filter (fun x => x.2 = ip) (open g))).

(** An event the platform can deliver, with one end per socket. *)
Definition one_end (g : Gate) (e : GateEvent) : Prop :=
  match e with
  | Connect ws _ => open g !! ws = None
  | Errored ws ip | Closed ws ip => open g !! ws = Some ip
  | Message _ _ _ => True
  end.

Fixpoint ends_once (g : Gate) (es : list GateEvent) : Prop :=
  match es with [] => True | e :: es => one_end g e /\ ends_once (gate_step g e) es end.

Definition counted (g : Gate) : Prop :=
  forall ip, connectionsFor ip g = open_from ip g /\ 0 <= open_from ip g <= Z.max 0 (maxPerIp LIMITS).

Lemma open_from_insert g ws ip ip' : open g !! ws = None ->
  Z.of_nat (size (filter (fun x : nat * string => x.2 = ip') (<[ws := ip]> (open g)))) = open_from ip' g + (if decide (ip = ip') then 1 else 0).
Proof.
  intros Hn. unfold open_from. destruct (decide (ip = ip')) as [-> | Hne].
  - rewrite map_filter_insert_True by done. rewrite map_size_insert_None; [lia |]. apply map_lookup_filter_None. by left.
  - rewrite map_filter_insert_False by done. rewrite delete_id by done. lia.
Qed.

Lemma open_from_delete g ws ip ip' : open g !! ws = Some ip ->
  Z.of_nat (size (filter (fun x : nat * string => x.2 = ip') (delete ws (open g)))) = open_from ip' g - (if decide (ip = ip') then 1 else 0).
Proof.
  intros Hs. unfold open_from. rewrite map_filter_delete. destruct (decide (ip = ip')) as [-> | Hne].
  - assert (Hf : filter (fun x : nat * string => x.2 = ip') (open g) !! ws = Some ip') by (by apply map_lookup_filter_Some).
    rewrite map_size_delete_Some by eauto. assert (size (filter (fun x : nat * string => x.2 = ip') (open g)) <> 0%nat); [| lia].
    intros E%map_size_empty_inv. rewrite E in Hf. by rewrite lookup_empty in Hf.
  - rewrite delete_id; [lia |]. apply map_lookup_filter_None. right. intros x Hx. rewrite Hs in Hx. injection Hx as <-. done.
Qed.

Lemma connections_insert ip n g ip' :
  default 0 (<[ip := n]> (perIp g) !! ip') = if decide (ip = ip') then n else connectionsFor ip' g.
Proof. unfold connectionsFor. destruct (decide (ip = ip')) as [-> | Hne]; [by rewrite lookup_insert_eq | by rewrite lookup_insert_ne]. Qed.

Lemma connections_delete ip g ip' :
  default 0 (delete ip (perIp g) !! ip') = if decide (ip = ip') then 0 else connectionsFor ip' g.
Proof. unfold connectionsFor. destruct (decide (ip = ip')) as [-> | Hne]; [by rewrite lookup_delete_eq | by rewrite lookup_delete_ne]. Qed.

Lemma released ws ip g ip' : OFF = false -> 0 <= connectionsFor ip g ->
  connectionsFor ip' (releaseConnection ws ip g) = connectionsFor ip' g - (if decide (ip = ip') then Z.min 1 (connectionsFor ip g) else 0).
Proof.
  intros Hoff Hn. unfold releaseConnection. rewrite Hoff.
  change (connectionsFor ip (mkGate (delete ws (buckets g)) (perIp g) (open g))) with (connectionsFor ip g).
  set (n := connectionsFor ip g) in *. unfold connectionsFor at 1. cbn [perIp].
  destruct (Z.eqb_spec n 0) as [E | E].
  - change (1 - 1 <=? 0) with true. cbv iota. rewrite connections_delete. destruct (decide (ip = ip')) as [<- |]; lia.
  - destruct (Z.leb_spec (n - 1) 0); [rewrite connections_delete | rewrite connections_insert];
      destruct (decide (ip = ip')) as [<- |]; fold n; lia.
Qed.

Lemma counted_cleanup g ws ip : OFF = false -> counted g -> open g !! ws = Some ip -> counted (cleanup ws ip g).
Proof.
  intros Hoff C He ip'. unfold cleanup. set (g' := mkGate _ _ _). destruct (C ip) as [Ci Bi]. destruct (C ip') as [Cj Bj].
  change (connectionsFor ip g) with (connectionsFor ip g') in Ci. change (connectionsFor ip' g) with (connectionsFor ip' g') in Cj.
  rewrite released by (done || lia).
  assert (Eo : open_from ip' (releaseConnection ws ip g') = open_from ip' g - (if decide (ip = ip') then 1 else 0)).
  { unfold releaseConnection. rewrite Hoff. apply (open_from_delete g ws ip ip' He). }
  pose proof (open_from_delete g ws ip ip He) as Hpos. rewrite decide_True in Hpos by done.
  rewrite Eo. destruct (decide (ip = ip')) as [<- |]; lia.
Qed.

Lemma counted_step g e : OFF = false -> counted g -> one_end g e -> counted (gate_step g e).
Proof.
  intros Hoff C He. destruct e as [ws ip | ws ip | ws ip | ws type now]; cbn [gate_step one_end] in *;
    [| by apply counted_cleanup.. |].
  - intros ip'. unfold connectionAllowed. rewrite Hoff. destruct (C ip) as [Ci Bi].
    destruct (Z.leb_spec (maxPerIp LIMITS) (connectionsFor ip g)); [apply C |].
    unfold connectionsFor at 1, open_from. cbn [perIp open]. rewrite connections_insert, (open_from_insert g ws ip ip' He).
    destruct (C ip') as [Cj Bj]. destruct (decide (ip = ip')) as [<- |]; lia.
  - intros ip'. unfold allowMessage. rewrite Hoff. destruct (ltb _ _); apply C.
Qed.

Lemma counted_run g es : OFF = false -> counted g -> ends_once g es -> counted (gate_run g es).
Proof.
  intros Hoff. revert g. induction es as [| e es IH]; intros g C He; [done |]. destruct He as [He Hes].
  apply (IH (gate_step g e)); [by apply counted_step | done].
Qed.

Lemma boot_counted : counted gate_boot.
Proof. intros ip. unfold connectionsFor, open_from. cbn. rewrite lookup_empty. unfold gate_boot. cbn. rewrite map_filter_empty, map_size_empty. cbn. lia. Qed.

(** C40. The cap on an address holds while sockets end once.  Over any history of
    connections, messages and endings with one ending per socket, the count kept for
    an address is the number of its sockets that are open, and never passes the cap.
    But the handler releases a socket when it fails and again when it closes, so a
    socket that does both is subtracted twice, and the count falls below the sockets
    still open. *)
Theorem connections_are_capped es :
  OFF = false -> ends_once gate_boot es ->
  let g := gate_run gate_boot es in
  (forall ip, connectionsFor ip g = open_from ip g /\ open_from ip g <= Z.max 0 (maxPerIp LIMITS)) /\
  (forall ws ip, open g !! ws = Some ip -> 2 <= open_from ip g ->
     let g' := gate_run g [Errored ws ip; Closed ws ip] in
     open_from ip g' = open_from ip g - 1 /\ connectionsFor ip g' = open_from ip g' - 1).
Proof.
  intros Hoff He g. assert (C : counted g) by (by apply counted_run; [| apply boot_counted |]). split.
  - intros ip. destruct (C ip) as [E B]. split; [done | lia].
  - intros ws ip Hs H2. cbn [gate_run foldl gate_step].
    pose proof (counted_cleanup g ws ip Hoff C Hs) as C1. destruct (C1 ip) as [E1 B1].
    assert (Ho : forall g1, open (cleanup ws ip g1) = delete ws (open g1)).
    { intros g1. unfold cleanup, releaseConnection. by rewrite Hoff. }
    assert (O1 : open_from ip (cleanup ws ip g) = open_from ip g - 1).
    { unfold open_from. rewrite Ho. rewrite (open_from_delete g ws ip ip Hs), decide_True by done. reflexivity. }
    assert (O2 : open_from ip (cleanup ws ip (cleanup ws ip g)) = open_from ip g - 1).
    { unfold open_from at 1. rewrite !Ho, delete_delete_eq. by rewrite <- Ho. }
    split; [exact O2 |]. rewrite O2. unfold cleanup at 1. rewrite released; [| done |].
    + rewrite decide_True by done.
      change (connectionsFor ip (mkGate (buckets (cleanup ws ip g)) (perIp (cleanup ws ip g)) (delete ws (open (cleanup ws ip g)))))
        with (connectionsFor ip (cleanup ws ip g)). lia.
    + change (connectionsFor ip (mkGate (buckets (cleanup ws ip g)) (perIp (cleanup ws ip g)) (delete ws (open (cleanup ws ip g)))))
        with (connectionsFor ip (cleanup ws ip g)). lia.
Qed.
End Limits.

Definition toy_limits : Limits := mkLimits (of_Z 25) (of_Z 60) 2.

Lemma connections_are_capped_witness :
  let g := gate_run toy_limits false gate_boot [Connect 1 "a"; Connect 2 "a"; Connect 3 "a"; Connect 4 "b"] in
  connectionsFor "a" g = 2 /\
  (let g' := gate_run toy_limits false g [Errored 1 "a"; Closed 1 "a"] in
   open_from "a" g' = 1 /\ connectionsFor "a" g' = 0).
Proof.
  destruct (connections_are_capped toy_limits false [Connect 1 "a"; Connect 2 "a"; Connect 3 "a"; Connect 4 "b"] eq_refl
    ltac:(cbn [ends_once one_end]; split_and!; vm_compute; done)) as [A B].
  split; [vm_compute; reflexivity |].
  destruct (B 1%nat "a" ltac:(vm_compute; reflexivity) ltac:(vm_compute; discriminate)) as [B1 B2].
  cbv zeta in *. split; [rewrite B1 | rewrite B2, B1]; vm_compute; reflexivity.
Defined.
