(* ===== verification/EntryWindow.v ===== *)
(** * The entry window

    [er-demo/src/v2/data/programError.ts] and [entryWindow.ts]: how a refusal of
    the program is read off whatever a layer of the chain threw, and whether a
    deposit sent now could land, both answered in the same words.  The two error
    shapes are those of [chainErrorShapes.ts].  Text is a list of code units.

    Laws: a refusal reads the same from the base layer and from the rollup's
    router; the check before a deposit refuses whatever the program would, in the
    same words, and concedes the last two seconds of a lobby besides. *)
From S2P Require Import Prelude Text JsNum ErSim FightLaws Chain AutoSession AutoPolicy Json.

(** ** [programError.ts] *)

(** A thrown value, as far as it is read: fields that are not strings, and array
    elements that are not, are [None]. *)
Inductive Thrown : Type :=
| ThrownString (s : units)
| ThrownObject (message transactionMessage : option units) (logs transactionLogs : option (list (option units)))
| ThrownOther.

Definition joined (parts : list units) : units := separated [10] parts.

Definition errorText (e : Thrown) : units :=
  match e with
  | ThrownString s => s
  | ThrownOther => []
  | ThrownObject message transactionMessage logs transactionLogs =>
      let lines l := omap id (default [] l) in
      joined (omap id [message; transactionMessage] ++ lines logs ++ lines transactionLogs)
  end.

(** [\w], and the longest run of them. *)
Definition word_unit (c : Z) : bool :=
  digit c || ((65 <=? c) && (c <=? 90)) || ((97 <=? c) && (c <=? 122)) || (c =? 95).

Fixpoint run_of_word (l : units) : units :=
  match l with c :: l => if word_unit c then c :: run_of_word l else [] | [] => [] end.

(** The first position of the text at which the pattern matches. *)
Fixpoint search {A} (m : units -> option A) (l : units) : option A :=
  match m l with
  | Some a => Some a
  | None => match l with [] => None | _ :: l => search m l end
  end.

(** [/Error Code: (\w+)/] *)
Definition errorCodeAt (l : units) : option units :=
  match run_of_word <$> word (lit "Error Code: ") l with
  | Some (c :: w) => Some (c :: w)
  | _ => None
  end.

(** A literal ending in a word character, then [\b]. *)
Definition wholeWordAt (w l : units) : option unit :=
  match word w l with
  | Some (c :: _) => if word_unit c then None else Some tt
  | Some [] => Some tt
  | None => None
  end.

(** [code.toString(16)] of a natural number. *)
Fixpoint hex_go (fuel : nat) (z : Z) (acc : units) : units :=
  match fuel with
  | O => acc
  | S fuel => let acc := hex_digit (z mod 16) :: acc in if z <? 16 then acc else hex_go fuel (z / 16) acc
  end.

Definition hex (z : Z) : units := hex_go (S (Z.to_nat (Z.log2 z))) z [].

(** The case folding of the [i] flag, for a pattern of ASCII characters. *)
Definition fold_case (c : Z) : Z := if (65 <=? c) && (c <=? 90) then c + 32 else c.

Definition NUMBER_RE (code : Z) : units := lit "Error Number: " ++ digits code.
Definition HEX_RE (code : Z) : units := lit "custom program error: 0x" ++ hex code.

Definition failedWith (text errorName : units) (code : option Z) : bool :=
  match search errorCodeAt text with
  | Some named => bool_decide (named = errorName)
  | None =>
      match code with
      | None => false
      | Some code =>
          bool_decide (is_Some (search (wholeWordAt (NUMBER_RE code)) text))
          || bool_decide (is_Some (search (wholeWordAt (HEX_RE code)) (fold_case <$> text)))
      end
  end.

Definition errorCodeOf (errors : option (list (units * Z))) (errorName : units) : option Z :=
  errors ≫= assoc errorName.

(** ** [entryWindow.ts]: the refusals *)

Inductive EntryRefusalCode : Type := round_moved_on | entries_closed | round_full.

#[global] Instance EntryRefusalCode_eq_dec : EqDecision EntryRefusalCode.
Proof. solve_decision. Defined.

Record EntryRefusal : Type := mkRefusal { refusal_code : EntryRefusalCode; short : units; detail : units }.

Record EntryWindow : Type := mkWindow {
  w_roundNo : option Z;
  w_phase : PhaseName;
  w_lobbyClosesAtMs : option num;
  w_fighterCount : Z;
}.

Definition round_name (roundNo : option Z) : units :=
  match roundNo with None => lit "This round" | Some n => lit "Round " ++ digits n end.

(** U+2014. *)
Definition dash : units := [32; 8212; 32].

Definition NOTHING_MOVED : units := lit "Nothing was deposited and nothing was taken.".
Definition PRESS_AGAIN : units :=
  lit "Your stake is still set here" ++ dash ++ lit "press the same button again when the next lobby opens.".

Definition entryRefusalCopy (code : EntryRefusalCode) (roundNo : option Z) : EntryRefusal :=
  let n := round_name roundNo in
  match code with
  | round_moved_on =>
      mkRefusal code (lit "the round started fighting before your deposit arrived")
        (n ++ lit " started fighting while your wallet was open, so your deposit arrived too late and was refused. "
         ++ NOTHING_MOVED ++ lit " " ++ PRESS_AGAIN)
  | entries_closed =>
      mkRefusal code (lit "the lobby stopped taking deposits before yours arrived")
        (n ++ lit "'s entry deadline passed while your wallet was open, so it is no longer taking deposits and yours was refused. "
         ++ NOTHING_MOVED ++ lit " " ++ PRESS_AGAIN)
  | round_full =>
      mkRefusal code (lit "the round filled up before your deposit arrived")
        (n ++ lit " took its last seat while your wallet was open, so there was no room left and your deposit was refused. "
         ++ NOTHING_MOVED ++ lit " The next lobby starts empty" ++ dash
         ++ lit "your stake is still set here, so press the same button again when it opens.")
  end.

(** An [Error] as it is caught: its name, its message and the refusal it carries,
    if it carries an object. *)
Inductive Caught : Type :=
| CaughtError (name message : units) (carried : option EntryRefusal)
| CaughtOther.

Definition ENTRY_REFUSED : units := lit "EntryRefused".

Definition entryRefusedError (refusal : EntryRefusal) : Caught :=
  CaughtError ENTRY_REFUSED (detail refusal) (Some refusal).

Definition refusalOf (e : Caught) : option EntryRefusal :=
  match e with
  | CaughtError name _ carried => if bool_decide (name = ENTRY_REFUSED) then carried else None
  | CaughtOther => None
  end.

Definition entryRefusal (window : EntryWindow) (nowMs : num) : option EntryRefusal :=
  if negb (bool_decide (w_phase window = Lobby)) then Some (entryRefusalCopy round_moved_on (w_roundNo window)) else
  if MAX_FIGHTERS <=? w_fighterCount window then Some (entryRefusalCopy round_full (w_roundNo window)) else
  match w_lobbyClosesAtMs window with
  | Some closes =>
      if leb closes (add nowMs ENTRY_CLOSE_GUARD_MS) then Some (entryRefusalCopy entries_closed (w_roundNo window)) else None
  | None => None
  end.

Definition REFUSAL_BY_ERROR : list (units * EntryRefusalCode) :=
  [(lit "NotInLobby", round_moved_on); (lit "RoundFull", round_full); (lit "LobbyClosed", entries_closed)].

Definition enterErrorCodes (errors : option (list (units * Z))) : gmap units Z :=
  foldl (fun codes e => match errorCodeOf errors e.1 with Some code => <[e.1 := code]> codes | None => codes end)
    ∅ REFUSAL_BY_ERROR.

Definition refusalFromProgramError (e : Thrown) (codes : gmap units Z) (roundNo : option Z) : option EntryRefusal :=
  let text := errorText e in
  if bool_decide (text = []) then None else
  (fun row => entryRefusalCopy row.2 roundNo)
    <$> List.find (fun row => failedWith text row.1 (codes !! row.1)) REFUSAL_BY_ERROR.

(** ** The first deposit's warning *)

Definition APPROVAL_SECONDS (plan : SigningPlan) : num :=
  match plan with plan_session => of_Z 0 | open_then_session => of_Z 15 | plan_wallet _ => of_Z 8 end.

Definition firstDeployWarning (plan : SigningPlan) (secondsLeft : option num) : option units :=
  match secondsLeft with
  | None => None
  | Some seconds =>
      match unattendedSigning plan with
      | silent => None
      | blocked _ =>
      let budget := APPROVAL_SECONDS plan in
      if eqb budget (of_Z 0) || ltb budget seconds then None else
      Some (lit "Deposits here close in about " ++ show_num seconds ++ lit "s, and "
            ++ (match plan with
                | open_then_session => lit "your first deploy needs one Phantom approval before it can be sent"
                | _ => lit "this deploy needs one Phantom approval before it can be sent"
                end)
            ++ dash ++ lit "which usually takes longer than that. If the round closes first, nothing is lost: "
            ++ lit "press the same button again and it goes into the next lobby.")
      end
  end.

(** ** [chainErrorShapes.ts] *)

(** The rollup's router: no logs, and only the number in hexadecimal. *)
Definition routerError (number : units) : Thrown :=
  ThrownObject
    (Some (lit "Simulation failed. " ++ 10 :: lit "Message: solana rpc request error: RPC response error -32003: "
           ++ lit "transaction verification error: Error processing Instruction 0: custom program error: " ++ number
           ++ lit "; . " ++ 10 :: 10 :: lit "Catch the `SendTransactionError` and call `getLogs()` on it for full details."))
    (Some (lit "solana rpc request error: RPC response error -32003: transaction verification error: "
           ++ lit "Error processing Instruction 0: custom program error: " ++ number ++ lit "; "))
    None None.

Definition baseLayerLogs (name : units) (number : Z) (msg : units) (causedByAccount : option units) : list units :=
  let thrownIn :=
    match causedByAccount with
    | None => lit "Program log: AnchorError thrown in programs/bulls-arena/src/lib.rs:1557."
    | Some account => lit "Program log: AnchorError caused by account: " ++ account ++ lit "."
    end in
  [lit "Program ECD1dX2fUSGVY25y2cHWHWXYUQr9XzfFdTxcMzHj7zKe invoke [1]";
   lit "Program log: Instruction: Enter";
   thrownIn ++ lit " Error Code: " ++ name ++ lit ". Error Number: " ++ digits number ++ lit ". Error Message: " ++ msg ++ lit ".";
   lit "Program ECD1dX2fUSGVY25y2cHWHWXYUQr9XzfFdTxcMzHj7zKe consumed 7695 of 200000 compute units";
   lit "Program ECD1dX2fUSGVY25y2cHWHWXYUQr9XzfFdTxcMzHj7zKe failed: custom program error: 0x" ++ hex number].

(** The base layer: Anchor's log line, and the same number again. *)
Definition baseLayerError (name : units) (number : Z) (msg : units) (causedByAccount : option units) : Thrown :=
  let logs := baseLayerLogs name number msg causedByAccount in
  ThrownObject
    (Some (lit "Simulation failed. " ++ 10 :: lit "Message: Transaction simulation failed. " ++ 10 :: lit "Logs: " ++ 10 ::
           stringify [] (JArr (JStr <$> logs)) ++ lit ". "))
    (Some (lit "Transaction simulation failed: Error processing Instruction 0: custom program error: 0x" ++ hex number))
    None (Some (Some <$> logs)).

(** ** Laws of the search *)

(** No match can begin inside [pre], whatever follows it: at every position the
    pattern's literal and the text differ before [pre] ends. *)
Fixpoint clashes (w l : units) : bool :=
  match w, l with
  | c :: w, d :: l => if c =? d then clashes w l else true
  | _, _ => false
  end.

Fixpoint quiet (w pre : units) : bool :=
  match pre with [] => true | _ :: l => clashes w pre && quiet w l end.

(** [m] matches only where the literal [w] begins. *)
Definition begins {A} (w : units) (m : units -> option A) : Prop := forall l, word w l = None -> m l = None.

Lemma clash_word w l r : clashes w l = true -> word w (l ++ r) = None.
Proof.
  revert l. induction w as [| c w IH]; intros [| d l]; try done. cbn. destruct (c =? d); [apply IH | done].
Qed.

Lemma search_quiet {A} w (m : units -> option A) pre r : begins w m -> quiet w pre = true -> search m (pre ++ r) = search m r.
Proof.
  intros Hm. induction pre as [| c pre IH]; [done |]. cbn [quiet]. intros [Hc Hq]%andb_prop.
  change ((c :: pre) ++ r) with (c :: pre ++ r). cbn [search].
  by rewrite (Hm (c :: pre ++ r)) by apply (clash_word w (c :: pre) r Hc); apply IH.
Qed.

Lemma search_here {A} (m : units -> option A) l a : m l = Some a -> search m l = Some a.
Proof. intros H. destruct l; cbn; by rewrite H. Qed.

Lemma quiet_app w l r : quiet w l = true -> quiet w r = true -> quiet w (l ++ r) = true.
Proof.
  induction l as [| c l IH]; [done |]. cbn [quiet]. intros [Hc Hl]%andb_prop Hr. change ((c :: l) ++ r) with (c :: l ++ r).
  cbn [quiet]. rewrite IH by done. rewrite andb_true_r. clear IH Hl Hr. change (c :: l ++ r) with ((c :: l) ++ r). revert Hc.
  generalize (c :: l). clear. induction w as [| a w IH]; intros [| b l]; try done. cbn. destruct (a =? b); [apply IH | done].
Qed.

Lemma quiet_head c w l : Forall (fun d => d <> c) l -> quiet (c :: w) l = true.
Proof.
  induction 1 as [| d l Hd _ IH]; [done |]. cbn [quiet clashes]. rewrite IH, andb_true_r.
  by destruct (Z.eqb_spec c d); subst.
Qed.

(** A run of units other than the pattern's second one, and one more. *)
Lemma quiet_second a b w l c : Forall (fun d => d <> b) l -> c <> a -> c <> b -> quiet (a :: b :: w) (l ++ [c]) = true.
Proof.
  intros Hl Ha Hb. induction Hl as [| d l Hd Hl IH].
  - cbn. by destruct (Z.eqb_spec a c); subst.
  - change ((d :: l) ++ [c]) with (d :: (l ++ [c])). cbn [quiet]. rewrite IH, andb_true_r.
    destruct (l ++ [c]) as [| e l'] eqn:E; [by destruct l |].
    cbn. destruct (a =? d); [| done]. destruct (Z.eqb_spec b e) as [<- |]; [| done].
    exfalso. destruct l as [| x l]; cbn in E; [by injection E as -> |]. injection E as -> _. by inversion Hl.
Qed.

Lemma word_prefix w l : word w (w ++ l) = Some l.
Proof. induction w as [| c w IH]; [done |]. cbn. by rewrite Z.eqb_refl. Qed.

Lemma word_cat w v l : word (w ++ v) l = word w l ≫= word v.
Proof.
  revert l. induction w as [| c w IH]; intros l; [done |]. destruct l as [| d l]; [done |]. cbn. by destruct (c =? d).
Qed.

Lemma errorCode_needs : begins (lit "Error Code: ") errorCodeAt.
Proof. intros l H. unfold errorCodeAt. by rewrite H. Qed.

Lemma wholeWord_needs w v : begins w (wholeWordAt (w ++ v)).
Proof. intros l H. unfold wholeWordAt. by rewrite word_cat, H. Qed.

Lemma run_of_word_app l c r : Forall (fun d => word_unit d = true) l -> word_unit c = false -> run_of_word (l ++ c :: r) = l.
Proof. intros Hl Hc. induction Hl as [| d l Hd _ IH]; cbn; [by rewrite Hc |]. by rewrite Hd, IH. Qed.

(** Two whole words at one place are the same word. *)
Lemma wholeWord_same w v c r : Forall (fun d => word_unit d = true) w -> Forall (fun d => word_unit d = true) v -> word_unit c = false ->
  wholeWordAt w (v ++ c :: r) = if bool_decide (v = w) then Some tt else None.
Proof.
  intros Hw. revert v. induction Hw as [| a w Ha Hw IH]; intros v Hv Hc.
  - destruct Hv as [| b v Hb _]; unfold wholeWordAt; cbn; by rewrite ?Hc, ?Hb.
  - destruct Hv as [| b v Hb Hv].
    + unfold wholeWordAt. cbn. destruct (Z.eqb_spec a c) as [-> |]; [congruence | done].
    + unfold wholeWordAt in *. cbn. destruct (Z.eqb_spec a b) as [-> | Hn].
      * rewrite IH by done. do 2 case_bool_decide; congruence.
      * case_bool_decide; congruence.
Qed.

(** ** Laws of the printed numbers *)

Lemma hex_go_spec fuel z acc : 0 <= z < 16 ^ Z.of_nat fuel -> (0 < fuel)%nat ->
  exists ds, hex_go fuel z acc = ds ++ acc /\ Forall (fun c => hex_value c <> None) ds /\ Forall (fun c => 48 <= c <= 57 \/ 97 <= c <= 102) ds
    /\ foldl (fun n d => n * 16 + default 0 (hex_value d)) 0 ds = z.
Proof.
  revert z acc. induction fuel as [| fuel IH]; intros z acc Hz Hf; [lia |]. cbn [hex_go].
  pose proof (Z.mod_pos_bound z 16 ltac:(lia)) as Hm.
  assert (Hd : hex_value (hex_digit (z mod 16)) = Some (z mod 16)) by (apply hex_value_digit; lia).
  assert (Hw : 48 <= hex_digit (z mod 16) <= 57 \/ 97 <= hex_digit (z mod 16) <= 102).
  { unfold hex_digit. destruct (Z.ltb_spec (z mod 16) 10); lia. }
  destruct (Z.ltb_spec z 16) as [Hlt | Hge].
  - exists [hex_digit (z mod 16)]. split_and!; [done | | | cbn; rewrite Hd; cbn; rewrite Z.mod_small; lia].
    + by constructor; [rewrite Hd |].
    + by constructor.
  - rewrite Nat2Z.inj_succ, Z.pow_succ_r in Hz by lia.
    assert (Hq : 0 <= z / 16 < 16 ^ Z.of_nat fuel) by (split; [apply Z.div_pos; lia | apply Z.div_lt_upper_bound; lia]).
    destruct fuel as [| fuel]; [cbn in Hq; lia |].
    destruct (IH (z / 16) (hex_digit (z mod 16) :: acc) Hq ltac:(lia)) as (ds & -> & H1 & H2 & H3).
    exists (ds ++ [hex_digit (z mod 16)]). rewrite <- app_assoc. split_and!; [done | | |].
    + apply Forall_app_2; [done |]. by constructor; [rewrite Hd |].
    + apply Forall_app_2; [done |]. by constructor.
    + rewrite foldl_app, H3. cbn. rewrite Hd. cbn. pose proof (Z.div_mod z 16). lia.
Qed.

Lemma hex_spec z : 0 <= z ->
  Forall (fun c => 48 <= c <= 57 \/ 97 <= c <= 102) (hex z) /\ foldl (fun n d => n * 16 + default 0 (hex_value d)) 0 (hex z) = z.
Proof.
  intros Hz. destruct (hex_go_spec (S (Z.to_nat (Z.log2 z))) z []) as (ds & E & _ & H1 & H2); [| lia |].
  - split; [done |]. rewrite Nat2Z.inj_succ, Z2Nat.id by apply Z.log2_nonneg.
    destruct (decide (z = 0)) as [-> | Hn]; [done |].
    apply Z.lt_le_trans with (2 ^ Z.succ (Z.log2 z)); [apply Z.log2_spec; lia |]. apply Z.pow_le_mono_l. lia.
  - unfold hex. by rewrite E, app_nil_r.
Qed.

Lemma hex_inj a b : 0 <= a -> 0 <= b -> hex a = hex b -> a = b.
Proof. intros Ha Hb E. destruct (hex_spec a Ha) as [_ Ea], (hex_spec b Hb) as [_ Eb]. congruence. Qed.

Lemma hex_words z : 0 <= z -> Forall (fun c => word_unit c = true) (hex z).
Proof. intros [H _]%hex_spec. eapply Forall_impl; [exact H |]. intros c Hc. unfold word_unit, digit. cbn in Hc. lia. Qed.

Lemma fold_case_hex z : 0 <= z -> fold_case <$> hex z = hex z.
Proof.
  intros [H _]%hex_spec. induction H as [| c l Hc _ IH]; [done |]. rewrite fmap_cons, IH. f_equal. unfold fold_case.
  destruct (Z.leb_spec 65 c), (Z.leb_spec c 90); cbn; [lia | done..].
Qed.

(** ** The router's refusal *)

Definition HEX_PREFIX : units := lit "custom program error: 0x".

Lemma wholeWord_cat w v l : wholeWordAt (w ++ v) (w ++ l) = wholeWordAt v l.
Proof. unfold wholeWordAt. by rewrite word_cat, word_prefix. Qed.

(** A number in hexadecimal, where only it may match. *)
Lemma hex_search pre k c r : quiet HEX_PREFIX pre = true -> 0 <= k -> 0 <= c ->
  search (wholeWordAt (HEX_RE k)) (pre ++ HEX_PREFIX ++ hex c ++ 59 :: r)
  = if bool_decide (c = k) then Some tt else search (wholeWordAt (HEX_RE k)) r.
Proof.
  intros Hq Hk Hc. pose proof (wholeWord_needs HEX_PREFIX (hex k)) as Hn. change (HEX_PREFIX ++ hex k) with (HEX_RE k) in Hn.
  rewrite (search_quiet HEX_PREFIX) by done.
  assert (Hat : wholeWordAt (HEX_RE k) (HEX_PREFIX ++ hex c ++ 59 :: r) = if bool_decide (hex c = hex k) then Some tt else None).
  { unfold HEX_RE. rewrite (wholeWord_cat HEX_PREFIX). apply wholeWord_same; by (apply hex_words || reflexivity). }
  destruct (decide (c = k)) as [-> | Hne].
  - rewrite (bool_decide_eq_true_2 (k = k)) by done. apply search_here. rewrite Hat. by rewrite bool_decide_eq_true_2.
  - rewrite (bool_decide_eq_false_2 (c = k)) by done.
    rewrite bool_decide_eq_false_2 in Hat by (intros ?%hex_inj; done).
    assert (E : HEX_PREFIX ++ hex c ++ 59 :: r = 99 :: tail HEX_PREFIX ++ hex c ++ 59 :: r) by reflexivity.
    rewrite E in Hat |- *. cbn [search]. rewrite Hat. rewrite (search_quiet HEX_PREFIX) by done.
    change (59 :: r) with ([59] ++ r). rewrite app_assoc. apply (search_quiet HEX_PREFIX); [done |].
    apply (quiet_second 99 117); [| lia..].
    destruct (hex_spec c Hc) as [H _]. eapply Forall_impl; [exact H |]. cbn. lia.
Qed.

Definition ROUTER_1 : units :=
  lit "Simulation failed. " ++ 10 :: lit "Message: solana rpc request error: RPC response error -32003: transaction verification error: Error processing Instruction 0: ".
Definition ROUTER_2 : units :=
  lit " . " ++ 10 :: 10 :: lit "Catch the `SendTransactionError` and call `getLogs()` on it for full details." ++ 10 ::
  lit "solana rpc request error: RPC response error -32003: transaction verification error: Error processing Instruction 0: ".

Lemma router_text c : errorText (routerError (lit "0x" ++ hex c))
  = ROUTER_1 ++ HEX_PREFIX ++ hex c ++ 59 :: ROUTER_2 ++ HEX_PREFIX ++ hex c ++ [59; 32].
Proof.
  unfold errorText, routerError, joined, HEX_PREFIX, ROUTER_1, ROUTER_2. cbn [omap list_omap option_bind id default separated app].
  generalize (hex c). intros h. repeat (rewrite <- app_assoc || rewrite <- app_comm_cons). reflexivity.
Qed.

(** Nothing of the router's text is one of the other two forms. *)
Lemma router_quiet w c : quiet (69 :: w) ROUTER_1 = true -> quiet (69 :: w) ROUTER_2 = true -> quiet (69 :: w) HEX_PREFIX = true ->
  0 <= c -> quiet (69 :: w) (errorText (routerError (lit "0x" ++ hex c))) = true.
Proof.
  intros H1 H2 Hp Hc. rewrite router_text.
  assert (Hh : quiet (69 :: w) (hex c) = true).
  { apply quiet_head. destruct (hex_spec c Hc) as [H _]. eapply Forall_impl; [exact H |]. cbn. lia. }
  repeat (apply quiet_app; [done |]). apply (quiet_app _ [59]); [done |]. repeat (apply quiet_app; [done |]). done.
Qed.

Lemma search_none {A} w (m : units -> option A) l : begins w m -> w <> [] -> quiet w l = true -> search m l = None.
Proof.
  intros Hm Hw Hq. rewrite <- (app_nil_r l), (search_quiet w) by done. cbn. rewrite Hm; [done |]. by destruct w.
Qed.

Lemma fold_case_router c : 0 <= c -> fold_case <$> errorText (routerError (lit "0x" ++ hex c))
  = (fold_case <$> ROUTER_1) ++ HEX_PREFIX ++ hex c ++ 59 :: (fold_case <$> ROUTER_2) ++ HEX_PREFIX ++ hex c ++ [59; 32].
Proof. intros Hc. rewrite router_text. rewrite !fmap_app, fmap_cons, !fmap_app, fold_case_hex by done. reflexivity. Qed.

(** What the router's text says of a name: its number, when the IDL gives one. *)
Lemma router_failed c name code : 0 <= c -> (forall k, code = Some k -> 0 <= k) ->
  failedWith (errorText (routerError (lit "0x" ++ hex c))) name code = bool_decide (code = Some c).
Proof.
  intros Hc Hk. unfold failedWith.
  rewrite (search_none (lit "Error Code: ") errorCodeAt); [| apply errorCode_needs | done | by apply router_quiet].
  destruct code as [k |]; [| by rewrite bool_decide_eq_false_2]. specialize (Hk k eq_refl).
  rewrite (search_none (lit "Error Number: ") (wholeWordAt (NUMBER_RE k))); [| apply wholeWord_needs | done | by apply router_quiet].
  rewrite fold_case_router, !hex_search by done. rewrite (bool_decide_eq_false_2 (is_Some None)) by apply is_Some_None. cbn [orb].
  destruct (decide (c = k)) as [-> | Hn].
  - rewrite (bool_decide_eq_true_2 (k = k)) by done. by rewrite !bool_decide_eq_true_2.
  - rewrite !(bool_decide_eq_false_2 (c = k)) by done. rewrite (bool_decide_eq_false_2 (Some k = Some c)) by congruence.
    rewrite (search_none HEX_PREFIX (wholeWordAt (HEX_RE k))); [| apply wholeWord_needs | done | done].
    by rewrite bool_decide_eq_false_2 by apply is_Some_None.
Qed.

(** ** The base layer's refusal *)

(** A unit that JSON writes as it is. *)
Definition plain (c : Z) : bool := (32 <=? c) && (c <? 127) && negb (c =? 34) && negb (c =? 92).

Lemma escaped_plain l r : forallb plain l = true -> escaped (l ++ r) = l ++ escaped r.
Proof.
  induction l as [| c l IH]; [done |]. cbn [forallb]. intros [Hc Hl]%andb_prop. change ((c :: l) ++ r) with (c :: l ++ r).
  cbn [escaped]. rewrite IH by done. unfold plain in Hc.
  assert (E : short_escape c = None).
  { unfold short_escape. repeat match goal with |- context [?a =? ?b] => destruct (Z.eqb_spec a b); [lia |] end. done. }
  rewrite E. unfold leading, trailing.
  by rewrite (proj2 (Z.ltb_ge c 32)), (proj2 (Z.leb_gt 55296 c)), (proj2 (Z.leb_gt 56320 c)) by lia.
Qed.

Lemma escaped_all l : forallb plain l = true -> escaped l = l.
Proof. intros H. rewrite <- (app_nil_r l) at 1. rewrite escaped_plain by done. apply app_nil_r. Qed.

Definition is_word (l : units) : Prop := l <> [] /\ Forall (fun c => word_unit c = true) l.

Lemma word_plain l : Forall (fun c => word_unit c = true) l -> forallb plain l = true.
Proof.
  induction 1 as [| c l Hc _ IH]; [done |]. cbn. rewrite IH, andb_true_r. unfold word_unit, digit in Hc. unfold plain. lia.
Qed.

Definition BASE_1 : units :=
  lit "Simulation failed. " ++ 10 :: lit "Message: Transaction simulation failed. " ++ 10 :: lit "Logs: " ++ 10 :: 91 ::
  34 :: lit "Program ECD1dX2fUSGVY25y2cHWHWXYUQr9XzfFdTxcMzHj7zKe invoke [1]" ++ 34 :: 44 ::
  34 :: lit "Program log: Instruction: Enter" ++ 34 :: 44 :: 34 :: lit "Program log: Anchor".

Definition base_2 (causedByAccount : option units) : units :=
  match causedByAccount with
  | None => lit "Error thrown in programs/bulls-arena/src/lib.rs:1557."
  | Some account => lit "Error caused by account: " ++ account ++ lit "."
  end.

(** An account's field name is snake case. *)
Definition account_ok (causedByAccount : option units) : Prop :=
  forall account, causedByAccount = Some account -> Forall (fun c => word_unit c = true /\ c <> 69) account.

Lemma base_text name number msg account : is_word name -> account_ok account ->
  exists r, errorText (baseLayerError name number msg account)
  = (BASE_1 ++ base_2 account ++ [32]) ++ lit "Error Code: " ++ name ++ 46 :: r.
Proof.
  intros [_ Hn] Ha. unfold errorText, baseLayerError, joined. cbn [omap list_omap option_bind id default].
  unfold stringify. cbn [baseLayerLogs fmap list_fmap show_at line separated app].
  set (thrown := match account with None => _ | Some _ => _ end).
  assert (Et : thrown = lit "Program log: Anchor" ++ base_2 account) by (by destruct account).
  assert (Hp : forallb plain thrown = true).
  { rewrite Et. destruct account as [a |]; [| reflexivity]. cbn [base_2]. rewrite !forallb_app. 
    rewrite (word_plain a); [reflexivity |]. eapply Forall_impl; [by apply Ha |]. by intros ? []. }
  unfold quoted at 3. rewrite (escaped_plain thrown), (escaped_plain (lit " Error Code: ")), (escaped_plain name) by (done || by apply word_plain).
  rewrite (escaped_plain (lit ". Error Number: ")) by done.
  unfold quoted at 1 2. rewrite (escaped_all (lit "Program ECD1dX2fUSGVY25y2cHWHWXYUQr9XzfFdTxcMzHj7zKe invoke [1]")) by reflexivity.
  rewrite (escaped_all (lit "Program log: Instruction: Enter")) by reflexivity.
  rewrite Et. generalize (escaped (digits number ++ lit ". Error Message: " ++ msg ++ lit ".")). intros tail1.
  eexists. unfold BASE_1. repeat (rewrite <- app_assoc || rewrite <- app_comm_cons). reflexivity.
Qed.

Lemma base_failed name number msg account errorName code : is_word name -> account_ok account ->
  failedWith (errorText (baseLayerError name number msg account)) errorName code = bool_decide (name = errorName).
Proof.
  intros Hn Ha. destruct (base_text name number msg account Hn Ha) as [r ->]. destruct Hn as [Hne Hn]. unfold failedWith.
  rewrite (search_quiet (lit "Error Code: ")); [| apply errorCode_needs |].
  - rewrite (search_here errorCodeAt _ name); [done |]. unfold errorCodeAt. rewrite word_prefix. cbn [fmap option_fmap option_map].
    rewrite run_of_word_app by done. by destruct name.
  - apply quiet_app; [reflexivity |]. apply quiet_app; [| reflexivity]. destruct account as [a |]; [| reflexivity].
    cbn [base_2]. apply quiet_app; [reflexivity |]. apply quiet_app; [| reflexivity]. apply quiet_head.
    eapply Forall_impl; [by apply Ha |]. by intros ? [].
Qed.

Lemma errorText_object m t l k : m <> [] -> errorText (ThrownObject (Some m) t l k) <> [].
Proof. destruct m as [| c m]; [done |]. intros _. unfold errorText, joined. destruct t; cbn [omap list_omap option_bind id app separated]; [done |]. by destruct (_ ++ _). Qed.

(** ** The codes of the IDL *)

Lemma assoc_in {A} (errors : list (units * A)) name c : NoDup (errors.*1) -> (name, c) ∈ errors <-> assoc name errors = Some c.
Proof.
  unfold assoc. induction errors as [| [n k] l IH]; intros Hd; cbn [List.find].
  - split; [by intros ?%not_elem_of_nil | done].
  - rewrite fmap_cons, NoDup_cons in Hd. destruct Hd as [Hn Hd]. cbn [fst] in *. rewrite elem_of_cons. case_bool_decide as E.
    + subst n. cbn. split.
      * intros [[= ->] | Hin]; [done |]. exfalso. apply Hn. apply list_elem_of_fmap. by exists (name, c).
      * intros H. apply (inj Some) in H as ->. by left.
    + rewrite <- IH by done. split; [intros [[=] |]; congruence | by right].
Qed.

Lemma enterErrorCodes_lookup errors row : row ∈ REFUSAL_BY_ERROR -> enterErrorCodes errors !! row.1 = errorCodeOf errors row.1.
Proof.
  unfold enterErrorCodes, REFUSAL_BY_ERROR. cbn [foldl fst].
  set (a := lit "NotInLobby"). set (b := lit "RoundFull"). set (d := lit "LobbyClosed").
  assert (a <> b /\ b <> d /\ a <> d) as (H1 & H2 & H3) by (split_and!; discriminate).
  destruct (errorCodeOf errors a) eqn:Ea, (errorCodeOf errors b) eqn:Eb, (errorCodeOf errors d) eqn:Ed;
    intros [-> | [-> | [-> | []%not_elem_of_nil]%elem_of_cons]%elem_of_cons]%elem_of_cons; cbn [fst];
    rewrite ?Ea, ?Eb, ?Ed; repeat (rewrite lookup_insert_eq || rewrite lookup_insert_ne by done || rewrite lookup_empty); done.
Qed.

(** ** The properties *)

(** What the page should say of a refusal the program names. *)
Definition wording (name : units) (roundNo : option Z) : option EntryRefusal :=
  (fun code => entryRefusalCopy code roundNo) <$> assoc name REFUSAL_BY_ERROR.

(** The IDL's table of errors: names that are identifiers, codes that are not negative, no repetition. *)
Record idl_ok (errors : list (units * Z)) : Prop := {
  idl_names : NoDup (errors.*1);
  idl_codes : NoDup (errors.*2);
  idl_rows : Forall (fun e => is_word e.1 /\ 0 <= e.2) errors;
}.

Lemma refusal_finds e codes roundNo name : errorText e <> [] ->
  (forall row, row ∈ REFUSAL_BY_ERROR -> failedWith (errorText e) row.1 (codes !! row.1) = bool_decide (row.1 = name)) ->
  refusalFromProgramError e codes roundNo = wording name roundNo.
Proof.
  intros He Hf. unfold refusalFromProgramError, wording, assoc. rewrite bool_decide_eq_false_2 by done.
  assert (E : List.find (fun row => failedWith (errorText e) row.1 (codes !! row.1)) REFUSAL_BY_ERROR
    = List.find (fun row => bool_decide (row.1 = name)) REFUSAL_BY_ERROR).
  { revert Hf. generalize REFUSAL_BY_ERROR. induction l as [| row l IH]; [done |]. intros H. cbn. rewrite H by left.
    destruct (bool_decide _); [done |]. apply IH. intros r Hr. apply H. by right. }
  rewrite E. clear E. by destruct (List.find _ _).
Qed.

(** C28. A refusal reads the same whichever layer of the chain gave it.  For any
    error of the program's IDL, any message and any account it is blamed on, the
    page says of the base layer's error, which names it, and of the router's,
    which only has its number in hexadecimal, exactly what the table of refusals
    says of that name: one of the three sentences, or nothing at all, so every
    other error keeps the chain's own text.  Without an IDL the router's error is
    left alone, and the base layer's is read all the same. *)
Theorem refusal_same_on_both_layers (errors : list (units * Z)) name code msg account roundNo :
  idl_ok errors -> (name, code) ∈ errors -> account_ok account ->
  let base := baseLayerError name code msg account in
  let router := routerError (lit "0x" ++ hex code) in
  refusalFromProgramError base (enterErrorCodes (Some errors)) roundNo = wording name roundNo
  /\ refusalFromProgramError router (enterErrorCodes (Some errors)) roundNo = wording name roundNo
  /\ refusalFromProgramError base (enterErrorCodes None) roundNo = wording name roundNo
  /\ refusalFromProgramError router (enterErrorCodes None) roundNo = None.
Proof.
  intros [Hn Hk Hr] Hin Ha. destruct (proj1 (Forall_forall _ _) Hr _ Hin) as [Hw Hc]. cbn in Hw, Hc. intros base router.
  assert (Hbase : forall codes, refusalFromProgramError base codes roundNo = wording name roundNo).
  { intros codes. apply refusal_finds; [by apply errorText_object |]. intros row _. unfold base.
    rewrite base_failed by done. apply bool_decide_ext. split; congruence. }
  split_and!; [apply Hbase | | apply Hbase |].
  - apply refusal_finds; [by apply errorText_object |]. intros row Hrow. rewrite enterErrorCodes_lookup by done.
    assert (Hof : forall k, errorCodeOf (Some errors) row.1 = Some k -> (row.1, k) ∈ errors) by (intros k; apply assoc_in, Hn).
    unfold router. rewrite router_failed; [| done |].
    + apply bool_decide_ext. split.
      * intros H. apply Hof in H. destruct (proj1 (list_elem_of_lookup _ _) H) as [i Hi], (proj1 (list_elem_of_lookup _ _) Hin) as [j Hj].
        assert (i = j) as -> by (eapply (NoDup_lookup _ i j code Hk); by rewrite list_lookup_fmap, ?Hi, ?Hj). congruence.
      * intros ->. by apply assoc_in.
    + intros k H. apply Hof in H. by apply (proj1 (Forall_forall _ _) Hr) in H as [_ H].
  - unfold refusalFromProgramError. rewrite bool_decide_eq_false_2 by (by apply errorText_object).
    unfold REFUSAL_BY_ERROR, router. cbn [List.find fst]. rewrite !router_failed by (done || intros ? [=]).
    change (enterErrorCodes None) with (∅ : gmap units Z). rewrite !lookup_empty. by rewrite !bool_decide_eq_false_2.
Qed.

Definition TEST_IDL : list (units * Z) :=
  [(lit "NotInLobby", 6002); (lit "BadSide", 6003); (lit "RoundFull", 6007); (lit "LobbyClosed", 6024)].

Lemma test_idl_ok : idl_ok TEST_IDL.
Proof.
  constructor; [apply (bool_decide_unpack _); vm_compute; exact I..|].
  repeat apply List.Forall_cons; try apply List.Forall_nil; (split; [split; [discriminate | apply Forall_forall; intros c Hc%list_elem_of_In; revert c Hc; by apply (forallb_forall word_unit)] | vm_compute; discriminate]).
Qed.

(** The guards of the program's [enter] ([programs/bulls-arena/src/lib.rs]), in the
    order of its [require!]s, and the error each one throws; [closes] and [now] are
    the account's and the validator's seconds. *)
Definition program_guards (phase : PhaseName) (side stake fighterCount closes now : Z) : list (units * bool) :=
  [(lit "NotInLobby", bool_decide (phase = Lobby));
   (lit "BadSide", (side =? 0) || (side =? 1));
   (lit "ZeroStake", 0 <? stake);
   (lit "RoundFull", fighterCount <? MAX_FIGHTERS);
   (lit "LobbyClosed", now <? closes)].

Definition first_failing (guards : list (units * bool)) : option units :=
  fst <$> List.find (fun g => negb g.2) guards.

(** The window as the page reads it off the round's account. *)
Definition window_of (roundNo : option Z) (phase : PhaseName) (fighterCount closes : Z) : EntryWindow :=
  mkWindow roundNo phase (Some (of_Z (1000 * closes))) fighterCount.

Lemma window_cases roundNo phase count closes ms : 0 < closes < 2 ^ 39 -> 0 <= ms < 2 ^ 49 ->
  entryRefusal (window_of roundNo phase count closes) (of_Z ms)
  = if negb (bool_decide (phase = Lobby)) then wording (lit "NotInLobby") roundNo
    else if MAX_FIGHTERS <=? count then wording (lit "RoundFull") roundNo
    else if 1000 * closes <=? ms + 2000 then wording (lit "LobbyClosed") roundNo else None.
Proof.
  intros Hc Hm. unfold entryRefusal, window_of. cbn [w_phase w_fighterCount w_lobbyClosesAtMs w_roundNo].
  unfold ENTRY_CLOSE_GUARD_MS. rewrite add_int, leb_int by (unfold safe; lia).
  destruct (negb _); [reflexivity |]. destruct (MAX_FIGHTERS <=? count); [reflexivity |]. by destruct (_ <=? _).
Qed.

Lemma guards_cases phase side stake count closes now : (side =? 0) || (side =? 1) = true -> 0 < stake ->
  first_failing (program_guards phase side stake count closes now)
  = if negb (bool_decide (phase = Lobby)) then Some (lit "NotInLobby")
    else if MAX_FIGHTERS <=? count then Some (lit "RoundFull")
    else if closes <=? now then Some (lit "LobbyClosed") else None.
Proof.
  intros Hs Hk. unfold first_failing, program_guards. cbn [List.find snd]. rewrite Hs, (proj2 (Z.ltb_lt _ _) Hk), !Z.leb_antisym.
  destruct (bool_decide _); cbn [negb]; [| reflexivity]. destruct (count <? MAX_FIGHTERS); cbn [negb]; [| reflexivity].
  by destruct (now <? closes).
Qed.

(** C38. The check made before a deposit, against the guards of the program's
    [enter].  For a side and a stake the program takes, which the check does not
    look at, and a lobby with a deadline, at any millisecond: whatever the program
    would refuse in that second the check refuses, with the sentence of the
    program's own error, in the program's order (a full room is told it is full even
    when it is also late); otherwise it refuses only in the last two seconds of the
    lobby, which the program would still take and the page concedes.  What it lets
    go, the program takes in any second up to two seconds later, the round being
    otherwise as it was read; and it lets go exactly when the page's entry window is
    open and a seat is free.  It refuses whatever the reference fight refuses for
    room, and one thing it takes: a player already seated in a full room, whose
    repeat deposit the reference tops up, is refused, as the program refuses it. *)
Theorem precheck_is_the_programs roundNo phase side stake count closes ms :
  (side =? 0) || (side =? 1) = true -> 0 < stake -> 0 < closes < 2 ^ 39 -> 0 <= ms < 2 ^ 49 ->
  let w := window_of roundNo phase count closes in
  let refused now := first_failing (program_guards phase side stake count closes now) in
  entryRefusal w (of_Z ms) = match refused (ms / 1000) with
                             | Some name => wording name roundNo
                             | None => if 1000 * closes <=? ms + 2000 then wording (lit "LobbyClosed") roundNo else None
                             end
  /\ (forall name, refused (ms / 1000) = Some name -> is_Some (entryRefusal w (of_Z ms)))
  /\ (entryRefusal w (of_Z ms) = None -> forall now, 1000 * now <= ms + 2000 -> refused now = None)
  /\ (entryRefusal w (of_Z ms) = None <-> entriesOpen (Some (phase, w_lobbyClosesAtMs w)) (of_Z ms) = true /\ count < MAX_FIGHTERS)
  /\ forall r player s gross feeBps, phase = Lobby -> count = Z.of_nat (length (fighters r)) ->
     (enter r player s gross feeBps = Throw RoundFull -> entryRefusal w (of_Z ms) = wording (lit "RoundFull") roundNo)
     /\ (0 < gross -> (player, s) ∈ (key <$> fighters r) -> MAX_FIGHTERS <= Z.of_nat (length (fighters r)) ->
         (exists r', enter r player s gross feeBps = Done r') /\ entryRefusal w (of_Z ms) = wording (lit "RoundFull") roundNo).
Proof.
  intros Hs Hk Hc Hm w refused. assert (Hr : forall now, refused now = _) by (intros now; exact (guards_cases phase side stake count closes now Hs Hk)).
  pose proof (window_cases roundNo phase count closes ms Hc Hm) as Hw. fold w in Hw. rewrite Hw.
  pose proof (Z.mul_div_le ms 1000 ltac:(lia)) as Hd. pose proof (Z.mul_succ_div_gt ms 1000 ltac:(lia)) as Hd'.
  split_and!.
  - rewrite Hr. destruct (negb _); [done |]. destruct (MAX_FIGHTERS <=? count); [done |].
    destruct (Z.leb_spec closes (ms / 1000)); [| done]. by rewrite (proj2 (Z.leb_le _ _)) by lia.
  - intros name. rewrite Hr. destruct (negb _); [by eexists |]. destruct (MAX_FIGHTERS <=? count); [by eexists |].
    destruct (Z.leb_spec closes (ms / 1000)); [| done]. rewrite (proj2 (Z.leb_le _ _)) by lia. by eexists.
  - intros Hnone now Hnow. rewrite Hr. destruct (negb _); [discriminate Hnone |]. destruct (MAX_FIGHTERS <=? count); [discriminate Hnone |].
    destruct (Z.leb_spec (1000 * closes) (ms + 2000)); [discriminate Hnone |]. by rewrite (proj2 (Z.leb_gt _ _)) by lia.
  - subst w. unfold window_of. cbn [w_lobbyClosesAtMs entriesOpen]. case_bool_decide as Hp; cbn [negb].
    + rewrite Hp. unfold ENTRY_CLOSE_GUARD_MS. rewrite add_int, ltb_int by (unfold safe; lia).
      destruct (Z.leb_spec MAX_FIGHTERS count); [split; [discriminate | lia] |].
      destruct (Z.leb_spec (1000 * closes) (ms + 2000)); (split; [| intros [H1%Z.ltb_lt H2]; done || lia]); [discriminate | split; [apply Z.ltb_lt; lia | lia]].
    + split; [discriminate |]. intros [H1 _]. by destruct phase.
  - intros r player s gross feeBps -> Hlen. rewrite bool_decide_eq_true_2 by done. cbn [negb].
    pose proof (enter_seats r player s gross feeBps) as He. split.
    + intros E. rewrite E in He. rewrite (proj2 (Z.leb_le _ _)) by lia. done.
    + intros Hg Hin Hf. split; [| by rewrite (proj2 (Z.leb_le _ _)) by lia].
      destruct (enter r player s gross feeBps) as [r' | []]; try done; try lia; [by exists r' | by destruct He].
Qed.

Lemma wording_full n : wording (lit "RoundFull") n = Some (entryRefusalCopy round_full n).
Proof. reflexivity. Qed.

Lemma wording_closed n : wording (lit "LobbyClosed") n = Some (entryRefusalCopy entries_closed n).
Proof. reflexivity. Qed.

Lemma refusal_same_on_both_layers_witness :
  hex 6007 = lit "1777"
  /\ refusalFromProgramError (baseLayerError (lit "RoundFull") 6007 (lit "round is full") (Some (lit "round")))
       (enterErrorCodes (Some TEST_IDL)) (Some 42) = Some (entryRefusalCopy round_full (Some 42))
  /\ refusalFromProgramError (routerError (lit "0x" ++ hex 6007)) (enterErrorCodes (Some TEST_IDL)) (Some 42)
     = Some (entryRefusalCopy round_full (Some 42)).
Proof.
  rewrite <- !wording_full. split; [vm_compute; reflexivity |].
  destruct (refusal_same_on_both_layers TEST_IDL (lit "RoundFull") 6007 (lit "round is full") (Some (lit "round")) (Some 42))
    as (H1 & H2 & _).
  - exact test_idl_ok.
  - right. right. left.
  - intros account E. injection E as <-. repeat apply List.Forall_cons; try apply List.Forall_nil; by split.
  - split; [exact H1 | exact H2].
Defined.

(** A lobby that closes at second 100: full and past it; past it; a second before it,
    which the program would take; three seconds before it. *)
Lemma precheck_is_the_programs_witness :
  entryRefusal (window_of (Some 42) Lobby 48 100) (of_Z 101000) = Some (entryRefusalCopy round_full (Some 42))
  /\ entryRefusal (window_of (Some 42) Lobby 47 100) (of_Z 101000) = Some (entryRefusalCopy entries_closed (Some 42))
  /\ entryRefusal (window_of (Some 42) Lobby 47 100) (of_Z 99000) = Some (entryRefusalCopy entries_closed (Some 42))
  /\ first_failing (program_guards Lobby 0 5 47 100 99) = None
  /\ entryRefusal (window_of (Some 42) Lobby 47 100) (of_Z 97000) = None.
Proof.
  rewrite <- wording_full, <- wording_closed.
  pose proof (fun count ms => precheck_is_the_programs (Some 42) Lobby 0 5 count 100 ms eq_refl ltac:(lia) ltac:(lia)) as H.
  split; [rewrite (proj1 (H 48 101000 ltac:(lia))); vm_compute; reflexivity |].
  split; [rewrite (proj1 (H 47 101000 ltac:(lia))); vm_compute; reflexivity |].
  split; [rewrite (proj1 (H 47 99000 ltac:(lia))); vm_compute; reflexivity |].
  split; [vm_compute; reflexivity |]. rewrite (proj1 (H 47 97000 ltac:(lia))). vm_compute. reflexivity.
Defined.
