(* ===== verification/EngineGame.v ===== *)
(** * The first-generation battle

    [engine/src/game.ts], whole: the seeded random stream, the matched book, one
    tick of movement and collisions, the settlement and the verifier.  Numbers
    are doubles; [Math.sqrt] and [Math.hypot], which the language leaves to the
    implementation, are the interface [Approx].  The array [A] of live fighters
    holds references into [F]: it is a list of positions of [F].

    Laws: the fight ends; replaying the log of hits gives the same money; a hit is
    never within a side, within a wallet, or on a fighter already out. *)
From S2P Require Import Prelude Text JsNum Int32 Json.

(** The functions of [Math] whose last digits the language does not fix. *)
Class Approx : Type := { sqrt : num -> num; hypot : num -> num -> num }.

(** The decimal literal [n / 10^k]. *)
Definition dec (n k : Z) : num := of_ratio (n * one) (10 ^ k).

Inductive Side : Type := bull | uwu.
Inductive Mode : Type := normal | extraction.

#[global] Instance Side_eq_dec : EqDecision Side.
Proof. solve_decision. Defined.
#[global] Instance Mode_eq_dec : EqDecision Mode.
Proof. solve_decision. Defined.

Definition other (s : Side) : Side := match s with bull => uwu | uwu => bull end.

Record Entry : Type := mkEntry { en_id : units; en_side : Side; en_stake : num }.

(** What a fighter holds and has counted. *)
Record Purse : Type := mkPurse {
  p_bull : num; p_uwu : num; p_sBull : num; p_sUwu : num;
  p_raided : num; p_dmgDealt : num; p_dmgTaken : num; p_bestHit : num;
}.

(** Where it is. *)
Record Body : Type := mkBody { b_x : num; b_y : num; b_vx : num; b_vy : num; b_r : num }.

Record Fighter : Type := mkFighter {
  f_id : units; f_side : Side; f_deposited : num; f_unmatched : num;
  f_purse : Purse; f_dead : bool; f_body : Body;
}.

Record RoundConfig : Type := mkConfig {
  c_mode : Mode; c_multiplier : num; c_base : num; c_hitCapFrac : num; c_battleMs : num; c_tickMs : num; c_dust : num;
  c_matchTol : option num;
}.

Record HitLog : Type := mkHit { h_t : Z; h_atk : units; h_def : units; h_amt : num; h_tk : Side }.

Definition ARENA_w : num := of_Z 900.
Definition ARENA_h : num := of_Z 560.
Definition COMBAT_speed : num := of_Z 112.
Definition COMBAT_accel : num := of_Z 300.
Definition COMBAT_hitCd : num := of_Z 380.
Definition COMBAT_knock : num := of_Z 46.
Definition FINISH_RATIO : num := dec 8 2.
Definition SMALL_EDGE : num := dec 103 2.
Definition DUST_FRAC : num := dec 3 2.
Definition SIZE_WEIGHT : num := dec 9 1.

Definition dustFor (f : Fighter) : num := max (dec 5 3) (mul (f_deposited f) DUST_FRAC).

(** ** The random stream *)

(** The seed's state after its characters. *)
Definition xmur3_absorb (str : units) : Z :=
  foldl (fun h c => let h := imul (xor32 h c) 3432918353 in or32 (shl h 13) (ushr h 19))
    (xor32 1779033703 (Z.of_nat (length str))) str.

(** One call of the function [xmur3] returns: the value, and the state after it. *)
Definition xmur3_next (h : Z) : Z * Z :=
  let h := imul (xor32 h (ushr h 16)) 2246822507 in
  let h := imul (xor32 h (ushr h 13)) 3266489909 in
  let h := xor32 h (ushr h 16) in
  (ToUint32 h, h).

Record Rng : Type := mkRng { rng_a : Z; rng_b : Z; rng_c : Z; rng_d : Z }.

Definition sfc32 (s : Rng) : num * Rng :=
  let a := ToUint32 (rng_a s) in let b := ToUint32 (rng_b s) in let c := ToUint32 (rng_c s) in let d := ToUint32 (rng_d s) in
  let t := ToInt32 (a + b) in
  let a := xor32 b (ushr b 9) in
  let b := ToInt32 (c + shl c 3) in
  let c := or32 (shl c 21) (ushr c 11) in
  let d := ToInt32 (d + 1) in
  let t := ToInt32 (t + d) in
  let c := ToInt32 (c + t) in
  (div (of_Z (ToUint32 t)) (of_Z 4294967296), mkRng a b c d).

Definition rngFromSeed (seed : units) : Rng :=
  let '(a, h) := xmur3_next (xmur3_absorb seed) in
  let '(b, h) := xmur3_next h in
  let '(c, h) := xmur3_next h in
  let '(d, _) := xmur3_next h in
  mkRng a b c d.

(** [rand(a, b)], and the roll of a blow: a draw to choose the range, then one in it. *)
Definition rand (lo hi : num) (s : Rng) : num * Rng :=
  let '(u, s) := sfc32 s in (add lo (mul u (sub hi lo)), s).

Definition roll (s : Rng) : num * Rng :=
  let '(u, s) := sfc32 s in
  if ltb u (dec 88 2) then rand (dec 2 1) (dec 15 1) s
  else if ltb u (dec 97 2) then rand (dec 15 1) (of_Z 4) s
  else rand (of_Z 4) (of_Z 13) s.

(** ** Holdings *)

Definition ring_of (p : Purse) : num := add (p_bull p) (p_uwu p).
Definition ring (f : Fighter) : num := ring_of (f_purse f).
Definition aliveF (f : Fighter) : bool := negb (f_dead f) && ltb (dustFor f) (ring f).
Definition clamp (v a b : num) : num := if ltb v a then a else if ltb b v then b else v.
Definition abs (x : num) : num := if ltb x (of_Z 0) then neg x else x.

(** [x || d] of numbers. *)
Definition or_else (x d : num) : num := if is_nan x || eqb x (of_Z 0) then d else x.

(** The wallet of an entry: [id.split("|")[0]]. *)
Fixpoint wallet_of (id : units) : units :=
  match id with [] => [] | c :: id => if c =? 124 then [] else c :: wallet_of id end.

(** [a < b] on strings. *)
Fixpoint units_lt (a b : units) : bool :=
  match a, b with
  | _, [] => false
  | [], _ :: _ => true
  | x :: a, y :: b => (x <? y) || ((x =? y) && units_lt a b)
  end.

Definition pair_key (a b : units) : units := if units_lt a b then a ++ 124 :: b else b ++ 124 :: a.

Definition with_body (g : Body -> Body) (f : Fighter) : Fighter :=
  mkFighter (f_id f) (f_side f) (f_deposited f) (f_unmatched f) (f_purse f) (f_dead f) (g (f_body f)).
Definition with_purse (g : Purse -> Purse) (f : Fighter) : Fighter :=
  mkFighter (f_id f) (f_side f) (f_deposited f) (f_unmatched f) (g (f_purse f)) (f_dead f) (f_body f).

Definition coin (tk : Side) (p : Purse) : num := match tk with bull => p_bull p | uwu => p_uwu p end.

Record SimState : Type := mkSim {
  s_rnd : Rng; s_F : list Fighter; s_hits : list HitLog; s_t : Z; s_steps : num; s_cfg : RoundConfig;
  s_pairCd : gmap units num; s_endTick : num; s_done : bool;
}.

Section Fight.
Context `{Approx}.

Definition radiusFor (f : Fighter) : num := clamp (add (of_Z 13) (mul (dec 19 1) (sqrt (ring f)))) (of_Z 13) (of_Z 30).

(** ** The lineup *)

Definition total (s : Side) (entries : list Entry) : num :=
  foldl (fun t e => if decide (en_side e = s) then add t (en_stake e) else t) (of_Z 0) entries.

(** The share of a side's stakes the other side can cover. *)
Definition inPlayFrac (cfg : RoundConfig) (entries : list Entry) (s : Side) : num :=
  let tol := match c_matchTol cfg with Some x => or_else x (of_Z 0) | None => of_Z 0 end in
  let tot := total s entries in
  if ltb (of_Z 0) tot then min (of_Z 1) (div (mul (total (other s) entries) (add (of_Z 1) tol)) tot) else of_Z 1.

Definition spawn (frac : Side -> num) (e : Entry) (s : Rng) : Fighter * Rng :=
  let inPlay := mul (en_stake e) (frac (en_side e)) in
  let '(vx, s) := rand (of_Z (-1)) (of_Z 1) s in
  let '(vy, s) := rand (of_Z (-1)) (of_Z 1) s in
  let '(x, s) := match en_side e with
                 | bull => rand (of_Z 30) (mul ARENA_w (dec 34 2)) s
                 | uwu => rand (mul ARENA_w (dec 66 2)) (sub ARENA_w (of_Z 30)) s
                 end in
  let '(y, s) := rand (of_Z 40) (sub ARENA_h (of_Z 40)) s in
  let zero := of_Z 0 in
  let purse := match en_side e with
               | bull => mkPurse inPlay zero zero zero zero zero zero zero
               | uwu => mkPurse zero inPlay zero zero zero zero zero zero
               end in
  let f := mkFighter (en_id e) (en_side e) (en_stake e) (sub (en_stake e) inPlay) purse false (mkBody x y vx vy (of_Z 12)) in
  (with_body (fun b => mkBody (b_x b) (b_y b) (b_vx b) (b_vy b) (radiusFor f)) f, s).

Fixpoint spawn_all (frac : Side -> num) (entries : list Entry) (s : Rng) : list Fighter * Rng :=
  match entries with
  | [] => ([], s)
  | e :: es => let '(f, s) := spawn frac e s in let '(fs, s) := spawn_all frac es s in (f :: fs, s)
  end.

Definition createSim (seed : units) (entries : list Entry) (cfg : RoundConfig) : SimState :=
  let '(F, rnd) := spawn_all (inPlayFrac cfg entries) entries (rngFromSeed seed) in
  let steps := floor (div (c_battleMs cfg) (c_tickMs cfg)) in
  mkSim rnd F [] 0 steps cfg ∅ steps false.

(** ** Movement *)

(** The opponent a fighter seeks: the least distance weighted by the mismatch of
    sizes, the first of equals; never a fighter of the same wallet. *)
Definition seek_score (p q : Fighter) : num :=
  let rp := max (dec 1 2) (ring p) in
  let dx := sub (b_x (f_body q)) (b_x (f_body p)) in
  let dy := sub (b_y (f_body q)) (b_y (f_body p)) in
  let d := sqrt (add (mul dx dx) (mul dy dy)) in
  let rq := max (dec 1 2) (ring q) in
  let ratio := min (if ltb rq rp then div rp rq else div rq rp) (of_Z 8) in
  mul d (add (of_Z 1) (mul SIZE_WEIGHT (sub ratio (of_Z 1)))).

Definition foes (p q : Fighter) : bool :=
  negb (bool_decide (f_side q = f_side p)) && negb (bool_decide (wallet_of (f_id q) = wallet_of (f_id p))).

Definition seek (F : list Fighter) (A : list nat) (p : Fighter) : option Fighter :=
  (foldl (fun best j =>
    match F !! j with
    | Some q => if foes p q then let score := seek_score p q in if ltb score best.2 then (Some q, score) else best else best
    | None => best
    end) (None, of_Z (10 ^ 18)) A).1.

(** The walls: [if (p.x < p.r)], [if (p.x > ARENA.w - p.r)], and the same below. *)
Definition bounce (w r : num) (x v : num) : num * num :=
  let '(x, v) := if ltb x r then (r, abs v) else (x, v) in
  if ltb (sub w r) x then (sub w r, neg (abs v)) else (x, v).

Definition ramp_at (t : Z) (steps : num) : num := add (of_Z 1) (mul (dec 16 1) (div (of_Z t) steps)).

Definition move (F : list Fighter) (A : list nat) (dt ramp : num) (p : Fighter) (s : Rng) : Fighter * Rng :=
  let p := with_body (fun b => mkBody (b_x b) (b_y b) (b_vx b) (b_vy b)
             (add (b_r b) (mul (sub (radiusFor p) (b_r b)) (dec 15 2)))) p in
  let b := f_body p in
  let '(vx, vy) :=
    match seek F A p with
    | None => (b_vx b, b_vy b)
    | Some tgt =>
        let ax := sub (b_x (f_body tgt)) (b_x b) in
        let ay := sub (b_y (f_body tgt)) (b_y b) in
        let al := or_else (hypot ax ay) (of_Z 1) in
        (add (b_vx b) (mul (mul (mul (div ax al) COMBAT_accel) ramp) dt),
         add (b_vy b) (mul (mul (mul (div ay al) COMBAT_accel) ramp) dt))
    end in
  let '(jx, s) := rand (of_Z (-8)) (of_Z 8) s in
  let '(jy, s) := rand (of_Z (-8)) (of_Z 8) s in
  let vx := add vx (mul jx dt) in
  let vy := add vy (mul jy dt) in
  let sp := or_else (hypot vx vy) (dec 1 3) in
  let mx := mul (mul COMBAT_speed ramp) (dec 14 1) in
  let '(vx, vy) := if ltb mx sp then (mul vx (div mx sp), mul vy (div mx sp)) else (vx, vy) in
  let '(x, vx) := bounce ARENA_w (b_r b) (add (b_x b) (mul vx dt)) vx in
  let '(y, vy) := bounce ARENA_h (b_r b) (add (b_y b) (mul vy dt)) vy in
  (with_body (fun _ => mkBody x y vx vy (b_r b)) p, s).

(** Each fighter of [todo] in turn, among those already moved. *)
Fixpoint move_all (A : list nat) (dt ramp : num) (todo : list nat) (F : list Fighter) (s : Rng) : list Fighter * Rng :=
  match todo with
  | [] => (F, s)
  | i :: todo =>
      match F !! i with
      | Some p => let '(p, s) := move F A dt ramp p s in move_all A dt ramp todo (<[i := p]> F) s
      | None => move_all A dt ramp todo F s
      end
  end.

(** ** A clash *)

Record Blow : Type := mkBlow { bl_tk : Side; bl_amt : num }.

(** Stolen coins are lost first. *)
Definition planHit (def : Fighter) (snap : Purse) (dmg : num) : Blow :=
  let takeEnemy := ltb (dec 5 2) (coin (other (f_side def)) snap) in
  let tk := if takeEnemy then other (f_side def) else f_side def in
  mkBlow tk (min dmg (coin tk snap)).

Definition lose (tk : Side) (amt : num) (p : Purse) : Purse :=
  let taken := add (p_dmgTaken p) amt in
  match tk with
  | bull => mkPurse (sub (p_bull p) amt) (p_uwu p) (p_sBull p) (p_sUwu p) (p_raided p) (p_dmgDealt p) taken (p_bestHit p)
  | uwu => mkPurse (p_bull p) (sub (p_uwu p) amt) (p_sBull p) (p_sUwu p) (p_raided p) (p_dmgDealt p) taken (p_bestHit p)
  end.

Definition gain (mode : Mode) (tk : Side) (amt : num) (p : Purse) : Purse :=
  let raided := add (p_raided p) amt in
  let dealt := add (p_dmgDealt p) amt in
  let best := if ltb (p_bestHit p) amt then amt else p_bestHit p in
  match mode, tk with
  | extraction, bull => mkPurse (p_bull p) (p_uwu p) (add (p_sBull p) amt) (p_sUwu p) raided dealt (p_dmgTaken p) best
  | extraction, uwu => mkPurse (p_bull p) (p_uwu p) (p_sBull p) (add (p_sUwu p) amt) raided dealt (p_dmgTaken p) best
  | normal, bull => mkPurse (add (p_bull p) amt) (p_uwu p) (p_sBull p) (p_sUwu p) raided dealt (p_dmgTaken p) best
  | normal, uwu => mkPurse (p_bull p) (add (p_uwu p) amt) (p_sBull p) (p_sUwu p) raided dealt (p_dmgTaken p) best
  end.

(** The attacker, the defender and the log after a planned blow. *)
Definition applyHit (mode : Mode) (t : Z) (atk def : Fighter) (hit : Blow) : Fighter * Fighter * list HitLog :=
  let amt := min (bl_amt hit) (coin (bl_tk hit) (f_purse def)) in
  if leb amt (dec 1 2) then (atk, def, [])
  else (with_purse (gain mode (bl_tk hit) amt) atk, with_purse (lose (bl_tk hit) amt) def,
        [mkHit t (f_id atk) (f_id def) amt (bl_tk hit)]).

Definition knock_out (f : Fighter) : Fighter :=
  mkFighter (f_id f) (f_side f) (f_deposited f) (f_unmatched f) (f_purse f) (f_dead f || leb (ring f) (dustFor f)) (f_body f).

(** The elastic exchange along the line of centres, with its recoil: [Some] when
    the two overlap. *)
Definition collide (a b : Fighter) : option (Fighter * Fighter) :=
  let pa := f_body a in let pb := f_body b in
  let dx := sub (b_x pb) (b_x pa) in
  let dy := sub (b_y pb) (b_y pa) in
  let d := hypot dx dy in
  let m := add (b_r pa) (b_r pb) in
  if leb m d || leb d (of_Z 0) then None else
  let nx := div dx d in let ny := div dy d in
  let ov := div (sub m d) (of_Z 2) in
  let va := add (mul (b_vx pa) nx) (mul (b_vy pa) ny) in
  let vb := add (mul (b_vx pb) nx) (mul (b_vy pb) ny) in
  let diff := sub vb va in
  let a' := mkBody (sub (b_x pa) (mul nx ov)) (sub (b_y pa) (mul ny ov))
              (sub (add (b_vx pa) (mul nx diff)) (mul nx COMBAT_knock)) (sub (add (b_vy pa) (mul ny diff)) (mul ny COMBAT_knock)) (b_r pa) in
  let b' := mkBody (add (b_x pb) (mul nx ov)) (add (b_y pb) (mul ny ov))
              (add (sub (b_vx pb) (mul nx diff)) (mul nx COMBAT_knock)) (add (sub (b_vy pb) (mul ny diff)) (mul ny COMBAT_knock)) (b_r pb) in
  Some (with_body (fun _ => a') a, with_body (fun _ => b') b).

(** The two blows of a clash, both planned before either lands. *)
Definition exchange (cfg : RoundConfig) (t : Z) (steps ramp : num) (duel : bool) (a b : Fighter) (s : Rng) : Fighter * Fighter * list HitLog * Rng :=
  let base := mul (mul (c_base cfg) (min (c_multiplier cfg) (of_Z 4))) (add (dec 7 1) (mul (dec 3 1) ramp)) in
  let gm := mul (sqrt (mul (ring a) (ring b))) base in
  let small := min (ring a) (ring b) in
  let duelBoost := if duel then add (of_Z 1) (mul (of_Z 3) (div (of_Z t) steps)) else of_Z 1 in
  let lateGame := ltb (mul steps (dec 5 1)) (of_Z t) in
  let capFor def atk :=
    if lateGame && ltb (ring def) (mul (ring atk) FINISH_RATIO) then ring def
    else min (ring def) (mul (mul small (c_hitCapFrac cfg)) duelBoost) in
  let edgeA := if ltb (ring a) (ring b) then SMALL_EDGE else of_Z 1 in
  let edgeB := if ltb (ring b) (ring a) then SMALL_EDGE else of_Z 1 in
  let '(r1, s) := roll s in
  let dAB := min (mul (mul gm r1) edgeA) (capFor b a) in
  let '(r2, s) := roll s in
  let dBA := min (mul (mul gm r2) edgeB) (capFor a b) in
  let hitOnB := planHit b (f_purse b) dAB in
  let hitOnA := planHit a (f_purse a) dBA in
  let '(a, b, h1) := applyHit (c_mode cfg) t a b hitOnB in
  let '(b, a, h2) := applyHit (c_mode cfg) t b a hitOnA in
  (knock_out a, knock_out b, h1 ++ h2, s).

(** What the collisions of a tick change. *)
Record Scene : Type := mkScene { sc_F : list Fighter; sc_rnd : Rng; sc_pairCd : gmap units num; sc_out : list HitLog }.

Definition clash (cfg : RoundConfig) (t : Z) (steps : num) (duel : bool) (ij : nat * nat) (c : Scene) : Scene :=
  match sc_F c !! ij.1, sc_F c !! ij.2 with
  | Some a, Some b =>
      if f_dead a || f_dead b then c else
      match collide a b with
      | None => c
      | Some (a, b) =>
          let F := <[ij.2 := b]> (<[ij.1 := a]> (sc_F c)) in
          let c := mkScene F (sc_rnd c) (sc_pairCd c) (sc_out c) in
          if bool_decide (f_side a = f_side b) then c else
          if bool_decide (wallet_of (f_id a) = wallet_of (f_id b)) then c else
          let ramp := ramp_at t steps in
          let nowMs := mul (of_Z t) (c_tickMs cfg) in
          let key := pair_key (f_id a) (f_id b) in
          if ltb (sub nowMs (default (of_Z (- 10 ^ 9)) (sc_pairCd c !! key))) (div COMBAT_hitCd ramp) then c else
          let '(a, b, hits, s) := exchange cfg t steps ramp duel a b (sc_rnd c) in
          mkScene (<[ij.2 := b]> (<[ij.1 := a]> (sc_F c))) s (<[key := nowMs]> (sc_pairCd c)) (sc_out c ++ hits)
      end
  | _, _ => c
  end.

Fixpoint pairs (A : list nat) : list (nat * nat) :=
  match A with [] => [] | i :: A => ((fun j => (i, j)) <$> A) ++ pairs A end.

Definition collisions (cfg : RoundConfig) (t : Z) (steps : num) (duel : bool) (ps : list (nat * nat)) (c : Scene) : Scene :=
  foldl (fun c ij => clash cfg t steps duel ij c) c ps.

(** ** A tick *)

Definition standing (F : list Fighter) : list nat := (fun x => x.1) <$> List.filter (fun x => aliveF x.2) (imap pair F).

Definition on_side (F : list Fighter) (s : Side) (i : nat) : bool :=
  match F !! i with Some f => bool_decide (f_side f = s) | None => false end.

Definition ended (s : SimState) (endTick : num) : SimState :=
  mkSim (s_rnd s) (s_F s) (s_hits s) (s_t s) (s_steps s) (s_cfg s) (s_pairCd s) endTick true.

Definition stepSim (s : SimState) : SimState :=
  if s_done s then s else
  let cfg := s_cfg s in
  let A := standing (s_F s) in
  let bulls := List.filter (on_side (s_F s) bull) A in
  let unis := List.filter (on_side (s_F s) uwu) A in
  if bool_decide (bulls = []) || bool_decide (unis = []) then ended s (of_Z (s_t s)) else
  if leb (s_steps s) (of_Z (s_t s)) then ended s (s_steps s) else
  let dt := div (c_tickMs cfg) (of_Z 1000) in
  let ramp := ramp_at (s_t s) (s_steps s) in
  let '(F, rnd) := move_all A dt ramp A (s_F s) (s_rnd s) in
  let duel := (length bulls =? 1)%nat && (length unis =? 1)%nat in
  let c := collisions cfg (s_t s) (s_steps s) duel (pairs A) (mkScene F rnd (s_pairCd s) []) in
  let t := s_t s + 1 in
  let s := mkSim (sc_rnd c) (sc_F c) (s_hits s ++ sc_out c) t (s_steps s) cfg (sc_pairCd c) (s_endTick s) false in
  if leb (s_steps s) (of_Z t) then ended s (s_steps s) else s.

(** ** The whole round *)

(** Within its turns, the loop [while (!s.done) stepSim(s)]. *)
Fixpoint run (fuel : nat) (s : SimState) : option SimState :=
  if s_done s then Some s else match fuel with O => None | S fuel => run fuel (stepSim s) end.

(** [a + ring(f) + f.sBull + f.sUwu], from the left. *)
Definition sideValue (s : Side) (F : list Fighter) : num :=
  foldl (fun a f => add (add (add a (ring f)) (p_sBull (f_purse f))) (p_sUwu (f_purse f))) (of_Z 0)
    (List.filter (fun f => bool_decide (f_side f = s)) F).

Definition payout (f : Fighter) : num * num :=
  let p := f_purse f in
  let zero := of_Z 0 in
  (add (add (p_bull p) (p_sBull p)) (if decide (f_side f = bull) then f_unmatched f else zero),
   add (add (p_uwu p) (p_sUwu p)) (if decide (f_side f = uwu) then f_unmatched f else zero)).

Definition winner_of (F : list Fighter) : Side := if leb (sideValue uwu F) (sideValue bull F) then bull else uwu.

(** The object keyed by id (never an array index): a repeated id keeps its place
    and takes the last value. *)
Definition settlement_of (F : list Fighter) : list (units * (num * num)) :=
  foldl (fun o f => (fix put (o : list (units * (num * num))) :=
    match o with
    | [] => [(f_id f, payout f)]
    | (k, v) :: o => if bool_decide (k = f_id f) then (k, payout f) :: o else (k, v) :: put o
    end) o) [] F.

Record RoundResult : Type := mkResult {
  r_seedHash : units; r_fighters : list Fighter; r_winner : Side; r_hits : list HitLog;
  r_settlement : list (units * (num * num)); r_endTick : num;
}.

Definition finishSim (s : SimState) (seedHash : units) : RoundResult :=
  let F := s_F s in
  mkResult seedHash F (winner_of F) (s_hits s) (settlement_of F) (s_endTick s).

(** Enough turns for [cfg]: a whole number of ticks and one to stop. *)
Definition turns (cfg : RoundConfig) : nat :=
  match floor (div (c_battleMs cfg) (c_tickMs cfg)) with Fin m => S (Z.to_nat (m / one)) | _ => 1 end.

Context (sha256 : units -> units).

Definition seedHash (seed : units) : units := sha256 seed.

Definition simulateRound (seed : units) (entries : list Entry) (cfg : RoundConfig) : option RoundResult :=
  (fun s => finishSim s (seedHash seed)) <$> run (turns cfg) (createSim seed entries cfg).

(** [JSON.stringify] of the settlement. *)
Definition settlement_json (o : list (units * (num * num))) : units :=
  stringify [] (JObj ((fun kv => (kv.1, JObj [(lit "bull", JNum kv.2.1); (lit "uwu", JNum kv.2.2)])) <$> o)).

(** [None]: the recomputation does not return. *)
Definition verifyRound (seed : units) (entries : list Entry) (cfg : RoundConfig) (claimed : RoundResult) : option bool :=
  if negb (bool_decide (seedHash seed = r_seedHash claimed)) then Some false else
  (fun re => bool_decide (settlement_json (r_settlement re) = settlement_json (r_settlement claimed))
             && bool_decide (r_winner re = r_winner claimed)) <$> simulateRound seed entries cfg.
End Fight.

(** ** Replaying the log *)

(** What the money of a fighter is, and whose: all but its place and its fate. *)
Definition money (f : Fighter) : units * Side * num * num * Purse := (f_id f, f_side f, f_deposited f, f_unmatched f, f_purse f).

(** One line of the log, as it concerns one fighter. *)
Definition land (mode : Mode) (f : Fighter) (h : HitLog) : Fighter :=
  with_purse (fun p =>
    let p := if bool_decide (h_def h = f_id f) then lose (h_tk h) (h_amt h) p else p in
    if bool_decide (h_atk h = f_id f) then gain mode (h_tk h) (h_amt h) p else p) f.

Definition replay (mode : Mode) (hits : list HitLog) (F : list Fighter) : list Fighter := (fun f => foldl (land mode) f hits) <$> F.

Lemma land_id mode f h : f_id (land mode f h) = f_id f.
Proof. done. Qed.

Lemma land_money mode f g h : money f = money g -> money (land mode f h) = money (land mode g h).
Proof. unfold money, land. destruct f, g. cbn. intros E. injection E as -> -> -> -> ->. done. Qed.

Lemma lands_money mode hits f g : money f = money g -> money (foldl (land mode) f hits) = money (foldl (land mode) g hits).
Proof. revert f g. induction hits as [| h hits IH]; intros f g E; [done |]. cbn. by apply IH, land_money. Qed.

Lemma replay_app mode h1 h2 F : replay mode (h1 ++ h2) F = replay mode h2 (replay mode h1 F).
Proof. unfold replay. rewrite <- list_fmap_compose. apply list_fmap_ext. intros i f _. unfold compose. by rewrite foldl_app. Qed.

Lemma cons_parts {A} (x y : A) l k : x :: l = y :: k -> x = y /\ l = k.
Proof. by intros [= -> ->]. Qed.

Lemma replay_money mode hits F G : money <$> F = money <$> G -> money <$> replay mode hits F = money <$> replay mode hits G.
Proof.
  unfold replay. rewrite <- !list_fmap_compose. revert G. induction F as [| f F IH]; intros [| g G] E; try done.
  rewrite !fmap_cons in E |- *. apply cons_parts in E as [E1 E2]. f_equal; [by apply lands_money | by apply IH].
Qed.

Lemma replay_nil mode F : replay mode [] F = F.
Proof. unfold replay. cbn. apply list_fmap_id. Qed.

Definition money_ids (F : list Fighter) : list units := f_id <$> F.

Lemma money_ids_eq (F G : list Fighter) : money <$> F = money <$> G -> f_id <$> F = f_id <$> G.
Proof.
  intros E. assert (forall L : list Fighter, f_id <$> L = (fun m : units * Side * num * num * Purse => m.1.1.1.1) <$> (money <$> L)) as E'
    by (intros L; rewrite <- list_fmap_compose; by apply list_fmap_ext). by rewrite !E', E.
Qed.

Lemma money_lookup (F G : list Fighter) i f : money <$> F = money <$> G -> F !! i = Some f -> exists g, G !! i = Some g /\ money g = money f.
Proof.
  intros E Hi. apply (f_equal (fun l => l !! i)) in E. rewrite !list_lookup_fmap, Hi in E. cbn in E.
  destruct (G !! i) as [g |]; [| done]. exists g. split; [done |]. apply (inj Some) in E. congruence.
Qed.

(** Who may strike whom. *)
Definition hit_ok (F : list Fighter) (h : HitLog) : Prop :=
  exists a b, a ∈ F /\ b ∈ F /\ f_id a = h_atk h /\ f_id b = h_def h /\ f_side a <> f_side b
    /\ wallet_of (f_id a) <> wallet_of (f_id b) /\ leb (h_amt h) (dec 1 2) = false.

Lemma hit_ok_money (F G : list Fighter) h : money <$> F = money <$> G -> hit_ok F h -> hit_ok G h.
Proof.
  intros E (a & b & Ha & Hb & H1 & H2 & H3 & H4 & H5).
  apply list_elem_of_lookup in Ha as [i Hi], Hb as [j Hj].
  destruct (money_lookup F G i a E Hi) as (a' & Hi' & Ea), (money_lookup F G j b E Hj) as (b' & Hj' & Eb).
  unfold money in Ea, Eb. injection Ea as Ea1 Ea2 _ _ _. injection Eb as Eb1 Eb2 _ _ _.
  exists a', b'. split_and!; [by eapply list_elem_of_lookup_2.. | congruence | congruence | congruence | congruence | done].
Qed.

(** Passing from [F] to [F'] by the hits of [out] at time [t]: the money is the
    replay of the log, every hit may be, and whoever was out stays as he was. *)
Record follows (mode : Mode) (t : Z) (F F' : list Fighter) (out : list HitLog) : Prop := {
  fo_money : money <$> F' = money <$> replay mode out F;
  fo_hits : Forall (fun h => hit_ok F h /\ h_t h = t) out;
  fo_out : forall i f, F !! i = Some f -> f_dead f = true -> exists f', F' !! i = Some f' /\ f_dead f' = true /\ money f' = money f;
}.

Lemma follows_refl mode t F F' : money <$> F' = money <$> F ->
  (forall i f, F !! i = Some f -> f_dead f = true -> exists f', F' !! i = Some f' /\ f_dead f' = true) -> follows mode t F F' [].
Proof.
  intros E Hd. constructor; [by rewrite replay_nil | constructor |]. intros i f Hi Hf. destruct (Hd i f Hi Hf) as (f' & Hi' & Hf').
  destruct (money_lookup F F' i f (eq_sym E) Hi) as (g & Hg & Em). exists f'. split_and!; [done | done | congruence].
Qed.

Lemma replay_ids mode hits F : f_id <$> replay mode hits F = f_id <$> F.
Proof.
  unfold replay. rewrite <- list_fmap_compose. apply list_fmap_ext. intros i f _. unfold compose. revert f.
  induction hits as [| h hits IH]; intros f; [done |]. cbn. by rewrite IH.
Qed.

Lemma replay_hit_ok mode hits F h : hit_ok (replay mode hits F) h -> hit_ok F h.
Proof.
  assert (Hfold : forall f, f_id (foldl (land mode) f hits) = f_id f /\ f_side (foldl (land mode) f hits) = f_side f).
  { induction hits as [| x hits IH]; intros f; [done |]. cbn. destruct (IH (land mode f x)) as [-> ->]. done. }
  intros (a & b & Ha & Hb & H1 & H2 & H3 & H4 & H5). unfold replay in Ha, Hb.
  apply list_elem_of_fmap in Ha as (a0 & -> & Ha), Hb as (b0 & -> & Hb).
  destruct (Hfold a0) as [Ea1 Ea2], (Hfold b0) as [Eb1 Eb2]. exists a0, b0. split_and!; [done | done | congruence | congruence | congruence | congruence | done].
Qed.

Lemma follows_ids mode t F F' out : follows mode t F F' out -> f_id <$> F' = f_id <$> F.
Proof. intros H. rewrite (money_ids_eq _ _ (fo_money _ _ _ _ _ H)). apply replay_ids. Qed.

Lemma follows_trans mode t F F' F'' o1 o2 : follows mode t F F' o1 -> follows mode t F' F'' o2 -> follows mode t F F'' (o1 ++ o2).
Proof.
  intros [M1 H1 D1] [M2 H2 D2]. constructor.
  - rewrite M2, replay_app. by apply replay_money.
  - apply Forall_app_2; [done |]. eapply Forall_impl; [exact H2 |]. intros h [Hk Ht]. split; [| done].
    eapply replay_hit_ok, hit_ok_money, Hk. exact M1.
  - intros i f Hi Hf. destruct (D1 i f Hi Hf) as (f' & Hi' & Hf' & E). destruct (D2 i f' Hi' Hf') as (f'' & Hi'' & Hf'' & E').
    exists f''. split_and!; [done | done | congruence].
Qed.

(** ** Movement leaves the money alone *)

Definition core (f : Fighter) : (units * Side * num * num * Purse) * bool := (money f, f_dead f).

Lemma core_insert (F : list Fighter) i p p' : F !! i = Some p -> core p' = core p -> core <$> <[i := p']> F = core <$> F.
Proof. intros Hi E. rewrite list_fmap_insert. apply list_insert_id. rewrite list_lookup_fmap, Hi. cbn. by rewrite E. Qed.

Lemma core_follows mode t (F F' : list Fighter) : core <$> F' = core <$> F -> follows mode t F F' [].
Proof.
  intros E. apply follows_refl.
  - assert (forall L : list Fighter, money <$> L = fst <$> (core <$> L)) as Em
      by (intros L; rewrite <- list_fmap_compose; by apply list_fmap_ext). by rewrite !Em, E.
  - intros i f Hi Hf. apply (f_equal (fun l => l !! i)) in E. rewrite !list_lookup_fmap, Hi in E. cbn in E.
    destruct (F' !! i) as [f' |]; [| done]. exists f'. split; [done |]. apply (inj Some) in E. unfold core in E. congruence.
Qed.

Section Movement.
Context `{Approx}.

Lemma move_core F A dt ramp p s : core (move F A dt ramp p s).1 = core p.
Proof.
  unfold move. destruct (match seek _ _ _ with Some _ => _ | None => _ end) as [vx vy].
  destruct (rand _ _ s) as [jx s1], (rand _ _ s1) as [jy s2].
  destruct (if ltb _ _ then _ else _) as [vx' vy']. destruct (bounce ARENA_w _ _ _), (bounce ARENA_h _ _ _). done.
Qed.

Lemma move_all_core A dt ramp todo F s : core <$> (move_all A dt ramp todo F s).1 = core <$> F.
Proof.
  revert F s. induction todo as [| i todo IH]; intros F s; [done |]. cbn [move_all]. destruct (F !! i) as [p |] eqn:Hi; [| apply IH].
  pose proof (move_core F A dt ramp p s) as Hc. destruct (move F A dt ramp p s) as [p' s']. rewrite IH. by eapply core_insert.
Qed.

(** ** A clash is its lines of the log *)

Lemma applyHit_lands mode t atk def hit : f_id atk <> f_id def ->
  let '(atk', def', hs) := applyHit mode t atk def hit in
  atk' = foldl (land mode) atk hs /\ def' = foldl (land mode) def hs
  /\ Forall (fun h => h_atk h = f_id atk /\ h_def h = f_id def /\ leb (h_amt h) (dec 1 2) = false /\ h_t h = t) hs.
Proof.
  intros Hne. unfold applyHit. destruct (leb _ (dec 1 2)) eqn:E; [by split_and! |]. cbn [foldl]. unfold land. cbn [h_def h_atk h_tk h_amt].
  rewrite (bool_decide_eq_true_2 (f_id atk = f_id atk)), (bool_decide_eq_true_2 (f_id def = f_id def)) by done.
  rewrite (bool_decide_eq_false_2 (f_id def = f_id atk)), (bool_decide_eq_false_2 (f_id atk = f_id def)) by congruence.
  split_and!; [done | done |]. by repeat constructor.
Qed.

Lemma land_other mode f h : h_atk h <> f_id f -> h_def h <> f_id f -> land mode f h = f.
Proof. intros H1 H2. unfold land. rewrite !bool_decide_eq_false_2 by done. by destruct f. Qed.

Lemma lands_id mode f hs : f_id (foldl (land mode) f hs) = f_id f.
Proof. revert f. induction hs as [| h hs IH]; intros f; [done |]. cbn. by rewrite IH. Qed.

Lemma lands_other mode f hs : Forall (fun h => h_atk h <> f_id f /\ h_def h <> f_id f) hs -> foldl (land mode) f hs = f.
Proof. induction 1 as [| h hs [H1 H2] _ IH]; [done |]. cbn. by rewrite land_other. Qed.

Lemma exchange_lands cfg t steps ramp duel a b s : f_id a <> f_id b ->
  let '(a', b', hs, _) := exchange cfg t steps ramp duel a b s in
  money a' = money (foldl (land (c_mode cfg)) a hs) /\ money b' = money (foldl (land (c_mode cfg)) b hs)
  /\ Forall (fun h => (h_atk h = f_id a /\ h_def h = f_id b \/ h_atk h = f_id b /\ h_def h = f_id a) /\ leb (h_amt h) (dec 1 2) = false /\ h_t h = t) hs.
Proof.
  intros Hne. unfold exchange. destruct (roll s) as [r1 s1], (roll s1) as [r2 s2].
  match goal with |- context [applyHit _ _ a b ?h] => pose proof (applyHit_lands (c_mode cfg) t a b h Hne) as H1; destruct (applyHit (c_mode cfg) t a b h) as [[a1 b1] h1] end.
  destruct H1 as (-> & -> & F1).
  match goal with |- context [applyHit _ _ ?x ?y ?h] =>
    assert (Hne2 : f_id x <> f_id y); [| pose proof (applyHit_lands (c_mode cfg) t x y h Hne2) as H2; destruct (applyHit (c_mode cfg) t x y h) as [[b2 a2] h2]] end.
  { rewrite !lands_id. congruence. }
  destruct H2 as (-> & -> & F2). rewrite !foldl_app. split_and!; [done | done |].
  rewrite !lands_id in F2. apply Forall_app_2; (eapply Forall_impl; [eassumption |]); cbn; intuition.
Qed.

Lemma collide_core a b a' b' : collide a b = Some (a', b') -> core a' = core a /\ core b' = core b.
Proof. unfold collide. destruct (_ || _); [done |]. intros E. apply (inj Some) in E. by injection E as <- <-. Qed.

Lemma same_id (F : list Fighter) i j f g : NoDup (f_id <$> F) -> F !! i = Some f -> F !! j = Some g -> f_id f = f_id g -> i = j.
Proof. intros Hnd Hi Hj E. apply (NoDup_lookup _ i j (f_id f) Hnd); rewrite list_lookup_fmap; [by rewrite Hi | by rewrite Hj, E]. Qed.

(** Two positions of a lineup are replaced: the money is that of a replay that
    concerns only these two. *)
Lemma two_lands mode hs (F : list Fighter) i j a b a' b' : NoDup (f_id <$> F) -> F !! i = Some a -> F !! j = Some b -> i <> j ->
  money a' = money (foldl (land mode) a hs) -> money b' = money (foldl (land mode) b hs) ->
  Forall (fun h => h_atk h = f_id a /\ h_def h = f_id b \/ h_atk h = f_id b /\ h_def h = f_id a) hs ->
  money <$> <[j := b']> (<[i := a']> F) = money <$> replay mode hs F.
Proof.
  intros Hnd Hi Hj Hij Ha Hb Hhs. apply list_eq. intros k. unfold replay. rewrite !list_lookup_fmap.
  assert (Hk : forall k f, F !! k = Some f -> k <> i -> k <> j -> foldl (land mode) f hs = f).
  { intros k' f Hf Hki Hkj. apply lands_other. eapply Forall_impl; [exact Hhs |]. cbn. intros h Hh.
    assert (f_id f <> f_id a) by (intros E; by apply Hki, (same_id F k' i f a)).
    assert (f_id f <> f_id b) by (intros E; by apply Hkj, (same_id F k' j f b)).
    destruct Hh as [[-> ->] | [-> ->]]; split; congruence. }
  destruct (decide (k = j)) as [-> | Hkj].
  - rewrite list_lookup_insert_eq by (rewrite length_insert; by eapply lookup_lt_Some). rewrite Hj. cbn. by rewrite Hb.
  - rewrite list_lookup_insert_ne by done. destruct (decide (k = i)) as [-> | Hki].
    + rewrite list_lookup_insert_eq by (by eapply lookup_lt_Some). rewrite Hi. cbn. by rewrite Ha.
    + rewrite list_lookup_insert_ne by done. destruct (F !! k) as [f |] eqn:Hf; [| done]. cbn. by rewrite (Hk k f).
Qed.

Lemma clash_follows cfg t steps duel ij c : NoDup (f_id <$> sc_F c) ->
  exists out, sc_out (clash cfg t steps duel ij c) = sc_out c ++ out /\ follows (c_mode cfg) t (sc_F c) (sc_F (clash cfg t steps duel ij c)) out.
Proof.
  intros Hnd. destruct ij as [i j]. unfold clash. cbn [fst snd].
  assert (Hsame : exists out, sc_out c = sc_out c ++ out /\ follows (c_mode cfg) t (sc_F c) (sc_F c) out)
    by (exists []; split; [by rewrite app_nil_r | by apply core_follows]).
  destruct (sc_F c !! i) as [a |] eqn:Hi, (sc_F c !! j) as [b |] eqn:Hj; try done.
  destruct (f_dead a || f_dead b) eqn:Hdead; [done |]. apply orb_false_iff in Hdead as [Hda Hdb].
  destruct (collide a b) as [[a1 b1] |] eqn:Hc; [| done]. apply collide_core in Hc as [Ca Cb]. clear Hsame.
  set (F1 := <[j := b1]> (<[i := a1]> (sc_F c))).
  assert (Hlt1 : (i < length (sc_F c))%nat) by (by eapply lookup_lt_Some).
  assert (Hlt2 : (j < length (sc_F c))%nat) by (by eapply lookup_lt_Some).
  assert (HF1 : i = j \/ i <> j /\ core <$> F1 = core <$> sc_F c).
  { destruct (decide (i = j)); [by left |]. right. split; [done |]. unfold F1.
    rewrite (core_insert _ j b b1); [by apply (core_insert _ i a) | by rewrite list_lookup_insert_ne | done]. }
  assert (Hsides : f_side a1 = f_side a /\ f_side b1 = f_side b /\ f_id a1 = f_id a /\ f_id b1 = f_id b)
    by (unfold core, money in Ca, Cb; split_and!; congruence).
  destruct Hsides as (Hsa & Hsb & Hia & Hib).
  case_bool_decide as Hside.
  { exists []. cbn [sc_out sc_F]. rewrite app_nil_r. split; [done |]. apply core_follows. destruct HF1 as [-> | [_ E]]; [| done].
    unfold F1. rewrite list_insert_insert_eq. apply (core_insert _ j b); [done | done]. }
  assert (Hij : i <> j) by (intros ->; apply Hside; congruence).
  destruct HF1 as [| [_ HF1]]; [done |].
  assert (Hmv : exists o, sc_out c = sc_out c ++ o /\ follows (c_mode cfg) t (sc_F c) F1 o)
    by (exists []; split; [by rewrite app_nil_r | by apply core_follows]).
  case_bool_decide as Hw; [exact Hmv |].
  destruct (ltb _ (div COMBAT_hitCd _)) in |- *; [exact Hmv |]. clear Hmv. cbn [sc_rnd sc_F sc_pairCd sc_out].
  assert (Hne : f_id a1 <> f_id b1) by congruence.
  pose proof (exchange_lands cfg t steps (ramp_at t steps) duel a1 b1 (sc_rnd c) Hne) as Hx.
  destruct (exchange cfg t steps (ramp_at t steps) duel a1 b1 (sc_rnd c)) as [[[a2 b2] hs] s2]. destruct Hx as (Ma & Mb & Hhs).
  exists hs. split; [done |]. cbn [sc_F].
  apply (follows_trans _ _ _ F1 _ [] hs); [by apply core_follows |].
  assert (Hnd1 : NoDup (f_id <$> F1)) by (by rewrite (follows_ids _ _ _ _ _ (core_follows (c_mode cfg) t _ _ HF1))).
  assert (Hi1 : F1 !! i = Some a1) by (unfold F1; by rewrite list_lookup_insert_ne, list_lookup_insert_eq).
  assert (Hj1 : F1 !! j = Some b1) by (unfold F1; rewrite list_lookup_insert_eq; [done | by rewrite length_insert]).
  constructor.
  - apply (two_lands _ hs F1 i j a1 b1); try done. eapply Forall_impl; [exact Hhs |]. by intros h [? _].
  - eapply Forall_impl; [exact Hhs |]. cbn. intros h (Hwho & Hamt & Ht). split; [| done].
    destruct Hwho as [[E1 E2] | [E1 E2]].
    + exists a1, b1. rewrite E1, E2. split_and!; [by eapply list_elem_of_lookup_2.. | done | done | done | done | done].
    + exists b1, a1. rewrite E1, E2. split_and!; [by eapply list_elem_of_lookup_2.. | done | done | congruence | congruence | done].
  - intros k f Hk Hf. assert (k <> i /\ k <> j) as [Hki Hkj].
    { unfold core in Ca, Cb. split; intros ->; [rewrite Hi1 in Hk | rewrite Hj1 in Hk]; apply (inj Some) in Hk as ->; congruence. }
    exists f. by rewrite !list_lookup_insert_ne.
Qed.

Lemma clashes_follow cfg t steps duel ps c : NoDup (f_id <$> sc_F c) ->
  let c' := collisions cfg t steps duel ps c in
  exists out, sc_out c' = sc_out c ++ out /\ follows (c_mode cfg) t (sc_F c) (sc_F c') out.
Proof.
  unfold collisions. revert c. induction ps as [| ij ps IH]; intros c Hnd; cbn [foldl].
  - exists []. split; [by rewrite app_nil_r | by apply core_follows].
  - destruct (clash_follows cfg t steps duel ij c Hnd) as (o1 & E1 & H1).
    destruct (IH (clash cfg t steps duel ij c)) as (o2 & E2 & H2); [by rewrite (follows_ids _ _ _ _ _ H1) |].
    exists (o1 ++ o2). split; [by rewrite E2, E1, app_assoc | by eapply follows_trans].
Qed.

(** A tick: what it appends to the log is what it does to the money. *)
Lemma step_follows s : NoDup (f_id <$> s_F s) ->
  exists out, s_hits (stepSim s) = s_hits s ++ out /\ follows (c_mode (s_cfg s)) (s_t s) (s_F s) (s_F (stepSim s)) out
    /\ s_cfg (stepSim s) = s_cfg s /\ s_steps (stepSim s) = s_steps s.
Proof.
  intros Hnd. assert (Hsame : exists out, s_hits s = s_hits s ++ out /\ follows (c_mode (s_cfg s)) (s_t s) (s_F s) (s_F s) out
    /\ s_cfg s = s_cfg s /\ s_steps s = s_steps s) by (exists []; split_and!; [by rewrite app_nil_r | by apply core_follows | done | done]).
  unfold stepSim. destruct (s_done s); [done |]. destruct (_ || _); [done |]. destruct (leb (s_steps s) (of_Z (s_t s))); [done |].
  match goal with |- context [move_all ?A ?dt ?ramp ?todo ?F ?r] => pose proof (move_all_core A dt ramp todo F r) as Hm; destruct (move_all A dt ramp todo F r) as [F1 rnd1] end.
  cbn [fst] in Hm. pose proof (core_follows (c_mode (s_cfg s)) (s_t s) _ _ Hm) as H1.
  match goal with |- context [collisions ?cf ?t ?st ?d ?ps ?sc] =>
    destruct (clashes_follow cf t st d ps sc) as (out & Eo & H2); [by cbn [sc_F]; rewrite (follows_ids _ _ _ _ _ H1) |];
    destruct (collisions cf t st d ps sc) as [F2 rnd2 cd2 out2] end.
  cbn [sc_out sc_F sc_rnd sc_pairCd app] in Eo, H2 |- *. subst out2. exists out.
  pose proof (follows_trans _ _ _ _ _ _ _ H1 H2) as H3. cbn [app] in H3. cbn [s_steps]. by destruct (leb (s_steps s) (of_Z (s_t s + 1))).
Qed.

(** ** Whole rounds *)

(** The state after some ticks of a round of [n] ticks that began with [F0]. *)
Record fought (F0 : list Fighter) (n : Z) (s : SimState) : Prop := {
  fg_ids : NoDup (f_id <$> s_F s);
  fg_money : money <$> s_F s = money <$> replay (c_mode (s_cfg s)) (s_hits s) F0;
  fg_hits : Forall (fun h => hit_ok F0 h /\ 0 <= h_t h < s_t s) (s_hits s);
  fg_steps : s_steps s = of_Z n;
  fg_t : 0 <= s_t s <= n;
  fg_end : s_done s = true -> s_endTick s = of_Z (s_t s);
}.

Lemma step_time n s : 0 <= n <= 2 ^ 53 -> s_steps s = of_Z n -> 0 <= s_t s <= n -> (s_done s = true -> s_endTick s = of_Z (s_t s)) ->
  let s' := stepSim s in
  s_t s <= s_t s' <= n /\ (s_done s' = true -> s_endTick s' = of_Z (s_t s')) /\ (s_done s' = false -> s_t s' = s_t s + 1)
  /\ (s_t s' = s_t s -> s_hits s' = s_hits s).
Proof.
  intros Hn Hs Ht Hd. unfold stepSim. destruct (s_done s) eqn:Ed; [cbn; rewrite Ed; split_and!; (done || lia || auto) |].
  destruct (_ || _); [cbn; split_and!; (done || lia) |]. rewrite Hs, leb_int by (unfold safe; lia).
  destruct (Z.leb_spec n (s_t s)); [cbn; split_and!; try (done || lia); intros _; f_equal; lia |].
  destruct (move_all _ _ _ _ _ _) as [F1 rnd1]. cbn [s_steps s_t s_hits]. rewrite leb_int by (unfold safe; lia).
  destruct (Z.leb_spec n (s_t s + 1)); cbn; split_and!; try (done || lia). intros _. f_equal. lia.
Qed.

Lemma step_fought F0 n s : 0 <= n <= 2 ^ 53 -> fought F0 n s -> fought F0 n (stepSim s).
Proof.
  intros Hn [Hi Hm Hh Hs Ht He]. destruct (step_follows s Hi) as (out & Eo & Hf & Ec & Es).
  destruct (step_time n s Hn Hs Ht He) as (T1 & T2 & T3 & T4). constructor.
  - by rewrite (follows_ids _ _ _ _ _ Hf).
  - rewrite Eo, Ec, replay_app, (fo_money _ _ _ _ _ Hf). by apply replay_money.
  - rewrite Eo. apply Forall_app_2.
    + eapply Forall_impl; [exact Hh |]. cbn. intros h [? ?]. split; [done | lia].
    + destruct (decide (s_t (stepSim s) = s_t s)) as [E | E].
      * apply T4 in E. rewrite Eo in E. rewrite <- (app_nil_r (s_hits s)) in E at 2. apply app_inv_head in E as ->. constructor.
      * eapply Forall_impl; [exact (fo_hits _ _ _ _ _ Hf) |]. cbn. intros h [Hok ->]. split; [| lia].
        eapply replay_hit_ok, hit_ok_money, Hok. exact Hm.
  - congruence.
  - lia.
  - done.
Qed.

Lemma run_fought F0 n fuel s : 0 <= n <= 2 ^ 53 -> fought F0 n s -> n - s_t s < Z.of_nat fuel ->
  exists s' k, run fuel s = Some s' /\ s' = Nat.iter k stepSim s /\ fought F0 n s' /\ s_done s' = true.
Proof.
  intros Hn. revert s. induction fuel as [| fuel IH]; intros s Hf Hfuel.
  - pose proof (fg_t _ _ _ Hf). lia.
  - cbn [run]. destruct (s_done s) eqn:Ed; [by exists s, 0%nat |].
    pose proof (step_fought F0 n s Hn Hf) as Hf'. destruct (step_time n s Hn (fg_steps _ _ _ Hf) (fg_t _ _ _ Hf) (fg_end _ _ _ Hf)) as (T1 & _ & T3 & _).
    destruct (s_done (stepSim s)) eqn:Ed'.
    + exists (stepSim s), 1%nat. split_and!; try done. destruct fuel; cbn; by rewrite Ed'.
    + destruct (IH (stepSim s) Hf') as (s' & k & R & E & H1 & H2); [rewrite (T3 eq_refl); lia |].
      exists s', (S k). split_and!; try done. by rewrite Nat.iter_succ_r.
Qed.

(** Whoever the fighters are, the loop ends in the turns it is given. *)
Lemma run_returns n fuel s : 0 <= n <= 2 ^ 53 -> s_steps s = of_Z n -> 0 <= s_t s <= n -> (s_done s = true -> s_endTick s = of_Z (s_t s)) ->
  n - s_t s < Z.of_nat fuel -> is_Some (run fuel s).
Proof.
  intros Hn. revert s. induction fuel as [| fuel IH]; intros s Hs Ht He Hfuel; [lia |].
  cbn [run]. destruct (s_done s) eqn:Ed; [by eexists |].
  assert (Hs' : s_steps (stepSim s) = s_steps s).
  { unfold stepSim. rewrite Ed. destruct (_ || _); [done |]. destruct (leb _ _); [done |]. destruct (move_all _ _ _ _ _ _). cbn [s_steps]. by destruct (leb _ _). }
  destruct (step_time n s Hn Hs Ht) as (T1 & T2 & T3 & _); [by rewrite Ed |].
  destruct (s_done (stepSim s)) eqn:Ed'.
  - exists (stepSim s). destruct fuel; cbn; by rewrite Ed'.
  - apply IH; [congruence | lia | by rewrite Ed' |]. rewrite T3 by done. lia.
Qed.

Lemma spawn_who frac e s : f_id (spawn frac e s).1 = en_id e /\ f_side (spawn frac e s).1 = en_side e.
Proof.
  unfold spawn. destruct (rand _ _ s) as [vx s1], (rand _ _ s1) as [vy s2].
  destruct (match en_side e with bull => _ | uwu => _ end) as [x s3], (rand _ _ s3) as [y s4]. done.
Qed.

Lemma spawn_all_ids frac entries s : f_id <$> (spawn_all frac entries s).1 = en_id <$> entries.
Proof.
  revert s. induction entries as [| e es IH]; intros s; [done |]. cbn [spawn_all]. 
  destruct (spawn_who frac e s) as [Hid _]. destruct (spawn frac e s) as [f s']. specialize (IH s'). destruct (spawn_all frac es s') as [fs s'']. cbn in *. by rewrite Hid, IH.
Qed.

(** The configured length is a whole number of ticks a double can count. *)
Definition length_ok (cfg : RoundConfig) (n : Z) : Prop := 0 <= n <= 2 ^ 53 /\ floor (div (c_battleMs cfg) (c_tickMs cfg)) = of_Z n.

Lemma turns_enough cfg n : length_ok cfg n -> n < Z.of_nat (turns cfg).
Proof.
  intros [Hn E]. unfold turns. rewrite E, of_Z_exact by lia. rewrite Z.div_mul by (pose proof one_pos; lia). lia.
Qed.

Lemma battle_returns seed entries cfg n : length_ok cfg n -> is_Some (run (turns cfg) (createSim seed entries cfg)).
Proof.
  intros Hl. pose proof (turns_enough cfg n Hl) as Ht. destruct Hl as [Hn E]. unfold createSim. destruct (spawn_all _ _ _) as [F rnd].
  apply (run_returns n); cbn; (done || lia).
Qed.

Definition start (seed : units) (entries : list Entry) (cfg : RoundConfig) : list Fighter := s_F (createSim seed entries cfg).

Lemma createSim_fought seed entries cfg n : NoDup (en_id <$> entries) -> length_ok cfg n ->
  fought (start seed entries cfg) n (createSim seed entries cfg).
Proof.
  intros Hnd [Hn E]. unfold start, createSim. pose proof (spawn_all_ids (inPlayFrac cfg entries) entries (rngFromSeed seed)) as Hids.
  destruct (spawn_all _ _ _) as [F rnd]. cbn [fst] in Hids. constructor; cbn [s_F s_hits s_cfg s_steps s_t s_done s_endTick].
  - by rewrite Hids.
  - by rewrite replay_nil.
  - constructor.
  - done.
  - lia.
  - done.
Qed.

(** The fight that runs to its end. *)
Lemma battle_ends seed entries cfg n : NoDup (en_id <$> entries) -> length_ok cfg n ->
  exists s k, run (turns cfg) (createSim seed entries cfg) = Some s /\ s = Nat.iter k stepSim (createSim seed entries cfg)
    /\ fought (start seed entries cfg) n s /\ s_done s = true /\ c_mode (s_cfg s) = c_mode cfg.
Proof.
  intros Hnd Hl. pose proof (createSim_fought seed entries cfg n Hnd Hl) as Hf.
  destruct (run_fought _ n (turns cfg) _ (proj1 Hl) Hf) as (s & k & R & E & H1 & H2).
  { pose proof (turns_enough cfg n Hl). unfold createSim. destruct (spawn_all _ _ _). cbn. lia. }
  exists s, k. split_and!; try done. 
  assert (Hc : forall j, s_cfg (Nat.iter j stepSim (createSim seed entries cfg)) = cfg).
  { assert (Hstep : forall x, s_cfg (stepSim x) = s_cfg x).
    { intros x. unfold stepSim. destruct (s_done x); [done |]. destruct (_ || _); [done |]. destruct (leb _ _); [done |].
      destruct (move_all _ _ _ _ _ _). cbn [s_steps]. by destruct (leb _ _). }
    induction j as [| j IHj]; [unfold createSim; by destruct (spawn_all _ _ _) |]. cbn. by rewrite Hstep. }
  by rewrite E, Hc.
Qed.

(** ** What the money alone decides *)

Lemma lineup_money seed seed' entries cfg : money <$> start seed entries cfg = money <$> start seed' entries cfg.
Proof.
  assert (Hs : forall frac e s s', money (spawn frac e s).1 = money (spawn frac e s').1).
  { intros frac e s s'. unfold spawn.
    destruct (rand _ _ s) as [v1 s1], (rand _ _ s1) as [v2 s2], (rand _ _ s') as [v1' s1'], (rand _ _ s1') as [v2' s2'].
    destruct (match en_side e with bull => rand _ _ s2 | uwu => _ end) as [x s3], (rand _ _ s3) as [y s4].
    destruct (match en_side e with bull => rand _ _ s2' | uwu => _ end) as [x' s3'], (rand _ _ s3') as [y' s4']. done. }
  assert (Ha : forall frac es s s', money <$> (spawn_all frac es s).1 = money <$> (spawn_all frac es s').1).
  { intros frac es. induction es as [| e es IH]; intros s s'; [done |]. cbn [spawn_all]. pose proof (Hs frac e s s') as H1.
    destruct (spawn frac e s) as [f s1], (spawn frac e s') as [f' s1']. specialize (IH s1 s1').
    destruct (spawn_all frac es s1) as [fs s2], (spawn_all frac es s1') as [fs' s2']. cbn in *. by rewrite H1, IH. }
  specialize (Ha (inPlayFrac cfg entries) entries (rngFromSeed seed) (rngFromSeed seed')). unfold start, createSim.
  destruct (spawn_all _ _ (rngFromSeed seed)), (spawn_all _ _ (rngFromSeed seed')). done.
Qed.

Lemma lineup_entry seed entries cfg f : f ∈ start seed entries cfg -> exists e, e ∈ entries /\ en_id e = f_id f /\ en_side e = f_side f.
Proof.
  unfold start, createSim. generalize (rngFromSeed seed) as s. generalize (inPlayFrac cfg entries) as frac.
  intros frac s Hf. assert (Hin : f ∈ (spawn_all frac entries s).1) by (by destruct (spawn_all _ _ _)). clear Hf. revert s Hin.
  induction entries as [| e es IH]; intros s Hin; [by apply not_elem_of_nil in Hin |]. cbn [spawn_all] in Hin.
  pose proof (spawn_who frac e s) as Hid. destruct (spawn frac e s) as [f1 s1]. specialize (IH s1). destruct (spawn_all frac es s1) as [fs s2]. cbn [fst] in *.
  apply elem_of_cons in Hin as [-> | Hin]; [exists e; split_and!; [left | symmetry; apply Hid..] |].
  destruct (IH Hin) as (e' & He' & ?). exists e'. by split; [right |].
Qed.

(** A function of fighters that looks at their money only. *)
Lemma money_fold {B} (g : B -> Fighter -> B) (F G : list Fighter) b :
  (forall b f f', money f = money f' -> g b f = g b f') -> money <$> F = money <$> G -> foldl g b F = foldl g b G.
Proof.
  intros Hg. revert G b. induction F as [| f F IH]; intros [| f' G] b E; try done. rewrite !fmap_cons in E. apply cons_parts in E as [E1 E2].
  cbn. rewrite (Hg b f f' E1). by apply IH.
Qed.

Lemma settlement_money F G : money <$> F = money <$> G -> settlement_of F = settlement_of G.
Proof.
  apply money_fold. intros o f f' E. assert (f_id f = f_id f' /\ payout f = payout f') as [-> ->]; [| done].
  unfold money in E. injection E as E1 E2 E3 E4 E5. unfold payout. by rewrite E2, E4, E5.
Qed.

Lemma winner_money F G : money <$> F = money <$> G -> winner_of F = winner_of G.
Proof.
  intros E. unfold winner_of. assert (Hs : forall s, sideValue s F = sideValue s G); [| by rewrite !Hs].
  intros s. unfold sideValue. generalize (of_Z 0). revert G E. induction F as [| f F IH]; intros [| f' G] E b; try done.
  rewrite !fmap_cons in E. apply cons_parts in E as [E1 E2]. cbn [List.filter].
  assert (f_side f = f_side f' /\ f_purse f = f_purse f') as [E3 E4] by (unfold money in E1; injection E1 as _ ? _ _ ?; by split).
  rewrite E3. unfold ring. case_bool_decide; [| by apply IH]. cbn [foldl]. unfold ring. rewrite E4. by apply IH.
Qed.

Context (sha256 : units -> units).

Lemma simulate_returns seed entries cfg n : length_ok cfg n -> is_Some (simulateRound sha256 seed entries cfg).
Proof. intros Hl. unfold simulateRound. destruct (battle_returns seed entries cfg n Hl) as [s ->]. by eexists. Qed.

(** The verifier accepts what the engine computed. *)
Lemma verify_accepts seed entries cfg r : simulateRound sha256 seed entries cfg = Some r -> verifyRound sha256 seed entries cfg r = Some true.
Proof.
  intros E. unfold verifyRound. rewrite E. unfold simulateRound in E. destruct (run _ _) as [s |]; [| done].
  apply (inj Some) in E as <-. cbn [finishSim r_seedHash]. rewrite bool_decide_eq_true_2 by done. cbn [negb fmap option_fmap option_map].
  by rewrite !bool_decide_eq_true_2.
Qed.

(** C19. The battle's log is its money.  However the fighters moved and collided,
    for any square root and hypotenuse the engine computes, the round returns,
    and applying the lines of its log, one after another, to the stakes of the
    entries, without the seed and without the physics, gives every fighter's
    holdings to the last bit of rounding, the whole settlement and the winner;
    the verifier accepts the result. *)
Theorem hits_replay_the_money seed seed0 entries cfg n : NoDup (en_id <$> entries) -> length_ok cfg n ->
  exists r, simulateRound sha256 seed entries cfg = Some r
  /\ (let F := replay (c_mode cfg) (r_hits r) (start seed0 entries cfg) in
      f_purse <$> r_fighters r = f_purse <$> F /\ r_settlement r = settlement_of F /\ r_winner r = winner_of F)
  /\ verifyRound sha256 seed entries cfg r = Some true.
Proof.
  intros Hnd Hl. destruct (battle_ends seed entries cfg n Hnd Hl) as (s & k & R & _ & Hf & _ & Hc).
  assert (Hsim : simulateRound sha256 seed entries cfg = Some (finishSim s (sha256 seed))) by (unfold simulateRound; by rewrite R).
  exists (finishSim s (sha256 seed)). split_and!; [done | |].
  - pose proof (fg_money _ _ _ Hf) as Hm. rewrite Hc in Hm. cbn [finishSim r_hits r_fighters r_settlement r_winner].
    rewrite (replay_money _ (s_hits s) _ _ (lineup_money seed seed0 entries cfg)) in Hm. split_and!.
    + assert (forall L : list Fighter, f_purse <$> L = snd <$> (money <$> L)) as E
        by (intros L; rewrite <- list_fmap_compose; by apply list_fmap_ext). by rewrite !E, Hm.
    + by apply settlement_money.
    + by apply winner_money.
  - by apply verify_accepts.
Qed.

(** C37. What the log may say.  Every hit of a finished round is dated before its
    end, takes more than a cent (or an amount that compares with nothing), and
    is between two entrants of different sides and of different wallets; and a
    fighter that is out at some tick holds for ever what it held then. *)
Theorem log_is_fair seed entries cfg n : NoDup (en_id <$> entries) -> length_ok cfg n ->
  let at_tick k := Nat.iter k stepSim (createSim seed entries cfg) in
  (exists k r end_, run (turns cfg) (createSim seed entries cfg) = Some (at_tick k) /\ simulateRound sha256 seed entries cfg = Some r
    /\ r_hits r = s_hits (at_tick k) /\ r_endTick r = of_Z end_ /\ 0 <= end_ <= n
    /\ Forall (fun h => 0 <= h_t h < end_ /\ leb (h_amt h) (dec 1 2) = false
        /\ exists a b, a ∈ entries /\ b ∈ entries /\ en_id a = h_atk h /\ en_id b = h_def h /\ en_side a <> en_side b
           /\ wallet_of (en_id a) <> wallet_of (en_id b)) (r_hits r))
  /\ forall k k' i f, (k <= k')%nat -> s_F (at_tick k) !! i = Some f -> f_dead f = true ->
     exists f', s_F (at_tick k') !! i = Some f' /\ f_dead f' = true /\ money f' = money f.
Proof.
  intros Hnd Hl at_tick. split.
  - destruct (battle_ends seed entries cfg n Hnd Hl) as (s & k & R & E & Hf & Hd & Hc).
    exists k, (finishSim s (sha256 seed)), (s_t s). unfold at_tick. rewrite <- E. split_and!; try done.
    + unfold simulateRound. by rewrite R.
    + by apply (fg_end _ _ _ Hf).
    + apply (fg_t _ _ _ Hf).
    + apply (fg_t _ _ _ Hf).
    + eapply Forall_impl; [exact (fg_hits _ _ _ Hf) |]. cbn. intros h [(a & b & Ha & Hb & H1 & H2 & H3 & H4 & H5) Ht].
      split_and!; [lia | lia | done |].
      assert (Hen : forall f, f ∈ start seed entries cfg -> exists e, e ∈ entries /\ en_id e = f_id f /\ en_side e = f_side f).
      { intros f. apply lineup_entry. }
      destruct (Hen a Ha) as (ea & Hea & Ea1 & Ea2), (Hen b Hb) as (eb & Heb & Eb1 & Eb2).
      exists ea, eb. rewrite Ea1, Ea2, Eb1, Eb2. by split_and!.
  - assert (Hids : forall k, fought (start seed entries cfg) n (at_tick k)).
    { induction k as [| k IH]; [by apply createSim_fought |]. apply step_fought; [apply Hl | done]. }
    intros k k' i f Hk. revert i f. induction Hk as [| k' Hk IH]; intros i f Hi Hd; [by exists f |].
    destruct (IH i f Hi Hd) as (f' & Hi' & Hd' & E').
    destruct (step_follows (at_tick k') (fg_ids _ _ _ (Hids k'))) as (out & _ & Hfo & _).
    destruct (fo_out _ _ _ _ _ Hfo i f' Hi' Hd') as (f'' & Hi'' & Hd'' & E''). exists f''. split_and!; [done | done | congruence].
Qed.
End Movement.

(** ** An implementation of the two functions: rounded once to nearest *)

Definition sqrt_near (x : num) : num :=
  match x with
  | Fin m =>
      if m <? 0 then NaN else
      let r := Z.sqrt (m * one) in of_ratio (2 * r + (if r * r =? m * one then 0 else 1)) 2
  | Inf false => Inf false
  | _ => NaN
  end.

Definition nearest : Approx := {| sqrt := sqrt_near; hypot x y := sqrt_near (add (mul x x) (mul y y)) |}.

Definition TEST_CFG : RoundConfig := mkConfig extraction (of_Z 2) (dec 85 3) (dec 25 2) (of_Z 40000) (of_Z 50) (dec 12 1) None.
Definition TEST_ENTRIES : list Entry := [mkEntry (lit "w1|bull") bull (of_Z 5); mkEntry (lit "w2|uwu") uwu (of_Z 7); mkEntry (lit "w1|uwu") uwu (of_Z 1)].

Lemma test_cfg_ok : length_ok TEST_CFG 800.
Proof. split; [lia |]. vm_compute. reflexivity. Qed.

Lemma test_entries_ok : NoDup (en_id <$> TEST_ENTRIES).
Proof. apply (bool_decide_unpack _). vm_compute. exact I. Qed.

Lemma hits_replay_the_money_witness :
  NoDup (en_id <$> TEST_ENTRIES) /\ length_ok TEST_CFG 800
  /\ exists r, @simulateRound nearest (fun s => s) (lit "beef") TEST_ENTRIES TEST_CFG = Some r
     /\ r_winner r = winner_of (replay extraction (r_hits r) (@start nearest (lit "f00d") TEST_ENTRIES TEST_CFG)).
Proof.
  split; [exact test_entries_ok |]. split; [exact test_cfg_ok |].
  destruct (@hits_replay_the_money nearest (fun s => s) (lit "beef") (lit "f00d") TEST_ENTRIES TEST_CFG 800 test_entries_ok test_cfg_ok)
    as (r & Hr & (_ & _ & Hw) & _).
  exists r. split; [exact Hr | exact Hw].
Defined.

Lemma log_is_fair_witness :
  length_ok TEST_CFG 800 /\ exists r, @simulateRound nearest (fun s => s) (lit "beef") TEST_ENTRIES TEST_CFG = Some r
  /\ Forall (fun h => 0 <= h_t h < 800) (r_hits r).
Proof.
  split; [exact test_cfg_ok |].
  destruct (@log_is_fair nearest (fun s => s) (lit "beef") TEST_ENTRIES TEST_CFG 800 test_entries_ok test_cfg_ok)
    as [(k & r & e & _ & Hr & _ & _ & He & Hh) _].
  exists r. split; [exact Hr |]. eapply Forall_impl; [exact Hh |]. intros h (Ht & _). lia.
Defined.
