(* ===== verification/EngineRound.v ===== *)
(** * The first-generation round: commit, fight, settle

    [engine/src/round.ts], whole: the seed derived from a committed secret and the
    final entries, the lobby, and the runner's machine over deposits, ticks of the
    clock and the end of the settlement each round waits for.  SHA-256, the random
    bytes and [Math.random] come from outside.

    Laws: what is revealed is what was committed, and the result is that of the
    revealed seed; rounds settle once each, in order; the seed names the entries,
    but neither their order nor the digits of a stake past the eighth. *)
From stdpp Require Import sorting.
From S2P Require Import Prelude Text JsNum Json EngineGame.

(** ** The seed *)

(** [x.toFixed(8)] *)
Definition toFixed8 (x : num) : units :=
  match x with
  | NaN => lit "NaN"
  | Inf s => if s then lit "-Infinity" else lit "Infinity"
  | Fin m =>
      if 10 ^ 21 * one <=? Z.abs m then show_num x else
      let n := (2 * (Z.abs m * 10 ^ 8) + one) / (2 * one) in
      (if m <? 0 then [45] else []) ++ digits (n / 10 ^ 8) ++ 46 :: lit (padded 8 (n mod 10 ^ 8))
  end.

Definition side_name (s : Side) : units := match s with bull => lit "bull" | uwu => lit "uwu" end.

Definition canon_entry (e : Entry) : units := en_id e ++ 124 :: side_name (en_side e) ++ 124 :: toFixed8 (en_stake e).

(** The default order of [sort]: by code units. *)
Definition units_le (a b : units) : Prop := units_lt b a = false.

#[global] Instance units_le_dec a b : Decision (units_le a b).
Proof. unfold units_le. apply _. Defined.

Definition canon (entries : list Entry) : units := separated [59] (merge_sort units_le (canon_entry <$> entries)).

(** [secret + "|" + canon] *)
Definition seed_text (secret : units) (entries : list Entry) : units := (secret ++ [124]) ++ canon entries.

Definition deriveSeed (sha256 : units -> units) (secret : units) (entries : list Entry) : units := sha256 (seed_text secret entries).

(** ** The runner *)

Inductive Phase : Type := lobby | battle | settle.

#[global] Instance Phase_eq_dec : EqDecision Phase.
Proof. solve_decision. Defined.

Record RoundState : Type := mkState {
  rs_round : Z; rs_mode : Mode; rs_phase : Phase;
  rs_seedHashPublished : units; rs_seed : option units; rs_secretRevealed : option units;
  rs_entries : list Entry; rs_result : option RoundResult;
  rs_multiplier : num; rs_openedAt : num; rs_closesAt : num; rs_battleMs : option num;
}.

(** What a new lobby draws: the secret's 32 bytes in hexadecimal, [Math.random()]
    and [Date.now()]. *)
Record Draw : Type := mkDraw { d_secret : units; d_random : num; d_now : num }.

Definition rollMultiplier (u : num) : num :=
  of_Z (if ltb u (dec 7 1) then 1 else if ltb u (dec 85 2) then 2 else if ltb u (dec 93 2) then 4
        else if ltb u (dec 97 2) then 6 else if ltb u (dec 99 2) then 8 else 10).

(** [e.stake += stake] on the first entry of this id and side, or a new entry. *)
Fixpoint top_up (id : units) (side : Side) (stake : num) (es : list Entry) : list Entry :=
  match es with
  | [] => [mkEntry id side stake]
  | e :: es =>
      if bool_decide (en_id e = id) && bool_decide (en_side e = side) then mkEntry (en_id e) (en_side e) (add (en_stake e) stake) :: es
      else e :: top_up id side stake es
  end.

Section Runner.
Context `{Approx} (sha256 : units -> units).
(** The two lengths of the environment, and the mode the runner was built with. *)
Context (LOBBY_MS BATTLE_MS : num) (mode : Mode).

Definition newRoundConfig (mode : Mode) (multiplier : num) : RoundConfig :=
  mkConfig mode multiplier (dec 85 3) (dec 25 2) BATTLE_MS (of_Z 50) (dec 12 1) None.

(** [state] and [secret]; [seed] repeats the state's. *)
Record RoundRunner : Type := mkRunner { state : RoundState; secret : units; seed : units }.

Definition freshLobby (round : Z) (d : Draw) : RoundState :=
  mkState round mode lobby (sha256 (d_secret d)) None None [] None (rollMultiplier (d_random d)) (d_now d) (add (d_now d) LOBBY_MS) None.

(** [this.state = this.freshLobby(n)]: [seed] keeps its old value. *)
Definition open_lobby (round : Z) (d : Draw) (seed : units) : RoundRunner := mkRunner (freshLobby round d) (d_secret d) seed.

Definition enter (playerId : units) (side : Side) (stake : num) (r : RoundRunner) : bool * RoundRunner :=
  let s := state r in
  match rs_phase s with
  | lobby =>
      (true, mkRunner (mkState (rs_round s) (rs_mode s) (rs_phase s) (rs_seedHashPublished s) (rs_seed s) (rs_secretRevealed s)
                         (top_up playerId side stake (rs_entries s)) (rs_result s) (rs_multiplier s) (rs_openedAt s) (rs_closesAt s) (rs_battleMs s))
               (secret r) (seed r))
  | _ => (false, r)
  end.

(** The lobby closes: the seed is derived, revealed and fought. [None]: the
    simulation does not return. *)
Definition close_lobby (now : num) (r : RoundRunner) : option RoundRunner :=
  let s := state r in
  let seed := deriveSeed sha256 (secret r) (rs_entries s) in
  let cfg := newRoundConfig (rs_mode s) (rs_multiplier s) in
  (fun res =>
    let battleMs := min BATTLE_MS (add (mul (add (r_endTick res) (of_Z 2)) (c_tickMs cfg)) (of_Z 900)) in
    mkRunner (mkState (rs_round s) (rs_mode s) battle (rs_seedHashPublished s) (Some seed) (Some (secret r)) (rs_entries s) (Some res)
                (rs_multiplier s) (rs_openedAt s) (add now battleMs) (Some battleMs)) (secret r) seed)
  <$> simulateRound sha256 seed (rs_entries s) cfg.

Definition settling (s : RoundState) : RoundState :=
  mkState (rs_round s) (rs_mode s) settle (rs_seedHashPublished s) (rs_seed s) (rs_secretRevealed s) (rs_entries s) (rs_result s)
    (rs_multiplier s) (rs_openedAt s) (rs_closesAt s) (rs_battleMs s).

(** The runner, the state [tick] holds while it awaits [onSettle], and the calls
    of [onSettle] so far. *)
Record Machine : Type := mkMachine { m_runner : RoundRunner; m_pending : option RoundState; m_calls : list (RoundResult * RoundState) }.

Definition boot (startRound : Z) (d : Draw) : Machine := mkMachine (open_lobby startRound d []) None [].

(** [tick] up to its await.  [d] is what a lobby opened at once would draw. *)
Definition tick (now : num) (d : Draw) (m : Machine) : option Machine :=
  let r := m_runner m in
  let s := state r in
  match rs_phase s with
  | lobby =>
      if leb (rs_closesAt s) now then (fun r => mkMachine r (m_pending m) (m_calls m)) <$> close_lobby now r else Some m
  | battle =>
      if leb (rs_closesAt s) now then
        let s := settling s in
        match rs_result s with
        | Some res => Some (mkMachine (mkRunner s (secret r) (seed r)) (Some s) (m_calls m ++ [(res, s)]))
        | None => Some (mkMachine (open_lobby (rs_round s + 1) d (seed r)) (m_pending m) (m_calls m))
        end
      else Some m
  | settle => Some m
  end.

(** The promise [onSettle] returned: [tick] goes on, or throws. *)
Definition settled (ok : bool) (d : Draw) (m : Machine) : Machine :=
  match m_pending m with
  | None => m
  | Some s =>
      if ok then mkMachine (open_lobby (rs_round s + 1) d (seed (m_runner m))) None (m_calls m)
      else mkMachine (m_runner m) None (m_calls m)
  end.

Inductive Event : Type :=
| Enter (playerId : units) (side : Side) (stake : num)
| Tick (now : num) (d : Draw)
| Settled (ok : bool) (d : Draw).

Definition step (m : Machine) (e : Event) : option Machine :=
  match e with
  | Enter id side stake => Some (mkMachine (enter id side stake (m_runner m)).2 (m_pending m) (m_calls m))
  | Tick now d => tick now d m
  | Settled ok d => Some (settled ok d m)
  end.

Fixpoint steps (m : Machine) (es : list Event) : option Machine :=
  match es with [] => Some m | e :: es => step m e ≫= fun m => steps m es end.

(** ** What a round shows *)

(** The revealed half of a round: its result is that of the seed its secret and
    entries derive. *)
Definition revealed (s : RoundState) (sec : units) : Prop :=
  rs_secretRevealed s = Some sec /\ rs_seed s = Some (deriveSeed sha256 sec (rs_entries s))
  /\ exists r, rs_result s = Some r
     /\ simulateRound sha256 (deriveSeed sha256 sec (rs_entries s)) (rs_entries s) (newRoundConfig mode (rs_multiplier s)) = Some r.

Definition hidden (s : RoundState) : Prop := rs_secretRevealed s = None /\ rs_seed s = None /\ rs_result s = None.

Record sound (m : Machine) : Prop := {
  so_mode : rs_mode (state (m_runner m)) = mode;
  so_commit : rs_seedHashPublished (state (m_runner m)) = sha256 (secret (m_runner m));
  so_phase : match rs_phase (state (m_runner m)) with
             | lobby => hidden (state (m_runner m))
             | _ => revealed (state (m_runner m)) (secret (m_runner m))
             end;
  so_pending : forall s, m_pending m = Some s -> s = state (m_runner m) /\ rs_phase s = settle;
}.

(** Within a round the commitment stands, and once the lobby has closed nothing
    of it moves but the phase. *)
Definition later (s1 s2 : RoundState) : Prop :=
  rs_round s1 < rs_round s2
  \/ rs_round s1 = rs_round s2 /\ rs_seedHashPublished s2 = rs_seedHashPublished s1 /\ rs_multiplier s2 = rs_multiplier s1
     /\ (rs_phase s1 <> lobby -> rs_phase s2 <> lobby /\ rs_entries s2 = rs_entries s1 /\ rs_seed s2 = rs_seed s1
         /\ rs_secretRevealed s2 = rs_secretRevealed s1 /\ rs_result s2 = rs_result s1).

Lemma later_refl s : later s s.
Proof. right. by split_and!. Qed.

Lemma later_trans a b c : later a b -> later b c -> later a c.
Proof.
  intros [H1 | (R1 & P1 & M1 & E1)] [H2 | (R2 & P2 & M2 & E2)]; [left; lia..|]. right.
  split_and!; [lia | congruence | congruence |]. intros Hp. destruct (E1 Hp) as (Hp' & ? & ? & ? & ?). destruct (E2 Hp') as (? & ? & ? & ? & ?).
  split_and!; congruence.
Qed.

Lemma open_lobby_sound n d sd calls : sound (mkMachine (open_lobby n d sd) None calls).
Proof. by constructor. Qed.

(** The calls of [onSettle]: one per finished round, in order, each with a
    verified result. *)
Definition call_ok (c : RoundResult * RoundState) : Prop :=
  rs_phase c.2 = settle /\ rs_result c.2 = Some c.1
  /\ exists sec, rs_seedHashPublished c.2 = sha256 sec /\ revealed c.2 sec.

Definition finished (m : Machine) : Z := if decide (rs_phase (state (m_runner m)) = settle) then 1 else 0.

Record booked (start : Z) (m : Machine) : Prop := {
  bk_rounds : (fun c : RoundResult * RoundState => rs_round c.2) <$> m_calls m = seqZ start (rs_round (state (m_runner m)) - start + finished m);
  bk_start : start <= rs_round (state (m_runner m));
  bk_calls : Forall call_ok (m_calls m);
}.

Context (ticks : Z) (Hticks : 0 <= ticks <= 2 ^ 53) (Hlen : floor (div BATTLE_MS (of_Z 50)) = of_Z ticks).

Lemma round_length mult : length_ok (newRoundConfig mode mult) ticks.
Proof. by split. Qed.

Lemma close_lobby_spec now r : rs_mode (state r) = mode -> exists r', close_lobby now r = Some r'
  /\ secret r' = secret r /\ rs_round (state r') = rs_round (state r) /\ rs_mode (state r') = mode /\ rs_phase (state r') = battle
  /\ rs_seedHashPublished (state r') = rs_seedHashPublished (state r) /\ rs_multiplier (state r') = rs_multiplier (state r)
  /\ revealed (state r') (secret r).
Proof.
  intros Hm. unfold close_lobby. rewrite Hm.
  destruct (simulate_returns sha256 (deriveSeed sha256 (secret r) (rs_entries (state r))) (rs_entries (state r)) _ _ (round_length (rs_multiplier (state r))))
    as [res E]. rewrite E. eexists. split; [reflexivity |].
  split_and!; try done. unfold revealed. split_and!; try done. by exists res.
Qed.

Lemma seqZ_snoc a n : 0 <= n -> seqZ a (n + 1) = seqZ a n ++ [a + n].
Proof. intros Hn. by rewrite seqZ_app by lia. Qed.

(** One event: it happens, and keeps everything above. *)
Lemma step_spec startRound m e : sound m -> booked startRound m ->
  exists m', step m e = Some m' /\ sound m' /\ booked startRound m' /\ later (state (m_runner m)) (state (m_runner m')).
Proof.
  intros [Hmode Hcommit Hphase Hpend] [Hr Hs Hc]. destruct m as [[s sec sd] pend calls]. cbn [m_runner state secret m_pending m_calls] in *.
  unfold finished in Hr. cbn [m_runner state] in Hr.
  destruct e as [id side stake | now d | ok d]; cbn [step].
  - unfold enter. cbn [state m_runner m_pending m_calls].
    destruct (rs_phase s) eqn:Ep; cbn [snd]; (eexists; split; [reflexivity |]); cbn [m_runner state].
    + split_and!; [| | right; cbn; rewrite Ep; by split_and!].
      * constructor; cbn; try done. intros x Hx. destruct (Hpend x Hx) as [-> Hx']. congruence.
      * by constructor.
    + split_and!; [| | apply later_refl]; constructor; unfold finished; cbn; by rewrite ?Ep.
    + split_and!; [| | apply later_refl]; constructor; unfold finished; cbn; by rewrite ?Ep.
  - unfold tick. cbn [m_runner state secret seed m_pending m_calls].
    assert (Hsame : exists m', Some (mkMachine (mkRunner s sec sd) pend calls) = Some m' /\ sound m' /\ booked startRound m' /\ later s (state (m_runner m'))).
    { eexists. split; [reflexivity |]. split_and!; [by constructor | by constructor | apply later_refl]. }
    destruct (rs_phase s) eqn:Ep; [| | done].
    + destruct (leb (rs_closesAt s) now); [| done].
      destruct (close_lobby_spec now (mkRunner s sec sd) Hmode) as ([s' sec' sd'] & -> & E1 & E2 & E3 & E4 & E5 & E6 & E7).
      cbn in E1, E2, E3, E4, E5, E6, E7. subst sec'. eexists. split; [reflexivity |]. cbn [m_runner state].
      split_and!; [| | right; rewrite E2, E5, E6, Ep; by split_and!].
      * constructor; cbn; [done | congruence | by rewrite E4 |]. intros x Hx. destruct (Hpend x Hx) as [-> Hx']. congruence.
      * constructor; cbn; [| lia | done]. unfold finished. cbn. rewrite E2, E4. cbn in Hr |- *. exact Hr.
    + destruct (leb (rs_closesAt s) now); [| done]. pose proof Hphase as (Hsec & Hseed & res & Hres & Hsim). cbn [settling rs_result].
      rewrite Hres. eexists. split; [reflexivity |]. cbn [m_runner state].
      split_and!; [| | right; cbn; rewrite Ep; by split_and!].
      * constructor; cbn; try done. intros x Hx. by apply (inj Some) in Hx as <-.
      * constructor; cbn; [| lia |].
        -- unfold finished. cbn. cbn in Hr. rewrite fmap_app, Hr, Z.add_0_r. cbn. rewrite seqZ_snoc by lia. do 2 f_equal. lia.
        -- apply Forall_app_2; [done |]. constructor; [| constructor]. split_and!; [done | by cbn |]. exists sec. by split.
  - unfold settled. cbn [m_pending m_runner m_calls seed].
    destruct pend as [x |]; [| eexists; split; [reflexivity |]; split_and!; [by constructor | by constructor | apply later_refl]].
    destruct (Hpend x eq_refl) as [-> Hx]. rewrite Hx in Hphase. destruct ok; (eexists; split; [reflexivity |]); cbn [m_runner state].
    + split_and!; [by constructor | | left; cbn; lia]. constructor; cbn; [| lia | done]. unfold finished. cbn.
      rewrite Hx in Hr. cbn in Hr. rewrite Hr. f_equal. rewrite (decide_True (P := settle = settle)), (decide_False (P := lobby = settle)) by done. lia.
    + split_and!; [| | apply later_refl]; [constructor; cbn; try done; by rewrite Hx |].
      constructor; cbn; [| lia | done]. unfold finished. cbn. by rewrite Hx in Hr |- *.
Qed.

Lemma steps_spec startRound m es : sound m -> booked startRound m ->
  exists m', steps m es = Some m' /\ sound m' /\ booked startRound m' /\ later (state (m_runner m)) (state (m_runner m')).
Proof.
  revert m. induction es as [| e es IH]; intros m Hs Hb; [exists m; split_and!; try done; apply later_refl |].
  destruct (step_spec startRound m e Hs Hb) as (m1 & E1 & Hs1 & Hb1 & L1). destruct (IH m1 Hs1 Hb1) as (m2 & E2 & Hs2 & Hb2 & L2).
  exists m2. cbn [steps]. rewrite E1. split_and!; try done. by eapply later_trans.
Qed.

Lemma boot_ok startRound d : sound (boot startRound d) /\ booked startRound (boot startRound d).
Proof.
  split; [by constructor |]. constructor; [| cbn; lia | constructor].
  unfold finished. cbn. rewrite seqZ_nil; [done |]. rewrite decide_False by done. lia.
Qed.

(** C20. Commit and reveal.  Over any deposits, ticks and settlements, the runner
    goes on, and at every moment: while a round's lobby is open, neither seed nor
    secret nor result exists in its state, only the hash of the secret; once it
    has closed, the revealed secret is the one whose hash was published, the seed
    is derived from it and from the entries as they stand, and the published
    result is the one anyone recomputes; from then on a deposit is refused and
    changes nothing; and at any later moment of the same round the commitment and
    the multiplier are what they were, as are, once closed, entries, seed and result. *)
Theorem reveal_matches_commitment startRound d evs1 evs2 :
  exists m1 m2, steps (boot startRound d) evs1 = Some m1 /\ steps m1 evs2 = Some m2 /\
  let s1 := state (m_runner m1) in let s2 := state (m_runner m2) in
  (rs_phase s1 = lobby -> hidden s1 /\ rs_seedHashPublished s1 = sha256 (secret (m_runner m1)))
  /\ (rs_phase s1 <> lobby ->
      (exists sec r, rs_secretRevealed s1 = Some sec /\ sha256 sec = rs_seedHashPublished s1
         /\ rs_seed s1 = Some (deriveSeed sha256 sec (rs_entries s1)) /\ rs_result s1 = Some r
         /\ verifyRound sha256 (deriveSeed sha256 sec (rs_entries s1)) (rs_entries s1) (newRoundConfig mode (rs_multiplier s1)) r = Some true)
      /\ forall id side stake, enter id side stake (m_runner m1) = (false, m_runner m1))
  /\ (rs_round s2 = rs_round s1 -> rs_seedHashPublished s2 = rs_seedHashPublished s1 /\ rs_multiplier s2 = rs_multiplier s1
      /\ (rs_phase s1 <> lobby -> rs_entries s2 = rs_entries s1 /\ rs_seed s2 = rs_seed s1 /\ rs_result s2 = rs_result s1)).
Proof.
  destruct (boot_ok startRound d) as [Hs0 Hb0]. destruct (steps_spec startRound _ evs1 Hs0 Hb0) as (m1 & E1 & Hs1 & Hb1 & _).
  destruct (steps_spec startRound m1 evs2 Hs1 Hb1) as (m2 & E2 & _ & _ & L). exists m1, m2. split; [done |]. split; [done |]. intros s1 s2.
  pose proof (so_commit _ Hs1) as Hc. pose proof (so_phase _ Hs1) as Hp. fold s1 in Hc, Hp. split_and!.
  - intros Hl. by rewrite Hl in Hp.
  - intros Hl. assert (Hr : revealed s1 (secret (m_runner m1))) by (by destruct (rs_phase s1)). destruct Hr as (H1 & H2 & r & H3 & H4). split.
    + exists (secret (m_runner m1)), r. split_and!; try done. by apply verify_accepts.
    + intros id side stake. unfold enter. fold s1. by destruct (rs_phase s1).
  - intros Hr. destruct L as [L | (_ & L1 & L2 & L3)]; [fold s1 s2 in L; lia |]. split_and!; try done. intros Hl. by destruct (L3 Hl) as (_ & ? & ? & _ & ?).
Qed.

(** C29. Rounds are settled once each, in order.  Over any history the settlement
    was called for the first round, the second, and so on, one call per round
    that finished, each with the result that verifies against its own
    commitment; a battle whose time is over is settled by the next tick, and when
    the settlement is done the next round's lobby is open.  If a settlement
    throws, the runner never moves again. *)
Theorem rounds_settle_once startRound d evs :
  exists m, steps (boot startRound d) evs = Some m /\
  let s := state (m_runner m) in
  (fun c : RoundResult * RoundState => rs_round c.2) <$> m_calls m = seqZ startRound (rs_round s - startRound + finished m)
  /\ Forall call_ok (m_calls m)
  /\ (rs_phase s = battle -> forall now d0 d1, leb (rs_closesAt s) now = true ->
      exists m' r, steps m [Tick now d0; Settled true d1] = Some m' /\ rs_result s = Some r
      /\ m_calls m' = m_calls m ++ [(r, settling s)] /\ state (m_runner m') = freshLobby (rs_round s + 1) d1)
  /\ (rs_phase s = settle -> m_pending m = None -> forall evs', steps m evs' = Some m).
Proof.
  destruct (boot_ok startRound d) as [Hs0 Hb0]. destruct (steps_spec startRound _ evs Hs0 Hb0) as (m & E & Hs & Hb & _).
  exists m. split; [done |]. intros s. split_and!; [apply Hb | apply Hb | |].
  - intros Hp now d0 d1 Hnow. pose proof (so_phase _ Hs) as H1. fold s in H1. rewrite Hp in H1. destruct H1 as (_ & _ & r & Hr & _).
    cbn [steps step]. unfold tick. fold s. rewrite Hp, Hnow. cbn [settling rs_result]. rewrite Hr. eexists _, r. split; [reflexivity |]. by split_and!.
  - intros Hp Hnone evs'. induction evs' as [| e evs' IH]; [done |]. cbn [steps].
    assert (Hst : step m e = Some m); [| by rewrite Hst].
    destruct e; cbn [step].
    + unfold enter. fold s. rewrite Hp. by destruct m.
    + unfold tick. fold s. by rewrite Hp.
    + unfold settled. by rewrite Hnone.
Qed.
End Runner.

Definition TEST_DRAW : Draw := mkDraw (lit "00ff") (dec 5 1) (of_Z 1000).

Definition TEST_EVENTS : list Event := [Enter (lit "w1|bull") bull (of_Z 5); Enter (lit "w2|uwu") uwu (of_Z 7); Tick (of_Z 10000) TEST_DRAW].

Lemma test_length : floor (div (of_Z 40000) (of_Z 50)) = of_Z 800.
Proof. vm_compute. reflexivity. Qed.

Lemma reveal_matches_commitment_witness :
  floor (div (of_Z 40000) (of_Z 50)) = of_Z 800
  /\ exists m1 m2, @steps nearest (fun s => s) (of_Z 9000) (of_Z 40000) normal (@boot (fun s => s) (of_Z 9000) normal 7 TEST_DRAW) TEST_EVENTS = Some m1
     /\ @steps nearest (fun s => s) (of_Z 9000) (of_Z 40000) normal m1 [Tick (of_Z 90000) TEST_DRAW] = Some m2.
Proof.
  split; [exact test_length |].
  destruct (@reveal_matches_commitment nearest (fun s => s) (of_Z 9000) (of_Z 40000) normal 800 ltac:(lia) test_length 7 TEST_DRAW
              TEST_EVENTS [Tick (of_Z 90000) TEST_DRAW]) as (m1 & m2 & E1 & E2 & _).
  exists m1, m2. split; [exact E1 | exact E2].
Defined.

Lemma rounds_settle_once_witness :
  exists m, @steps nearest (fun s => s) (of_Z 9000) (of_Z 40000) normal (@boot (fun s => s) (of_Z 9000) normal 7 TEST_DRAW)
              (TEST_EVENTS ++ [Tick (of_Z 90000) TEST_DRAW; Settled true TEST_DRAW]) = Some m
  /\ (fun c : RoundResult * RoundState => rs_round c.2) <$> m_calls m = seqZ 7 (rs_round (state (m_runner m)) - 7 + finished m).
Proof.
  destruct (@rounds_settle_once nearest (fun s => s) (of_Z 9000) (of_Z 40000) normal 800 ltac:(lia) test_length 7 TEST_DRAW
              (TEST_EVENTS ++ [Tick (of_Z 90000) TEST_DRAW; Settled true TEST_DRAW])) as (m & E & Hc & _).
  exists m. split; [exact E | exact Hc].
Defined.

(** ** What the seed names *)

Lemma units_lt_irrefl a : units_lt a a = false.
Proof. induction a as [| x a IH]; [done |]. cbn. by rewrite Z.ltb_irrefl, Z.eqb_refl, IH. Qed.

#[global] Instance units_le_total : Total units_le.
Proof.
  unfold units_le. intros a. induction a as [| x a IH]; intros [| y b]; cbn; try (by left); try (by right).
  destruct (Z.ltb_spec y x), (Z.ltb_spec x y), (Z.eqb_spec y x), (Z.eqb_spec x y); cbn; try lia; auto.
Qed.

#[global] Instance units_le_trans : Transitive units_le.
Proof.
  unfold units_le. intros a. induction a as [| x a IH]; intros [| y b] [| z c]; cbn; try done.
  destruct (Z.ltb_spec y x), (Z.ltb_spec z y), (Z.ltb_spec z x), (Z.eqb_spec y x), (Z.eqb_spec z y), (Z.eqb_spec z x); cbn; try lia; try done. by apply IH.
Qed.

#[global] Instance units_le_antisym : AntiSymm (=) units_le.
Proof.
  unfold units_le. intros a. induction a as [| x a IH]; intros [| y b]; cbn; try done.
  destruct (Z.ltb_spec y x), (Z.ltb_spec x y), (Z.eqb_spec y x), (Z.eqb_spec x y); cbn; try lia; try done. subst. intros H1 H2. f_equal. by apply IH.
Qed.

(** Sorting forgets the order and nothing else. *)
Lemma sort_forgets l k : l ≡ₚ k <-> merge_sort units_le l = merge_sort units_le k.
Proof.
  split.
  - intros Hp. apply (StronglySorted_unique units_le); [apply (StronglySorted_merge_sort units_le)..|].
    by rewrite !merge_sort_Permutation.
  - intros E. rewrite <- (merge_sort_Permutation units_le l), <- (merge_sort_Permutation units_le k). by rewrite E.
Qed.

Lemma separated_inj (ls ks : list units) : Forall (fun l => l <> [] /\ 59 ∉ l) ls -> Forall (fun l => l <> [] /\ 59 ∉ l) ks ->
  separated [59] ls = separated [59] ks -> ls = ks.
Proof.
  revert ks. induction ls as [| a ls IH]; intros ks Hl Hk E.
  - destruct ks as [| b ks]; [done |]. exfalso. apply Forall_cons in Hk as [[Hb _] _]. destruct ks; cbn in E; [by subst |]. by destruct b.
  - apply Forall_cons in Hl as [[Ha Ha'] Hl]. destruct ks as [| b ks].
    + exfalso. destruct ls; cbn in E; [by subst |]. by destruct a.
    + apply Forall_cons in Hk as [[Hb Hb'] Hk].
      destruct ls as [| a2 ls], ks as [| b2 ks]; cbn [separated] in E.
      * by subst.
      * exfalso. apply Ha'. rewrite E. apply elem_of_app. right. left.
      * exfalso. apply Hb'. rewrite <- E. apply elem_of_app. right. left.
      * change (a ++ 59 :: separated [59] (a2 :: ls) = b ++ 59 :: separated [59] (b2 :: ks)) in E.
        apply chars_split in E as [-> E]; [| done..]. f_equal. by apply IH.
Qed.

(** The key the canonical line of an entry carries, read back from its right end. *)
Fixpoint cut_bar (l : units) : units * units :=
  match l with
  | [] => ([], [])
  | c :: l => if c =? 124 then ([], l) else let '(h, t) := cut_bar l in (c :: h, t)
  end.

Definition uncanon (l : units) : units * units * units :=
  let '(stake, l) := cut_bar (reverse l) in
  let '(side, id) := cut_bar l in
  (reverse id, reverse side, reverse stake).

Definition entry_key (e : Entry) : units * units * units := (en_id e, side_name (en_side e), toFixed8 (en_stake e)).

Lemma cut_bar_app h t : 124 ∉ h -> cut_bar (h ++ 124 :: t) = (h, t).
Proof.
  induction h as [| c h IH]; [done |]. intros [Hc Hh]%not_elem_of_cons. cbn. destruct (Z.eqb_spec c 124); [congruence |]. by rewrite IH.
Qed.

Definition numeral (c : Z) : Prop := c <> 124 /\ c <> 59.

Lemma digits_numeral z : Forall numeral (digits z).
Proof.
  unfold digits. generalize (S (Z.to_nat (Z.log2 z))) as fuel. intros fuel.
  assert (Hg : forall fuel z acc, Forall numeral acc -> Forall numeral (digits_go fuel z acc)); [| by apply Hg].
  clear. induction fuel as [| fuel IH]; intros z acc Ha; [done |]. cbn [digits_go].
  assert (Hc : Forall numeral (48 + z mod 10 :: acc)).
  { constructor; [| done]. pose proof (Z.mod_pos_bound z 10 ltac:(lia)). unfold numeral. lia. }
  destruct (z <? 10); [done | by apply IH].
Qed.

Lemma padded_numeral n z : Forall numeral (lit (padded n z)).
Proof.
  apply Forall_forall. intros x (c & -> & Hc)%list_elem_of_fmap.
  assert (Hat : forall k, Z.of_nat (nat_of_ascii c) = Z.of_nat k -> c = ascii_of_nat k)
    by (intros k E%Nat2Z.inj; by rewrite <- E, ascii_nat_embedding).
  split; intros E.
  - apply (padded_lacks n z "|"%char eq_refl). by rewrite <- (Hat 124%nat E : c = "|"%char).
  - apply (padded_lacks n z ";"%char eq_refl). by rewrite <- (Hat 59%nat E : c = ";"%char).
Qed.

Lemma show_num_numeral x : Forall numeral (show_num x).
Proof.
  assert (Hd : forall z, Forall numeral (digits z)) by apply digits_numeral.
  assert (Hz : forall n, Forall numeral (repeat 48 n)) by (induction n; constructor; done).
  assert (Hlit : forall c, c <> 124 -> c <> 59 -> numeral c) by done.
  assert (Hlay : forall s e, Forall numeral (layout s e)).
  { intros s e. unfold layout. destruct (_ && _); [by apply Forall_app_2 |].
    destruct (_ && _); [apply Forall_app_2; [by apply Forall_take | constructor; [done | by apply Forall_drop]] |].
    destruct (_ && _); [constructor; [done |]; constructor; [done |]; by apply Forall_app_2 |].
    specialize (Hd s) as Hs. destruct (digits s) as [| d ds]; [done |]. apply Forall_cons in Hs as [H1 H2].
    constructor; [done |]. apply Forall_app_2; [by destruct (_ =? 1); constructor |]. constructor; [done |]. constructor; [by destruct (_ <? 0) | done]. }
  destruct x as [| |m]; cbn [show_num]; try (repeat constructor; done).
  destruct (m =? 0); [by repeat constructor |]. destruct (shortest _ _ _) as [s e]. apply Forall_app_2; [| done].
  destruct (m <? 0); by repeat constructor.
Qed.

Lemma toFixed8_numeral x : Forall numeral (toFixed8 x).
Proof.
  unfold toFixed8. destruct x as [| s | m]; [by repeat constructor | destruct s; by repeat constructor |].
  destruct (_ <=? _); [apply show_num_numeral |]. apply Forall_app_2; [destruct (m <? 0); by repeat constructor |].
  apply Forall_app_2; [apply digits_numeral |]. constructor; [done | apply padded_numeral].
Qed.

Lemma side_name_numeral s : Forall numeral (side_name s).
Proof. destruct s; by repeat constructor. Qed.

Lemma numeral_lacks l : Forall numeral l -> (124 ∉ l) /\ (59 ∉ l).
Proof. intros H. rewrite Forall_forall in H. split; intros Hin; by destruct (H _ Hin). Qed.

Lemma uncanon_canon e : uncanon (canon_entry e) = entry_key e.
Proof.
  unfold uncanon, canon_entry, entry_key. rewrite reverse_app, reverse_cons, reverse_app, reverse_cons, <- !app_assoc. cbn [app].
  rewrite cut_bar_app by (rewrite elem_of_reverse; apply numeral_lacks, toFixed8_numeral).
  rewrite cut_bar_app by (rewrite elem_of_reverse; apply numeral_lacks, side_name_numeral). by rewrite !reverse_involutive.
Qed.

Lemma canon_entry_ok e : 59 ∉ en_id e -> canon_entry e <> [] /\ (59 ∉ canon_entry e).
Proof.
  intros He. split; [by intros [_ ?]%app_nil |]. unfold canon_entry.
  rewrite elem_of_app, elem_of_cons, elem_of_app, elem_of_cons.
  pose proof (proj2 (numeral_lacks _ (side_name_numeral (en_side e)))). pose proof (proj2 (numeral_lacks _ (toFixed8_numeral (en_stake e)))).
  intuition discriminate.
Qed.

Lemma canon_names es es' : Forall (fun e => 59 ∉ en_id e) es -> Forall (fun e => 59 ∉ en_id e) es' ->
  canon es = canon es' -> (entry_key <$> es) ≡ₚ (entry_key <$> es').
Proof.
  intros H H' E. unfold canon in E.
  assert (Hok : forall es, Forall (fun e => 59 ∉ en_id e) es -> Forall (fun l => l <> [] /\ 59 ∉ l) (merge_sort units_le (canon_entry <$> es))).
  { intros l Hl. rewrite (merge_sort_Permutation units_le). apply Forall_fmap. eapply Forall_impl; [exact Hl |]. intros e. apply canon_entry_ok. }
  apply separated_inj in E; [| by apply Hok..]. apply sort_forgets in E.
  assert (Hk : forall es : list Entry, entry_key <$> es = uncanon <$> (canon_entry <$> es)).
  { intros l. rewrite <- list_fmap_compose. apply list_fmap_ext. intros i e _. unfold compose. by rewrite uncanon_canon. }
  rewrite !Hk. by apply fmap_Permutation.
Qed.

Definition FIRST : Entry := mkEntry (lit "w1|bull") bull (of_Z 5).
Definition SECOND : Entry := mkEntry (lit "w2|bull") bull (of_Z 5).

(** Where the fighter at a position starts. *)
Definition x_of (F : list Fighter) (i : nat) : option (units * num) := (fun f => (f_id f, b_x (f_body f))) <$> F !! i.

(** The random stream after one more draw. *)
Definition drawn (s : Rng) : Rng := (sfc32 s).2.

Lemma rand_drawn lo hi s : (rand lo hi s).2 = drawn s.
Proof. unfold rand, drawn. by destruct (sfc32 s). Qed.

Definition drawn4 (s : Rng) : Rng := drawn (drawn (drawn (drawn s))).

Definition bull_x (s : Rng) : num := (rand (of_Z 30) (mul ARENA_w (dec 34 2)) s).1.

Lemma spawn_bull `{Approx} frac e s : en_side e = bull ->
  f_id (spawn frac e s).1 = en_id e /\ b_x (f_body (spawn frac e s).1) = bull_x (drawn (drawn s)) /\ (spawn frac e s).2 = drawn4 s.
Proof.
  intros He. unfold spawn, bull_x, drawn4. rewrite He. rewrite <- (rand_drawn (of_Z (-1)) (of_Z 1) s).
  destruct (rand (of_Z (-1)) (of_Z 1) s) as [vx s1]. cbn [snd]. rewrite <- (rand_drawn (of_Z (-1)) (of_Z 1) s1).
  destruct (rand (of_Z (-1)) (of_Z 1) s1) as [vy s2]. cbn [snd]. rewrite <- (rand_drawn (of_Z 30) (mul ARENA_w (dec 34 2)) s2).
  destruct (rand (of_Z 30) (mul ARENA_w (dec 34 2)) s2) as [x s3]. cbn [snd fst]. rewrite <- (rand_drawn (of_Z 40) (sub ARENA_h (of_Z 40)) s3).
  by destruct (rand (of_Z 40) (sub ARENA_h (of_Z 40)) s3) as [y s4].
Qed.

Lemma two_bulls `{Approx} seed e1 e2 cfg : en_side e1 = bull -> en_side e2 = bull ->
  x_of (start seed [e1; e2] cfg) 0 = Some (en_id e1, bull_x (drawn (drawn (rngFromSeed seed))))
  /\ x_of (start seed [e1; e2] cfg) 1 = Some (en_id e2, bull_x (drawn (drawn (drawn4 (rngFromSeed seed))))).
Proof.
  intros H1 H2. unfold start, createSim. cbn [spawn_all]. generalize (inPlayFrac cfg [e1; e2]) as frac. intros frac.
  destruct (spawn_bull frac e1 (rngFromSeed seed) H1) as (I1 & X1 & S1). destruct (spawn frac e1 (rngFromSeed seed)) as [f1 s1].
  cbn [fst snd] in *. subst s1.
  destruct (spawn_bull frac e2 (drawn4 (rngFromSeed seed)) H2) as (I2 & X2 & S2). destruct (spawn frac e2 _) as [f2 s2].
  cbn [fst snd] in *. unfold x_of. cbn [s_F lookup list_lookup fmap option_fmap option_map]. rewrite I1, X1, I2, X2. split; reflexivity.
Qed.

Lemma two_places : bull_x (drawn (drawn (rngFromSeed (lit "beef")))) <> bull_x (drawn (drawn (drawn4 (rngFromSeed (lit "beef"))))).
Proof.
  assert (H1 : eqb (bull_x (drawn (drawn (rngFromSeed (lit "beef"))))) (bull_x (drawn (drawn (drawn4 (rngFromSeed (lit "beef")))))) = false)
    by (vm_compute; reflexivity).
  assert (H2 : eqb (bull_x (drawn (drawn (drawn4 (rngFromSeed (lit "beef")))))) (bull_x (drawn (drawn (drawn4 (rngFromSeed (lit "beef")))))) = true)
    by (vm_compute; reflexivity).
  intros E. rewrite E, H2 in H1. discriminate H1.
Qed.

(** Where the fighter entered first, and the one entered second, start. *)
Definition place (i : nat) (seed : units) : num :=
  bull_x (drawn (drawn (match i with 0%nat => rngFromSeed seed | _ => drawn4 (rngFromSeed seed) end))).

(** The same deposit to eight decimals, against twice as much. *)
Definition FINE (stake : num) : list Entry := [mkEntry (lit "w1|bull") bull stake; mkEntry (lit "w2|uwu") uwu (of_Z 10)].
Definition FIVE_AND_A_BIT : num := dec 5000000001 9.

(** What the fighter at a position holds in ANSEM at the start. *)
Definition holds (F : list Fighter) (i : nat) : option num := (fun f => p_bull (f_purse f)) <$> F !! i.

Lemma spawn_holds `{Approx} frac e s : en_side e = bull -> p_bull (f_purse (spawn frac e s).1) = mul (en_stake e) (frac bull).
Proof.
  intros He. unfold spawn. rewrite He. destruct (rand (of_Z (-1)) (of_Z 1) s) as [vx s1]. destruct (rand (of_Z (-1)) (of_Z 1) s1) as [vy s2].
  destruct (rand (of_Z 30) _ s2) as [x s3]. by destruct (rand (of_Z 40) _ s3) as [y s4].
Qed.

Lemma fine_holds `{Approx} seed stake battle mode mult :
  holds (start seed (FINE stake) (newRoundConfig battle mode mult)) 0 = Some (mul stake (inPlayFrac (newRoundConfig battle mode mult) (FINE stake) bull)).
Proof.
  unfold start, createSim, FINE. cbn [spawn_all]. generalize (inPlayFrac (newRoundConfig battle mode mult) [mkEntry (lit "w1|bull") bull stake; mkEntry (lit "w2|uwu") uwu (of_Z 10)]) as frac.
  intros frac. pose proof (spawn_holds frac (mkEntry (lit "w1|bull") bull stake) (rngFromSeed seed) eq_refl) as Hf.
  destruct (spawn frac (mkEntry (lit "w1|bull") bull stake) (rngFromSeed seed)) as [f1 s1]. destruct (spawn frac _ s1) as [f2 s2].
  unfold holds. cbn [s_F lookup list_lookup fmap option_fmap option_map fst] in *. by rewrite Hf.
Qed.

Lemma fine_stake battle mode mult : mul (of_Z 5) (inPlayFrac (newRoundConfig battle mode mult) (FINE (of_Z 5)) bull) = of_Z 5
  /\ mul FIVE_AND_A_BIT (inPlayFrac (newRoundConfig battle mode mult) (FINE FIVE_AND_A_BIT) bull) = FIVE_AND_A_BIT.
Proof. split; vm_compute; reflexivity. Qed.

Lemma five_and_more : of_Z 5 <> FIVE_AND_A_BIT.
Proof. intros E. apply (f_equal (fun x => eqb x (of_Z 5))) in E. vm_compute in E. discriminate. Qed.

(** C36. What the seed commits to.  Where the secret has no bar and the ids no
    semicolon, the text that is hashed determines the secret and the entries, as a
    bag of id, side and stake to eight decimals, so no other such deposits give the
    same seed without a collision of SHA-256; and whatever the hash it is the same
    for the entries in any order.  The fight is not: for any hash and secret, two
    deposits on one side start where their order puts them, at the first place of
    the seed's stream or the second, which for the seed beef, say, are different
    places; and two stakes that differ in the ninth decimal have the same seed
    while the fighter starts out with the one or the other. *)
Theorem seed_names_the_entries :
  (forall sec sec' es es', 124 ∉ sec -> 124 ∉ sec' -> Forall (fun e => 59 ∉ en_id e) es -> Forall (fun e => 59 ∉ en_id e) es' ->
     seed_text sec es = seed_text sec' es' -> sec = sec' /\ (entry_key <$> es) ≡ₚ (entry_key <$> es'))
  /\ (forall sha256 sec es es', es ≡ₚ es' -> deriveSeed sha256 sec es = deriveSeed sha256 sec es')
  /\ (forall sha256 sec (A : Approx) cfg, let seed := deriveSeed sha256 sec [FIRST; SECOND] in
        deriveSeed sha256 sec [SECOND; FIRST] = seed
        /\ x_of (start seed [FIRST; SECOND] cfg) 0 = Some (en_id FIRST, place 0 seed)
        /\ x_of (start seed [SECOND; FIRST] cfg) 1 = Some (en_id FIRST, place 1 seed))
  /\ place 0 (lit "beef") <> place 1 (lit "beef")
  /\ (forall sha256 sec (A : Approx) battle mode mult, let seed := deriveSeed sha256 sec (FINE (of_Z 5)) in
        deriveSeed sha256 sec (FINE FIVE_AND_A_BIT) = seed
        /\ holds (start seed (FINE (of_Z 5)) (newRoundConfig battle mode mult)) 0 = Some (of_Z 5)
        /\ holds (start seed (FINE FIVE_AND_A_BIT) (newRoundConfig battle mode mult)) 0 = Some FIVE_AND_A_BIT)
  /\ of_Z 5 <> FIVE_AND_A_BIT.
Proof.
  assert (Hperm : forall sha256 sec es es', es ≡ₚ es' -> deriveSeed sha256 sec es = deriveSeed sha256 sec es').
  { intros sha256 sec es es' Hp. unfold deriveSeed, seed_text, canon.
    by rewrite (proj1 (sort_forgets (canon_entry <$> es) (canon_entry <$> es')) (fmap_Permutation _ _ _ Hp)). }
  split_and!; [| exact Hperm | | exact two_places | | exact five_and_more].
  - intros sec sec' es es' Hs Hs' He He' E. unfold seed_text in E. rewrite <- !app_assoc in E. apply chars_split in E as [-> E]; [| done..].
    split; [done |]. by apply canon_names.
  - intros sha256 sec A cfg seed. split; [apply Hperm, perm_swap |]. generalize seed. intros u.
    exact (conj (proj1 (two_bulls u FIRST SECOND cfg eq_refl eq_refl)) (proj2 (two_bulls u SECOND FIRST cfg eq_refl eq_refl))).
  - intros sha256 sec A battle mode mult seed. destruct (fine_stake battle mode mult) as [E1 E2]. split.
    + subst seed. unfold deriveSeed, seed_text. assert (Ec : canon (FINE FIVE_AND_A_BIT) = canon (FINE (of_Z 5))) by (vm_compute; reflexivity).
      by rewrite Ec.
    + generalize seed. intros u. split; rewrite fine_holds; [by rewrite E1 | by rewrite E2].
Qed.
