(* ===== verification/EngineAuth.v ===== *)
(** * Who may act on a wallet

    [engine/src/auth.ts] and [engine/src/allowlist.ts], whole, and what
    [engine/src/server.ts] does with them: the socket's register [walletOf], the
    guard before every wallet-scoped message, the four messages of the session,
    the balance reply and [pushBalance].

    A socket is a number.  Keys, signatures, the keyed hash and the platform's
    base64 are the class [Platform]; the time and the random text of a challenge
    are arguments of the message that asks for it.  The fields of a message are
    texts or missing, where the server reads any JSON: a wallet that is a number, or
    a key given as its bytes, is outside the model; a message that reaches this model has passed its budget
    ([EngineLimits]).

    Laws: whoever acts on a wallet, or reads its balance, has answered a challenge
    of this server with a signature of the wallet's key, on this socket or, within
    the life of a session, before; a session token works for its wallet alone, on
    any socket and across a restart, until its instant; a balance that moves is
    pushed to whoever named the wallet last, signed in or not. *)
From stdpp Require Import gmap.
From S2P Require Import Prelude Text JsNum Json Codec PrivyIdentity PrivyLaws.

(** ** [Number(text)] and [String(number)] *)

Definition num_text (x : num) : units :=
  match x with NaN => lit "NaN" | Inf s => if s then lit "-Infinity" else lit "Infinity" | Fin _ => show_num x end.

(** A decimal literal without its sign; [None] where the whole text is not one. *)
Definition str_decimal (l : units) : option num :=
  if bool_decide (l = lit "Infinity") then Some (Inf false) else
  let '(ip, r) := span l in
  let '(fp, r) := match r with c :: r' => if c =? 46 then span r' else ([], r) | [] => ([], []) end in
  if bool_decide (ip ++ fp = []) then None else
  match read_exponent r with
  | Some (ex, []) => Some (decimal (undigits (ip ++ fp)) (ex - Z.of_nat (length fp)))
  | _ => None
  end.

(** The value of a hexadecimal digit of either case. *)
Definition radix_digit (c : Z) : Z :=
  if digit c then c - 48 else if (97 <=? c) && (c <=? 102) then c - 87 else if (65 <=? c) && (c <=? 70) then c - 55 else 16.

Definition radix_literal (base : Z) (l : units) : num :=
  if bool_decide (l = []) || existsb (fun c => base <=? radix_digit c) l then NaN
  else of_Z (foldl (fun n c => n * base + radix_digit c) 0 l).

Definition radix_of (c : Z) : option Z :=
  if (c =? 120) || (c =? 88) then Some 16 else if (c =? 111) || (c =? 79) then Some 8
  else if (c =? 98) || (c =? 66) then Some 2 else None.

Definition signed_decimal (l : units) : num :=
  match l with
  | c :: r => default NaN (if c =? 45 then neg <$> str_decimal r else if c =? 43 then str_decimal r else str_decimal l)
  | [] => of_Z 0
  end.

Definition NumberOf (l : units) : num :=
  let l := trim_units l in
  match l with
  | z :: c :: r => match (if z =? 48 then radix_of c else None) with Some base => radix_literal base r | None => signed_decimal l end
  | _ => signed_decimal l
  end.

(** ** The platform *)

Definition bytes : Type := list Z.

(** [hmac] is the keyed hash under [SESSION_SECRET]; [toBytes] is
    [new PublicKey(_).toBytes()] of a text, and what it throws; [no_key] is what it
    throws of nothing; [ed25519] is [nacl.sign.detached.verify], of a signature of
    the right length. *)
Class Platform : Type := {
  hmac : bytes -> bytes;
  b64url : bytes -> units;
  unb64url : units -> bytes;
  unb64 : units -> bytes;
  toBytes : units -> units + bytes;
  no_key : units;
  ed25519 : bytes -> bytes -> bytes -> units + bool;
}.

(** What the platform documents: base64url is read back and has no dot, and a key
    is written in ASCII. *)
Class PlatformLaws `{Platform} : Prop := {
  unb64url_b64url bs : Forall (fun b => 0 <= b < 256) bs -> unb64url (b64url bs) = bs;
  b64url_dots bs : Forall (fun c => c <> 46) (b64url bs);
  key_ascii w pk : toBytes w = inr pk -> ascii_units w;
}.

(** [Buffer.from(bytes).toString()] *)
Definition buffer_text (bs : bytes) : units := unpoints (decode_points None bs).

(** ** The allowlist ([allowlist.ts]) *)

Record Allowlist : Type := mkAllowlist { enforced : bool; allow : gset units }.

Definition enforced_by (OFF ENFORCE IS_TEST_CHAIN : bool) : bool :=
  if OFF then false else if ENFORCE then true else negb IS_TEST_CHAIN.

Definition add_wallet (next : gset units) (raw : units) : gset units :=
  let w := trim_units raw in
  match w with [] => next | c :: _ => if c =? 35 then next else {[w]} ∪ next end.

(** [text.split(c)] *)
Fixpoint split_unit (c : Z) (u : units) : list units :=
  match u with
  | [] => [[]]
  | d :: u =>
      if d =? c then [] :: split_unit c u
      else match split_unit c u with p :: ps => (d :: p) :: ps | [] => [[d]] end
  end.

(** [text.split(/\r?\n/)]: a line's last carriage return goes with its newline;
    the last line keeps its own. *)
Definition drop_return (l : units) : units :=
  match rev l with c :: r => if c =? 13 then rev r else l | [] => l end.

Definition split_lines (u : units) : list units :=
  match rev (split_unit 10 u) with l :: ls => rev (l :: (drop_return <$> ls)) | [] => [] end.

(** [load]: the environment's list and the file's, where it can be read. *)
Definition load (WHITELIST : units) (file : option units) : gset units :=
  foldl add_wallet ∅ (split_unit 44 WHITELIST ++ match file with Some f => split_lines f | None => [] end).

Definition isAllowed (l : Allowlist) (wallet : option units) : bool :=
  negb (enforced l) || match wallet with Some w => bool_decide (w ∈ allow l) | None => false end.

(** ** Sessions and challenges ([auth.ts]) *)

Record Auth : Type := mkAuth { authed : gmap nat (gset units); nonces : gmap nat units }.

Record VerifyResult : Type := mkVerify { v_ok : bool; v_wallet : option units; v_msg : option units }.

Definition GUARDED : list string :=
  ["enter"; "enterN"; "withdraw"; "withdrawSol"; "convert"; "buildDeposit"; "buildSolDeposit"; "deposit"; "depositSol";
   "setName"; "fundMe"; "relayTx"; "faucet"]%string.

Section Auth.
Context `{Platform} (SESSION_TTL_MS : num).

Definition signPayload (payload : units) : units := b64url (hmac (encode payload)).

Definition session_payload (wallet : units) (now : num) : units :=
  b64url (encode wallet) ++ [46] ++ num_text (add now SESSION_TTL_MS).

Definition mintSession (wallet : units) (now : num) : units :=
  session_payload wallet now ++ [46] ++ signPayload (session_payload wallet now).

(** [(authed.get(ws) ?? authed.set(ws, new Set()).get(ws)).add(wallet)] *)
Definition prove (ws : nat) (wallet : units) (a : Auth) : Auth :=
  mkAuth (<[ws := {[wallet]} ∪ default ∅ (authed a !! ws)]> (authed a)) (nonces a).

Definition resume (ws : nat) (wallet token : units) (now : num) (a : Auth) : bool * Auth :=
  match split_dot token with
  | [p0; p1; p2] =>
      let payload := p0 ++ [46] ++ p1 in
      if bool_decide (encode p2 <> encode (signPayload payload)) then (false, a) else
      if negb (ltb now (NumberOf p1)) then (false, a) else
      let signedWallet := buffer_text (unb64url p0) in
      if bool_decide (signedWallet <> wallet) then (false, a) else (true, prove ws signedWallet a)
  | _ => (false, a)
  end.

Definition isAuthed (ws : nat) (wallet : option units) (a : Auth) : bool :=
  match authed a !! ws, wallet with Some s, Some w => bool_decide (w ∈ s) | _, _ => false end.

Definition nonce_text (now : num) (random : units) : units := lit "Bulls vs Unicorns login " ++ num_text now ++ [32] ++ random.

Definition challenge (ws : nat) (now : num) (random : units) (a : Auth) : units * Auth :=
  let nonce := nonce_text now random in (nonce, mkAuth (authed a) (<[ws := nonce]> (nonces a))).

Definition verify (ws : nat) (wallet : option units) (signatureB64 : units) (a : Auth) : VerifyResult * Auth :=
  match nonces a !! ws with
  | None => (mkVerify false None (Some (lit "no challenge")), a)
  | Some nonce =>
      match wallet with
      | None => (mkVerify false None (Some no_key), a)
      | Some w =>
          match toBytes w with
          | inl thrown => (mkVerify false None (Some thrown), a)
          | inr pk =>
              let sig := unb64 signatureB64 in
              match (if (length sig =? 64)%nat then ed25519 (encode nonce) sig pk else inr false) with
              | inl thrown => (mkVerify false None (Some thrown), a)
              | inr true => let a := prove ws w a in (mkVerify true wallet None, mkAuth (authed a) (delete ws (nonces a)))
              | inr false => (mkVerify false wallet None, a)
              end
          end
      end
  end.

Definition forget (ws : nat) (a : Auth) : Auth := mkAuth (delete ws (authed a)) (delete ws (nonces a)).

(** ** The server's side of it ([server.ts]) *)

Record Msg : Type := mkMsg { m_t : option string; m_wallet : option units; m_token : option units; m_signature : option units }.

Record Server : Type := mkServer {
  auth : Auth;
  walletOf : gmap nat units;
  clients : gset nat;
  ready : gset nat;
  allowlist : Allowlist;
}.

Definition boot (l : Allowlist) : Server := mkServer (mkAuth ∅ ∅) ∅ ∅ ∅ l.

(** What the server does that matters here: it answers, it hands the message of a
    wallet to its handler, it reads a balance to a socket, it pushes one. *)
Inductive Effect : Type :=
| AuthRequired (ws : nat)
| Challenge (ws : nat) (nonce : units)
| AuthResult (ws : nat) (success : bool) (msg : option units) (token : option units)
| Acts (ws : nat) (t : string) (wallet : option units)
| Reads (ws : nat) (wallet : option units)
| Pushed (wallet : units) (to : gset nat).

Definition recipients (s : Server) (wallet : units) : gset nat :=
  filter (fun c => c ∈ ready s /\ walletOf s !! c = Some wallet) (clients s).

Definition pushBalance (s : Server) (wallet : units) : Effect := Pushed wallet (recipients s wallet).

Definition with_auth (s : Server) (a : Auth) : Server := mkServer a (walletOf s) (clients s) (ready s) (allowlist s).

Definition truthy (u : option units) : option units := match u with Some [] => None | _ => u end.

Definition named (ws : nat) (m : Msg) (s : Server) : Server :=
  match truthy (m_wallet m) with
  | Some w => mkServer (auth s) (<[ws := w]> (walletOf s)) (clients s) (ready s) (allowlist s)
  | None => s
  end.

Definition is_guarded (t : option string) : bool := match t with Some t => bool_decide (t ∈ GUARDED) | None => false end.

(** [String(m.signature)] *)
Definition text_of (u : option units) : units := default (lit "undefined") u.

Definition NOT_LISTED : units := lit "This wallet isn't on the launch whitelist yet.".
Definition SESSION_EXPIRED : units := lit "session expired".

Definition auth_verify (ws : nat) (m : Msg) (now : num) (s : Server) : Server * list Effect :=
  if negb (isAllowed (allowlist s) (m_wallet m)) then (s, [AuthResult ws false (Some NOT_LISTED) None]) else
  let '(r, a) := verify ws (m_wallet m) (text_of (m_signature m)) (auth s) in
  let token := if v_ok r then (fun w => mintSession w now) <$> m_wallet m else None in
  (with_auth s a, [AuthResult ws (v_ok r) (v_msg r) token]).

Definition auth_resume (ws : nat) (m : Msg) (now : num) (s : Server) : Server * list Effect :=
  let '(passed, a) := resume ws (default [] (m_wallet m)) (default [] (m_token m)) now (auth s) in
  let s := with_auth s a in
  (s, AuthResult ws passed (if passed then None else Some SESSION_EXPIRED) None :: if passed then [pushBalance s (text_of (m_wallet m))] else []).

Definition on_message (ws : nat) (m : Msg) (now : num) (random : units) (s : Server) : Server * list Effect :=
  let s := named ws m s in
  if is_guarded (m_t m) && negb (isAuthed ws (m_wallet m) (auth s)) then (s, [AuthRequired ws]) else
  match m_t m with
  | Some t =>
      if is_guarded (Some t) then (s, [Acts ws t (m_wallet m)])
      else if bool_decide (t = "authChallenge"%string) then
        let '(nonce, a) := challenge ws now random (auth s) in (with_auth s a, [Challenge ws nonce])
      else if bool_decide (t = "authResume"%string) then auth_resume ws m now s
      else if bool_decide (t = "authVerify"%string) then auth_verify ws m now s
      else if bool_decide (t = "getBalance"%string) then (s, if isAuthed ws (m_wallet m) (auth s) then [Reads ws (m_wallet m)] else [])
      else (s, [])
  | None => (s, [])
  end.

(** A socket connects; stops being open; ends ([cleanup], on failing and on
    closing); a message of it arrives; a balance moves; the process starts again,
    with whatever allowlist it then reads. *)
Inductive Event : Type :=
| Connect (ws : nat)
| Closing (ws : nat)
| Ended (ws : nat)
| Message (ws : nat) (m : Msg) (now : num) (random : units)
| Moved (wallet : units)
| Restart (l : Allowlist).

Definition step (s : Server) (e : Event) : Server * list Effect :=
  match e with
  | Connect ws => (mkServer (auth s) (walletOf s) ({[ws]} ∪ clients s) ({[ws]} ∪ ready s) (allowlist s), [])
  | Closing ws => (mkServer (auth s) (walletOf s) (clients s) (ready s ∖ {[ws]}) (allowlist s), [])
  | Ended ws => (mkServer (forget ws (auth s)) (delete ws (walletOf s)) (clients s ∖ {[ws]}) (ready s) (allowlist s), [])
  | Message ws m now random => on_message ws m now random s
  | Moved wallet => (s, [pushBalance s wallet])
  | Restart l => (boot l, [])
  end.

Definition serve (s : Server) (es : list Event) : Server := foldl (fun s e => (step s e).1) s es.

End Auth.

(** ** Laws: numbers written and read *)

Lemma span_parts l ds r : span l = (ds, r) -> l = ds ++ r /\ Forall (fun c => digit c = true) ds.
Proof.
  revert ds r. induction l as [| c l IH]; intros ds r; cbn [span]; [intros [= <- <-]; by split; [| apply List.Forall_nil] |].
  destruct (digit c) eqn:E; [| intros [= <- <-]; by split; [| apply List.Forall_nil]].
  destruct (span l) as [ds' r'] eqn:El. intros [= <- <-]. destruct (IH ds' r' eq_refl) as [-> Hd]. split; [done | by apply List.Forall_cons].
Qed.

(** A JSON number is a decimal literal of the same value. *)
Lemma str_decimal_magnitude l x : read_magnitude l = Some (x, []) -> str_decimal l = Some x.
Proof.
  unfold read_magnitude, str_decimal. intros Hm.
  destruct (span l) as [ip r] eqn:Es. destruct ip as [| d ip]; [discriminate |].
  rewrite bool_decide_eq_false_2.
  2: { destruct (span_parts _ _ _ Es) as [-> Hd]. apply List.Forall_cons_iff in Hd as [Hd _]. intros Hc.
       apply (f_equal head) in Hc. cbn in Hc. apply (inj Some) in Hc. subst d. discriminate Hd. }
  destruct ((d =? 48) && _); [discriminate |]. unfold read_fraction in Hm.
  destruct r as [| c r'].
  - rewrite bool_decide_eq_false_2 by (rewrite app_nil_r; discriminate). cbn [read_exponent] in *. by apply (inj Some) in Hm as [= <-].
  - destruct (c =? 46) eqn:Ec.
    + destruct (span r') as [fp r''] eqn:Er. destruct (length fp =? 0)%nat; [discriminate |].
      rewrite bool_decide_eq_false_2 by (rewrite <- app_comm_cons; discriminate).
      destruct (read_exponent r'') as [[ex r3] |]; [| discriminate]. apply (inj Some) in Hm. injection Hm as <- ->. done.
    + rewrite bool_decide_eq_false_2 by (rewrite app_nil_r; discriminate).
      destruct (read_exponent (c :: r')) as [[ex r3] |]; [| discriminate]. apply (inj Some) in Hm. injection Hm as <- ->. done.
Qed.

(** The units a number is written in. *)
Definition number_unit (c : Z) : Prop := digit c = true \/ c = 43 \/ c = 45 \/ c = 46 \/ c = 101.

Lemma digits_units z : 0 <= z -> Forall number_unit (digits z).
Proof. intros Hz. destruct (digits_spec z Hz) as (d & ds & -> & Hd & _). eapply Forall_impl; [exact Hd |]. intros c Hc. by left. Qed.

Lemma zeros_units n : Forall number_unit (repeat 48 n).
Proof. induction n; constructor; [by left | done]. Qed.

Lemma layout_units s e : 0 < s -> Forall number_unit (layout s e).
Proof.
  intros Hs. pose proof (digits_units s ltac:(lia)) as Hd. unfold layout. cbv zeta.
  assert (Hdot : number_unit 46) by (unfold number_unit; lia). assert (H0 : number_unit 48) by (by left).
  destruct (_ && _); [apply Forall_app; split; [done | apply zeros_units] |].
  destruct (_ && _); [apply Forall_app; split; [by apply Forall_take | by constructor; [| apply Forall_drop]] |].
  destruct (_ && _); [constructor; [done |]; constructor; [done |]; apply Forall_app; split; [apply zeros_units | done] |].
  destruct (digits s) as [| d ds]; [done |]. apply List.Forall_cons_iff in Hd as [Hd Hds]. constructor; [done |].
  apply Forall_app. split; [destruct (_ =? 1); [apply List.Forall_nil | by apply List.Forall_cons] |].
  constructor; [unfold number_unit; lia |]. constructor; [unfold number_unit; destruct (_ <? 0); lia |]. apply digits_units. lia.
Qed.

Lemma show_num_units x : is_double x -> is_finite x = true -> Forall number_unit (show_num x).
Proof.
  destruct x as [| | m]; try done. intros Hx _. cbn [show_num]. destruct (m =? 0) eqn:E; [repeat constructor |]. zbool.
  pose proof (shortest_spec 17 (Z.abs m) 1 ltac:(lia) (double_abs m Hx)) as Hs. destruct (shortest 17 (Z.abs m) 1) as [s e].
  apply Forall_app. split; [| apply layout_units; by destruct Hs]. destruct (m <? 0); [| apply List.Forall_nil].
  apply List.Forall_cons; [unfold number_unit; lia |]. apply List.Forall_nil.
Qed.

Lemma number_unit_black c : number_unit c -> white c = false.
Proof.
  intros [Hc | [-> | [-> | [-> | ->]]]]; [| done..]. apply digit_range in Hc. unfold white, within.
  rewrite bool_decide_eq_false_2 by (set_unfold; lia). rewrite !orb_false_iff, !andb_false_iff, !Z.leb_gt. lia.
Qed.

Lemma number_unit_no_radix c : number_unit c -> radix_of c = None.
Proof.
  intros Hc. unfold radix_of. assert (Hn : c <> 120 /\ c <> 88 /\ c <> 111 /\ c <> 79 /\ c <> 98 /\ c <> 66).
  { destruct Hc as [Hc | Hc]; [apply digit_range in Hc |]; lia. }
  rewrite !(proj2 (Z.eqb_neq c _)) by lia. done.
Qed.

Lemma drop_white_black l : Forall (fun c => white c = false) l -> drop_white l = l.
Proof. destruct 1 as [| c l Hc _]; [done |]. cbn. by rewrite Hc. Qed.

Lemma trim_black l : Forall (fun c => white c = false) l -> trim_units l = l.
Proof.
  intros Hl. unfold trim_units. rewrite (drop_white_black l Hl), drop_white_black; [apply rev_involutive |]. by apply List.Forall_rev.
Qed.

Lemma signed_show x : is_double x -> is_finite x = true -> signed_decimal (show_num x) = x.
Proof.
  intros Hx Hf. pose proof (read_show_num x [] Hx Hf I) as Hr. rewrite app_nil_r in Hr.
  destruct (show_num_head x Hx Hf) as (c & l & E & Hc). rewrite E in *. cbn [signed_decimal]. cbn [read_num] in Hr.
  destruct (Z.eqb_spec c 45) as [-> | Hne].
  - destruct (read_magnitude l) as [[v r] |] eqn:Em; [| discriminate]. apply (inj Some) in Hr. cbn in Hr. injection Hr as <- ->.
    by rewrite (str_decimal_magnitude _ _ Em).
  - apply str_decimal_magnitude in Hr. destruct (Z.eqb_spec c 43) as [-> | _]; [| by rewrite Hr].
    unfold str_decimal in Hr. cbn in Hr. discriminate.
Qed.

(** What is written of a number is read as the number. *)
Lemma NumberOf_text x : is_double x -> NumberOf (num_text x) = x.
Proof.
  intros Hx. destruct x as [| [] | m]; [by vm_compute.. |]. cbn [num_text].
  pose proof (show_num_units (Fin m) Hx eq_refl) as Hu. pose proof (signed_show (Fin m) Hx eq_refl) as Hs.
  unfold NumberOf. rewrite trim_black by (eapply Forall_impl; [exact Hu | apply number_unit_black]).
  destruct (show_num (Fin m)) as [| z [| c r]]; [done | done |].
  destruct (z =? 48); [| done]. rewrite number_unit_no_radix; [done |]. by do 2 apply List.Forall_cons_iff in Hu as [? Hu].
Qed.

(** ** Laws: tokens *)

Lemma split_dot_parts u : Forall (Forall (fun c => c <> 46)) (split_dot u).
Proof.
  induction u as [| c u IH]; cbn [split_dot]; [by repeat constructor |].
  destruct (Z.eqb_spec c 46); [constructor; [apply List.Forall_nil | done] |].
  destruct (split_dot u) as [| p ps]; [by repeat constructor |]. apply List.Forall_cons_iff in IH as [Hp Hps].
  constructor; [by apply List.Forall_cons | done].
Qed.

Lemma dotless_unit l : Forall (fun c => c <> 46) l -> 46 ∉ l.
Proof. intros Hl Hin. rewrite Forall_forall in Hl. by apply (Hl 46). Qed.

Section Laws.
Context `{PlatformLaws} (SESSION_TTL_MS : num) (l0 : Allowlist).

Abbreviation step := (step SESSION_TTL_MS).
Abbreviation at_ es := (serve SESSION_TTL_MS (boot l0) es).

Lemma buffer_ascii w : ascii_units w -> buffer_text (unb64url (b64url (encode w))) = w.
Proof.
  intros Hw. assert (Hs : Forall scalar w) by (eapply Forall_impl; [exact Hw |]; intros c Hc; left; cbn in Hc; lia).
  rewrite unb64url_b64url by (rewrite encode_ascii by done; eapply Forall_impl; [exact Hw |]; cbn; lia).
  unfold buffer_text, encode. rewrite ascii_points by done. rewrite decode_utf8_points by done.
  rewrite <- (ascii_points w Hw) at 1. apply unpoints_points. eapply Forall_impl; [exact Hw |]. intros c Hc. unfold unit_ok. cbn in Hc. lia.
Qed.

(** A payload is read in one way. *)
Lemma payload_inj w t p0 p1 : Forall (fun c => c <> 46) p0 -> p0 ++ [46] ++ p1 = session_payload SESSION_TTL_MS w t ->
  p0 = b64url (encode w) /\ p1 = num_text (add t SESSION_TTL_MS).
Proof.
  intros Hp E. unfold session_payload in E. cbn [app] in E. apply chars_split in E; [done | by apply dotless_unit |].
  apply dotless_unit, b64url_dots.
Qed.

Lemma mint_split w t : Forall (fun c => c <> 46) (num_text (add t SESSION_TTL_MS)) -> split_dot (mintSession SESSION_TTL_MS w t)
  = [b64url (encode w); num_text (add t SESSION_TTL_MS); signPayload (session_payload SESSION_TTL_MS w t)].
Proof.
  intros Hd. unfold mintSession, session_payload at 1. rewrite <- !app_assoc. cbn [app].
  by rewrite split_dot_app, split_dot_app, split_dot_plain by (done || apply b64url_dots).
Qed.

(** What [resume] takes a token for. *)
Definition presents (token w : units) (now : num) : Prop := exists p0 p1 p2, split_dot token = [p0; p1; p2]
  /\ encode p2 = encode (signPayload (p0 ++ [46] ++ p1)) /\ ltb now (NumberOf p1) = true /\ buffer_text (unb64url p0) = w.

Lemma resume_spec ws w token now a :
  (presents token w now /\ resume ws w token now a = (true, prove ws w a))
  \/ (~ presents token w now /\ resume ws w token now a = (false, a)).
Proof.
  unfold resume, presents. destruct (split_dot token) as [| p0 [| p1 [| p2 [|]]]];
    try (right; split; [intros (? & ? & ? & ? & _); done | done]).
  destruct (decide (encode p2 = encode (signPayload (p0 ++ [46] ++ p1)))) as [E | E].
  2: { rewrite bool_decide_eq_true_2 by done. right. split; [| done]. intros (? & ? & ? & [= -> -> ->] & ? & _). done. }
  rewrite bool_decide_eq_false_2 by (by intros []).
  destruct (ltb now (NumberOf p1)) eqn:El; cbn [negb].
  2: { right. split; [| done]. intros (? & ? & ? & [= -> -> ->] & _ & E2 & _). congruence. }
  destruct (decide (buffer_text (unb64url p0) = w)) as [<- | Ew].
  - rewrite bool_decide_eq_false_2 by (by intros []). left. split; [| done]. by eexists _, _, _.
  - rewrite bool_decide_eq_true_2 by done. right. split; [| done]. by intros (? & ? & ? & [= -> -> ->] & _ & _ & ?).
Qed.

(** What [verify] takes for a proof. *)
Definition verifies (nonce w signatureB64 : units) : Prop := exists pk, toBytes w = inr pk
  /\ length (unb64 signatureB64) = 64%nat /\ ed25519 (encode nonce) (unb64 signatureB64) pk = inr true.

Lemma verify_spec ws wallet sg a :
  (exists nonce w, nonces a !! ws = Some nonce /\ wallet = Some w /\ verifies nonce w sg
    /\ verify ws wallet sg a = (mkVerify true wallet None, mkAuth (authed (prove ws w a)) (delete ws (nonces a))))
  \/ (exists r, verify ws wallet sg a = (r, a) /\ v_ok r = false).
Proof.
  unfold verify. destruct (nonces a !! ws) as [nonce |]; [| right; by eexists].
  destruct wallet as [w |]; [| right; by eexists]. destruct (toBytes w) as [thrown | pk] eqn:Ek; [right; by eexists |]. cbv zeta.
  destruct (length (unb64 sg) =? 64)%nat eqn:El; [| right; by eexists]. apply Nat.eqb_eq in El.
  destruct (ed25519 _ _ pk) as [thrown | []] eqn:Ee; [right; by eexists | | right; by eexists].
  left. exists nonce, w. split_and!; [done | done | by exists pk | done].
Qed.

Lemma authed_prove ws w a ws' w' : isAuthed ws' (Some w') (prove ws w a) = true <-> (ws' = ws /\ w' = w) \/ isAuthed ws' (Some w') a = true.
Proof.
  unfold isAuthed, prove. cbn [authed]. destruct (decide (ws' = ws)) as [-> | Hne].
  - rewrite lookup_insert_eq, bool_decide_eq_true. destruct (authed a !! ws) as [s |]; cbn [default].
    + rewrite bool_decide_eq_true, elem_of_union, elem_of_singleton. tauto.
    + rewrite elem_of_union, elem_of_singleton. split; [intros [-> | []%elem_of_empty]; by left | intros [[_ ->] | [=]]; by left].
  - rewrite lookup_insert_ne by done. by split; [right | intros [[-> _] | ?]].
Qed.

Lemma authed_forget ws a ws' w : isAuthed ws' (Some w) (forget ws a) = true <-> ws' <> ws /\ isAuthed ws' (Some w) a = true.
Proof.
  unfold isAuthed, forget. cbn [authed]. destruct (decide (ws' = ws)) as [-> | Hne].
  - rewrite lookup_delete_eq. by split; [| intros [[] _]].
  - rewrite lookup_delete_ne by done. by split; [| intros []].
Qed.

(** ** Laws: one message *)

Lemma named_auth ws m s : auth (named ws m s) = auth s /\ allowlist (named ws m s) = allowlist s.
Proof. unfold named. by destruct (truthy _). Qed.

(** How a message changes what is known of the sockets. *)
Definition auth_after (ws : nat) (m : Msg) (now : num) (random : units) (s : Server) : Auth :=
  if bool_decide (m_t m = Some "authChallenge"%string) then (challenge ws now random (auth s)).2
  else if bool_decide (m_t m = Some "authResume"%string) then (resume ws (default [] (m_wallet m)) (default [] (m_token m)) now (auth s)).2
  else if bool_decide (m_t m = Some "authVerify"%string) then
    if isAllowed (allowlist s) (m_wallet m) then (verify ws (m_wallet m) (text_of (m_signature m)) (auth s)).2 else auth s
  else auth s.

Lemma on_message_auth ws m now random s : auth (on_message SESSION_TTL_MS ws m now random s).1 = auth_after ws m now random s.
Proof.
  unfold on_message, auth_after. destruct (named_auth ws m s) as [Ea El]. rewrite Ea.
  generalize (m_t m). intros [t |]; [| by rewrite !bool_decide_eq_false_2 by done].
  destruct (is_guarded (Some t)) eqn:Eg; cbn [andb].
  - assert (Hn : t <> "authChallenge"%string /\ t <> "authResume"%string /\ t <> "authVerify"%string).
    { split_and!; intros ->; revert Eg; by vm_compute. }
    rewrite !bool_decide_eq_false_2 by (intros [=]; tauto). by destruct (isAuthed _ _ _).
  - rewrite !(bool_decide_ext (Some t = Some _) (t = _)) by (by split; [intros [=] | intros ->]).
    destruct (bool_decide _); [done |]. destruct (bool_decide _).
    { unfold auth_resume. rewrite Ea. by destruct (resume _ _ _ _ _) as [[] a]. }
    destruct (bool_decide _).
    { unfold auth_verify. rewrite Ea, El. destruct (isAllowed _ _); cbn [negb]; [| done]. by destruct (verify _ _ _ _) as [r a]. }
    destruct (bool_decide _); [| done]. by destruct (isAuthed _ _ _).
Qed.

Lemma serve_snoc es e : at_ (es ++ [e]) = (step (at_ es) e).1.
Proof. unfold serve. by rewrite foldl_app. Qed.

(** ** Laws: histories *)

(** The socket ends, or the process does. *)
Definition ends (ws : nat) (e : Event) : bool :=
  match e with Ended ws' => bool_decide (ws' = ws) | Restart _ => true | _ => false end.

Definition stays (ws : nat) (es : list Event) : Prop := Forall (fun e => ends ws e = false) es.

(** A new challenge replaces the one before. *)
Definition asks (ws : nat) (e : Event) : bool :=
  match e with Message ws' m _ _ => bool_decide (ws' = ws) && bool_decide (m_t m = Some "authChallenge"%string) | _ => false end.

Definition issued (es : list Event) (ws : nat) (nonce : units) : Prop := exists ea m now random eb,
  es = ea ++ Message ws m now random :: eb /\ m_t m = Some "authChallenge"%string /\ nonce = nonce_text now random
  /\ stays ws eb /\ Forall (fun e => asks ws e = false) eb.

(** At [t], before [eb], the socket signed the challenge this server had set it
    with the key of [w], a wallet then allowed. *)
Definition signed_at (es : list Event) (ws : nat) (w : units) (t : num) (eb : list Event) : Prop := exists ea m random nonce,
  es = ea ++ Message ws m t random :: eb /\ m_t m = Some "authVerify"%string /\ m_wallet m = Some w
  /\ isAllowed (allowlist (at_ ea)) (Some w) = true /\ issued ea ws nonce /\ verifies nonce w (text_of (m_signature m)).

(** ... or showed a token, within its life, of a socket that had. *)
Definition resumed_at (es : list Event) (ws : nat) (w : units) (t : num) (eb : list Event) : Prop := exists ea m random ws0 t0 eb0,
  es = ea ++ Message ws m t random :: eb /\ m_t m = Some "authResume"%string /\ default [] (m_wallet m) = w
  /\ signed_at ea ws0 w t0 eb0 /\ ltb t (add t0 SESSION_TTL_MS) = true.

Definition vouched (es : list Event) (ws : nat) (w : units) : Prop :=
  exists t eb, stays ws eb /\ (signed_at es ws w t eb \/ resumed_at es ws w t eb).

(** This server sent the token to some socket. *)
Definition handed (es : list Event) (token : units) : Prop := exists ea e eb ws ok msg,
  es = ea ++ e :: eb /\ AuthResult ws ok msg (Some token) ∈ (step (at_ ea) e).2.

(** Nobody but this server computes its keyed hash: whoever shows a payload with
    its hash has them from a token this server sent before. *)
Definition unforged (es : list Event) : Prop := forall ea ws m now random eb p0 p1 p2,
  es = ea ++ Message ws m now random :: eb -> m_t m = Some "authResume"%string -> split_dot (default [] (m_token m)) = [p0; p1; p2] ->
  encode p2 = encode (signPayload (p0 ++ [46] ++ p1)) -> handed ea ((p0 ++ [46] ++ p1) ++ [46] ++ signPayload (p0 ++ [46] ++ p1)).

Lemma unforged_prefix es e : unforged (es ++ [e]) -> unforged es.
Proof.
  intros Hu ea ws m now random eb p0 p1 p2 -> Ht Es Ee. apply (Hu ea ws m now random (eb ++ [e]) p0 p1 p2); try done.
  by rewrite <- app_assoc.
Qed.

Lemma signed_later es ws w t eb e : signed_at es ws w t eb -> signed_at (es ++ [e]) ws w t (eb ++ [e]).
Proof. intros (ea & m & random & nonce & -> & H'). exists ea, m, random, nonce. split; [by rewrite <- app_assoc | done]. Qed.

Lemma resumed_later es ws w t eb e : resumed_at es ws w t eb -> resumed_at (es ++ [e]) ws w t (eb ++ [e]).
Proof.
  intros (ea & m & random & ws0 & t0 & eb0 & -> & H'). exists ea, m, random, ws0, t0, eb0. split; [by rewrite <- app_assoc | done].
Qed.

Lemma stays_later ws es e : stays ws es -> ends ws e = false -> stays ws (es ++ [e]).
Proof. intros Hs He. apply Forall_app. split; [done | by apply Forall_singleton]. Qed.

Lemma vouched_later es ws w e : vouched es ws w -> ends ws e = false -> vouched (es ++ [e]) ws w.
Proof.
  intros (t & eb & Hs & Hv) He. exists t, (eb ++ [e]). split; [by apply stays_later |].
  destruct Hv; [left; by apply signed_later | right; by apply resumed_later].
Qed.

Lemma issued_later es ws n e : issued es ws n -> ends ws e = false -> asks ws e = false -> issued (es ++ [e]) ws n.
Proof.
  intros (ea & m & now & random & eb & -> & Hm & Hn & Hs & Hq) He Ha. exists ea, m, now, random, (eb ++ [e]).
  split_and!; [by rewrite <- app_assoc | done | done | by apply stays_later | apply Forall_app; split; [done | by apply Forall_singleton]].
Qed.

Lemma signed_key es ws w t eb : signed_at es ws w t eb -> ascii_units w.
Proof. intros (ea & m & random & nonce & _ & _ & _ & _ & _ & pk & Hk & _). by eapply key_ascii. Qed.

Lemma stays_nil ws : stays ws [].
Proof. apply List.Forall_nil. Qed.

(** What the server sends a token for: a signature by the token's wallet of the
    challenge it had set the socket. *)
Lemma message_token ws m now random s ws' ok msg token :
  AuthResult ws' ok msg (Some token) ∈ (on_message SESSION_TTL_MS ws m now random s).2 ->
  exists nonce w, m_t m = Some "authVerify"%string /\ m_wallet m = Some w /\ isAllowed (allowlist s) (Some w) = true
    /\ nonces (auth s) !! ws = Some nonce /\ verifies nonce w (text_of (m_signature m)) /\ token = mintSession SESSION_TTL_MS w now.
Proof.
  unfold on_message. destruct (named_auth ws m s) as [Ea El]. rewrite Ea.
  assert (Hnil : AuthResult ws' ok msg (Some token) ∉ @nil Effect) by apply not_elem_of_nil.
  destruct (_ && _); [by intros ?%list_elem_of_singleton |]. destruct (m_t m) as [t |]; [| done].
  destruct (is_guarded _); [by intros ?%list_elem_of_singleton |].
  destruct (bool_decide _); [by intros ?%list_elem_of_singleton |]. destruct (bool_decide (t = "authResume"%string)).
  { unfold auth_resume. rewrite Ea. destruct (resume _ _ _ _ _) as [[] a]; cbn [snd]; intros Hin; repeat (apply elem_of_cons in Hin as [? | Hin]; [done |]); by apply not_elem_of_nil in Hin. }
  destruct (bool_decide (t = "authVerify"%string)) eqn:Ev.
  2: { clear Ev. destruct (bool_decide _); [destruct (isAuthed _ _ _); [by intros ?%list_elem_of_singleton |] |]; done. }
  apply bool_decide_eq_true in Ev as ->. unfold auth_verify. rewrite Ea, El.
  destruct (isAllowed (allowlist s) (m_wallet m)) eqn:Eal; cbn [negb]; [| by intros ?%list_elem_of_singleton].
  destruct (verify_spec ws (m_wallet m) (text_of (m_signature m)) (auth s)) as [(nonce & w & Hn & Hw & Hv & ->) | (r & -> & ->)];
    [| by intros ?%list_elem_of_singleton].
  rewrite Hw in *. cbn [v_ok fmap option_fmap option_map]. intros Hin%list_elem_of_singleton. exists nonce, w.
  split_and!; [done.. | congruence].
Qed.

(** Two signed payloads that are the same text have the same payload. *)
Lemma signed_text_inj p q : p ++ [46] ++ signPayload p = q ++ [46] ++ signPayload q -> p = q.
Proof.
  assert (Hd : forall p, Forall (fun c => c <> 46) (rev (signPayload p))) by (intros; apply List.Forall_rev, b64url_dots).
  intros E. apply (f_equal (@rev Z)) in E. rewrite !rev_app_distr, <- !app_assoc in E. cbn [rev app] in E.
  apply chars_split in E as [_ E]; [| by apply dotless_unit..]. apply (f_equal (@rev Z)) in E.
  by rewrite !rev_involutive in E.
Qed.

(** A token in a history that vouches for those it sent names the wallet that was
    proved and lives until its instant. *)
Lemma presents_minted es ws m now random w : unforged (es ++ [Message ws m now random]) ->
  (forall token, handed es token -> exists ws0 w0 t0 eb0, signed_at es ws0 w0 t0 eb0 /\ token = mintSession SESSION_TTL_MS w0 t0) ->
  m_t m = Some "authResume"%string ->
  default [] (m_wallet m) = w -> presents (default [] (m_token m)) w now -> resumed_at (es ++ [Message ws m now random]) ws w now [].
Proof.
  intros Hu Hh Ht Hw (p0 & p1 & p2 & Es & Ee & El & Eb).
  destruct (Hh _ (Hu es ws m now random [] p0 p1 p2 eq_refl Ht Es Ee)) as (ws0 & w0 & t0 & eb0 & Hsig & Hp%signed_text_inj).
  pose proof (split_dot_parts (default [] (m_token m))) as Hd. rewrite Es in Hd. apply List.Forall_cons_iff in Hd as [Hd _].
  destruct (payload_inj _ _ _ _ Hd Hp) as [-> ->].
  rewrite buffer_ascii in Eb by (by eapply signed_key). subst w0.
  rewrite NumberOf_text in El by apply add_double. by exists es, m, random, ws0, t0, eb0.
Qed.

Record known (es : list Event) : Prop := {
  kn_authed ws w : isAuthed ws (Some w) (auth (at_ es)) = true -> vouched es ws w;
  kn_nonce ws n : nonces (auth (at_ es)) !! ws = Some n -> issued es ws n;
  kn_handed token : handed es token -> exists ws w t eb, signed_at es ws w t eb /\ token = mintSession SESSION_TTL_MS w t;
}.

Lemma handed_snoc es e token : handed (es ++ [e]) token ->
  handed es token \/ exists ws ok msg, AuthResult ws ok msg (Some token) ∈ (step (at_ es) e).2.
Proof.
  intros (ea & e' & eb & ws & ok & msg & E & Hin). destruct eb as [| x eb _] using rev_ind.
  - apply app_inj_tail in E as [<- <-]. right. by exists ws, ok, msg.
  - rewrite app_comm_cons, app_assoc in E. apply app_inj_tail in E as [-> _]. left. by exists ea, e', eb, ws, ok, msg.
Qed.

Lemma known_handed_later es e : known es ->
  (forall ws ok msg token, AuthResult ws ok msg (Some token) ∈ (step (at_ es) e).2 ->
    exists ws w t eb, signed_at (es ++ [e]) ws w t eb /\ token = mintSession SESSION_TTL_MS w t) ->
  forall token, handed (es ++ [e]) token -> exists ws w t eb, signed_at (es ++ [e]) ws w t eb /\ token = mintSession SESSION_TTL_MS w t.
Proof.
  intros Hk He token [Hh | (ws & ok & msg & Hin)]%handed_snoc; [| by eapply He].
  destruct (kn_handed _ Hk _ Hh) as (ws & w & t & eb & Hs & ->). exists ws, w, t, (eb ++ [e]). split; [by apply signed_later | done].
Qed.

Lemma quiet_handed es e : known es -> match e with Message _ _ _ _ => False | _ => True end ->
  forall token, handed (es ++ [e]) token -> exists ws w t eb, signed_at (es ++ [e]) ws w t eb /\ token = mintSession SESSION_TTL_MS w t.
Proof.
  intros Hk Hq. apply known_handed_later; [done |]. intros ws ok msg token Hin.
  destruct e; try done; cbn in Hin; apply elem_of_cons in Hin as [[=] | Hin] || idtac; by apply not_elem_of_nil in Hin.
Qed.

Lemma message_handed es ws m now random : known es ->
  forall token, handed (es ++ [Message ws m now random]) token ->
    exists ws0 w t eb, signed_at (es ++ [Message ws m now random]) ws0 w t eb /\ token = mintSession SESSION_TTL_MS w t.
Proof.
  intros Hk. apply known_handed_later; [done |]. intros ws' ok msg token Hin.
  apply message_token in Hin as (nonce & w & Ht & Hw & Ha & Hn & Hv & ->). exists ws, w, now, []. split; [| done].
  exists es, m, random, nonce. split_and!; [done.. | by apply (kn_nonce _ Hk) | done].
Qed.

Lemma nonce_prove ws w a : nonces (prove ws w a) = nonces a.
Proof. done. Qed.

Lemma message_known es ws m now random : unforged (es ++ [Message ws m now random]) -> known es -> known (es ++ [Message ws m now random]).
Proof.
  intros Hu Hk. pose proof (message_handed es ws m now random Hk) as Hh. pose proof (kn_handed _ Hk) as Kh.
  destruct Hk as [Ka Kn _]. set (e := Message ws m now random) in *.
  assert (Hends : forall ws', ends ws' e = false) by done.
  assert (Hkeep : forall ws' w, isAuthed ws' (Some w) (auth (at_ es)) = true -> vouched (es ++ [e]) ws' w) by (intros; apply vouched_later; auto).
  assert (Eat : auth (at_ (es ++ [e])) = auth_after ws m now random (at_ es)) by (rewrite serve_snoc; apply on_message_auth).
  unfold auth_after in Eat. destruct (bool_decide (m_t m = Some "authChallenge"%string)) eqn:E1.
  { apply bool_decide_eq_true in E1. constructor; [.. | exact Hh]; rewrite Eat; cbn [challenge snd authed nonces]; intros ws'; [exact (Hkeep ws') |].
    intros n. destruct (decide (ws' = ws)) as [-> | Hne]; [rewrite lookup_insert_eq | rewrite lookup_insert_ne by done].
    - intros E. apply (inj Some) in E as <-. exists es, m, now, random, []. split_and!; [done.. | apply stays_nil | apply List.Forall_nil].
    - intros E. apply issued_later; [by apply Kn | done |]. cbn [asks e]. by rewrite bool_decide_eq_false_2 by auto. }
  assert (Hasks : forall ws', asks ws' e = false) by (intros; cbn [asks e]; by rewrite E1, andb_false_r).
  assert (Hn : forall ws' n, nonces (auth (at_ es)) !! ws' = Some n -> issued (es ++ [e]) ws' n) by (intros; apply issued_later; auto).
  destruct (bool_decide (m_t m = Some "authResume"%string)) eqn:E2.
  { apply bool_decide_eq_true in E2.
    destruct (resume_spec ws (default [] (m_wallet m)) (default [] (m_token m)) now (auth (at_ es))) as [[Hp Er] | [_ Er]];
      rewrite Er in Eat; cbn [snd] in Eat; [| by constructor; [rewrite Eat.. |]].
    constructor; [.. | exact Hh]; rewrite Eat; [| by rewrite nonce_prove]. intros ws' w Hw. apply authed_prove in Hw as [[-> ->] | Hw]; [| by apply Hkeep].
    exists now, []. split; [apply stays_nil | right]. by apply presents_minted. }
  destruct (bool_decide (m_t m = Some "authVerify"%string)) eqn:E3; [| by constructor; [rewrite Eat.. |]].
  apply bool_decide_eq_true in E3. destruct (isAllowed _ _) eqn:Eal; [| by constructor; [rewrite Eat.. |]].
  destruct (verify_spec ws (m_wallet m) (text_of (m_signature m)) (auth (at_ es))) as [(nonce & w & Hno & Hw & Hv & Er) | (r & Er & _)];
    rewrite Er in Eat; cbn [snd] in Eat; [| by constructor; [rewrite Eat.. |]].
  constructor; [rewrite Eat.. | exact Hh].
  - intros ws' w' Hw'. apply (authed_prove ws w (auth (at_ es))) in Hw' as [[-> ->] | Hw']; [| by apply Hkeep].
    exists now, []. split; [apply stays_nil | left]. rewrite Hw in Eal. exists es, m, random, nonce. split_and!; auto.
  - intros ws' n Hn'. cbn [nonces] in Hn'. apply lookup_delete_Some in Hn' as [_ Hn']. by apply Hn.
Qed.

Lemma step_known es e : unforged (es ++ [e]) -> known es -> known (es ++ [e]).
Proof.
  intros Hu Hk. destruct e as [ws | ws | ws | ws m now random | w | l]; [| | | by apply message_known | |].
  1, 2, 4: pose proof (fun e => quiet_handed es e Hk) as Hh; destruct Hk as [Ka Kn _]; constructor; [rewrite serve_snoc; cbn [EngineAuth.step fst auth]; intros ws' x Hx.. | by apply Hh];
    [by apply vouched_later; [apply Ka |] | by apply issued_later; [apply Kn | |]].
  - pose proof (quiet_handed es (Ended ws) Hk) as Hh. destruct Hk as [Ka Kn _].
    constructor; [rewrite serve_snoc; cbn [EngineAuth.step fst auth]; intros ws' x Hx.. | by apply Hh].
    + apply authed_forget in Hx as [Hne Hx]. apply vouched_later; [by apply Ka |]. cbn [ends]. by rewrite bool_decide_eq_false_2.
    + cbn [forget nonces] in Hx. apply lookup_delete_Some in Hx as [Hne Hx]. apply issued_later; [by apply Kn | | done].
      cbn [ends]. by rewrite bool_decide_eq_false_2.
  - constructor; [rewrite serve_snoc; cbn [EngineAuth.step fst boot auth]; intros ws' x Hx.. |]; [discriminate Hx | exact (False_ind _ (lookup_empty_Some _ _ Hx)) |].
    by apply (quiet_handed es (Restart l) Hk).
Qed.

Lemma serve_known es : unforged es -> known es.
Proof.
  induction es as [| e es IH] using rev_ind; intros Hu; [| apply step_known, IH; [done | by eapply unforged_prefix]].
  constructor; [intros ws x Hx.. |]; [discriminate Hx | exact (False_ind _ (lookup_empty_Some _ _ Hx)) |].
  intros token (ea & e & eb & ws & ok & msg & E & _). by destruct ea.
Qed.

(** The tokens the server hands out are no forgeries. *)
Lemma unforged_nil : unforged [].
Proof. intros ea ws m now random eb p0 p1 p2 E. by destruct ea. Qed.

Lemma unforged_snoc es e : unforged es ->
  (forall ws m now random, e = Message ws m now random -> m_t m = Some "authResume"%string ->
    exists w0 t0, handed es (mintSession SESSION_TTL_MS w0 t0) /\ m_token m = Some (mintSession SESSION_TTL_MS w0 t0)
      /\ Forall (fun c => c <> 46) (num_text (add t0 SESSION_TTL_MS))) -> unforged (es ++ [e]).
Proof.
  intros Hu He ea ws m now random eb p0 p1 p2 E Ht Es Ee. destruct eb as [| x eb _] using rev_ind.
  - apply app_inj_tail in E as [-> ->]. destruct (He ws m now random eq_refl Ht) as (w0 & t0 & Hs & Hm & Hd).
    rewrite Hm in Es. pose proof (eq_trans (eq_sym (mint_split _ _ Hd)) Es) as E.
    by injection E as <- <- <-.
  - rewrite app_comm_cons, app_assoc in E. apply app_inj_tail in E as [-> _]. by apply (Hu ea ws m now random eb p0 p1 p2).
Qed.

(** ** Laws: what the server does *)

Fixpoint effects (s : Server) (es : list Event) : list Effect :=
  match es with [] => [] | e :: es => (step s e).2 ++ effects (step s e).1 es end.

Definition is_session (ws : nat) (f : Effect) : bool :=
  match f with AuthResult ws' _ _ (Some _) => bool_decide (ws' = ws) | _ => false end.

Definition is_challenge (ws : nat) (f : Effect) : bool := match f with Challenge ws' _ => bool_decide (ws' = ws) | _ => false end.

Definition count (p : Effect -> bool) (fs : list Effect) : nat := length (filter (fun f => p f = true) fs).

Lemma count_app p fs gs : count p (fs ++ gs) = (count p fs + count p gs)%nat.
Proof. unfold count. by rewrite filter_app, length_app. Qed.

Lemma count_one p f : count p [f] = if p f then 1%nat else 0%nat.
Proof. unfold count. rewrite filter_cons. by destruct (p f); [rewrite decide_True | rewrite decide_False]. Qed.

Definition pending (ws : nat) (a : Auth) : nat := match nonces a !! ws with Some _ => 1 | None => 0 end.

(** What one message puts out: an act or a reading of a proven wallet only. *)
Definition proven (s : Server) (ws : nat) (f : Effect) : Prop :=
  match f with Acts ws' _ w | Reads ws' w => ws' = ws /\ isAuthed ws w (auth s) = true | _ => True end.

Lemma on_message_proven ws m now random s : Forall (proven s ws) (on_message SESSION_TTL_MS ws m now random s).2.
Proof.
  unfold on_message. destruct (named_auth ws m s) as [Ea _]. rewrite Ea.
  destruct (is_guarded (m_t m) && negb (isAuthed ws (m_wallet m) (auth s))) eqn:Eg; [by repeat constructor |].
  destruct (m_t m) as [t |]; [| apply List.Forall_nil].
  destruct (is_guarded (Some t)) eqn:Et.
  { apply Forall_singleton. split; [done |]. rewrite ?Et in Eg. cbn [andb] in Eg. by apply negb_false_iff in Eg. }
  destruct (bool_decide _); [by repeat constructor |]. destruct (bool_decide _); [| destruct (bool_decide _); [| destruct (bool_decide _); [| apply List.Forall_nil]]].
  - unfold auth_resume. destruct (resume _ _ _ _ _) as [[] a]; by repeat constructor.
  - clear Eg. unfold auth_verify. destruct (negb _); [apply Forall_singleton; exact I |].
    destruct (verify _ _ _ _) as [r a]. apply Forall_singleton. exact I.
  - destruct (isAuthed _ _ _) eqn:Ei; [| apply List.Forall_nil]. by apply Forall_singleton.
Qed.

(** A session costs a challenge. *)
Lemma message_sessions ws' ws m now random s : let '(s', fs) := on_message SESSION_TTL_MS ws m now random s in
  (count (is_session ws') fs + pending ws' (auth s') <= count (is_challenge ws') fs + pending ws' (auth s))%nat.
Proof.
  unfold on_message. destruct (named_auth ws m s) as [Ea El]. rewrite Ea.
  assert (Hsame : forall fs, count (is_session ws') fs = 0%nat -> let '(s', fs) := (named ws m s, fs) in
    (count (is_session ws') fs + pending ws' (auth s') <= count (is_challenge ws') fs + pending ws' (auth s))%nat)
    by (intros fs E; cbv beta iota; rewrite E, Ea; apply Nat.add_le_mono_r, Nat.le_0_l).
  destruct (_ && _); [by apply Hsame |]. destruct (m_t m) as [t |]; [| by apply Hsame].
  destruct (is_guarded _); [by apply Hsame |].
  destruct (bool_decide _).
  { cbn [challenge]. rewrite !count_one. unfold pending. cbn [with_auth auth nonces is_session is_challenge].
    destruct (decide (ws = ws')) as [-> | Hne].
    - rewrite lookup_insert_eq, bool_decide_eq_true_2 by done. destruct (nonces _ !! _); lia.
    - rewrite lookup_insert_ne by done. lia. }
  destruct (bool_decide _).
  { unfold auth_resume. rewrite Ea.
    destruct (resume_spec ws (default [] (m_wallet m)) (default [] (m_token m)) now (auth s)) as [[_ ->] | [_ ->]];
      cbn; unfold pending; rewrite ?nonce_prove; lia. }
  destruct (bool_decide _).
  { unfold auth_verify. rewrite Ea. destruct (negb _); [by apply Hsame |].
    destruct (verify_spec ws (m_wallet m) (text_of (m_signature m)) (auth s)) as [(nonce & w & Hn & Hw & _ & ->) | (r & -> & ->)]; [| cbn; lia].
    rewrite Hw. cbn [v_ok fmap option_fmap option_map]. rewrite !count_one. unfold pending. cbn [with_auth auth nonces is_session is_challenge].
    destruct (decide (ws = ws')) as [-> | Hne].
    - rewrite lookup_delete_eq, Hn, bool_decide_eq_true_2 by done. lia.
    - rewrite lookup_delete_ne, bool_decide_eq_false_2 by done. lia. }
  destruct (bool_decide _); [| by apply Hsame]. destruct (isAuthed _ _ _); by apply Hsame.
Qed.

Lemma effects_sessions ws s es :
  (count (is_session ws) (effects s es) + pending ws (auth (serve SESSION_TTL_MS s es)) <= count (is_challenge ws) (effects s es) + pending ws (auth s))%nat.
Proof.
  revert s. induction es as [| e es IH]; intros s; [done |]. cbn [effects]. rewrite !count_app.
  change (serve SESSION_TTL_MS s (e :: es)) with (serve SESSION_TTL_MS (step s e).1 es). specialize (IH (step s e).1).
  assert (Hs : (count (is_session ws) (step s e).2 + pending ws (auth (step s e).1) <= count (is_challenge ws) (step s e).2 + pending ws (auth s))%nat); [| lia].
  destruct e as [ws' | ws' | ws' | ws' m now random | w | l]; [exact (le_n _) | exact (le_n _) | | | exact (le_n _) | apply Nat.le_0_l].
  - cbn [EngineAuth.step fst snd auth]. change (count _ []) with 0%nat. unfold pending, forget. cbn [nonces]. destruct (decide (ws = ws')) as [-> |]; [rewrite lookup_delete_eq | rewrite lookup_delete_ne by done]; lia.
  - pose proof (message_sessions ws ws' m now random s) as Hm. cbn [EngineAuth.step]. by destruct (on_message _ _ _ _ _ _).
Qed.

(** C21. Whoever acts on a wallet, or reads its balance, was let in: since the
    socket last ended or the process started, this socket answered the challenge
    it had been set with a signature of that wallet's key, the wallet being
    allowed then, or showed a token, within its life, that was made for a socket
    that had.  Of tokens only this is assumed, that one carrying the server's hash
    carries the payload and the hash of a token the server sent before; that the
    server sends one only to a socket that has just signed, and in the name of the
    wallet that signed, is part of what is shown.  Every session handed out costs
    its socket a challenge of its own. *)
Theorem only_signers_act es : unforged es ->
  (forall ea e eb ws w, es = ea ++ e :: eb ->
    (exists t, Acts ws t w ∈ (step (at_ ea) e).2) \/ Reads ws w ∈ (step (at_ ea) e).2 -> exists v, w = Some v /\ vouched ea ws v)
  /\ forall ws, (count (is_session ws) (effects (boot l0) es) <= count (is_challenge ws) (effects (boot l0) es))%nat.
Proof.
  intros Hu. split; [| intros ws; pose proof (effects_sessions ws (boot l0) es) as Hc; change (pending ws (auth (boot l0))) with 0%nat in Hc; lia].
  intros ea e eb ws w -> Hf.
  assert (Hk : known ea).
  { apply serve_known. intros e1 ws' m now random e2 p0 p1 p2 ->. apply (Hu e1 ws' m now random (e2 ++ e :: eb)). by rewrite <- app_assoc. }
  assert (Hi : isAuthed ws w (auth (at_ ea)) = true).
  { destruct e as [ws' | ws' | ws' | ws' m now random | w' | l]; cbn in Hf;
      [by destruct Hf as [[? []%elem_of_nil] | []%elem_of_nil].. | | | by destruct Hf as [[? []%elem_of_nil] | []%elem_of_nil]].
    - pose proof (on_message_proven ws' m now random (at_ ea)) as Hp. rewrite Forall_forall in Hp.
      destruct Hf as [[t Hin] | Hin]; apply Hp in Hin as [-> Hin]; exact Hin.
    - destruct Hf as [[? Hin] | Hin]; apply list_elem_of_singleton in Hin; discriminate Hin. }
  destruct w as [v |]; [| unfold isAuthed in Hi; by destruct (authed _ !! _)]. exists v. split; [done |]. by apply (kn_authed _ Hk).
Qed.

(** C34. A session's token, shown on any socket of any later server, a restarted
    one or one whose allowlist has dropped the wallet, lets the socket in as its
    wallet and pushes it its balance exactly until the session's instant, and
    changes nothing shown for another wallet or later. *)
Theorem session_outlives_restart w pk minted s ws w' sg now random : toBytes w = inr pk ->
  Forall (fun c => c <> 46) (num_text (add minted SESSION_TTL_MS)) ->
  let '(s', fs) := step s (Message ws (mkMsg (Some "authResume"%string) (Some w') (Some (mintSession SESSION_TTL_MS w minted)) sg) now random) in
  (w' = w -> ltb now (add minted SESSION_TTL_MS) = true ->
    isAuthed ws (Some w) (auth s') = true /\ fs = [AuthResult ws true None None; pushBalance s' w])
  /\ (w' <> w \/ ltb now (add minted SESSION_TTL_MS) = false -> auth s' = auth s /\ fs = [AuthResult ws false (Some SESSION_EXPIRED) None]).
Proof.
  intros Hk Hd. set (m := mkMsg _ _ _ _).
  assert (Ew : ascii_units w) by (by eapply key_ascii).
  pose proof (mint_split w minted Hd) as Ep.
  assert (Hp : presents (mintSession SESSION_TTL_MS w minted) w' now <-> w' = w /\ ltb now (add minted SESSION_TTL_MS) = true).
  { unfold presents. rewrite Ep. split.
    - intros (? & ? & ? & [= <- <- <-] & _ & Hl & Hb). rewrite buffer_ascii in Hb by done. rewrite NumberOf_text in Hl by apply add_double. done.
    - intros [-> Hl]. eexists _, _, _. split; [done |]. split_and!; [done | by rewrite NumberOf_text by apply add_double | by apply buffer_ascii]. }
  cbn [EngineAuth.step]. unfold on_message. destruct (named_auth ws m s) as [Ea _].
  change (is_guarded (m_t m)) with false. cbn [andb m_t m]. change (is_guarded (Some "authResume"%string)) with false.
  change (bool_decide ("authResume" = "authChallenge")%string) with false. change (bool_decide ("authResume" = "authResume")%string) with true.
  cbv iota. unfold auth_resume. rewrite Ea.
  change (resume ws (default [] (m_wallet m)) (default [] (m_token m)) now (auth s)) with (resume ws w' (mintSession SESSION_TTL_MS w minted) now (auth s)).
  destruct (resume_spec ws w' (mintSession SESSION_TTL_MS w minted) now (auth s)) as [[Hps ->] | [Hps ->]].
  - apply Hp in Hps as [-> Hl]. split; [| intros [[] | ?]; [done | congruence]]. intros _ _. split; [| done]. apply authed_prove. by left.
  - split; [intros -> Hl; by destruct Hps; apply Hp |]. by intros _.
Qed.

(** Who named which wallet last. *)
Definition naming (es : list Event) (c : nat) (w : units) : Prop := exists ea m now random eb,
  es = ea ++ Message c m now random :: eb /\ truthy (m_wallet m) = Some w /\
  Forall (fun e => ends c e = false /\ forall m' now' random', e = Message c m' now' random' -> truthy (m_wallet m') = None) eb.

Lemma on_message_walletOf ws m now random s c : walletOf (on_message SESSION_TTL_MS ws m now random s).1 !! c =
  if decide (c = ws) then match truthy (m_wallet m) with Some w => Some w | None => walletOf s !! c end else walletOf s !! c.
Proof.
  assert (Hn : walletOf (named ws m s) !! c = if decide (c = ws) then match truthy (m_wallet m) with Some w => Some w | None => walletOf s !! c end else walletOf s !! c).
  { unfold named. destruct (truthy _) as [w |]; [| by destruct (decide _)]. cbn [walletOf].
    destruct (decide (c = ws)) as [-> | Hne]; [by rewrite lookup_insert_eq | by rewrite lookup_insert_ne]. }
  rewrite <- Hn. unfold on_message. destruct (_ && _); [done |]. destruct (m_t m); [| done]. destruct (is_guarded _); [done |].
  destruct (bool_decide _); [done |]. destruct (bool_decide _); [unfold auth_resume; by destruct (resume _ _ _ _ _) |].
  destruct (bool_decide _); [unfold auth_verify; destruct (negb _); [done |]; by destruct (verify _ _ _ _) |].
  by destruct (bool_decide _).
Qed.

Lemma naming_snoc es e c w : naming (es ++ [e]) c w <->
  (exists m now random, e = Message c m now random /\ truthy (m_wallet m) = Some w)
  \/ (naming es c w /\ ends c e = false /\ forall m now random, e = Message c m now random -> truthy (m_wallet m) = None).
Proof.
  split.
  - intros (ea & m & now & random & eb & E & Hm & Hq). destruct eb as [| x eb] using rev_ind.
    + apply app_inj_tail in E as [_ ->]. left. by eexists _, _, _.
    + rewrite app_comm_cons, app_assoc in E. apply app_inj_tail in E as [-> ->]. apply Forall_app in Hq as [Hq Hx].
      apply List.Forall_cons_iff in Hx as [Hx _]. right. split; [by exists ea, m, now, random, eb | exact Hx].
  - intros [(m & now & random & -> & Hm) | ((ea & m & now & random & eb & -> & Hm & Hq) & He)].
    + exists es, m, now, random, []. split_and!; [done | done | apply List.Forall_nil].
    + exists ea, m, now, random, (eb ++ [e]). split_and!; [by rewrite <- app_assoc | done |].
      apply Forall_app. split; [done |]. by apply Forall_singleton.
Qed.

Lemma naming_spec es c w : walletOf (at_ es) !! c = Some w <-> naming es c w.
Proof.
  induction es as [| e es IH] using rev_ind.
  { split; [intros Hx; exact (False_ind _ (lookup_empty_Some _ _ Hx)) | intros (ea & ? & ? & ? & ? & E & _); by destruct ea]. }
  rewrite naming_snoc, serve_snoc, <- IH. destruct e as [ws | ws | ws | ws m now random | w' | l]; cbn [EngineAuth.step fst walletOf ends].
  - split; [intros; right; split_and!; done | intros [(? & ? & ? & [=] & _) | []]; done].
  - split; [intros; right; split_and!; done | intros [(? & ? & ? & [=] & _) | []]; done].
  - destruct (decide (ws = c)) as [-> | Hne].
    + rewrite lookup_delete_eq, bool_decide_eq_true_2 by done. by split; [| intros [(? & ? & ? & [=] & _) | (_ & [=] & _)]].
    + rewrite lookup_delete_ne, bool_decide_eq_false_2 by done. split; [intros; right; split_and!; done | intros [(? & ? & ? & [=] & _) | []]; done].
  - rewrite on_message_walletOf. destruct (decide (c = ws)) as [-> | Hne].
    + split.
      * destruct (truthy (m_wallet m)) as [w' |] eqn:E; [intros [= ->]; left; by eexists _, _, _ |].
        intros Hw. right. split_and!; [done | done |]. by intros m' ? ? [= <- _ _].
      * intros [(m' & ? & ? & [= <- _ _] & ->) | (Hw & _ & Hq)]; [done |]. by rewrite (Hq m now random eq_refl).
    + split; [intros Hw; right; split_and!; [done | done |]; by intros ? ? ? [= -> _ _] | intros [(? & ? & ? & [= -> _ _ _] & _) | []]; done].
  - split; [intros; right; split_and!; done | intros [(? & ? & ? & [=] & _) | []]; done].
  - split; [intros Hx; exact (False_ind _ (lookup_empty_Some _ _ Hx)) | intros [(? & ? & ? & [=] & _) | (_ & [=] & _)]].
Qed.

Lemma stranger_subscribed s c t w now random : t ∈ GUARDED -> w <> [] -> c ∈ clients s -> c ∈ ready s ->
  isAuthed c (Some w) (auth s) = false ->
  let '(s', fs) := step s (Message c (mkMsg (Some t) (Some w) None None) now random) in
  fs = [AuthRequired c] /\ isAuthed c (Some w) (auth s') = false /\ c ∈ recipients s' w.
Proof.
  intros Ht Hw Hc Hr Ha. cbn [EngineAuth.step]. unfold on_message. cbn [m_t m_wallet].
  destruct (named_auth c (mkMsg (Some t) (Some w) None None) s) as [Ea _]. rewrite Ea, Ha.
  unfold is_guarded. rewrite bool_decide_eq_true_2 by done. cbn [andb negb]. split_and!; [done | by rewrite Ea |].
  unfold recipients. rewrite elem_of_filter. unfold named. destruct w as [| u w]; [done |]. cbn [m_wallet truthy walletOf ready clients].
  by rewrite lookup_insert_eq.
Qed.

(** C39. A pushed balance goes to the open sockets that named its wallet last and
    to no other; a socket that never proved the wallet is among them: a guarded
    message that is refused has already put it there. *)
Theorem pushes_go_to_whoever_names es w c :
  (c ∈ recipients (at_ es) w <-> c ∈ clients (at_ es) /\ c ∈ ready (at_ es) /\ naming es c w)
  /\ forall t now random, t ∈ GUARDED -> w <> [] -> c ∈ clients (at_ es) -> c ∈ ready (at_ es) -> isAuthed c (Some w) (auth (at_ es)) = false ->
      let '(s', fs) := step (at_ es) (Message c (mkMsg (Some t) (Some w) None None) now random) in
      fs = [AuthRequired c] /\ isAuthed c (Some w) (auth s') = false /\ c ∈ recipients s' w.
Proof.
  split.
  - unfold recipients. rewrite elem_of_filter, naming_spec. tauto.
  - intros t now random Ht Hw Hc Hr Ha. apply stranger_subscribed; done.
Qed.

End Laws.

(** ** Witnesses *)

(** A platform in which a key is its own bytes and signs with its first. *)
#[local] Instance toy : Platform := {|
  hmac bs := take 4 bs;
  b64url bs := (fun b => Z.max 0 b + 256) <$> bs;
  unb64url u := (fun c => c - 256) <$> u;
  unb64 u := u;
  toBytes w := if forallb (fun c => (0 <=? c) && (c <? 128)) w then inr w else inl (lit "bad key");
  no_key := lit "no key";
  ed25519 _ sig pk := inr (bool_decide (sig = repeat (default 0 (head pk)) 64));
|}.

#[local] Instance toy_laws : PlatformLaws.
Proof.
  constructor.
  - intros bs Hb. cbn. rewrite <- list_fmap_compose. rewrite <- (list_fmap_id bs) at 2. apply list_fmap_ext.
    intros i b Hi. cbn. assert (Hr : 0 <= b < 256) by (by eapply (Forall_lookup_1 _ _ _ _ Hb)). unfold id. lia.
  - intros bs. cbn. apply Forall_fmap. apply Forall_true. intros b. cbn. lia.
  - intros w pk. cbn. destruct (forallb _ w) eqn:E; [| discriminate]. intros _.
    unfold ascii_units. rewrite List.Forall_forall. intros c Hc. rewrite forallb_forall in E. specialize (E c Hc).
    apply andb_true_iff in E as [E1 E2]. zbool. lia.
Qed.

Definition ttl0 : num := of_Z 5000.
Definition alice : units := lit "alice".
Definition alice_list : Allowlist := mkAllowlist true (load (lit "bob, alice") None).
Definition ask0 : Msg := mkMsg (Some "authChallenge"%string) (Some alice) None None.
Definition sign0 : Msg := mkMsg (Some "authVerify"%string) (Some alice) None (Some (repeat 97 64)).
Definition back0 : Msg := mkMsg (Some "authResume"%string) (Some alice) (Some (mintSession ttl0 alice (of_Z 2000))) None.
Definition enter0 : Msg := mkMsg (Some "enter"%string) (Some alice) None None.

(** Alice signs on one socket; the server starts again without her on its list;
    she comes back on another. *)
Definition before0 : list Event := [Connect 1; Message 1 ask0 (of_Z 1000) (lit "x")].
Definition first0 : list Event := before0 ++ [Message 1 sign0 (of_Z 2000) []].
Definition second0 : list Event := (first0 ++ [Restart (mkAllowlist true ∅)]) ++ [Connect 2].
Definition back_again0 : list Event := second0 ++ [Message 2 back0 (of_Z 6000) []].
Definition day0 : list Event := back_again0 ++ [Message 2 enter0 (of_Z 6500) []].

Lemma no_resume (e : Event) (P : nat -> Msg -> num -> units -> Prop) :
  match e with Message _ m _ _ => m_t m <> Some "authResume"%string | _ => True end ->
  forall ws m now random, e = Message ws m now random -> m_t m = Some "authResume"%string -> P ws m now random.
Proof. intros He ws m now random -> Ht. by destruct He. Qed.

Lemma handed0 eb : handed ttl0 alice_list (first0 ++ eb) (mintSession ttl0 alice (of_Z 2000)).
Proof.
  exists before0, (Message 1 sign0 (of_Z 2000) []), eb, 1%nat, true, None. split; [unfold first0; by rewrite <- app_assoc |].
  assert (E : (step ttl0 (serve ttl0 (boot alice_list) before0) (Message 1 sign0 (of_Z 2000) [])).2
    = [AuthResult 1 true None (Some (mintSession ttl0 alice (of_Z 2000)))]) by (vm_compute; reflexivity).
  rewrite E. by left.
Qed.

Lemma dotless0 : Forall (fun c => c <> 46) (num_text (add (of_Z 2000) ttl0)).
Proof. assert (E : num_text (add (of_Z 2000) ttl0) = lit "7000") by (vm_compute; reflexivity). rewrite E. by repeat constructor. Qed.

Lemma day_unforged0 : unforged ttl0 alice_list day0.
Proof.
  unfold day0, back_again0, second0, first0. change before0 with ((([] ++ [Connect 1]) ++ [Message 1 ask0 (of_Z 1000) (lit "x")])).
  apply unforged_snoc; [| by apply no_resume]. apply unforged_snoc.
  - do 3 (apply unforged_snoc; [| by apply no_resume]). do 2 (apply unforged_snoc; [| by apply no_resume]). apply unforged_nil.
  - intros ws m now random E _. assert (Em : m = back0) by congruence. subst m. exists alice, (of_Z 2000).
    split_and!; [| reflexivity | apply dotless0]. exact (handed0 [Restart (mkAllowlist true ∅); Connect 2]).
Qed.

Lemma only_signers_act_witness : unforged ttl0 alice_list day0 /\ exists v, Some alice = Some v /\ vouched ttl0 alice_list back_again0 2 v.
Proof.
  split; [exact day_unforged0 |].
  apply (proj1 (only_signers_act ttl0 alice_list day0 day_unforged0) back_again0 (Message 2 enter0 (of_Z 6500) []) [] 2%nat (Some alice)); [reflexivity |].
  left. exists "enter"%string.
  assert (E : (step ttl0 (serve ttl0 (boot alice_list) back_again0) (Message 2 enter0 (of_Z 6500) [])).2 = [Acts 2 "enter" (Some alice)]) by (vm_compute; reflexivity).
  rewrite E. by left.
Defined.

Lemma session_outlives_restart_witness :
  (step ttl0 (boot (mkAllowlist true ∅)) (Message 2 back0 (of_Z 6000) [])).2 = [AuthResult 2 true None None; Pushed alice ∅].
Proof.
  assert (Hk : toBytes alice = inr alice) by (vm_compute; reflexivity).
  pose proof (session_outlives_restart ttl0 alice alice (of_Z 2000) (boot (mkAllowlist true ∅)) 2%nat alice None (of_Z 6000) [] Hk dotless0) as Ht.
  change (mkMsg _ _ _ _) with back0 in Ht. destruct (step _ _ _) as [s' fs] eqn:E. destruct Ht as [Ht _].
  assert (Hl : ltb (of_Z 6000) (add (of_Z 2000) ttl0) = true) by (vm_compute; reflexivity).
  destruct (Ht eq_refl Hl) as [_ Hf].
  assert (E' : s' = (step ttl0 (boot (mkAllowlist true ∅)) (Message 2 back0 (of_Z 6000) [])).1) by (by rewrite E).
  cbn [snd]. rewrite Hf, E'. vm_compute. reflexivity.
Defined.

Lemma pushes_go_to_whoever_names_witness :
  let s := serve ttl0 (boot alice_list) [Connect 7] in
  let '(s', fs) := step ttl0 s (Message 7 enter0 (of_Z 1) []) in
  fs = [AuthRequired 7] /\ isAuthed 7 (Some alice) (auth s') = false /\ 7%nat ∈ recipients s' alice.
Proof.
  apply (proj2 (pushes_go_to_whoever_names ttl0 alice_list [Connect 7] alice 7) "enter"%string (of_Z 1) []);
    [by left | discriminate | cbn; set_solver | cbn; set_solver | vm_compute; reflexivity].
Defined.
