(* ===== verification/EngineMemo.v ===== *)
(** * Anchoring settled rounds on chain

    [engine/src/memo.ts]: what is written of a settled round, and the queue that
    posts it.  [flushMemos] awaits the vault's balance and then the transaction;
    an attempt under way is the field [sending] of the machine, and what the
    network answered is an event.  SHA-256 and the collation of [localeCompare] are
    parameters.  The text of the last error, for the operator, is not kept.

    Laws: every settled round leaves the queue from its front, once, in order of
    settlement, as posted, as too large or as the overflow of a failed attempt; what
    is sent fits the limit and carries the commitment to each of its rounds'
    results; while the network answers well the queue drains. *)
From S2P Require Import Prelude Text JsNum Json Codec Int32 EngineAuth.

(** ** Texts *)

(** [x.toFixed(dp)] for [dp > 0] *)
Definition toFixed (dp : nat) (x : num) : units :=
  match x with
  | Fin m =>
      if 10 ^ 21 * one <=? Z.abs m then num_text x else
      let n := (2 * (Z.abs m * 10 ^ Z.of_nat dp) + one) / (2 * one) in
      (if m <? 0 then [45] else []) ++ digits (n / 10 ^ Z.of_nat dp) ++ 46 :: lit (padded dp (n mod 10 ^ Z.of_nat dp))
  | _ => num_text x
  end.

(** [x || 0] *)
Definition or_zero (x : num) : num := match x with NaN => of_Z 0 | _ => x end.

(** [l.includes(w)] *)
Fixpoint includes (w l : units) : bool :=
  match word w l with Some _ => true | None => match l with [] => false | _ :: l => includes w l end end.

Definition NL : units := [10].

Record AnchorPlayer : Type := mkPlayer {
  ap_id : units; ap_name : option units; ap_side : units; ap_bot : bool; ap_inTok : num; ap_outA : num; ap_outB : num;
}.

Record RoundAnchor : Type := mkAnchor {
  ra_arena : units; ra_round : num; ra_seedHash : units; ra_seed : units; ra_winner : units; ra_pot : num;
  ra_players : list AnchorPlayer;
}.

Definition n2 (x : num) : units := toFixed 2 (or_zero x).

Definition B58 : units := lit "abcdefghijkmnopqrstuvwxyzABCDEFGHJKLMNPQRSTUVWXYZ123456789".

Definition walletish_absorb (h c : Z) : Z := ToUint32 (imul (xor32 h c) 16777619).

Definition walletish_next (h : Z) : Z := ToUint32 (imul (xor32 h (ushr h 13)) 2246822507).

Fixpoint walletish_draw (n : nat) (h : Z) : units :=
  match n with O => [] | S n => default 0 (B58 !! Z.to_nat (h mod Z.of_nat (length B58))) :: walletish_draw n (walletish_next h) end.

Definition walletish (seed : units) : units :=
  let out := walletish_draw 7 (foldl walletish_absorb 2166136261 seed) in take 4 out ++ lit ".." ++ drop 4 out.

(** [id.slice(-3)] *)
Definition last3 (id : units) : units := drop (length id - 3) id.

Definition shortId (id : units) (name : option units) : units :=
  let n := PrivyIdentity.trim_units (default [] name) in
  if negb (bool_decide (n = [])) && negb (bool_decide (n = lit "You")) then take 12 n
  else if includes (lit ":bot:") id then walletish id
  else take 4 id ++ lit ".." ++ last3 id.

Definition TOKENS (pair : units) : units * units :=
  if bool_decide (pair = lit "us") then (lit "UWU", lit "SOL")
  else if bool_decide (pair = lit "au") then (lit "ANSEM", lit "UWU")
  else if bool_decide (pair = lit "as") then (lit "ANSEM", lit "SOL")
  else (lit "A", lit "B").

Section Memo.
(** SHA-256 in hexadecimal; [String(x).localeCompare(String(y)) <= 0]. *)
Context (sha256 : units -> units) (collates : units -> units -> bool).

(** A stable sort by identity. *)
Fixpoint insert_row (r : units * json) (rs : list (units * json)) : list (units * json) :=
  match rs with
  | [] => [r]
  | q :: rs' => if collates r.1 q.1 then r :: rs else q :: insert_row r rs'
  end.

Definition sort_rows (rs : list (units * json)) : list (units * json) := foldr insert_row [] rs.

(** [+(x || 0).toFixed(6)] *)
Definition six (x : num) : num := NumberOf (toFixed 6 (or_zero x)).

Definition player_row (f : AnchorPlayer) : units * json :=
  (ap_id f, JArr [JStr (ap_id f); JStr (ap_side f); JNum (six (ap_inTok f)); JNum (six (ap_outA f)); JNum (six (ap_outB f))]).

Definition resultsPayload (r : RoundAnchor) : units :=
  stringify [] (JObj [
    (lit "arena", JStr (ra_arena r)); (lit "round", JNum (ra_round r)); (lit "winner", JStr (ra_winner r));
    (lit "seedHash", JStr (ra_seedHash r)); (lit "seed", JStr (ra_seed r));
    (lit "players", JArr (sort_rows (player_row <$> ra_players r)).*2)]).

Definition resultsHash (r : RoundAnchor) : units := sha256 (resultsPayload r).

Definition results_line (r : RoundAnchor) : units := lit "results " ++ take 32 (resultsHash r).

Definition player_line (tokA tokB : units) (f : AnchorPlayer) : units :=
  shortId (ap_id f) (ap_name f) ++ [32] ++ (if bool_decide (ap_side f = lit "bull") then tokA else tokB) ++ lit " $" ++ n2 (ap_inTok f)
    ++ lit ">$" ++ n2 (add (or_zero (ap_outA f)) (or_zero (ap_outB f))).

Definition encodeRound (r : RoundAnchor) (withPlayers : bool) : units :=
  let '(tokA, tokB) := TOKENS (default [] (head (split_unit 45 (ra_arena r)))) in
  let mode := if includes (lit "extraction") (ra_arena r) then lit "EXT" else lit "MAY" in
  let win := if bool_decide (ra_winner r = lit "bull") then tokA else tokB in
  separated NL (
    [lit "BULLS vs UNICORNS  R" ++ num_text (ra_round r) ++ lit "  " ++ tokA ++ lit "/" ++ tokB ++ lit " " ++ mode;
     lit "WINNER " ++ win ++ lit " | POT $" ++ n2 (ra_pot r) ++ lit " | " ++ digits (Z.of_nat (length (ra_players r))) ++ lit " players";
     lit "commit " ++ take 16 (ra_seedHash r) ++ lit "  (before deploys)";
     lit "seed   " ++ take 16 (ra_seed r) ++ lit "  (at fight start)";
     results_line r]
    ++ (if withPlayers then player_line tokA tokB <$> ra_players r else [])
    ++ [lit "verify bulls-arena-engine.fly.dev/fair"]).

Definition encode_rows (rows : list RoundAnchor) (withPlayers : bool) : units :=
  separated (NL ++ lit "==========" ++ NL) ((fun r => encodeRound r withPlayers) <$> rows).

(** [Buffer.byteLength(text)] *)
Definition byteLength (text : units) : Z := Z.of_nat (length (Codec.encode text)).

(** ** The queue *)

Context (ON : bool) (BATCH : nat) (MAX_MEMO_BYTES : Z) (MEMO_MIN_VAULT_SOL : num).

Definition LAMPORTS_PER_MEMO : Z := 5000.

(** An attempt: how many rows, their text, and whether it still waits for the
    vault's balance or already for its transaction. *)
Record Attempt : Type := mkAttempt { at_take : nat; at_text : units; at_posting : bool }.

Record Memo : Type := mkMemo {
  queue : list RoundAnchor; sending : option Attempt; paused : bool;
  posted : Z; failed : Z; degraded : Z; lastSig : option units; lastBytes : Z;
}.

Definition memo_boot : Memo := mkMemo [] None false 0 0 0 None 0.

(** What happens outside, and which rows leave the queue. *)
Inductive Effect : Type :=
| Sent (text : units)
| Posted (rows : list RoundAnchor) (text sig : units)
| Sink (rounds : list (units * num)) (sig : units)
| FeePaid (lamports : Z)
| Oversize (rows : list RoundAnchor)
| Overflow (rows : list RoundAnchor).

Definition idle (s : Memo) : Memo :=
  mkMemo (queue s) None (paused s) (posted s) (failed s) (degraded s) (lastSig s) (lastBytes s).

(** [while (take > 1 && ...) take--] *)
Fixpoint shrink (q : list RoundAnchor) (n : nat) : nat :=
  match n with
  | S (S _ as n') => if MAX_MEMO_BYTES <? byteLength (encode_rows (take n q) true) then shrink q n' else n
  | _ => n
  end.

(** The text of the first [n] rows, without their players where those do not fit. *)
Definition batch_text (q : list RoundAnchor) (n : nat) : units :=
  let text := encode_rows (take n q) true in
  if MAX_MEMO_BYTES <? byteLength text then encode_rows (take n q) false else text.

(** One turn of the loop over the queue, up to its first await. *)
Definition turn (s : Memo) : Memo * list Effect :=
  match queue s with
  | [] => (idle s, [])
  | _ =>
      let n := shrink (queue s) (Nat.min (length (queue s)) BATCH) in
      let text := batch_text (queue s) n in
      let degraded' := if MAX_MEMO_BYTES <? byteLength (encode_rows (take n (queue s)) true) then degraded s + 1 else degraded s in
      if MAX_MEMO_BYTES <? byteLength text then
        (mkMemo (drop 1 (queue s)) None (paused s) (posted s) (failed s + 1) degraded' (lastSig s) (lastBytes s), [Oversize (take 1 (queue s))])
      else
        (mkMemo (queue s) (Some (mkAttempt n text false)) (paused s) (posted s) (failed s) degraded' (lastSig s) (byteLength text), [])
  end.

(** [signer]: whether the vault's key can be loaded at this call. *)
Definition flushMemos (signer : bool) (s : Memo) : Memo * list Effect :=
  if negb ON || (match sending s with Some _ => true | None => false end) || bool_decide (queue s = []) || paused s then (s, [])
  else if negb signer then (s, [])
  else turn s.

Definition anchorRound (a : RoundAnchor) (signer : bool) (s : Memo) : Memo * list Effect :=
  if negb ON then (s, []) else
  let s := mkMemo (queue s ++ [a]) (sending s) (paused s) (posted s) (failed s) (degraded s) (lastSig s) (lastBytes s) in
  if (BATCH <=? length (queue s))%nat then flushMemos signer s else (s, []).

(** The balance arrived ([0] where the node failed). *)
Definition on_balance (lamports : num) (s : Memo) : Memo * list Effect :=
  match sending s with
  | Some (mkAttempt n text false) =>
      if ltb (div lamports (of_Z 1000000000)) MEMO_MIN_VAULT_SOL then (idle s, [])
      else (mkMemo (queue s) (Some (mkAttempt n text true)) (paused s) (posted s) (failed s) (degraded s) (lastSig s) (lastBytes s), [Sent text])
  | _ => (s, [])
  end.

(** The transaction was confirmed: its rows go, and the loop turns again. *)
Definition on_landed (sig : units) (s : Memo) : Memo * list Effect :=
  match sending s with
  | Some (mkAttempt n text true) =>
      let rows := take n (queue s) in
      let '(s', fs) := turn (mkMemo (drop n (queue s)) (sending s) (paused s) (posted s + Z.of_nat n) (failed s) (degraded s) (Some sig) (lastBytes s)) in
      (s', Posted rows text sig :: Sink ((fun r => (ra_arena r, ra_round r)) <$> rows) sig :: FeePaid LAMPORTS_PER_MEMO :: fs)
  | _ => (s, [])
  end.

Definition QUEUE_MAX : nat := 500.

(** Some await of the transaction threw. *)
Definition on_failed (s : Memo) : Memo * list Effect :=
  match sending s with
  | Some (mkAttempt _ _ true) =>
      let over := (length (queue s) - QUEUE_MAX)%nat in
      (mkMemo (drop over (queue s)) None (paused s) (posted s) (failed s + 1) (degraded s) (lastSig s) (lastBytes s),
       if (QUEUE_MAX <? length (queue s))%nat then [Overflow (take over (queue s))] else [])
  | _ => (s, [])
  end.

Inductive Event : Type :=
| Settled (a : RoundAnchor) (signer : bool)
| Drain (signer : bool)
| Pause (why : bool)
| Balance (lamports : num)
| Landed (sig : units)
| Failed.

Definition step (s : Memo) (e : Event) : Memo * list Effect :=
  match e with
  | Settled a signer => anchorRound a signer s
  | Drain signer => flushMemos signer s
  | Pause why => (mkMemo (queue s) (sending s) why (posted s) (failed s) (degraded s) (lastSig s) (lastBytes s), [])
  | Balance lamports => on_balance lamports s
  | Landed sig => on_landed sig s
  | Failed => on_failed s
  end.

Fixpoint history (s : Memo) (es : list Event) : Memo * list Effect :=
  match es with
  | [] => (s, [])
  | e :: es => let '(s, fs) := step s e in let '(s, gs) := history s es in (s, fs ++ gs)
  end.

(** ** Laws *)

Definition settled (es : list Event) : list RoundAnchor :=
  if ON then mjoin ((fun e => match e with Settled a _ => [a] | _ => [] end) <$> es) else [].

(** The rows that left, in order. *)
Definition gone (f : Effect) : list RoundAnchor :=
  match f with Posted rows _ _ | Oversize rows | Overflow rows => rows | _ => [] end.

Definition left (fs : list Effect) : list RoundAnchor := mjoin (gone <$> fs).

(** A text that fits and carries its rows' proof. *)
Definition fits (rows : list RoundAnchor) (text : units) : Prop :=
  byteLength text <= MAX_MEMO_BYTES /\ exists withPlayers, text = encode_rows rows withPlayers.

Record sound (s : Memo) : Prop := {
  so_attempt : forall a, sending s = Some a -> (0 < at_take a <= length (queue s))%nat /\ fits (take (at_take a) (queue s)) (at_text a);
  so_off : ON = false -> queue s = [];
}.

Definition effect_ok (f : Effect) : Prop :=
  match f with
  | Sent text => exists rows, rows <> [] /\ fits rows text
  | Posted rows text _ => rows <> [] /\ fits rows text
  | Oversize rows => exists r, rows = [r] /\ MAX_MEMO_BYTES < byteLength (encodeRound r false)
  | _ => True
  end.

Lemma left_app fs gs : left (fs ++ gs) = left fs ++ left gs.
Proof. unfold left. by rewrite fmap_app, join_app. Qed.

Context (Hbatch : (0 < BATCH)%nat).

Lemma shrink_bounds q n : (0 < n)%nat -> (0 < shrink q n <= n)%nat
  /\ (MAX_MEMO_BYTES < byteLength (encode_rows (take (shrink q n) q) true) -> shrink q n = 1%nat).
Proof.
  induction n as [| n IH]; intros Hn; [lia |]. destruct n as [| n]; [cbn [shrink]; split; [lia | done] |].
  cbn [shrink]. destruct (Z.ltb_spec MAX_MEMO_BYTES (byteLength (encode_rows (take (S (S n)) q) true))).
  - destruct (IH ltac:(lia)) as [Hb Hl]. split; [cbn [shrink] in *; lia | exact Hl].
  - split; [lia |]. lia.
Qed.

Lemma encode_one r wp : encode_rows [r] wp = encodeRound r wp.
Proof. done. Qed.

Lemma turn_spec s : (forall r, r ∈ queue s -> ON = true) -> let '(s', fs) := turn s in
  sound s' /\ queue s = left fs ++ queue s' /\ Forall effect_ok fs /\ paused s' = paused s
  /\ (queue s <> [] -> sending s' = None -> (length (queue s') < length (queue s))%nat) /\ (queue s = [] -> sending s' = None).
Proof.
  intros Hon. unfold turn. destruct (queue s) as [| r q] eqn:Eq.
  { by split_and!. }
  rewrite <- Eq. cbv zeta. set (n := shrink (queue s) _).
  destruct (shrink_bounds (queue s) (Nat.min (length (queue s)) BATCH)) as [Hb Hl]; [rewrite Eq; cbn [length]; lia |]. fold n in Hb, Hl.
  assert (Hoff : forall q' : list RoundAnchor, ON = false -> q' = []) by (intros q' E; rewrite (Hon r) in E by (by left); discriminate).
  destruct (Z.ltb_spec MAX_MEMO_BYTES (byteLength (batch_text (queue s) n))) as [Hbig | Hfit].
  - assert (E1 : n = 1%nat /\ batch_text (queue s) n = encode_rows (take n (queue s)) false).
    { unfold batch_text in *. destruct (Z.ltb_spec MAX_MEMO_BYTES (byteLength (encode_rows (take n (queue s)) true))) as [H1 | H1]; [split; [auto | done] | lia]. }
    destruct E1 as [E1 E2]. rewrite E2, E1, Eq in Hbig. split_and!.
    + constructor; cbn; [done | apply Hoff].
    + cbn. unfold left. cbn. rewrite Eq. done.
    + apply List.Forall_cons; [| apply List.Forall_nil]. rewrite Eq. exists r. done.
    + done.
    + intros _ _. cbn [queue]. rewrite Eq. apply Nat.lt_succ_diag_r.
    + by rewrite Eq.
  - split_and!; [| done | apply List.Forall_nil | done | done | by rewrite Eq].
    constructor; cbn [sending queue]; [| apply Hoff]. intros a E. apply (inj Some) in E as <-. cbn [at_take at_text]. split; [lia |]. split; [done |]. unfold batch_text. by destruct (_ <? _); eexists.
Qed.

Lemma flush_spec signer s : sound s -> let '(s', fs) := flushMemos signer s in
  sound s' /\ queue s = left fs ++ queue s' /\ Forall effect_ok fs.
Proof.
  intros Hs. unfold flushMemos. destruct ON eqn:Eon; cbn [negb orb]; [| by split_and!].
  destruct (sending s) eqn:Ese; [by split_and! |]. cbn [orb]. destruct (bool_decide _); [by split_and! |]. cbn [orb].
  destruct (paused s); [by split_and! |]. destruct signer; cbn [negb]; [| by split_and!].
  pose proof (turn_spec s ltac:(done)) as Ht. destruct (turn s) as [s' fs]. tauto.
Qed.

Lemma enqueue_sound s a : ON = true -> sound s ->
  sound (mkMemo (queue s ++ [a]) (sending s) (paused s) (posted s) (failed s) (degraded s) (lastSig s) (lastBytes s)).
Proof.
  intros Hon [Ha Ho]. constructor; cbn; [| congruence]. intros at_ E. destruct (Ha at_ E) as [Hn Hf].
  rewrite length_app. split; [lia |]. by rewrite take_app_le by lia.
Qed.

Lemma memo_step_spec s e : sound s -> let '(s', fs) := step s e in
  sound s' /\ queue s ++ settled [e] = left fs ++ queue s' /\ Forall effect_ok fs.
Proof.
  intros Hs. destruct e as [a signer | signer | why | lamports | sig |]; cbn [step].
  - replace (settled [Settled a signer]) with (if ON then [a] else []) by (unfold settled; by destruct ON).
    unfold anchorRound. destruct ON eqn:Eon; cbn [negb]; [| rewrite app_nil_r; by split_and!].
    pose proof (enqueue_sound s a Eon Hs) as Hs'. destruct (_ <=? _)%nat; [| by split_and!].
    pose proof (flush_spec signer _ Hs') as Hf. by destruct (flushMemos _ _).
  - replace (settled [Drain signer]) with (@nil RoundAnchor) by (unfold settled; by destruct ON). rewrite app_nil_r. by apply flush_spec.
  - replace (settled [Pause why]) with (@nil RoundAnchor) by (unfold settled; by destruct ON). rewrite app_nil_r.
    split_and!; [| done | apply List.Forall_nil]. by destruct Hs.
  - replace (settled [Balance lamports]) with (@nil RoundAnchor) by (unfold settled; by destruct ON). rewrite app_nil_r.
    unfold on_balance. destruct (sending s) as [[n text []] |] eqn:Ese; [by split_and! | | by split_and!].
    destruct Hs as [Ha Ho]. destruct (Ha _ Ese) as [Hn Hf]. cbn [at_take at_text] in *. destruct (ltb _ _).
    + split_and!; [by constructor | done | apply List.Forall_nil].
    + split_and!; [| done |]; [constructor; cbn; [by intros a [= <-] | done] |].
      apply List.Forall_cons; [| apply List.Forall_nil]. exists (take n (queue s)). split; [| done].
      destruct (queue s); [cbn in Hn; lia |]. destruct n; [lia | done].
  - replace (settled [Landed sig]) with (@nil RoundAnchor) by (unfold settled; by destruct ON). rewrite app_nil_r.
    unfold on_landed. destruct (sending s) as [[n text []] |] eqn:Ese; [| by split_and! | by split_and!].
    destruct Hs as [Ha Ho]. destruct (Ha _ Ese) as [Hn Hf]. cbn [at_take at_text] in *.
    match goal with |- context [turn ?m] => pose proof (turn_spec m) as Ht; destruct (turn m) as [s' fs] end. cbn [queue] in Ht.
    destruct Ht as (H1 & H2 & H3 & _).
    { intros r _. destruct ON eqn:Eon; [done |]. rewrite Ho in Hn by done. cbn in Hn. lia. }
    split_and!; [done | |].
    + change (left (Posted (take n (queue s)) text sig :: ?a :: ?b :: fs)) with (take n (queue s) ++ left fs).
      by rewrite <- app_assoc, <- H2, take_drop.
    + apply List.Forall_cons; [| apply List.Forall_cons; [done | apply List.Forall_cons; done]]. split; [| done].
      destruct (queue s); [cbn in Hn; lia |]. destruct n; [lia | done].
  - replace (settled [Failed]) with (@nil RoundAnchor) by (unfold settled; by destruct ON). rewrite app_nil_r.
    unfold on_failed. destruct (sending s) as [[n text []] |] eqn:Ese; [| by split_and! | by split_and!].
    destruct Hs as [Ha Ho]. split_and!; [constructor; cbn; [done | intros E; rewrite Ho by done; by rewrite drop_nil] | |].
    + cbn [queue]. destruct (Nat.ltb_spec QUEUE_MAX (length (queue s))).
      * unfold left. cbn [fmap list_fmap gone mjoin list_join]. by rewrite app_nil_r, take_drop.
      * replace (length (queue s) - QUEUE_MAX)%nat with 0%nat by lia. done.
    + destruct (_ <? _)%nat; by repeat constructor.
Qed.

Lemma settled_cons e es : settled (e :: es) = settled [e] ++ settled es.
Proof. unfold settled. destruct ON; [| done]. cbn. by rewrite app_nil_r. Qed.

Lemma history_spec s es : sound s -> let '(s', fs) := history s es in
  sound s' /\ queue s ++ settled es = left fs ++ queue s' /\ Forall effect_ok fs.
Proof.
  revert s. induction es as [| e es IH]; intros s Hs; cbn [history].
  { replace (settled []) with (@nil RoundAnchor) by (unfold settled; by destruct ON). rewrite app_nil_r. by split_and!. }
  pose proof (memo_step_spec s e Hs) as H1. destruct (step s e) as [s1 fs]. destruct H1 as (Hs1 & E1 & F1).
  specialize (IH s1 Hs1). destruct (history s1 es) as [s2 gs]. destruct IH as (Hs2 & E2 & F2).
  split_and!; [done | | by apply Forall_app]. rewrite settled_cons, app_assoc, E1, <- app_assoc, E2, left_app. by rewrite app_assoc.
Qed.

Lemma memo_boot_sound : sound memo_boot.
Proof. by constructor. Qed.

(** What the sink is told is what was posted. *)
Definition told (f : Effect) : list (list (units * num) * units) := match f with Sink rs sig => [(rs, sig)] | _ => [] end.

Definition proofs (f : Effect) : list (list (units * num) * units) :=
  match f with Posted rows _ sig => [((fun r => (ra_arena r, ra_round r)) <$> rows, sig)] | _ => [] end.

Lemma turn_quiet s : Forall (fun f => exists rows, f = Oversize rows) (turn s).2.
Proof. unfold turn. destruct (queue s); [apply List.Forall_nil |]. cbv zeta. destruct (_ <? byteLength (batch_text _ _)); by repeat econstructor. Qed.

Lemma quiet_told fs : Forall (fun f => exists rows, f = Oversize rows) fs -> mjoin (told <$> fs) = [] /\ mjoin (proofs <$> fs) = [].
Proof. induction 1 as [| f fs [rows ->] _ [IH1 IH2]]; [done |]. by cbn. Qed.

Lemma flush_quiet signer s : Forall (fun f => exists rows, f = Oversize rows) (flushMemos signer s).2.
Proof. unfold flushMemos. destruct (_ || _); [apply List.Forall_nil |]. destruct signer; [apply turn_quiet | apply List.Forall_nil]. Qed.

Lemma step_told s e : mjoin (told <$> (step s e).2) = mjoin (proofs <$> (step s e).2).
Proof.
  destruct e as [a signer | signer | why | lamports | sig |]; cbn [step]; [| | done | | |].
  - unfold anchorRound. destruct (negb ON); [done |]. destruct (_ <=? _)%nat; [| done].
    by destruct (quiet_told _ (flush_quiet signer (mkMemo (queue s ++ [a]) (sending s) (paused s) (posted s) (failed s) (degraded s) (lastSig s) (lastBytes s)))) as [-> ->].
  - by destruct (quiet_told _ (flush_quiet signer s)) as [-> ->].
  - unfold on_balance. destruct (sending s) as [[n text []] |]; [done | | done]. by destruct (ltb _ _).
  - unfold on_landed. destruct (sending s) as [[n text []] |]; [| done | done].
    match goal with |- context [turn ?m] => pose proof (quiet_told _ (turn_quiet m)) as [E1 E2]; destruct (turn m) as [s' fs] end.
    cbn [snd] in *. cbn. f_equal. exact (eq_trans E1 (eq_sym E2)).
  - unfold on_failed. destruct (sending s) as [[n text []] |]; [| done | done]. by destruct (_ <? _)%nat.
Qed.

Lemma history_told s es : mjoin (told <$> (history s es).2) = mjoin (proofs <$> (history s es).2).
Proof.
  revert s. induction es as [| e es IH]; intros s; [done |]. cbn [history]. pose proof (step_told s e) as H1.
  destruct (step s e) as [s1 fs]. specialize (IH s1). destruct (history s1 es) as [s2 gs]. cbn [snd] in *.
  by rewrite !fmap_app, !join_app, H1, IH.
Qed.

(** C25. Over any history every settled round leaves the queue from its front and
    once, in the order of settlement: posted in a text that fits the limit and was
    made of exactly those rounds, or alone and too large even without its players,
    or as the overflow of a failed attempt; the history is told, with the
    signature, of exactly the rounds posted. *)
Theorem rounds_leave_in_order es : let '(s, fs) := history memo_boot es in
  settled es = left fs ++ queue s /\ Forall effect_ok fs /\ mjoin (told <$> fs) = mjoin (proofs <$> fs).
Proof.
  pose proof (history_spec memo_boot es memo_boot_sound) as Hh. pose proof (history_told memo_boot es) as Ht.
  destruct (history memo_boot es) as [s fs]. destruct Hh as (_ & E & F). by split_and!.
Qed.

(** ** Laws: the queue drains *)

(** The network answers well for a while. *)
Definition good_turns (lamports : num) (sig : units) (n : nat) : list Event := mjoin (replicate n [Drain true; Balance lamports; Landed sig]).

Definition after (s : Memo) (e : Event) : Memo := (step s e).1.

Lemma history_after s es : (history s es).1 = foldl after s es.
Proof.
  revert s. induction es as [| e es IH]; intros s; [done |]. cbn [history foldl]. rewrite <- IH. unfold after.
  destruct (step s e) as [s1 fs]. cbn [fst]. by destruct (history s1 es).
Qed.

Lemma after_sound s e : sound s -> sound (after s e).
Proof. intros Hs. pose proof (memo_step_spec s e Hs) as H1. unfold after. destruct (step s e). by destruct H1. Qed.

Lemma turn_attempt s : match sending (turn s).1 with
  | Some a => at_posting a = false /\ queue (turn s).1 = queue s
  | None => True
  end.
Proof. unfold turn. destruct (queue s) eqn:E; [done |]. cbv zeta. rewrite <- E. by destruct (_ <? byteLength (batch_text _ _)). Qed.

Lemma landed_shrinks s sig n text : sound s -> sending s = Some (mkAttempt n text true) ->
  paused (after s (Landed sig)) = paused s /\ (length (queue (after s (Landed sig))) < length (queue s))%nat.
Proof.
  intros [Ha Ho] Ese. destruct (Ha _ Ese) as [Hn _]. cbn [at_take] in Hn. unfold after. cbn [step]. unfold on_landed. rewrite Ese.
  match goal with |- context [turn ?m] => pose proof (turn_spec m) as Ht; destruct (turn m) as [s' fs] end.
  destruct Ht as (_ & E & _ & Hp & _).
  { intros r _. destruct ON eqn:Eon; [done |]. rewrite Ho in Hn by done. cbn in Hn. lia. }
  cbn [fst queue paused] in *. split; [done |]. apply (f_equal length) in E. rewrite length_drop, length_app in E. lia.
Qed.

Context (lamports : num) (Hrich : ltb (div lamports (of_Z 1000000000)) MEMO_MIN_VAULT_SOL = false).

Lemma balance_posts s n text : sending s = Some (mkAttempt n text false) ->
  after s (Balance lamports) = mkMemo (queue s) (Some (mkAttempt n text true)) (paused s) (posted s) (failed s) (degraded s) (lastSig s) (lastBytes s).
Proof. intros E. unfold after. cbn [step]. unfold on_balance. by rewrite E, Hrich. Qed.

Lemma balance_ignored s : match sending s with Some a => at_posting a = true | None => True end -> after s (Balance lamports) = s.
Proof. unfold after. cbn [step]. unfold on_balance. destruct (sending s) as [[n text []] |]; done. Qed.

(** An attempt under way is over after its two answers. *)
Lemma answered s sig : sound s -> sending s <> None -> let s' := after (after s (Balance lamports)) (Landed sig) in
  paused s' = paused s /\ (length (queue s') < length (queue s))%nat.
Proof.
  intros Hs Hse. cbv zeta. destruct (sending s) as [[n text []] |] eqn:Ese; [| | done].
  - rewrite balance_ignored by (by rewrite Ese). by eapply landed_shrinks.
  - pose proof (after_sound s (Balance lamports) Hs) as Hs'. rewrite (balance_posts s n text Ese) in *.
    by destruct (landed_shrinks _ sig n text Hs' eq_refl) as [E1 E2].
Qed.

Lemma good_turn s sig : ON = true -> sound s -> paused s = false -> queue s <> [] ->
  let s' := foldl after s [Drain true; Balance lamports; Landed sig] in
  sound s' /\ paused s' = false /\ (length (queue s') < length (queue s))%nat.
Proof.
  intros Hon Hs Hp Hq. cbn [foldl]. split; [by do 3 apply after_sound |].
  destruct (sending s) as [a |] eqn:Ese.
  - assert (E : after s (Drain true) = s) by (unfold after; cbn [step]; unfold flushMemos; rewrite Ese, orb_true_r; done).
    rewrite E. destruct (answered s sig Hs ltac:(congruence)) as [E1 E2]. split; [congruence | done].
  - assert (E : after s (Drain true) = (turn s).1).
    { unfold after. cbn [step]. unfold flushMemos. rewrite Hon, Ese, Hp, bool_decide_eq_false_2 by done. done. }
    rewrite E. pose proof (turn_spec s ltac:(done)) as Ht. pose proof (turn_attempt s) as Ha. destruct (turn s) as [s1 fs]. cbn [fst] in *.
    destruct Ht as (Hs1 & _ & _ & Hp1 & Hlt & _). destruct (sending s1) as [a |] eqn:Ese1.
    + destruct Ha as [_ Eq]. destruct (answered s1 sig Hs1 ltac:(congruence)) as [E1 E2]. rewrite Eq in E2. split; [congruence | done].
    + rewrite balance_ignored by (by rewrite Ese1).
      assert (E2 : after s1 (Landed sig) = s1) by (unfold after; cbn [step]; unfold on_landed; by rewrite Ese1).
      rewrite E2. split; [congruence | by apply Hlt].
Qed.

(** However far behind the queue is and whatever was under way, as many good
    answers as there are rounds waiting, each after a call of the timer, empty it:
    everything settled so far has been posted or put aside. *)
Theorem queue_drains es sig : ON = true -> let s := (history memo_boot es).1 in paused s = false ->
  queue (foldl after s (good_turns lamports sig (length (queue s)))) = [].
Proof.
  intros Hon s Hp. assert (Hs : sound s).
  { unfold s. pose proof (history_spec memo_boot es memo_boot_sound) as Hh. destruct (history memo_boot es). by destruct Hh. }
  clearbody s. remember (length (queue s)) as n eqn:En. assert (Hn : (length (queue s) <= n)%nat) by lia. clear En.
  revert s Hp Hs Hn. induction n as [| n IH]; intros s Hp Hs Hn.
  { destruct (queue s) eqn:E; [by rewrite <- E | cbn in Hn; lia]. }
  unfold good_turns. cbn [replicate mjoin list_join]. rewrite foldl_app. destruct (decide (queue s = [])) as [E | Hq].
  - assert (Hstill : sound (foldl after s [Drain true; Balance lamports; Landed sig]) /\ paused (foldl after s [Drain true; Balance lamports; Landed sig]) = false
      /\ queue (foldl after s [Drain true; Balance lamports; Landed sig]) = []).
    { assert (Ese : sending s = None).
      { destruct (sending s) as [a |] eqn:Ea; [| done]. destruct Hs as [Ha _]. destruct (Ha a Ea) as [Hl _]. rewrite E in Hl. cbn in Hl. lia. }
      assert (E1 : after s (Drain true) = s) by (unfold after; cbn [step]; unfold flushMemos; rewrite E, bool_decide_eq_true_2, !orb_true_r by done; done).
      cbn [foldl]. rewrite E1, balance_ignored by (by rewrite Ese).
      assert (E2 : after s (Landed sig) = s) by (unfold after; cbn [step]; unfold on_landed; by rewrite Ese). by rewrite E2. }
    destruct Hstill as (H1 & H2 & H3). apply IH; [done | done |]. rewrite H3. cbn. lia.
  - destruct (good_turn s sig Hon Hs Hp Hq) as (H1 & H2 & H3). apply IH; [done | done | lia].
Qed.

End Memo.

(** ** Witnesses *)

Definition fair0 : RoundAnchor := mkAnchor (lit "au-normal") (of_Z 7) (lit "c0ffee") (lit "5eed") (lit "bull") (of_Z 12)
  [mkPlayer (lit "9xQe4VvK") (Some (lit "Ada")) (lit "bull") false (of_Z 5) (of_Z 4) (of_Z 2);
   mkPlayer (lit "h:bot:3") None (lit "uwu") true (of_Z 7) (of_Z 6) (of_Z 0)].

Definition reserve0 : num := div (of_Z 5) (of_Z 100).

Definition hash0 (u : units) : units := repeat 48 (Nat.min 64 (length u)).

Lemma queue_drains_witness :
  queue (foldl (after hash0 (fun _ _ => true) true 1 900 reserve0)
    (history hash0 (fun _ _ => true) true 1 900 reserve0 memo_boot [Settled fair0 false; Settled fair0 false]).1
    (good_turns (of_Z 1000000000) (lit "sig") 2)) = [].
Proof.
  assert (Hrich : ltb (div (of_Z 1000000000) (of_Z 1000000000)) reserve0 = false) by (vm_compute; reflexivity).
  exact (queue_drains hash0 (fun _ _ => true) true 1 900 reserve0 ltac:(lia) (of_Z 1000000000) Hrich [Settled fair0 false; Settled fair0 false] (lit "sig") eq_refl eq_refl).
Defined.

Lemma rounds_leave_in_order_witness :
  let '(s, fs) := history hash0 (fun _ _ => true) true 1 900 reserve0 memo_boot
    [Settled fair0 true; Balance (of_Z 1000000000); Settled fair0 true; Landed (lit "sig"); Balance (of_Z 0)] in
  [fair0; fair0] = left fs ++ queue s /\ mjoin (told <$> fs) = mjoin (proofs <$> fs).
Proof.
  pose proof (rounds_leave_in_order hash0 (fun _ _ => true) true 1 900 reserve0 ltac:(lia)
    [Settled fair0 true; Balance (of_Z 1000000000); Settled fair0 true; Landed (lit "sig"); Balance (of_Z 0)]) as Hr.
  destruct (history _ _ _ _ _ _ _ _) as [s fs]. destruct Hr as (E & _ & T). split; [exact E | exact T].
Defined.
