(* ===== verification/EngineStakes.v ===== *)
(** * Stakes, settlements and refunds of the two-sided arenas

    The money a round moves in [engine/src/server.ts]: the price a round is held to
    ([pxForRound]), the message [enter] with the house's answer to it
    ([matchPlayerStake]), the crediting of a settlement ([onSettle]) and what is
    given back when the process ends ([refundOpenRounds]); the arenas of
    [engine/src/arenas.ts], the accounts, the treasury and the fee of
    [engine/src/ledger.ts] and the draw on the house's pool of
    [engine/src/bot-bank.ts].

    The ledger is a list in the order accounts were made.  What the price feed
    says and what [Math.random] gives are arguments; a stake is the number its text
    is ([money] of [VaultDesk]); a message names one of the two sides, which
    the server does not check.  Statistics
    for the dashboard, the audit of a round's flows and the coming and going of
    bots are left out.

    Laws: a round keeps its price while fewer than 33 newer rounds are priced; an
    entry takes from the player's balance exactly its stake, never more than there
    is, in the arena's coin, and pays its referrer in the coin of the side's name; a
    refund gives the gross back and leaves the fee where it went. *)
From S2P Require Import Prelude Text JsNum Json EngineGame EngineRound.

(** ** Arenas ([arenas.ts]) *)

Inductive Field : Type := Bull | Uwu | Sol.

#[global] Instance Field_eq_dec : EqDecision Field.
Proof. solve_decision. Defined.

Inductive Tok : Type := tok_ansem | tok_uwu | tok_sol.

Definition FIELD (t : Tok) : Field := match t with tok_ansem => Bull | tok_uwu => Uwu | tok_sol => Sol end.

Definition PAIRINGS (pair : units) : option (Tok * Tok) :=
  if bool_decide (pair = lit "au") then Some (tok_ansem, tok_uwu)
  else if bool_decide (pair = lit "as") then Some (tok_ansem, tok_sol)
  else if bool_decide (pair = lit "us") then Some (tok_uwu, tok_sol)
  else None.

(** [aid.split("-")[0]] *)
Fixpoint before_dash (l : units) : units := match l with c :: l => if c =? 45 then [] else c :: before_dash l | [] => [] end.

Definition arenaTokens (aid : units) : option (Tok * Tok) := PAIRINGS (before_dash aid).

Definition FEE : num := dec 2 3.
Definition CAP : num := of_Z 100.
Definition MIN_ENTRY : num := dec 1 2.

Definition tok_of (toks : Tok * Tok) (s : Side) : Tok := match s with bull => toks.1 | uwu => toks.2 end.

(** ** Accounts ([ledger.ts]) *)

Record Account : Type := mkAccount {
  ac_id : units; ac_side : Side; ac_bull : num; ac_uwu : num; ac_sol : num; ac_isBot : bool; ac_retired : bool;
  ac_dep : num; ac_ret : num; ac_games : Z; ac_wins : Z; ac_raided : num; ac_best : num;
  ac_refBy : option units; ac_refEarned : num;
}.

Definition field (f : Field) (a : Account) : num := match f with Bull => ac_bull a | Uwu => ac_uwu a | Sol => ac_sol a end.

Definition with_field (f : Field) (x : num) (a : Account) : Account :=
  mkAccount (ac_id a) (ac_side a) (match f with Bull => x | _ => ac_bull a end) (match f with Uwu => x | _ => ac_uwu a end)
    (match f with Sol => x | _ => ac_sol a end) (ac_isBot a) (ac_retired a) (ac_dep a) (ac_ret a) (ac_games a) (ac_wins a)
    (ac_raided a) (ac_best a) (ac_refBy a) (ac_refEarned a).

Definition plus (f : Field) (x : num) (a : Account) : Account := with_field f (add (field f a) x) a.
Definition minus (f : Field) (x : num) (a : Account) : Account := with_field f (sub (field f a) x) a.

Definition fresh (id : units) (s : Side) (isBot : bool) : Account :=
  mkAccount id s (of_Z 0) (of_Z 0) (of_Z 0) isBot false (of_Z 0) (of_Z 0) 0 0 (of_Z 0) (of_Z 0) None (of_Z 0).

Definition Ledger : Type := list Account.

Fixpoint find_acct (id : units) (l : Ledger) : option Account :=
  match l with [] => None | a :: l => if bool_decide (ac_id a = id) then Some a else find_acct id l end.

(** A change to the account of an identity, where there is one. *)
Fixpoint upd (id : units) (g : Account -> Account) (l : Ledger) : Ledger :=
  match l with [] => [] | a :: l => if bool_decide (ac_id a = id) then g a :: l else a :: upd id g l end.

(** [acct]: get or make. *)
Definition acct (id : units) (s : Side) (l : Ledger) : Account * Ledger :=
  match find_acct id l with Some a => (a, l) | None => (fresh id s false, l ++ [fresh id s false]) end.

Definition TREASURY_ID : units := lit "__versus_treasury__".

Definition treasuryAcct (l : Ledger) : Ledger :=
  match find_acct TREASURY_ID l with Some _ => l | None => l ++ [fresh TREASURY_ID bull true] end.

Definition bankFee (f : Field) (tokens : num) (l : Ledger) : Ledger :=
  if negb (ltb (of_Z 0) tokens) then l else upd TREASURY_ID (plus f tokens) (treasuryAcct l).

(** ** The house's pool ([bot-bank.ts]) *)

Definition pool_field (f : Field) (l : Ledger) (id : units) : num := match find_acct id l with Some a => field f a | None => of_Z 0 end.

Definition poolBalance (poolIds : list units) (f : Field) (l : Ledger) : num :=
  foldl (fun n id => add n (pool_field f l id)) (of_Z 0) (filter (fun id => is_Some (find_acct id l)) poolIds).

(** The loop over the pool's accounts: what is left to find, and the ledger. *)
Fixpoint draw_from (ids : list units) (f : Field) (rest : num) (l : Ledger) : num * Ledger :=
  match ids with
  | [] => (rest, l)
  | id :: ids =>
      match find_acct id l with
      | None => draw_from ids f rest l
      | Some a =>
          if leb rest (of_Z 0) then (rest, l) else
          let take := min (field f a) rest in
          if leb take (of_Z 0) then draw_from ids f rest l
          else draw_from ids f (sub rest take) (upd id (minus f take) l)
      end
  end.

Definition drawBank (poolIds : list units) (f : Field) (want spread : num) (l : Ledger) : num * Ledger :=
  if negb (ltb (of_Z 0) want) then (of_Z 0, l) else
  let share := div (poolBalance poolIds f l) (max (of_Z 1) spread) in
  let target := min want share in
  if negb (ltb (of_Z 0) target) then (of_Z 0, l) else
  let '(rest, l) := draw_from poolIds f target l in (sub target rest, l).

(** ** The process *)

(** What the feed says of a coin: no price, or one. *)
Definition Feed : Type := Field -> option num.

Definition Prices : Type := Field -> num.

Definition set_price (f : Field) (x : num) (p : Prices) : Prices := fun g => if bool_decide (g = f) then x else p g.

Record Book : Type := mkBook {
  ledger : Ledger;
  runners : list (units * RoundRunner);
  lastGoodPx : Prices;
  roundPx : list (units * Prices);
  matchedBook : list (units * (num * num));
  botScanOffset : Z;
}.

Definition with_ledger (l : Ledger) (b : Book) : Book :=
  mkBook l (runners b) (lastGoodPx b) (roundPx b) (matchedBook b) (botScanOffset b).

Definition on_ledger (g : Ledger -> Ledger) (b : Book) : Book := with_ledger (g (ledger b)) b.

Fixpoint lookup_key {A} (k : units) (l : list (units * A)) : option A :=
  match l with [] => None | x :: l => if bool_decide (x.1 = k) then Some x.2 else lookup_key k l end.

Fixpoint set_key {A} (k : units) (v : A) (l : list (units * A)) : list (units * A) :=
  match l with [] => [(k, v)] | x :: l => if bool_decide (x.1 = k) then (k, v) :: l else x :: set_key k v l end.

(** [if (map.size > 64)], the 32 oldest go. *)
Definition evict {A} (l : list (units * A)) : list (units * A) := if (64 <? length l)%nat then drop 32 l else l.

Definition round_key (aid : units) (round : Z) : units := aid ++ [58] ++ digits round.

Definition usdPerUnit (feed : Feed) (f : Field) : num :=
  match f with
  | Sol => of_Z 1
  | _ => match feed f with Some px => if ltb (of_Z 0) px then px else of_Z 0 | None => of_Z 0 end
  end.

(** [usdPerUnitSafe]: the feed's price, remembered, or the last good one. *)
Definition usdPerUnitSafe (feed : Feed) (f : Field) (b : Book) : num * Book :=
  let px := usdPerUnit feed f in
  if ltb (of_Z 0) px then (px, mkBook (ledger b) (runners b) (set_price f px (lastGoodPx b)) (roundPx b) (matchedBook b) (botScanOffset b))
  else (lastGoodPx b f, b).

Definition with_roundPx (p : list (units * Prices)) (b : Book) : Book :=
  mkBook (ledger b) (runners b) (lastGoodPx b) p (matchedBook b) (botScanOffset b).

Definition with_round (k : units) (b : Book) : Book :=
  match lookup_key k (roundPx b) with Some _ => b | None => with_roundPx (evict (roundPx b ++ [(k, fun _ => of_Z 0)])) b end.

(** The price a round is held to: the first good one asked of it. *)
Definition pxForRound (feed : Feed) (aid : units) (round : Z) (f : Field) (b : Book) : num * Book :=
  let k := round_key aid round in
  let b := with_round k b in
  let m := default (fun _ => of_Z 0) (lookup_key k (roundPx b)) in
  if negb (ltb (of_Z 0) (m f)) then
    let '(px, b) := usdPerUnitSafe feed f b in (px, with_roundPx (set_key k (set_price f px m) (roundPx b)) b)
  else (m f, b).

Definition unitsAtRound (feed : Feed) (aid : units) (round : Z) (f : Field) (usd : num) (b : Book) : num * Book :=
  let '(px, b) := pxForRound feed aid round f b in (if ltb (of_Z 0) px then div usd px else of_Z 0, b).

(** The wallet of an entry's id. *)
Definition entry_id (wallet : units) (s : Side) : units := wallet ++ [124] ++ side_name s.

Definition with_runner (aid : units) (r : RoundRunner) (b : Book) : Book :=
  mkBook (ledger b) (set_key aid r (runners b)) (lastGoodPx b) (roundPx b) (matchedBook b) (botScanOffset b).

(** [rn.enter(id, side, stake)] on an arena's runner. *)
Definition run_enter (aid id : units) (s : Side) (stake : num) (b : Book) : Book :=
  match lookup_key aid (runners b) with Some r => with_runner aid (EngineRound.enter id s stake r).2 b | None => b end.

(** [botsFor]: an arena's living bots, from a place that moves at every call. *)
Definition bots_of (aid : units) (l : Ledger) : list Account :=
  filter (fun a => ac_isBot a = true /\ ac_retired a = false /\ is_Some (word (aid ++ [58]) (ac_id a))) l.

Definition botsFor (aid : units) (b : Book) : list Account * Book :=
  let all := bots_of aid (ledger b) in
  if (length all <? 2)%nat then (all, b) else
  let k := Z.to_nat (botScanOffset b mod Z.of_nat (length all)) in
  (drop k all ++ take k all, mkBook (ledger b) (runners b) (lastGoodPx b) (roundPx b) (matchedBook b) (botScanOffset b + 1)).

(** ** The house's answer ([matchPlayerStake]) *)

Section Engine.
Context (poolIds : list units) (MATCH_RATIO : num) (SWARM_SIZE : Z).

Definition side_part (s : Side) (m : num * num) : num := match s with bull => m.1 | uwu => m.2 end.

Definition add_part (s : Side) (x : num) (m : num * num) : num * num :=
  match s with bull => (add m.1 x, m.2) | uwu => (m.1, add m.2 x) end.

Definition with_matched (m : list (units * (num * num))) (b : Book) : Book :=
  mkBook (ledger b) (runners b) (lastGoodPx b) (roundPx b) m (botScanOffset b).

(** One bot's turn to answer: what is still needed, and the books. *)
Definition answer (aid mk : units) (foe : Side) (f : Field) (px : num) (spread : num) (idx : Z) (random : num) (id : units)
    (need : num) (b : Book) : num * Book :=
  let others := sub spread (of_Z idx) in
  let fair := div need (max (of_Z 1) others) in
  let want := min need (mul fair (add (dec 6 1) (mul random (dec 8 1)))) in
  let have := mul (pool_field f (ledger b) id) px in
  let '(have, b) :=
    if ltb have want then
      let '(drawn, l) := drawBank poolIds f (div (sub want have) px) (of_Z 1) (ledger b) in
      let b := with_ledger l b in
      if ltb (of_Z 0) drawn then (add have (mul drawn px), on_ledger (upd id (plus f drawn)) b) else (have, b)
    else (have, b) in
  let give := min (min want have) CAP in
  if ltb give MIN_ENTRY then (need, b) else
  let tokens := div give px in
  let b := on_ledger (upd id (minus f tokens)) b in
  let b := on_ledger (bankFee f (mul tokens FEE)) b in
  let b := on_ledger (upd id (fun a => mkAccount (ac_id a) (ac_side a) (ac_bull a) (ac_uwu a) (ac_sol a) (ac_isBot a) (ac_retired a)
             (add (ac_dep a) give) (ac_ret a) (ac_games a) (ac_wins a) (ac_raided a) (ac_best a) (ac_refBy a) (ac_refEarned a))) b in
  let b := run_enter aid (entry_id id foe) foe (mul give (sub (of_Z 1) FEE)) b in
  let m := default (of_Z 0, of_Z 0) (lookup_key mk (matchedBook b)) in
  (sub need give, with_matched (set_key mk (add_part foe give m) (matchedBook b)) b).

Fixpoint answers (aid mk : units) (foe : Side) (f : Field) (px spread : num) (idx : Z) (randoms : Z -> num) (roster : list units)
    (need : num) (b : Book) : Book :=
  match roster with
  | [] => b
  | id :: roster =>
      if leb need MIN_ENTRY then b else
      let '(need, b) := answer aid mk foe f px spread idx (randoms idx) id need b in
      answers aid mk foe f px spread (idx + 1) randoms roster need b
  end.

Definition has_entry (r : RoundRunner) (id : units) : bool := existsb (fun e => bool_decide (en_id e = id)) (rs_entries (state r)).

Definition matchPlayerStake (feed : Feed) (randoms : Z -> num) (aid : units) (playerSide : Side) (stakeUsd : num) (b : Book) : Book :=
  match lookup_key aid (runners b), arenaTokens aid with
  | Some rn, Some toks =>
      match rs_phase (state rn) with
      | lobby =>
          let foe := other playerSide in
          let f := FIELD (tok_of toks foe) in
          let '(px, b) := pxForRound feed aid (rs_round (state rn)) f b in
          if negb (ltb (of_Z 0) px) then b else
          let mk := round_key aid (rs_round (state rn)) in
          let b := match lookup_key mk (matchedBook b) with
                   | Some _ => b
                   | None => with_matched (evict (matchedBook b ++ [(mk, (of_Z 0, of_Z 0))])) b
                   end in
          let m := default (of_Z 0, of_Z 0) (lookup_key mk (matchedBook b)) in
          let need := sub (mul stakeUsd MATCH_RATIO) (side_part foe m) in
          if leb need MIN_ENTRY then b else
          let '(all, b) := botsFor aid b in
          let ids := ac_id <$> all in
          let roster := filter (fun id => has_entry rn (entry_id id foe) = false) ids
                        ++ filter (fun id => has_entry rn (entry_id id foe) = true) ids in
          let spread := of_Z (Z.max 1 (Z.min (Z.of_nat (length roster)) SWARM_SIZE)) in
          answers aid mk foe f px spread 0 randoms roster need b
      | _ => b
      end
  | _, _ => b
  end.

(** ** A player's entry ([enter]) *)

Record EnterMsg : Type := mkEnter { em_wallet : units; em_arena : option units; em_mode : units; em_side : Side; em_stake : num; em_ref : option units }.

Inductive Answer : Type :=
| NoRunner
| LobbyClosed
| NoPrice
| AtCap
| TooSmall
| Entered (stake : num).

Definition arena_of (m : EnterMsg) (b : Book) : units :=
  match em_arena m with
  | Some ((_ :: _) as aid) => match lookup_key aid (runners b) with Some _ => aid | None => lit "au-" ++ em_mode m end
  | _ => lit "au-" ++ em_mode m
  end.

Definition already (id : units) (es : list Entry) : num :=
  foldl (fun n e => add n (div (en_stake e) (sub (of_Z 1) FEE))) (of_Z 0) (filter (fun e => en_id e = id) es).

(** What the player's own account becomes: the stake leaves, the totals and the
    side follow, and a first referrer is kept. *)
Definition staked (f : Field) (stake stakeUsd : num) (m : EnterMsg) (a : Account) : Account :=
  let a := minus f stake a in
  let refBy :=
    match em_ref m with
    | Some ((_ :: _) as ref) =>
        if bool_decide (default [] (ac_refBy a) = []) && negb (bool_decide (ref = em_wallet m)) then Some (take 64 ref) else ac_refBy a
    | _ => ac_refBy a
    end in
  mkAccount (ac_id a) (em_side m) (ac_bull a) (ac_uwu a) (ac_sol a) (ac_isBot a) (ac_retired a) (add (ac_dep a) stakeUsd) (ac_ret a)
    (ac_games a) (ac_wins a) (ac_raided a) (ac_best a) refBy (ac_refEarned a).

(** What a referrer is paid: a tenth of the fee, in the coin of the side's name. *)
Definition referred (s : Side) (cut : num) (a : Account) : Account :=
  let a := plus (match s with bull => Bull | uwu => Uwu end) cut a in
  mkAccount (ac_id a) (ac_side a) (ac_bull a) (ac_uwu a) (ac_sol a) (ac_isBot a) (ac_retired a) (ac_dep a) (ac_ret a)
    (ac_games a) (ac_wins a) (ac_raided a) (ac_best a) (ac_refBy a) (add (ac_refEarned a) cut).

Definition pay_referrer (s : Side) (fee : num) (refBy : option units) (b : Book) : num * Book :=
  match refBy with
  | Some ((_ :: _) as id) =>
      let cut := mul fee (dec 1 1) in
      let '(_, l) := acct id s (ledger b) in (cut, with_ledger (upd id (referred s cut) l) b)
  | _ => (of_Z 0, b)
  end.

Definition money (v : num) : num := if is_finite v && leb (of_Z 0) v then v else of_Z 0.

Definition enter (feed : Feed) (randoms : Z -> num) (m : EnterMsg) (b : Book) : Answer * Book :=
  let aid := arena_of m b in
  match lookup_key aid (runners b), arenaTokens aid with
  | Some rn, Some toks =>
      let f := FIELD (tok_of toks (em_side m)) in
      let '(a, l) := acct (em_wallet m) (em_side m) (ledger b) in
      let b := with_ledger l b in
      match rs_phase (state rn) with
      | lobby =>
          let '(usdP, b) := pxForRound feed aid (rs_round (state rn)) f b in
          if negb (ltb (of_Z 0) usdP) then (NoPrice, b) else
          let id := entry_id (em_wallet m) (em_side m) in
          let headroom := max (of_Z 0) (sub CAP (already id (rs_entries (state rn)))) in
          let stake := min (min (money (em_stake m)) (field f a)) (div headroom usdP) in
          let stakeUsd := mul stake usdP in
          if ltb headroom MIN_ENTRY then (AtCap, b) else
          if ltb stakeUsd MIN_ENTRY then (TooSmall, b) else
          let b := on_ledger (upd (em_wallet m) (staked f stake stakeUsd m)) b in
          let fee := mul stake FEE in
          let '(refCut, b) := pay_referrer (em_side m) fee (ac_refBy (staked f stake stakeUsd m a)) b in
          let b := on_ledger (bankFee f (sub fee refCut)) b in
          let b := run_enter aid id (em_side m) (mul stakeUsd (sub (of_Z 1) FEE)) b in
          (Entered stake, matchPlayerStake feed randoms aid (em_side m) stakeUsd b)
      | _ => (LobbyClosed, b)
      end
  | _, _ => (NoRunner, b)
  end.

(** ** Settlement and refund *)

Definition credited (fA fB : Field) (retA retB pxA pxB : num) (r : RoundResult) (key : units) (a : Account) : Account :=
  let a := plus fB retB (plus fA retA a) in
  let f := find (fun f => bool_decide (f_id f = key)) (r_fighters r) in
  mkAccount (ac_id a) (ac_side a) (ac_bull a) (ac_uwu a) (ac_sol a) (ac_isBot a) (ac_retired a) (ac_dep a)
    (add (ac_ret a) (add (mul retA pxA) (mul retB pxB))) (ac_games a + 1)
    (if bool_decide (ac_side a = r_winner r) then ac_wins a + 1 else ac_wins a)
    (match f with Some f => add (ac_raided a) (p_raided (f_purse f)) | None => ac_raided a end)
    (match f with Some f => if ltb (ac_best a) (p_bestHit (f_purse f)) then p_bestHit (f_purse f) else ac_best a | None => ac_best a end)
    (ac_refBy a) (ac_refEarned a).

(** The crediting half of [onSettle], one line of the settlement at a time. *)
Definition credit_line (feed : Feed) (aid : units) (toks : Tok * Tok) (r : RoundResult) (round : Z) (kv : units * (num * num)) (b : Book) : Book :=
  let id := wallet_of kv.1 in
  match find_acct id (ledger b) with
  | None => b
  | Some _ =>
      let fA := FIELD toks.1 in let fB := FIELD toks.2 in
      let '(retA, b) := unitsAtRound feed aid round fA kv.2.1 b in
      let '(retB, b) := unitsAtRound feed aid round fB kv.2.2 b in
      let '(pxA, b) := pxForRound feed aid round fA b in
      let '(pxB, b) := pxForRound feed aid round fB b in
      on_ledger (upd id (credited fA fB retA retB pxA pxB r kv.1)) b
  end.

Definition credit_settlement (feed : Feed) (aid : units) (r : RoundResult) (round : Z) (b : Book) : Book :=
  match arenaTokens aid with
  | Some toks => foldl (fun b kv => credit_line feed aid toks r round kv b) b (r_settlement r)
  | None => b
  end.

(** [give], of one open stake. *)
Definition give_back (feed : Feed) (aid : units) (toks : Tok * Tok) (round : Z) (e : Entry) (b : Book) : Book :=
  let id := wallet_of (en_id e) in
  match find_acct id (ledger b) with
  | None => b
  | Some _ =>
      let f := FIELD (tok_of toks (en_side e)) in
      let gross := div (en_stake e) (sub (of_Z 1) FEE) in
      let '(units, b) := unitsAtRound feed aid round f gross b in
      if ltb (of_Z 0) units then on_ledger (upd id (plus f units)) b else b
  end.

Definition refund_arena (feed : Feed) (b : Book) (ar : units * RoundRunner) : Book :=
  match arenaTokens ar.1 with
  | Some toks => foldl (fun b e => give_back feed ar.1 toks (rs_round (state ar.2)) e b) b (rs_entries (state ar.2))
  | None => b
  end.

(** The arenas in their order are the runners. *)
Definition refundOpenRounds (feed : Feed) (b : Book) : Book := foldl (refund_arena feed) b (runners b).

End Engine.

(** ** Laws: prices *)

Lemma key_dec (k k' : units) : {k = k'} + {k <> k'}.
Proof. apply decide, _. Qed.

Lemma lookup_key_set {A} k k' (v : A) l : lookup_key k (set_key k' v l) = if decide (k = k') then Some v else lookup_key k l.
Proof.
  induction l as [| [j x] l IH]; cbn.
  - destruct (decide (k = k')) as [-> |]; [by rewrite bool_decide_eq_true_2 | by rewrite bool_decide_eq_false_2 by congruence].
  - case_bool_decide as E; cbn.
    + subst j. destruct (decide (k = k')) as [-> |]; [by rewrite bool_decide_eq_true_2 | by rewrite !bool_decide_eq_false_2 by congruence].
    + rewrite IH. case_bool_decide as E2; [| done]. subst j. by rewrite decide_False.
Qed.

Lemma lookup_key_app {A} k (l l' : list (units * A)) : lookup_key k (l ++ l') = match lookup_key k l with Some v => Some v | None => lookup_key k l' end.
Proof. induction l as [| x l IH]; [done |]. cbn. by case_bool_decide. Qed.

Lemma set_key_split {A} k (v w : A) pre post : lookup_key k pre = None -> set_key k w (pre ++ (k, v) :: post) = pre ++ (k, w) :: post.
Proof.
  induction pre as [| x pre IH]; cbn; intros Hk; [by rewrite bool_decide_eq_true_2 |].
  case_bool_decide; [discriminate |]. by rewrite IH.
Qed.

(** Where a key is, and how many came after it. *)
Definition since {A} (k : units) (v : A) (n : nat) (l : list (units * A)) : Prop :=
  exists pre post, l = pre ++ (k, v) :: post /\ lookup_key k pre = None /\ length post = n.

Lemma since_lookup {A} k (v : A) n l : since k v n l -> lookup_key k l = Some v.
Proof. intros (pre & post & -> & Hk & _). rewrite lookup_key_app, Hk. cbn. by rewrite bool_decide_eq_true_2. Qed.

Lemma lookup_key_drop {A} k n (l : list (units * A)) : lookup_key k l = None -> lookup_key k (drop n l) = None.
Proof.
  revert n. induction l as [| x l IH]; intros n; [by rewrite drop_nil |]. cbn. case_bool_decide; [discriminate |]. intros Hl.
  destruct n; [cbn; by rewrite bool_decide_eq_false_2 | by apply IH].
Qed.

Lemma since_evict {A} k (v : A) n l : since k v n l -> (n <= 32)%nat -> since k v n (evict l).
Proof.
  intros (pre & post & -> & Hk & Hn) Hle. unfold evict. case_match eqn:E; [| by exists pre, post]. apply Nat.ltb_lt in E.
  rewrite length_app in E. cbn in E. exists (drop 32 pre), post. rewrite drop_app_le by lia.
  split_and!; [done | by apply lookup_key_drop | done].
Qed.

Lemma since_append {A} k (v : A) n l k' (v' : A) : since k v n l -> since k v (S n) (l ++ [(k', v')]).
Proof.
  intros (pre & post & -> & Hk & Hn). exists pre, (post ++ [(k', v')]). rewrite <- app_assoc.
  split_and!; [done | done | rewrite length_app, Hn; cbn; lia].
Qed.

Lemma set_key_length {A} k (v : A) l : lookup_key k l <> None -> length (set_key k v l) = length l.
Proof.
  induction l as [| x l IH]; cbn; [done |]. case_bool_decide; [done |]. intros Hl. cbn. by rewrite IH.
Qed.

Lemma since_set {A} k (v : A) n l k' (v' : A) : k <> k' -> lookup_key k' l <> None -> since k v n l -> since k v n (set_key k' v' l).
Proof.
  intros Hne Hl (pre & post & -> & Hk & Hn). destruct (lookup_key k' pre) eqn:E.
  - exists (set_key k' v' pre), post. split_and!; [| rewrite lookup_key_set; by rewrite decide_False | done].
    clear Hl Hk. induction pre as [| x pre IH]; [done |]. cbn in *. case_bool_decide; [done |]. by rewrite IH.
  - rewrite lookup_key_app, E in Hl. cbn in Hl. rewrite bool_decide_eq_false_2 in Hl by congruence.
    exists pre, (set_key k' v' post). split_and!; [| done | by rewrite set_key_length].
    clear Hk Hl. induction pre as [| x pre IH]; cbn in *; [by rewrite bool_decide_eq_false_2 by congruence |].
    case_bool_decide; [discriminate |]. by rewrite IH.
Qed.

(** The call asks a price of a round that has none yet. *)
Definition opens (b : Book) (c : Feed * units * Z * Field) : bool :=
  let '(_, aid, round, _) := c in match lookup_key (round_key aid round) (roundPx b) with Some _ => false | None => true end.

Definition price (b : Book) (c : Feed * units * Z * Field) : Book := let '(feed, aid, round, f) := c in (pxForRound feed aid round f b).2.

Fixpoint opened (b : Book) (cs : list (Feed * units * Z * Field)) : nat :=
  match cs with [] => 0 | c :: cs => (if opens b c then 1 else 0) + opened (price b c) cs end.

Lemma usdPerUnitSafe_roundPx feed f b : roundPx (usdPerUnitSafe feed f b).2 = roundPx b.
Proof. unfold usdPerUnitSafe. by destruct (ltb _ _). Qed.

Lemma pxForRound_since feed aid round f b k m n : since k m n (roundPx b) -> (n + (if opens b (feed, aid, round, f) then 1 else 0) <= 32)%nat ->
  exists m', since k m' (n + (if opens b (feed, aid, round, f) then 1 else 0)) (roundPx (pxForRound feed aid round f b).2)
    /\ forall g, ltb (of_Z 0) (m g) = true -> m' g = m g.
Proof.
  intros Hs Hn. unfold pxForRound, opens in *. cbv zeta. set (k' := round_key aid round) in *.
  set (b1 := with_round k' b).
  assert (Hs1 : since k m (n + (if match lookup_key k' (roundPx b) with Some _ => false | None => true end then 1 else 0)) (roundPx b1)
    /\ lookup_key k' (roundPx b1) <> None).
  { unfold b1, with_round. destruct (lookup_key k' (roundPx b)) eqn:E; [by rewrite Nat.add_0_r, E |]. cbn [with_roundPx roundPx].
    rewrite Nat.add_1_r in *. split; [apply since_evict; [by apply since_append | done] |].
    assert (Hnew : @since Prices k' (fun _ => of_Z 0) 0 (roundPx b ++ [(k', fun _ => of_Z 0)])) by (by exists (roundPx b), []).
    apply (since_evict _ _ _ _) in Hnew; [| lia]. by rewrite (since_lookup _ _ _ _ Hnew). }
  destruct Hs1 as [Hs1 Hk1]. clearbody b1. destruct (negb _) eqn:Eneg; [| exists m; by split].
  destruct (usdPerUnitSafe feed f b1) as [px b2] eqn:Eu. cbn [snd with_roundPx roundPx].
  pose proof (usdPerUnitSafe_roundPx feed f b1) as Er. rewrite Eu in Er. cbn [snd] in Er. rewrite Er.
  destruct (decide (k = k')) as [-> | Hne].
  - destruct Hs1 as (pre & post & El & Hp & Hl). pose proof (since_lookup k' m _ (roundPx b1) (ex_intro _ pre (ex_intro _ post (conj El (conj Hp Hl))))) as Elk.
    rewrite Elk in *. cbn [default] in *. rewrite El, set_key_split by done. exists (set_price f px m). split; [by exists pre, post |].
    intros g Hg. unfold set_price. case_bool_decide as Ef; [| done]. subst g.
    assert (Eneg' : negb (ltb (of_Z 0) (m f)) = true) by exact Eneg. by rewrite Hg in Eneg'.
  - exists m. split; [by apply since_set | done].
Qed.

Lemma opened_since feed aid round f k cs b m n : since k m n (roundPx b) -> ltb (of_Z 0) (m f) = true -> k = round_key aid round ->
  (n + opened b cs <= 32)%nat -> (pxForRound feed aid round f (foldl price b cs)).1 = m f.
Proof.
  intros Hs Hm ->. revert b m n Hs Hm. induction cs as [| c cs IH]; intros b m n Hs Hm Hn; cbn [foldl].
  - unfold pxForRound, with_round. cbv zeta. rewrite (since_lookup _ _ _ _ Hs), (since_lookup _ _ _ _ Hs). cbn [from_option]. unfold id. by rewrite Hm.
  - cbn [opened] in Hn. destruct c as [[[feed' aid'] round'] f'].
    destruct (pxForRound_since feed' aid' round' f' b _ m n Hs ltac:(lia)) as (m' & Hs' & Em).
    rewrite <- (Em f Hm). apply (IH _ m' _ Hs'); [by rewrite Em | unfold price in Hn; lia].
Qed.

Lemma pxForRound_first feed aid round f b : lookup_key (round_key aid round) (roundPx b) = None ->
  exists m, since (round_key aid round) m 0 (roundPx (pxForRound feed aid round f b).2) /\ m f = (pxForRound feed aid round f b).1.
Proof.
  intros Hk. unfold pxForRound, with_round. cbv zeta. rewrite Hk. set (k := round_key aid round) in *.
  assert (Hnew : @since Prices k (fun _ => of_Z 0) 0 (evict (roundPx b ++ [(k, fun _ => of_Z 0)]))) by (apply since_evict; [by exists (roundPx b), [] | lia]).
  cbn [with_roundPx roundPx]. rewrite (since_lookup _ _ _ _ Hnew). cbn [from_option]. unfold id.
  change (negb (ltb (of_Z 0) (of_Z 0))) with true. cbv iota.
  destruct (usdPerUnitSafe feed f _) as [px b2] eqn:Eu. pose proof (usdPerUnitSafe_roundPx feed f (with_roundPx (evict (roundPx b ++ [(k, fun _ => of_Z 0)])) b)) as Er.
  rewrite Eu in Er. cbn [snd with_roundPx roundPx fst] in *. rewrite Er. destruct Hnew as (pre & post & El & Hp & Hl).
  exists (set_price f px (fun _ => of_Z 0)). split; [| unfold set_price; by rewrite bool_decide_eq_true_2].
  rewrite El, set_key_split by done. by exists pre, post.
Qed.

(** A round is priced once: the price its first asking gives, if it is one at
    all, is what every later asking gives, whatever the feed says by then, as long
    as at most 32 other rounds have been priced for the first time since. *)
Theorem round_priced_once feed aid round f b cs feed' : lookup_key (round_key aid round) (roundPx b) = None ->
  let '(px, b1) := pxForRound feed aid round f b in
  ltb (of_Z 0) px = true -> (opened b1 cs <= 32)%nat -> (pxForRound feed' aid round f (foldl price b1 cs)).1 = px.
Proof.
  intros Hk. destruct (pxForRound_first feed aid round f b Hk) as (m & Hs & Em). destruct (pxForRound feed aid round f b) as [px b1].
  cbn [fst snd] in *. subst px. intros Hm Hn. by apply (opened_since feed' aid round f (round_key aid round) cs b1 m 0).
Qed.

(** ** Laws: accounts *)

(** A change that leaves an account whose it is, and whether it is a bot's. *)
Definition tame (g : Account -> Account) : Prop := forall a, ac_id (g a) = ac_id a /\ ac_isBot (g a) = ac_isBot a.

Lemma tame_plus f x : tame (plus f x).
Proof. by intros a. Qed.

Lemma tame_minus f x : tame (minus f x).
Proof. by intros a. Qed.

Lemma tame_staked f stake usd m : tame (staked f stake usd m).
Proof. by intros a. Qed.

Lemma tame_referred s cut : tame (referred s cut).
Proof. by intros a. Qed.

Lemma find_upd id id' g l : tame g -> find_acct id (upd id' g l) = if decide (id = id') then g <$> find_acct id l else find_acct id l.
Proof.
  intros Hg. induction l as [| a l IH]; cbn; [by destruct (decide _) |].
  case_bool_decide as E; cbn; rewrite ?(proj1 (Hg a)).
  - destruct (decide (id = id')) as [-> |]; [by rewrite bool_decide_eq_true_2 | by rewrite !bool_decide_eq_false_2 by congruence].
  - rewrite IH. case_bool_decide; [| done]. by rewrite decide_False by congruence.
Qed.

Lemma find_app id l l' : find_acct id (l ++ l') = match find_acct id l with Some a => Some a | None => find_acct id l' end.
Proof. induction l as [| a l IH]; [done |]. cbn. by case_bool_decide. Qed.

(** No account under this identity is a bot's. *)
Definition player (id : units) (l : Ledger) : Prop := Forall (fun a => ac_id a = id -> ac_isBot a = false) l.

Lemma player_upd id id' g l : tame g -> player id l -> player id (upd id' g l).
Proof.
  intros Hg. induction 1 as [| a l Ha Hl IH]; cbn; [apply List.Forall_nil |].
  case_bool_decide; apply List.Forall_cons; try done. by rewrite (proj1 (Hg a)), (proj2 (Hg a)).
Qed.

(** What a change of the ledger leaves alone: an account, and that it is nobody's bot. *)
Definition keeps (id : units) (l l' : Ledger) : Prop := find_acct id l' = find_acct id l /\ (player id l -> player id l').

#[global] Instance keeps_preorder id : PreOrder (keeps id).
Proof. split; [by intros l | intros l1 l2 l3 [E1 P1] [E2 P2]; split; [congruence | auto]]. Qed.

Lemma keeps_upd id id' g l : tame g -> id <> id' -> keeps id l (upd id' g l).
Proof. intros Hg Hne. split; [by rewrite find_upd, decide_False | by apply player_upd]. Qed.

Lemma keeps_fresh id id' s bot l : id <> id' -> keeps id l (l ++ [fresh id' s bot]).
Proof.
  intros Hne. split.
  - rewrite find_app. destruct (find_acct id l); [done |]. cbn. by rewrite bool_decide_eq_false_2 by congruence.
  - intros Hp. apply Forall_app. split; [done |]. apply List.Forall_cons; [by intros E | apply List.Forall_nil].
Qed.

Lemma keeps_acct id id' s l : id <> id' -> keeps id l (acct id' s l).2.
Proof. intros Hne. unfold acct. destruct (find_acct id' l); [done | by apply keeps_fresh]. Qed.

Lemma keeps_bankFee id f x l : id <> TREASURY_ID -> keeps id l (bankFee f x l).
Proof.
  intros Hne. unfold bankFee. destruct (negb _); [done |]. transitivity (treasuryAcct l); [| by apply keeps_upd; [apply tame_plus |]].
  unfold treasuryAcct. destruct (find_acct TREASURY_ID l); [done | by apply keeps_fresh].
Qed.

Lemma keeps_draw_from id ids f r l : id ∉ ids -> keeps id l (draw_from ids f r l).2.
Proof.
  revert r l. induction ids as [| i ids IH]; intros r l Hin; cbn [draw_from]; [done |]. apply not_elem_of_cons in Hin as [Hne Hin].
  destruct (find_acct i l); [| by apply IH]. destruct (leb r _); [done |]. destruct (leb _ _); [by apply IH |].
  etransitivity; [| by apply IH]. by apply keeps_upd; [apply tame_minus |].
Qed.

Lemma keeps_drawBank id ids f want spread l : id ∉ ids -> keeps id l (drawBank ids f want spread l).2.
Proof.
  intros Hin. unfold drawBank. destruct (negb _); [done |]. cbv zeta. destruct (negb _); [done |].
  pose proof (keeps_draw_from id ids f (min want (div (poolBalance ids f l) (max (of_Z 1) spread))) l Hin) as Hk. by destruct (draw_from _ _ _ _).
Qed.

Lemma pxForRound_ledger feed aid round f b : ledger (pxForRound feed aid round f b).2 = ledger b /\ runners (pxForRound feed aid round f b).2 = runners b.
Proof.
  unfold pxForRound, with_round, usdPerUnitSafe. cbv zeta. destruct (lookup_key _ (roundPx b)); destruct (negb _); try done; by destruct (ltb _ _).
Qed.

(** ** Laws: the house's answer *)

(** The fighters of one side among the entries of an arena. *)
Definition of_side (s : Side) (aid : units) (b : Book) : option (list Entry) :=
  (fun r => filter (fun e => en_side e = s) (rs_entries (state r))) <$> lookup_key aid (runners b).

Lemma top_up_other s id s' x es : s <> s' -> filter (fun e => en_side e = s) (top_up id s' x es) = filter (fun e => en_side e = s) es.
Proof.
  intros Hne. induction es as [| e es IH]; cbn [top_up]; [rewrite filter_cons_False by (cbn; congruence); done |].
  destruct (bool_decide (en_id e = id) && bool_decide (en_side e = s')) eqn:E; [| rewrite !filter_cons, IH; done].
  apply andb_true_iff in E as [_ E]. apply bool_decide_eq_true in E. rewrite !filter_cons_False by (cbn; congruence). done.
Qed.

Lemma run_enter_side aid id s' x b s : s <> s' -> of_side s aid (run_enter aid id s' x b) = of_side s aid b.
Proof.
  intros Hne. unfold run_enter, of_side. destruct (lookup_key aid (runners b)) as [r |] eqn:E; [| by rewrite E].
  cbn [with_runner runners]. rewrite lookup_key_set, decide_True by done. cbn [fmap option_fmap option_map]. f_equal.
  unfold EngineRound.enter. cbv zeta. destruct (rs_phase (state r)); [| done | done]. cbn [snd state rs_entries]. by apply top_up_other.
Qed.

Section Answers.
Context (poolIds : list units) (MATCH_RATIO : num) (SWARM_SIZE : Z).

(** What the house's answer leaves alone: an account that is not its own, and the
    other side of the arena. *)
Definition spares (id : units) (s : Side) (aid : units) (b b' : Book) : Prop :=
  keeps id (ledger b) (ledger b') /\ of_side s aid b' = of_side s aid b.

#[local] Instance spares_preorder id s aid : PreOrder (spares id s aid).
Proof. split; [by intros b | intros b1 b2 b3 [K1 E1] [K2 E2]; split; [by etransitivity | congruence]]. Qed.

Lemma spares_ledger id s aid g b : keeps id (ledger b) (g (ledger b)) -> spares id s aid b (on_ledger g b).
Proof. by split. Qed.

Lemma spares_run_enter id s aid eid s' x b : s <> s' -> spares id s aid b (run_enter aid eid s' x b).
Proof. intros Hne. split; [| by apply run_enter_side]. unfold run_enter. by destruct (lookup_key aid (runners b)). Qed.

Context (id : units) (Hpool : id ∉ poolIds) (Htreasury : id <> TREASURY_ID).

Lemma spares_answer aid mk foe f px spread idx random bot need b s : id <> bot -> s <> foe ->
  spares id s aid b (answer poolIds aid mk foe f px spread idx random bot need b).2.
Proof.
  intros Hbot Hfoe. unfold answer. cbv zeta. set (want := min need _). set (have := mul _ px).
  set (drawn := if ltb have want then _ else _).
  assert (Hd : spares id s aid b drawn.2).
  { unfold drawn. destruct (ltb have want); [| done].
    pose proof (keeps_drawBank id poolIds f (div (sub want have) px) (of_Z 1) (ledger b) Hpool) as Hk. destruct (drawBank _ _ _ _ _) as [x l]. cbn [snd] in Hk.
    destruct (ltb _ x); cbn [snd]; [| by split].
    transitivity (with_ledger l b); [by split |]. apply spares_ledger. by apply keeps_upd; [apply tame_plus |]. }
  destruct drawn as [have' b1]. cbn [snd] in Hd. destruct (ltb _ MIN_ENTRY); [done |]. cbn [snd].
  etransitivity; [exact Hd |].
  match goal with |- spares _ _ _ _ (with_matched _ ?x) => transitivity x; [| by split] end.
  etransitivity; [| by apply spares_run_enter].
  etransitivity; [apply spares_ledger; by apply (keeps_upd id bot (minus f (div (min (min want have') CAP) px))); [apply tame_minus |] |].
  etransitivity; [apply spares_ledger; by apply keeps_bankFee |].
  apply spares_ledger. by apply keeps_upd; [intros a |].
Qed.

Lemma spares_answers aid mk foe f px spread idx randoms roster need b s : id ∉ roster -> s <> foe ->
  spares id s aid b (answers poolIds aid mk foe f px spread idx randoms roster need b).
Proof.
  intros Hin Hfoe. revert idx need b. induction roster as [| bot roster IH]; intros idx need b; cbn [answers]; [done |].
  apply not_elem_of_cons in Hin as [Hne Hin]. destruct (leb need _); [done |].
  pose proof (spares_answer aid mk foe f px spread idx (randoms idx) bot need b s Hne Hfoe) as Ha.
  destruct (answer _ _ _ _ _ _ _ _ _ _ _ _) as [need' b']. cbn [snd] in Ha. etransitivity; [exact Ha | by apply IH].
Qed.

Lemma player_no_bot aid b : player id (ledger b) -> id ∉ (ac_id <$> (botsFor aid b).1).
Proof.
  intros Hp Hin. apply list_elem_of_fmap in Hin as (a & Ea & Hin).
  assert (Hb : a ∈ bots_of aid (ledger b)).
  { unfold botsFor in Hin. cbv zeta in Hin. destruct (_ <? _)%nat; [done |]. cbn [fst] in Hin.
    apply elem_of_app in Hin as [Hin | Hin]; rewrite <- (take_drop (Z.to_nat (botScanOffset b mod Z.of_nat (length (bots_of aid (ledger b))))) (bots_of aid (ledger b)));
      apply elem_of_app; [by right | by left]. }
  unfold bots_of in Hb. apply list_elem_of_filter in Hb as [(Hbot & _) Hl]. unfold player in Hp. rewrite Forall_forall in Hp. rewrite (Hp a Hl) in Hbot; done.
Qed.

Lemma spares_match feed randoms aid s usd b : player id (ledger b) ->
  spares id s aid b (matchPlayerStake poolIds MATCH_RATIO SWARM_SIZE feed randoms aid s usd b).
Proof.
  intros Hp. unfold matchPlayerStake. destruct (lookup_key aid (runners b)) as [rn |]; [| done]. destruct (arenaTokens aid) as [toks |]; [| done].
  destruct (rs_phase (state rn)); [| done | done]. cbv zeta.
  destruct (pxForRound_ledger feed aid (rs_round (state rn)) (FIELD (tok_of toks (other s))) b) as [El Er].
  destruct (pxForRound _ _ _ _ b) as [px b1]. cbn [snd] in El, Er.
  assert (H1 : spares id s aid b b1) by (split; [by rewrite El | unfold of_side; by rewrite Er]).
  destruct (negb _); [done |]. set (b2 := match lookup_key _ (matchedBook b1) with Some _ => b1 | None => _ end).
  assert (H2 : spares id s aid b b2 /\ ledger b2 = ledger b1) by (split; [etransitivity; [exact H1 |] |]; unfold b2; by destruct (lookup_key _ (matchedBook b1))).
  destruct H2 as [H2 E2]. clearbody b2. destruct (leb _ MIN_ENTRY); [done |].
  pose proof (player_no_bot aid b2) as Hno. assert (H3 : spares id s aid b2 (botsFor aid b2).2) by (unfold botsFor; cbv zeta; by destruct (_ <? _)%nat).
  destruct (botsFor aid b2) as [all b3]. cbn [fst snd] in *. etransitivity; [exact H2 |]. etransitivity; [exact H3 |].
  apply spares_answers; [| by destruct s]. rewrite E2, El in Hno. intros Hin.
  apply elem_of_app in Hin as [Hin | Hin]; apply list_elem_of_filter in Hin as [_ Hin]; by apply Hno.
Qed.
End Answers.

(** ** Laws: entries *)

Lemma sub_nonneg x s : is_finite x = true -> leb s x = true -> leb (of_Z 0) (sub x s) = true.
Proof.
  destruct x as [| | b]; try done. intros _. destruct s as [| [] | a]; try done. intros H. rewrite leb_fin in H. apply Z.leb_le in H.
  unfold sub. cbn [neg add]. unfold of_ratio, mk. pose proof (rnd_nonneg (b + - a) 1 ltac:(lia) ltac:(lia)) as Hr.
  change (of_Z 0) with (Fin 0). destruct (_ <=? _).
  - by rewrite (proj2 (Z.ltb_ge _ 0)) by lia.
  - rewrite leb_fin. by apply Z.leb_le.
Qed.

Section Entry.
Context (poolIds : list units) (MATCH_RATIO : num) (SWARM_SIZE : Z).

Abbreviation enter := (EngineStakes.enter poolIds MATCH_RATIO SWARM_SIZE).

(** Somebody who is not the house: no pool wallet, not the treasury, no bot. *)
Definition outsider (id : units) (l : Ledger) : Prop := (id ∉ poolIds) /\ id <> TREASURY_ID /\ player id l.

(** The referrer an entry pays. *)
Definition referrer (m : EnterMsg) (a : Account) : option units := ac_refBy (staked Bull (of_Z 0) (of_Z 0) m a).

Lemma referrer_staked f stake usd m a : ac_refBy (staked f stake usd m a) = referrer m a.
Proof. done. Qed.

Lemma referrer_not_self m a : (length (em_wallet m) < 64)%nat -> ac_refBy a <> Some (em_wallet m) -> referrer m a <> Some (em_wallet m).
Proof.
  intros Hl Ha. unfold referrer, staked. cbn [ac_refBy]. destruct (em_ref m) as [[| c ref] |]; [done | | done].
  destruct (_ && _) eqn:E; [| done]. apply andb_true_iff in E as [_ E]. apply negb_true_iff, bool_decide_eq_false in E.
  intros Et. apply (inj Some) in Et. apply E. rewrite <- Et in Hl |- *. rewrite length_take in Hl. rewrite take_ge; [done | lia].
Qed.

Lemma keeps_referrer id s fee refBy b : refBy <> Some id -> keeps id (ledger b) (ledger (pay_referrer s fee refBy b).2).
Proof.
  intros Hne. unfold pay_referrer. destruct refBy as [[| c r] |]; [done | | done]. cbv zeta.
  assert (Hr : id <> c :: r) by congruence. pose proof (keeps_acct id (c :: r) s (ledger b) Hr) as Hk. destruct (acct _ s (ledger b)) as [x l].
  cbn [snd with_ledger ledger] in *. etransitivity; [exact Hk |]. by apply keeps_upd; [apply tame_referred |].
Qed.

Lemma pay_referrer_runners s fee refBy b : runners (pay_referrer s fee refBy b).2 = runners b.
Proof. unfold pay_referrer. destruct refBy as [[| c r] |]; [done | | done]. cbv zeta. by destruct (acct _ _ _). Qed.

(** The books of an accepted entry, up to the house's answer. *)
Definition booked (aid : units) (f : Field) (stake usd : num) (m : EnterMsg) (a : Account) (b : Book) : Book :=
  let b := on_ledger (upd (em_wallet m) (staked f stake usd m)) b in
  let '(refCut, b) := pay_referrer (em_side m) (mul stake FEE) (referrer m a) b in
  let b := on_ledger (bankFee f (sub (mul stake FEE) refCut)) b in
  run_enter aid (entry_id (em_wallet m) (em_side m)) (em_side m) (mul usd (sub (of_Z 1) FEE)) b.

(** An entry is refused and nothing is booked, or it is this. *)
Lemma enter_cases feed randoms m b a : find_acct (em_wallet m) (ledger b) = Some a ->
  let '(ans, b') := enter feed randoms m b in
  match ans with
  | Entered stake => exists toks rn b1,
      let aid := arena_of m b in
      let f := FIELD (tok_of toks (em_side m)) in
      let usdP := (pxForRound feed aid (rs_round (state rn)) f b).1 in
      arenaTokens aid = Some toks /\ lookup_key aid (runners b) = Some rn /\ rs_phase (state rn) = lobby
      /\ ltb (of_Z 0) usdP = true /\ ltb (mul stake usdP) MIN_ENTRY = false
      /\ stake = min (min (money (em_stake m)) (field f a))
                   (div (max (of_Z 0) (sub CAP (already (entry_id (em_wallet m) (em_side m)) (rs_entries (state rn))))) usdP)
      /\ ledger b1 = ledger b /\ runners b1 = runners b
      /\ b' = matchPlayerStake poolIds MATCH_RATIO SWARM_SIZE feed randoms aid (em_side m) (mul stake usdP) (booked aid f stake (mul stake usdP) m a b1)
  | _ => ledger b' = ledger b /\ runners b' = runners b
  end.
Proof.
  intros Ha. unfold EngineStakes.enter. cbv zeta. destruct (lookup_key (arena_of m b) (runners b)) as [rn |] eqn:Er; [| done].
  destruct (arenaTokens (arena_of m b)) as [toks |] eqn:Et; [| done]. unfold acct. rewrite Ha.
  change (with_ledger (ledger b) b) with (with_ledger (ledger b) b). assert (Eb : with_ledger (ledger b) b = b) by (by destruct b). rewrite Eb.
  destruct (rs_phase (state rn)) eqn:Ep; [| done | done].
  destruct (pxForRound_ledger feed (arena_of m b) (rs_round (state rn)) (FIELD (tok_of toks (em_side m))) b) as [El Em].
  destruct (pxForRound feed (arena_of m b) _ _ b) as [usdP b1] eqn:Ex. cbn [snd] in El, Em.
  destruct (ltb (of_Z 0) usdP) eqn:Epx; cbn [negb]; [| done].
  destruct (ltb (max _ _) MIN_ENTRY); [done |]. destruct (ltb (mul _ usdP) MIN_ENTRY) eqn:Emin; [done |].
  rewrite referrer_staked. set (stake := min _ _) in *.
  destruct (pay_referrer _ _ _ _) as [refCut b2] eqn:Epay. exists toks, rn, b1. rewrite Ex. cbn [fst].
  split_and!; try done. unfold booked. by rewrite Epay.
Qed.

Lemma booked_player aid f stake usd m a b b1 : outsider (em_wallet m) (ledger b) -> find_acct (em_wallet m) (ledger b) = Some a ->
  referrer m a <> Some (em_wallet m) -> ledger b1 = ledger b ->
  find_acct (em_wallet m) (ledger (booked aid f stake usd m a b1)) = Some (staked f stake usd m a)
  /\ player (em_wallet m) (ledger (booked aid f stake usd m a b1)).
Proof.
  intros (_ & Htr & Hp) Ha Hr El. unfold booked. cbv zeta. set (b2 := on_ledger _ b1).
  assert (H2 : find_acct (em_wallet m) (ledger b2) = Some (staked f stake usd m a) /\ player (em_wallet m) (ledger b2)).
  { unfold b2. cbn [on_ledger with_ledger ledger]. rewrite El. split; [| by apply player_upd; [apply tame_staked |]].
    rewrite find_upd by apply tame_staked. by rewrite decide_True, Ha. }
  pose proof (keeps_referrer (em_wallet m) (em_side m) (mul stake FEE) (referrer m a) b2 Hr) as K.
  destruct (pay_referrer _ _ _ b2) as [cut b3]. cbn [snd] in K.
  assert (K' : keeps (em_wallet m) (ledger b2) (bankFee f (sub (mul stake FEE) cut) (ledger b3))) by (etransitivity; [exact K | by apply keeps_bankFee]).
  assert (Erun : forall x, ledger (run_enter aid (entry_id (em_wallet m) (em_side m)) (em_side m) (mul usd (sub (of_Z 1) FEE)) x) = ledger x)
    by (intros x; unfold run_enter; by destruct (lookup_key aid (runners x))).
  rewrite Erun. cbn [on_ledger with_ledger ledger]. destruct K' as [E P]. rewrite E. destruct H2. auto.
Qed.

(** C22. An entry is refused, and then no account and no arena changes, or it takes
    exactly its stake: from the player's balance in the arena's coin for that side
    and from nothing else of the account, a stake of at least a cent's worth that
    is neither more than was asked nor more than there was; and the player's
    fighter goes in with the stake's worth less the fee, whatever the house
    answers on the other side. *)
Theorem entry_takes_its_stake feed randoms m b a : outsider (em_wallet m) (ledger b) -> find_acct (em_wallet m) (ledger b) = Some a ->
  (length (em_wallet m) < 64)%nat -> ac_refBy a <> Some (em_wallet m) ->
  let '(ans, b') := enter feed randoms m b in
  match ans with
  | Entered stake => exists toks rn a',
      let aid := arena_of m b in
      let f := FIELD (tok_of toks (em_side m)) in
      let usdP := (pxForRound feed aid (rs_round (state rn)) f b).1 in
      arenaTokens aid = Some toks /\ lookup_key aid (runners b) = Some rn /\ rs_phase (state rn) = lobby
      /\ find_acct (em_wallet m) (ledger b') = Some a'
      /\ field f a' = sub (field f a) stake /\ (forall g, g <> f -> field g a' = field g a)
      /\ ltb (mul stake usdP) MIN_ENTRY = false
      /\ (is_nan stake = false -> leb stake (money (em_stake m)) = true /\ leb stake (field f a) = true
          /\ (is_finite (field f a) = true -> leb (of_Z 0) (sub (field f a) stake) = true))
      /\ of_side (em_side m) aid b' = Some (filter (fun e => en_side e = em_side m)
           (top_up (entry_id (em_wallet m) (em_side m)) (em_side m) (mul (mul stake usdP) (sub (of_Z 1) FEE)) (rs_entries (state rn))))
  | _ => ledger b' = ledger b /\ runners b' = runners b
  end.
Proof.
  intros Ho Ha Hl Hr. pose proof (enter_cases feed randoms m b a Ha) as Hc. destruct (enter feed randoms m b) as [ans b']. destruct ans; try done.
  destruct Hc as (toks & rn & b1 & Et & Er & Ep & Epx & Emin & Est & El & Em & ->). cbv zeta in *.
  set (f := FIELD _) in *. set (usdP := (pxForRound _ _ _ _ b).1) in *. exists toks, rn, (staked f stake (mul stake usdP) m a). fold f usdP.
  destruct (booked_player (arena_of m b) f stake (mul stake usdP) m a b b1 Ho Ha (referrer_not_self m a Hl Hr) El) as [Hf Hp].
  destruct Ho as (Hpool & Htr & _).
  destruct (spares_match poolIds MATCH_RATIO SWARM_SIZE (em_wallet m) Hpool Htr feed randoms (arena_of m b) (em_side m) (mul stake usdP) _ Hp) as [[Ek _] Es].
  split_and!; [done | done | done | by rewrite Ek | by destruct f | by intros []; destruct f | done | |].
  - intros Hn. rewrite Est in Hn. pose proof (min_l _ _ Hn) as H1.
    assert (Hn' : is_nan (min (money (em_stake m)) (field f a)) = false) by (rewrite min_nan in Hn; by apply orb_false_iff in Hn as [Hn _]).
    rewrite <- Est in H1. assert (H2 : leb stake (field f a) = true) by (eapply leb_trans; [exact H1 | by apply min_r]).
    split_and!; [eapply leb_trans; [exact H1 | by apply min_l] | done | intros Hfin; by apply sub_nonneg].
  - rewrite Es. unfold booked. cbv zeta.
    pose proof (pay_referrer_runners (em_side m) (mul stake FEE) (referrer m a) (on_ledger (upd (em_wallet m) (staked f stake (mul stake usdP) m)) b1)) as Hrun.
    destruct (pay_referrer _ _ _ _) as [cut b3]. cbn [snd on_ledger with_ledger runners] in Hrun.
    unfold run_enter, of_side. cbn [on_ledger with_ledger runners]. rewrite Hrun, Em, Er. cbn [with_runner runners].
    rewrite lookup_key_set, decide_True by done. cbn [fmap option_fmap option_map]. unfold EngineRound.enter. cbv zeta. by rewrite Ep.
Qed.

Definition name_field (s : Side) : Field := match s with bull => Bull | uwu => Uwu end.

(** C24. A referrer is paid a tenth of every fee in the coin named like the side,
    whatever coin the fee was paid in.  Where they differ, as for either side of an
    arena that plays SOL against UWU, the referrer's claim on a coin nobody staked
    goes up, and on the coin of the fee it does not move. *)
Theorem referral_is_paid_in_the_sides_name feed randoms m b a R r : outsider (em_wallet m) (ledger b) ->
  find_acct (em_wallet m) (ledger b) = Some a -> referrer m a = Some R -> R <> [] -> R <> em_wallet m -> outsider R (ledger b) ->
  find_acct R (ledger b) = Some r ->
  let '(ans, b') := enter feed randoms m b in
  match ans with
  | Entered stake => exists toks r', arenaTokens (arena_of m b) = Some toks /\ find_acct R (ledger b') = Some r'
      /\ field (name_field (em_side m)) r' = add (field (name_field (em_side m)) r) (mul (mul stake FEE) (dec 1 1))
      /\ forall f, f <> name_field (em_side m) -> field f r' = field f r
  | _ => find_acct R (ledger b') = Some r
  end.
Proof.
  intros Ho Ha Hr Hne HRm HR Hfind. pose proof (enter_cases feed randoms m b a Ha) as Hc. destruct (enter feed randoms m b) as [ans b'].
  destruct ans; [by destruct Hc as [-> _].. |].
  destruct Hc as (toks & rn & b1 & Et & Er & Ep & Epx & Emin & Est & El & Em & ->). cbv zeta in *. exists toks, (referred (em_side m) (mul (mul stake FEE) (dec 1 1)) r).
  set (f := FIELD _) in *. set (usdP := (pxForRound _ _ _ _ b).1) in *. destruct HR as (Hpool & Htr & Hp).
  assert (Hbk : find_acct R (ledger (booked (arena_of m b) f stake (mul stake usdP) m a b1)) = Some (referred (em_side m) (mul (mul stake FEE) (dec 1 1)) r)
    /\ player R (ledger (booked (arena_of m b) f stake (mul stake usdP) m a b1))).
  { unfold booked. cbv zeta. rewrite Hr. unfold pay_referrer. destruct R as [| c R]; [done |]. cbv zeta. cbn [on_ledger with_ledger ledger].
    unfold acct. rewrite find_upd, decide_False, El, Hfind by (done || apply tame_staked). cbn [on_ledger with_ledger ledger].
    assert (Erun : forall x, ledger (run_enter (arena_of m b) (entry_id (em_wallet m) (em_side m)) (em_side m) (mul (mul stake usdP) (sub (of_Z 1) FEE)) x) = ledger x)
      by (intros x; unfold run_enter; by destruct (lookup_key (arena_of m b) (runners x))).
    rewrite Erun. cbn [on_ledger with_ledger ledger]. set (l2 := upd (c :: R) _ _).
    assert (H2 : find_acct (c :: R) l2 = Some (referred (em_side m) (mul (mul stake FEE) (dec 1 1)) r) /\ player (c :: R) l2).
    { unfold l2. rewrite find_upd, decide_True, find_upd, decide_False, Hfind by (done || apply tame_staked || apply tame_referred).
      split; [done |]. apply player_upd; [apply tame_referred |]. by apply player_upd; [apply tame_staked |]. }
    destruct (keeps_bankFee (c :: R) f (sub (mul stake FEE) (mul (mul stake FEE) (dec 1 1))) l2 Htr) as [E P]. rewrite E. destruct H2. auto. }
  destruct Hbk as [Hf Hpl].
  destruct (spares_match poolIds MATCH_RATIO SWARM_SIZE R Hpool Htr feed randoms (arena_of m b) (em_side m) (mul stake usdP) _ Hpl) as [[Ek _] _].
  split_and!; [done | by rewrite Ek | by destruct (em_side m) |]. intros g Hg. by destruct (em_side m), g.
Qed.
End Entry.

(** ** Laws: what a restart gives back *)

Section Refund.
Context (feed : Feed).

(** A stake of this wallet is open in some arena. *)
Definition staking (id : units) (rs : list (units * RoundRunner)) : Prop :=
  exists ar e, ar ∈ rs /\ e ∈ rs_entries (state ar.2) /\ wallet_of (en_id e) = id.

Lemma unitsAtRound_ledger aid round f usd b :
  ledger (unitsAtRound feed aid round f usd b).2 = ledger b /\ runners (unitsAtRound feed aid round f usd b).2 = runners b.
Proof.
  unfold unitsAtRound. pose proof (pxForRound_ledger feed aid round f b) as H. by destruct (pxForRound feed aid round f b).
Qed.

Lemma give_back_keeps id aid toks round e b : wallet_of (en_id e) <> id -> keeps id (ledger b) (ledger (give_back feed aid toks round e b)).
Proof.
  intros Hne. unfold give_back. cbv zeta. destruct (find_acct _ (ledger b)); [| done].
  pose proof (unitsAtRound_ledger aid round (FIELD (tok_of toks (en_side e))) (div (en_stake e) (sub (of_Z 1) FEE)) b) as [El _].
  destruct (unitsAtRound _ _ _ _ _ b) as [x b1]. cbn [snd] in El. destruct (ltb _ x); [| by rewrite El].
  cbn [on_ledger with_ledger ledger]. rewrite El. by apply keeps_upd; [apply tame_plus |].
Qed.

Lemma refund_arena_keeps id ar b : (forall e, e ∈ rs_entries (state ar.2) -> wallet_of (en_id e) <> id) ->
  keeps id (ledger b) (ledger (refund_arena feed b ar)).
Proof.
  intros Hno. unfold refund_arena. destruct (arenaTokens ar.1) as [toks |]; [| done].
  generalize (rs_round (state ar.2)) as round. intros round. revert b Hno. generalize (rs_entries (state ar.2)) as es.
  induction es as [| e es IH]; intros b Hno; [done |]. cbn [foldl]. etransitivity; [| apply IH; intros e' He'; apply Hno; by right].
  apply give_back_keeps, Hno. by left.
Qed.

(** Who has nothing at stake is given nothing. *)
Lemma refund_keeps id b : ~ staking id (runners b) -> keeps id (ledger b) (ledger (refundOpenRounds feed b)).
Proof.
  unfold refundOpenRounds. generalize (runners b) as rs. intros rs. revert b. induction rs as [| ar rs IH]; intros b Hno; [done |].
  cbn [foldl]. etransitivity; [| apply IH; intros (ar' & e & Hin & He); apply Hno; exists ar', e; split; [by right | done]].
  apply refund_arena_keeps. intros e He Ew. apply Hno. exists ar, e. split_and!; [by left | done | done].
Qed.

(** The price a round is held to: its own where it has one, otherwise what the feed
    says or, without that, the last good price. *)
Definition held_price (k : units) (f : Field) (b : Book) : num :=
  let m := default (fun _ => of_Z 0) (lookup_key k (roundPx b)) in
  if ltb (of_Z 0) (m f) then m f else (usdPerUnitSafe feed f b).1.

Record same_prices (b b' : Book) : Prop := {
  sp_key k : is_Some (lookup_key k (roundPx b)) -> is_Some (lookup_key k (roundPx b'));
  sp_price k f : is_Some (lookup_key k (roundPx b)) -> held_price k f b' = held_price k f b;
}.

#[global] Instance same_prices_preorder : PreOrder same_prices.
Proof.
  split; [by split |]. intros b1 b2 b3 [K1 P1] [K2 P2]. split; [auto |]. intros k f Hk. by rewrite P2, P1 by auto.
Qed.

Lemma same_prices_ledger g b : same_prices b (on_ledger g b).
Proof. split; [done |]. intros k f _. unfold held_price, usdPerUnitSafe. cbn. by destruct (ltb (of_Z 0) (usdPerUnit feed f)). Qed.

(** Asking for one price does not change the answer to the next question. *)
Lemma safe_price_stable f g b b' : lastGoodPx b' = lastGoodPx (usdPerUnitSafe feed f b).2 ->
  (usdPerUnitSafe feed g b').1 = (usdPerUnitSafe feed g b).1.
Proof.
  unfold usdPerUnitSafe. destruct (ltb (of_Z 0) (usdPerUnit feed g)) eqn:Eg; [done |]. cbn [fst].
  destruct (ltb (of_Z 0) (usdPerUnit feed f)) eqn:Ef; cbn [snd lastGoodPx]; intros ->; [| done].
  unfold set_price. case_bool_decide; [congruence | done].
Qed.

Lemma pxForRound_held aid round f b : is_Some (lookup_key (round_key aid round) (roundPx b)) ->
  (pxForRound feed aid round f b).1 = held_price (round_key aid round) f b /\ same_prices b (pxForRound feed aid round f b).2.
Proof.
  intros [m Em]. unfold pxForRound, with_round. cbv zeta. set (k := round_key aid round) in *. rewrite Em, Em. unfold held_price at 1. rewrite Em.
  cbn [from_option]. unfold id. destruct (ltb (of_Z 0) (m f)) eqn:Emf; cbn [negb fst snd]; [done |].
  pose proof (usdPerUnitSafe_roundPx feed f b) as Er. pose proof (fun g b' => safe_price_stable f g b b') as Hst.
  destruct (usdPerUnitSafe feed f b) as [px b1] eqn:Eu. cbn [fst snd] in *. split; [done |].
  rewrite Er. split.
  - intros k' Hk'. cbn [with_roundPx roundPx]. rewrite lookup_key_set. destruct (decide (k' = k)); [by eexists | done].
  - intros k' g Hk'. unfold held_price. cbn [with_roundPx roundPx]. rewrite lookup_key_set.
    rewrite (Hst g (with_roundPx (set_key k (set_price f px m) (roundPx b)) b1) eq_refl).
    destruct (decide (k' = k)) as [-> |]; [| done]. rewrite Em. cbn [from_option]. unfold id, set_price.
    case_bool_decide as Eg; [| done]. subst g. rewrite Emf, Eu. cbn [fst]. by destruct (ltb (of_Z 0) px).
Qed.

(** What an open stake is given back, in the coin of its side and of its arena. *)
Definition due (b : Book) (aid : units) (toks : Tok * Tok) (round : Z) (e : Entry) : Field * num :=
  let f := FIELD (tok_of toks (en_side e)) in
  let px := held_price (round_key aid round) f b in
  (f, if ltb (of_Z 0) px then div (div (en_stake e) (sub (of_Z 1) FEE)) px else of_Z 0).

Definition arena_dues (b : Book) (id : units) (ar : units * RoundRunner) : list (Field * num) :=
  match arenaTokens ar.1 with
  | Some toks => due b ar.1 toks (rs_round (state ar.2)) <$> filter (fun e => wallet_of (en_id e) = id) (rs_entries (state ar.2))
  | None => []
  end.

(** All that a wallet is given back: every stake of it, in every arena, in order. *)
Definition dues (b : Book) (id : units) : list (Field * num) := mjoin (arena_dues b id <$> runners b).

Definition paid (a : Account) (d : Field * num) : Account := if ltb (of_Z 0) d.2 then plus d.1 d.2 a else a.

(** The rounds with open stakes have had a price asked. *)
Definition priced_rounds (b : Book) (rs : list (units * RoundRunner)) : Prop :=
  forall ar, ar ∈ rs -> rs_entries (state ar.2) <> [] -> is_Some (lookup_key (round_key ar.1 (rs_round (state ar.2))) (roundPx b)).

Lemma due_same b b' aid toks round e : same_prices b b' -> is_Some (lookup_key (round_key aid round) (roundPx b)) ->
  due b' aid toks round e = due b aid toks round e.
Proof. intros Hs Hk. unfold due. cbv zeta. by rewrite (sp_price _ _ Hs) by done. Qed.

Lemma give_back_pays aid toks round e b id : is_Some (lookup_key (round_key aid round) (roundPx b)) ->
  same_prices b (give_back feed aid toks round e b)
  /\ find_acct id (ledger (give_back feed aid toks round e b))
     = (fun a => if bool_decide (wallet_of (en_id e) = id) then paid a (due b aid toks round e) else a) <$> find_acct id (ledger b).
Proof.
  intros Hk. unfold give_back, due. cbv zeta. set (f := FIELD _). set (gross := div _ _).
  assert (Hnone : find_acct (wallet_of (en_id e)) (ledger b) = None -> same_prices b b /\ find_acct id (ledger b)
     = (fun a => if bool_decide (wallet_of (en_id e) = id) then paid a (f, if ltb (of_Z 0) (held_price (round_key aid round) f b) then div gross (held_price (round_key aid round) f b) else of_Z 0) else a) <$> find_acct id (ledger b)).
  { intros Hn. split; [done |]. case_bool_decide as E; [subst id; by rewrite Hn |]. symmetry. apply option_fmap_id. }
  destruct (find_acct _ (ledger b)) as [a0 |] eqn:Ea; [| by apply Hnone]. clear Hnone. unfold unitsAtRound.
  destruct (pxForRound_held aid round f b Hk) as [Ep Hs]. destruct (pxForRound_ledger feed aid round f b) as [El _].
  destruct (pxForRound feed aid round f b) as [px b1]. cbn [fst snd] in *. subst px. set (px := held_price _ _ _) in *.
  set (x := if ltb (of_Z 0) px then div gross px else of_Z 0).
  assert (Hx : paid = (fun a d => if ltb (of_Z 0) d.2 then plus d.1 d.2 a else a)) by done. destruct (ltb (of_Z 0) x) eqn:Ex.
  - split; [etransitivity; [exact Hs | apply same_prices_ledger] |]. cbn [on_ledger with_ledger ledger]. rewrite find_upd by apply tame_plus. rewrite El.
    destruct (decide (id = wallet_of (en_id e))) as [-> | Hne].
    + rewrite bool_decide_eq_true_2 by done. rewrite Hx. cbn [fst snd]. by rewrite Ex.
    + rewrite bool_decide_eq_false_2 by congruence. symmetry. apply option_fmap_id.
  - split; [exact Hs |]. rewrite El, Hx. cbn [fst snd]. rewrite Ex. case_bool_decide; symmetry; apply option_fmap_id.
Qed.

Lemma refund_arena_pays ar b id : (rs_entries (state ar.2) <> [] -> is_Some (lookup_key (round_key ar.1 (rs_round (state ar.2))) (roundPx b))) ->
  same_prices b (refund_arena feed b ar)
  /\ find_acct id (ledger (refund_arena feed b ar)) = (fun a => foldl paid a (arena_dues b id ar)) <$> find_acct id (ledger b).
Proof.
  unfold refund_arena, arena_dues. destruct (arenaTokens ar.1) as [toks |]; [| intros _; split; [done | symmetry; apply option_fmap_id]].
  generalize (rs_round (state ar.2)) as round. intros round. generalize (rs_entries (state ar.2)) as es. intros es. revert b.
  induction es as [| e es IH]; intros b Hk; [split; [done | symmetry; apply option_fmap_id] |]. cbn [foldl].
  specialize (Hk ltac:(discriminate)). destruct (give_back_pays ar.1 toks round e b id Hk) as [Hs He].
  destruct (IH (give_back feed ar.1 toks round e b) (fun _ => sp_key _ _ Hs _ Hk)) as [Hs' He'].
  split; [by etransitivity |]. rewrite He', He, <- option_fmap_compose. apply option_fmap_ext. intros a. cbn [compose].
  rewrite (list_fmap_ext (due (give_back feed ar.1 toks round e b) ar.1 toks round) (due b ar.1 toks round)) by (intros; by apply due_same).
  rewrite filter_cons. unfold compose. case_bool_decide as Ew; [by rewrite decide_True | by rewrite decide_False].
Qed.

Lemma refund_pays b id : priced_rounds b (runners b) ->
  find_acct id (ledger (refundOpenRounds feed b)) = (fun a => foldl paid a (dues b id)) <$> find_acct id (ledger b).
Proof.
  unfold refundOpenRounds, dues. generalize (runners b) as rs. intros rs.
  assert (H : forall b0, priced_rounds b0 rs -> find_acct id (ledger (foldl (refund_arena feed) b0 rs))
    = (fun a => foldl paid a (mjoin (arena_dues b0 id <$> rs))) <$> find_acct id (ledger b0)); [| exact (H b)].
  induction rs as [| ar rs IH]; intros b0 Hp; [symmetry; apply option_fmap_id |]. cbn [foldl].
  destruct (refund_arena_pays ar b0 id (Hp ar ltac:(by left))) as [Hs He].
  rewrite IH by (intros ar' Hin Hne; apply (sp_key _ _ Hs), Hp; [by right | done]). rewrite He, <- option_fmap_compose.
  apply option_fmap_ext. intros a. unfold compose. cbn [fmap list_fmap mjoin list_join]. rewrite foldl_app. f_equal. f_equal.
  apply map_ext_in. intros ar' Hin%list_elem_of_In. unfold arena_dues. destruct (arenaTokens ar'.1) as [toks |]; [| done].
  destruct (rs_entries (state ar'.2)) as [| e es] eqn:Ees; [done |].
  apply list_fmap_ext. intros i x _. apply due_same; [done |]. apply Hp; [by right | by rewrite Ees].
Qed.
End Refund.

(** What the ledger claims of a coin. *)
Definition claims (f : Field) (l : Ledger) : num := foldl (fun n a => add n (field f a)) (of_Z 0) l.

(** A player with ten coins and a referrer, in front of an open lobby; half a
    dollar a coin. *)
Definition ada0 : Account := with_field Uwu (of_Z 10) (fresh (lit "ada") uwu false).
Definition eve0 : Account := fresh (lit "eve") uwu false.
Definition lobby0 : RoundRunner := mkRunner (mkState 7 normal lobby [] None None [] None (of_Z 1) (of_Z 0) (of_Z 9000) None) [] [].
Definition book0 (aid : string) : Book := mkBook [ada0; eve0] [(lit aid, lobby0)] (fun _ => of_Z 0) [] [] 0.
Definition half0 : Feed := fun _ => Some (div (of_Z 1) (of_Z 2)).
Definition msg0 (aid : string) (s : Side) : EnterMsg := mkEnter (lit "ada") (Some (lit aid)) (lit "normal") s (of_Z 4) (Some (lit "eve")).
Definition entered0 (aid : string) (s : Side) : Answer * Book :=
  enter [] (of_Z 1) 8 half0 (fun _ => div (of_Z 1) (of_Z 2)) (msg0 aid s) (book0 aid).

(** C23. When the process ends, every wallet with an account is given back every
    stake it has open, in every two-sided arena and in their order, gross and at the
    price its round is held to, and nothing else happens to its account; nothing is
    taken from anybody.  So the treasury and the referrer, who have no stake of their
    own, keep the fee the entry paid them; and in a plain case, computed, an entry
    and a restart leave the ledger claiming more of the coin than it did. *)
Theorem restart_leaves_the_fee :
  (forall feed b id, priced_rounds b (runners b) ->
     find_acct id (ledger (refundOpenRounds feed b)) = (fun a => foldl paid a (dues feed b id)) <$> find_acct id (ledger b))
  /\ (forall feed b id, ~ staking id (runners b) -> find_acct id (ledger (refundOpenRounds feed b)) = find_acct id (ledger b))
  /\ exists stake, (entered0 "au-normal" uwu).1 = Entered stake
      /\ ltb (claims Uwu (ledger (book0 "au-normal"))) (claims Uwu (ledger (refundOpenRounds half0 (entered0 "au-normal" uwu).2))) = true.
Proof.
  split_and!.
  - intros feed b id Hp. by apply refund_pays.
  - intros feed b id Hno. apply (refund_keeps feed id b Hno).
  - exists (of_Z 4). split; vm_compute; reflexivity.
Qed.

(** ** Witnesses *)

Lemma ada_outsider aid : outsider [] (lit "ada") (ledger (book0 aid)).
Proof. split_and!; [by apply not_elem_of_nil | discriminate | by repeat constructor]. Qed.

Lemma eve_outsider aid : outsider [] (lit "eve") (ledger (book0 aid)).
Proof. split_and!; [by apply not_elem_of_nil | discriminate | by repeat constructor]. Qed.

Lemma round_priced_once_witness :
  let b1 := (pxForRound half0 (lit "au-normal") 7 Uwu (book0 "au-normal")).2 in
  (pxForRound (fun _ => Some (of_Z 9)) (lit "au-normal") 7 Uwu (foldl price b1 [(half0, lit "au-normal", 8, Uwu)])).1
  = (pxForRound half0 (lit "au-normal") 7 Uwu (book0 "au-normal")).1.
Proof.
  pose proof (round_priced_once half0 (lit "au-normal") 7 Uwu (book0 "au-normal") [(half0, lit "au-normal", 8, Uwu)] (fun _ => Some (of_Z 9)) eq_refl) as Hp.
  assert (H1 : ltb (of_Z 0) (pxForRound half0 (lit "au-normal") 7 Uwu (book0 "au-normal")).1 = true) by (vm_compute; reflexivity).
  assert (H2 : (opened (pxForRound half0 (lit "au-normal") 7 Uwu (book0 "au-normal")).2 [(half0, lit "au-normal", 8%Z, Uwu)] <= 32)%nat)
    by (apply Nat.leb_le; vm_compute; reflexivity).
  destruct (pxForRound half0 (lit "au-normal") 7 Uwu (book0 "au-normal")) as [px b1]. exact (Hp H1 H2).
Defined.

Lemma entry_takes_its_stake_witness : exists stake a',
  (entered0 "au-normal" uwu).1 = Entered stake /\ find_acct (lit "ada") (ledger (entered0 "au-normal" uwu).2) = Some a' /\ field Uwu a' = sub (of_Z 10) stake.
Proof.
  assert (E : (entered0 "au-normal" uwu).1 = Entered (of_Z 4)) by (vm_compute; reflexivity).
  pose proof (entry_takes_its_stake [] (of_Z 1) 8 half0 (fun _ => div (of_Z 1) (of_Z 2)) (msg0 "au-normal" uwu) (book0 "au-normal") ada0
    (ada_outsider "au-normal") eq_refl ltac:(cbn; lia) ltac:(discriminate)) as Ht.
  fold (entered0 "au-normal" uwu) in Ht. destruct (entered0 "au-normal" uwu) as [ans b']. cbn [fst snd] in *. subst ans.
  destruct Ht as (toks & rn & a' & Et & _ & _ & Hf & Hs & _). exists (of_Z 4), a'. split_and!; [reflexivity | exact Hf |].
  change (arenaTokens (arena_of (msg0 "au-normal" uwu) (book0 "au-normal"))) with (Some (tok_ansem, tok_uwu)) in Et. apply (inj Some) in Et as <-. exact Hs.
Defined.

Lemma referral_is_paid_in_the_sides_name_witness : exists r',
  find_acct (lit "eve") (ledger (entered0 "us-normal" bull).2) = Some r'
  /\ field Bull r' = add (of_Z 0) (mul (mul (of_Z 4) FEE) (dec 1 1)) /\ field Uwu r' = of_Z 0.
Proof.
  assert (E : (entered0 "us-normal" bull).1 = Entered (of_Z 4)) by (vm_compute; reflexivity).
  pose proof (referral_is_paid_in_the_sides_name [] (of_Z 1) 8 half0 (fun _ => div (of_Z 1) (of_Z 2)) (msg0 "us-normal" bull) (book0 "us-normal") ada0
    (lit "eve") eve0 (ada_outsider "us-normal") eq_refl eq_refl ltac:(discriminate) ltac:(discriminate) (eve_outsider "us-normal") eq_refl) as Ht.
  fold (entered0 "us-normal" bull) in Ht. destruct (entered0 "us-normal" bull) as [ans b']. cbn [fst snd] in *. subst ans.
  destruct Ht as (toks & r' & _ & Hf & Hb & Hu). exists r'. split_and!; [exact Hf | exact Hb | exact (Hu Uwu ltac:(discriminate))].
Defined.

(** Two stakes of ada's in one arena and one in another, at half a dollar and at
    two dollars a coin. *)
Definition open_runner (es : list Entry) : RoundRunner := mkRunner (mkState 7 normal lobby [] None None es None (of_Z 1) (of_Z 0) (of_Z 9000) None) [] [].
Definition at_price (px : num) : Prices := fun _ => px.
Definition open0 : Book :=
  mkBook [ada0; eve0]
    [(lit "au-normal", open_runner [mkEntry (lit "ada|bull") bull (of_Z 3); mkEntry (lit "ada|uwu") uwu (of_Z 5)]);
     (lit "us-normal", open_runner [mkEntry (lit "ada|bull") bull (of_Z 4)])]
    (at_price (of_Z 0)) [(lit "au-normal:7", at_price (div (of_Z 1) (of_Z 2))); (lit "us-normal:7", at_price (of_Z 2))] [] 0.

Lemma open_priced : priced_rounds open0 (runners open0).
Proof.
  intros ar Hin _. apply elem_of_cons in Hin as [-> | Hin]; [| apply elem_of_cons in Hin as [-> | Hin]; [| by apply not_elem_of_nil in Hin]];
    [exists (at_price (div (of_Z 1) (of_Z 2))) | exists (at_price (of_Z 2))]; vm_compute; reflexivity.
Qed.

Definition net_part : num := sub (of_Z 1) FEE.

Lemma restart_leaves_the_fee_witness :
  find_acct (lit "ada") (ledger (refundOpenRounds half0 open0))
  = Some (plus Uwu (div (div (of_Z 4) net_part) (of_Z 2)) (plus Uwu (div (div (of_Z 5) net_part) (div (of_Z 1) (of_Z 2)))
      (plus Bull (div (div (of_Z 3) net_part) (div (of_Z 1) (of_Z 2))) ada0)))
  /\ find_acct (lit "eve") (ledger (refundOpenRounds half0 open0)) = Some eve0.
Proof.
  split; rewrite (proj1 restart_leaves_the_fee half0 open0 _ open_priced); vm_compute; reflexivity.
Defined.
